(* ===== verification/_CoqProject ===== *)
-Q . S2P
Prelude.v
Threads.v
JsLib.v
JsDate.v
JsNumber.v
Platform.v
Identity.v
PermissionsManifest.v
ConnectionStore.v
MessageStore.v
Args.v
ArgsSpec.v
ActivityFeed.v
AuditVerify.v
Schema.v
World.v
CircuitBreaker.v
InboundRouter.v
PermissionsEnforcer.v
EnforcementPipeline.v
Interleaving.v
Text.v
JsonPrint.v
AuditExport.v
Envelope.v
StoreText.v
Saving.v
ConnectionManager.v
PermissionsTool.v
Delivery.v
RelayClient.v
Heartbeat.v
Reconnect.v
Closing.v
KeyFile.v
Crypto.v
MessageManager.v
Flush.v
Tools.v
Steps.v
Handlers.v
Alone.v
Concurrent.v
Rows.v
Log.v
Skill.v
Schedules.v
Trips.v
ToolsSpec.v
Network.v
Authenticity.v
EndToEnd.v
Confirmed.v
Consent.v
CrossLanguage.v
RelayStore.v
RelayAuth.v
RelayRegistry.v
RelayHub.v
RelayServer.v
RelaySafety.v
RelayRaces.v
