(* ===== verification/Prelude.v ===== *)
(** * Verification of the Pinch skill and its relay

    Pinch is a messenger between AI agents under human control.  The skill
    (src/skill/src, TypeScript) is the program on an agent's machine: it keeps
    the peers it is connected to, decides what becomes of each inbound message,
    keeps a tamper-evident log for the human and talks to a relay over a
    WebSocket.  The relay (src/relay, Go) authenticates the agents, carries their
    envelopes, queues them for who is not there and keeps the list of blocks.
    This library models both programs and proves what makes them
    safe: no relationship without both humans, the agent reads a message only
    with the human's consent, no step but an explicit confirmation gives an
    agent full autonomy, what was received is what was sent, what stands as
    delivered was stored by its receiver, and a log that verifies has not been
    changed.  It models the handlers as asynchronous functions too, whose turns the event
    loop interleaves as it likes: what holds whatever the order, and what an unlucky
    order costs.  The tools are modelled as the programs they
    are, from the command line to what they print and leave on disk.  Of the relay,
    whose goroutines interleave at every access to what they share, it proves that
    it delivers to an address only what was sent to it, holds blocks, stays within
    its bounds, queues in order, and admits who proves a key, and in locked mode
    only whom a human let in; and it shows what its goroutines can do to each other.

    ** How the program is modelled

    A method over mutable state [S] is a function [M S A] from the state to a
    result ([Ok] or [Throw] with the error's message) and the state left behind;
    mutations made before a throw stay, and [try_catch] is the [try] block.  A
    component's state is a Record; a larger state reaches it through a [lens]
    ([zoom]).  What comes from outside is a parameter, with what the skill
    relies on as the laws of a class: SHA-256, base58, base64, the locale's
    string comparison, the SQL engine's sort, Ed25519 and NaCl boxes (Platform,
    Delivery, Crypto), text decoding (Text), the clock, the identifiers and the policy evaluator (the class [Env] of
    World, whose answers depend on how many calls were made before), protobuf's
    byte format (RelayClient, MessageManager).  Timestamps are integers of milliseconds; 64-bit
    integers wrap where the code makes them ([setBigInt64]).  Strings are
    sequences of code units below 256, ordered as JavaScript orders them.

    ** The files

    - Prelude: results, the monad, lenses, and [moves], the frame reasoning
      that the larger components share (hint database [moves]).
    - Threads: asynchronous functions: a [thread] is what is left of a call that has
      returned its promise, [await] suspends it, [alone] runs it with nobody in
      between, and [turns_keep] says that every turn keeps a relation.
    - JsLib, JsDate: the parts of the language the skill uses: objects as
      ordered maps, stable sort, truthiness, byte arrays, JSON text;
      [toISOString] and the fact that ISO timestamps sort as instants in the
      years 0 to 9999.
    - JsNumber: IEEE doubles where the code computes with them (comparisons with
      integers, truncation), [Number], [parseInt], [trim], [split] and the
      replacements of a prefix or suffix.
    - Platform: the interfaces to the libraries, with concrete instances for
      the witnesses.
    - Identity (identity.ts): addresses [pinch:<base58(key, checksum)>@<host>];
      what is generated validates to its key, and what validates was derived
      from the key it yields.
    - PermissionsManifest (autonomy/permissions-manifest.ts): the manifest, its
      deny-all default and its validation.
    - ConnectionStore (connection-store.ts, openStore from tools/cli.ts): every
      operation of the store; the consent gate of [setAutonomy], expiry,
      listing order, key lookup, opening the file.
    - StoreText (the same file): the text of connections.json, and that it loads back.
      Saving: [save] as an asynchronous function: the text is made in one turn, the
      file is cut off in another and written in a third.
    - MessageStore (message-store.ts): the SQLite tables as lists of rows;
      saving, history pages, gapless sequence numbers.
    - Args (the [parseArgs] of tools/pinch-*.ts, parseConnectionArg of tools/cli.ts):
      the loops over the arguments as one [scan] over the [case]s of a tool.
      ArgsSpec: the loop is a fold over options with their values, so the last
      occurrence wins, no value is taken for a flag, and the options of
      pinch-permissions read back what was written.
    - ActivityFeed (autonomy/activity-feed.ts) and AuditVerify
      (tools/pinch-audit-verify.ts): the hash-chained log and its verification:
      an honest log verifies, a changed one with the same head does not unless
      a hash collision is found, and the report names the first broken entry;
      also what the chain does not cover.
    - Schema (the initSchema of both stores): tables with their columns and the
      upgrade of a database an older version wrote; nothing is lost, opening
      again changes nothing, and the log goes on and verifies.
    - World: the environment and the state of all components together.
    - CircuitBreaker (autonomy/circuit-breaker.ts): the sliding windows refine
      counting over the whole history; a flood trips exactly at its threshold.
    - InboundRouter (inbound-router.ts): routing by autonomy level, the review
      queue and approval.
    - PermissionsEnforcer (autonomy/permissions-enforcer.ts): the gate as a list
      of questions that must all be answered [allow].
    - EnforcementPipeline (autonomy/enforcement-pipeline.ts): [process] refines
      the specification [pipeline_verdict]; consent, mute, tripping and the
      behaviour without an evaluator follow.
    - Interleaving (the same file and the enforcer's): the pipeline with an arbitrary
      change of the world at each await of the evaluator.  Without changes it is
      [process]; with them consent is still needed, but the policy's verdict is
      carried out as of the time of routing.
    - Text: UTF-8, and JSON.parse as an automaton over code units, with the fact that
      it reads back what JSON.stringify prints of an object of strings.
    - JsonPrint: JSON.stringify with an indentation, of any value; JSON.parse inverts it.
    - AuditExport (tools/pinch-audit-export.ts): the text of the exported file, from
      which the log is read back entry by entry.
    - Envelope (gen/ts/pinch/v1/envelope_pb.ts): the wire messages.
    - ConnectionManager (connection.ts): the connection lifecycle as a
      transition table that every operation and every incoming envelope obeys.
    - PermissionsTool (tools/pinch-permissions.ts): the edit of a manifest, in place when
      the connection has one, and what every option changes and leaves.
    - Delivery (delivery.ts): the signed bytes of a confirmation.
    - RelayClient (relay-client.ts): one [connect()] as a sequence of socket and
      timer events; the handshake comes before everything else; the URLs of
      the relay (also tools/relay-url.ts) and the signing of auth.ts.
    - Heartbeat (relay-client.ts: the options, isConnected, startHeartbeat): between
      which bounds a dead link is noticed.
    - Reconnect (relay-client.ts: attemptReconnect, disconnect): the loop between
      connections; it settles in at most twenty rounds, its delays are bounded,
      and a disconnect does not reach it.
    - Closing (relay-client.ts: disconnectAsync, waitForConnection; shutdown of
      tools/cli.ts): the promises a socket settles: a close is over within three
      seconds, but a wait on a closed socket never is.
    - KeyFile (identity.ts, tools/cli.ts, tools/pinch-whoami.ts): the bytes of the key
      file, saved and loaded; the identity survives restarts, and what a file
      that does not load costs.
    - Crypto (crypto.ts): sealed messages, the nonce before the box.
    - MessageManager (message-manager.ts): sending, receiving and confirming.  What
      one party sends the other stores with the same content, a received message
      is read by the agent only with consent, a handled message is confirmed and
      the confirmation marks exactly that message; and what is not checked: the
      sender's key, and the state a confirmation carries.  A body that is a JSON
      number is judged as the number and stored as its text ([BodyValue]).
    - Flush (message-manager.ts): the counting of queued envelopes and waitForFlush
      as callbacks in any order: a wait ends with the last envelope and never
      hangs, but the timer of an earlier flush can lose a later one.
    - Tools (tools/cli.ts and tools/pinch-*.ts): every tool as parse, bootstrap, body
      and shutdown ([tool_run]), with its output as a value of [Output].
    - Steps: the whole skill as a transition system over operations, envelopes, sent
      and received messages, the tools with their command lines, and restarts.
      Whatever relation between agents is to be kept by every step, the classes
      [Calls] and [ManagerCalls] say which calls have to keep it, and a
      [Permits] with which arguments; every step is verified against them once
      ([moves_step]).  The first instance is for relations between store states
      ([SettingsFrame], [StoreFrame]); [everywhere] is a property of every
      stored connection, in memory and in the file.
    - Handlers: the asynchronous functions of every file as they are written, each
      [await] a point where it is suspended; [launch] calls one.
      Alone: a call that is not interrupted is the step of Steps it stands for, so
      the theorems about steps are about these definitions run alone.
    - Concurrent: the process as a pool of suspended handlers and of saves nobody
      awaits; a [Turn] starts a call, resumes a handler or a save, or ends the
      process, and between two processes a tool runs.  [turns_moved]: what every
      call keeps, and a late write of an earlier text ([Overlaps]), every schedule
      keeps.
      Schedules: its instances.  In any order Full Auto was confirmed, messages are
      kept and the log is one chain when its times and ids grow; but anyone can end
      the process with one envelope, an end in the middle of a save forgets every
      connection, and an older save can undo a block.
    - Rows: the instance for the message table ([DbFrame]): a stored message is never
      lost and only its state changes, ids are unique, an envelope is handled at
      most once; and what its id does not guarantee: a replay under another id
      is a new message, and who is refused is told that he was delivered.
    - Log: the instances for the activity log ([FeedFrame]): ids stay fresh; whatever the
      clock does a log extends the earlier one, and is one chain if its entries are in
      the order of their times and ids; and they are when the clock never steps back.
    - Skill: instances of the classes give the system theorems: Full Auto was
      confirmed, the store stays well-formed, every level is one of the four.
    - Trips: no connection is found tripped without the entry of the trip in the log.
    - ToolsSpec: tools end to end: pinch-autonomy, a boundary added and the next
      message, what pinch-activity hides, the two URLs of one relay.
    - Network: several agents, each a whole skill in its own environment and with its
      own keys, and the relay as an adversary that delivers what was sent to
      whom it is addressed, in any order, any number of times or never.  A
      connection is active only with the consent of both humans, stored keys are
      the peers' own, the handshake completes, and a message sent arrives; with
      a relay that makes envelopes up, an acceptance from anyone takes over a
      connection.
    - Authenticity: in the network, what an agent has stored as received is in the
      named peer's store as sent to it, with the same content.
    - EndToEnd: the life of one agent inside the network, and what stood between a
      message and the agent when it came in, from the theorems of both.
    - Confirmed: a confirmation on the wire names a message its sender has; what
      stands as sent is in no third state, and what stands as delivered is in
      the store of its receiver.
    - Consent: every message that counts as read by an agent was sent by the peer it
      names, and came in over a connection both humans wanted, past the
      boundaries and the level the receiver's human set, or that human handed
      it over.
    - CrossLanguage (tests/cross-language): the two programs that seal and open for
      the Go tests, with their hexadecimal text.
    - RelayStore (relay/internal/store/blockstore.go, messagequeue.go): the block list and
      the queue; over any sequence of operations the queue, with its keys of time
      and sequence number and bbolt's cursor, is a list per recipient, first in
      first out, with a cap and an age.
    - RelayAuth (relay/internal/auth, relay/internal/identity): addresses and the
      challenge and response on the relay's side.  The two programs accept the same
      addresses; the relay admits the client of
      RelayClient, under the address the skill reads back as its key, and whoever
      it admits holds the key.
    - RelayRegistry (relay/internal/store/keyregistry.go, registerHandler, claimHandler and
      wsHandler of relay/cmd/pinchd/main.go): in locked mode nobody gets in whose key was not
      registered and redeemed by somebody verified; a code redeemed in time lets
      its key in; but a key sent with a line break is shut out.
    - RelayHub (relay/internal/hub): clients, rate limits, routing, the flush, and the cases of
      the hub's loop, as threads over the [Hub].
      RelayServer: the running relay as a pool of goroutines ([Server]) that connections,
      envelopes, failures and the scheduler move ([Move]).  What every single
      access keeps ([HubFrame]), every run keeps.
      RelaySafety: its instances: what is written to a client is the relay's own or
      was sent to its address, bounds of buffers and queues, and that a block holds
      until it is lifted by who made it.
      RelayRaces: a flush loses what does not fit a slow client's buffer, a client that
      leaves during its flush ends the relay, and a message can be left behind.

    ** How state and operations correspond

    A definition has the name of the method it models, and a Record the fields
    of the interface (prefixed where two interfaces share a name).  [None] is
    [undefined] or [null].  In the sequential files a step runs to its end before
    the next: [await] on the skill's own code is sequencing, [await] on the
    evaluator asks the environment, and a rejected promise is the [Throw] of the
    step, the state it leaves kept.  Interleaving lets the others change the world
    as they like at each await of the evaluator.  Handlers has the same methods
    (the suffix [_a]) with every [await] a suspension, and Concurrent every order
    of their turns, more than an event loop takes; there a rejection that nobody
    handles ends the process, as it does from Node 15 on.  There is no fuel: every
    loop of the modelled code is over a list or a string, except the
    reconnection loop, which is a state machine over its timers and sockets.
    In the relay's files a goroutine is a thread whose turns are single accesses to
    shared state ([atomic]: a lock section, a transaction, an operation on a channel
    or a flag), a channel is the list of what is in it, a panic ends the process,
    and a read or a write that a timeout or a cancellation can end may end at any
    time, which is more than happens.  A rate limiter is an object of its own, which a
    goroutine may still ask when the table has let go of it.
    When the skill's process ends, what was suspended is gone; a file operation that
    the thread pool still finishes is one whose turn came just before the end.
    What a tool opens it opens anew: [restart] keeps the files and the
    database and loses the rest.

    ** Hypotheses the theorems use

    [fresh_ids]: identifiers still to be drawn are new, as uuid v7 documents (it
    holds in every state if no identifier is drawn twice);
    [clock_monotone]: the clock does not step back, where windows are counted;
    [iso_range]: years 0 to 9999, where ISO strings are compared;
    [orderly] (in Log only): both of a log's keys grow, the timestamps and the ids,
    across processes too;
    [clock_in_range]: timestamps fit 64 bits, where they are sent; [writable]:
    arguments that have a text, where they are written and read back; in the
    network, that keys are key pairs ([keys_ok]), that an address with a key in
    it carries its owner's ([names_key]), and that sequence numbers stay below
    2^53 ([exact_sequences]), and for Confirmed and Consent that messages are
    processed by the handler only ([piped]); in RelayStore, that the clock does not
    step back and 64-bit keys do not overflow ([timely]); the laws of the library
    classes, in RelayAuth that the two sides' libraries agree and that their
    encoders take the messages of the handshake ([Interop]), and that the encoder takes a confirmation
    ([ConfirmEncodes]).  Each theorem with hypotheses has a witness, a lemma
    named after it, that applies it to a concrete input.

    ** What is not modelled

    Of the relay, its HTTP router, environment variables, check of origins, pages,
    health report and heartbeats, the request to Turnstile, the decoding of request
    bodies, and errors of its disk; Network does not run the relay's model but
    assumes of a relay what [allowed] says (an envelope reaches only the address it
    was sent to), and RelaySafety proves that of this one for its own clients.  The
    theorems on the running relay start from an empty queue.  Of the skill, the text of the lines the
    tools print (their output is a value), and the order of the keys in
    connections.json, which is that of the declarations; a connections.json that
    is JSON and not what the skill writes (the source takes it unchecked for its
    data, [null] too; here a file is absent, the text of some data, or no JSON); SQL as text and
    the indexes of the tables; the key generation of libsodium, whose result is an
    argument; file modes and errors of the file system; two processes at once on
    one data directory (a tool's turn is between two processes); a write of a file that stops half way;
    console warnings. *)
From stdpp Require Export base tactics option list strings numbers relations sorting.
From Stdlib Require Export ZArith Lia.

(** ** Results and the state-and-exception monad *)

(** A call returns a value or throws an [Error] with a message. *)
Inductive res (A : Type) : Type :=
| Ok (a : A)
| Throw (msg : string).
Arguments Ok {A} a.
Arguments Throw {A} msg.

#[export] Instance res_eq_dec `{EqDecision A} : EqDecision (res A).
Proof. solve_decision. Defined.

Definition is_ok {A} (r : res A) : bool :=
  match r with Ok _ => true | Throw _ => false end.

(** A method body over a mutable state [S]: mutations made before a [throw] stay. *)
Definition M (S A : Type) : Type := S → res A * S.

#[export] Instance M_ret S : MRet (M S) := λ A a s, (Ok a, s).
#[export] Instance M_bind S : MBind (M S) := λ A B f m s,
  match m s with
  | (Ok a, s') => f a s'
  | (Throw e, s') => (Throw e, s')
  end.

(** Expose the first bind of a run. *)
Ltac bind1 := unfold mbind at 1, M_bind at 1.

(** Run the first statement of a body, its outcome being known. *)
Lemma bind_run {S A B} (m : M S A) (k : A → M S B) s r s1 :
  m s = (r, s1) →
  (m ≫= k) s = match r with Ok a => k a s1 | Throw e => (Throw e, s1) end.
Proof. unfold mbind, M_bind. intros ->. by destruct r. Qed.
Ltac run1 H := erewrite (bind_run _ _ _ _ _ H); cbv beta iota.

Section monad.
Context {S : Type}.

Definition throw {A} (e : string) : M S A := λ s, (Throw e, s).
Definition gets {A} (f : S → A) : M S A := λ s, (Ok (f s), s).
Definition modify (f : S → S) : M S unit := λ s, (Ok tt, f s).
(** A pure call that may throw. *)
Definition lift {A} (r : res A) : M S A := λ s, (r, s).

(** [try { m } catch { h }]: the handler starts in the state the throw left. *)
Definition try_catch {A} (m h : M S A) : M S A := λ s,
  match m s with
  | (Ok a, s') => (Ok a, s')
  | (Throw _, s') => h s'
  end.

(** [catch (err) { h(err.message) }] *)
Definition try_catch_with {A} (m : M S A) (h : string → M S A) : M S A := λ s,
  match m s with
  | (Ok a, s') => (Ok a, s')
  | (Throw e, s') => h e s'
  end.
End monad.

(** ** Lenses: a component's state inside a larger one *)
Record lens (T S : Type) : Type := Lens {
  view : T → S;
  put : S → T → T;
  view_put : ∀ s t, view (put s t) = s;
  put_view : ∀ t, put (view t) t = t;
  put_put : ∀ s s' t, put s (put s' t) = put s t
}.
Arguments Lens {T S}.
Arguments view {T S} l t.
Arguments put {T S} l s t.

Definition zoom {T S A} (l : lens T S) (m : M S A) : M T A := λ t,
  let '(r, s) := m (view l t) in (r, put l s t).

(** [l'] is not touched by writes through [l]. *)
Class Indep {T S S'} (l : lens T S) (l' : lens T S') : Prop :=
  indep s t : view l' (put l s t) = view l' t.

(** ** Frame reasoning: every run of [m] moves the state along [R] *)
Definition moves {S A} (R : relation S) (m : M S A) : Prop :=
  ∀ s, R s (m s).2.

Section moves.
Context {S : Type} (R : relation S) `{!PreOrder R}.

Lemma moves_ret {A} (a : A) : moves R (mret a).
Proof. intros s. reflexivity. Qed.
Lemma moves_throw {A} e : moves R (throw (A:=A) e).
Proof. intros s. reflexivity. Qed.
Lemma moves_gets {A} (f : S → A) : moves R (gets f).
Proof. intros s. reflexivity. Qed.
Lemma moves_lift {A} (r : res A) : moves R (lift r).
Proof. intros s. reflexivity. Qed.
Lemma moves_bind {A B} (m : M S A) (f : A → M S B) :
  moves R m → (∀ a, moves R (f a)) → moves R (m ≫= f).
Proof.
  intros Hm Hf s. specialize (Hm s). unfold mbind, M_bind.
  destruct (m s) as [[a|e] s']; simpl in *; [|done].
  etrans; [exact Hm|]. apply Hf.
Qed.
Lemma moves_try {A} (m h : M S A) :
  moves R m → moves R h → moves R (try_catch m h).
Proof.
  intros Hm Hh s. specialize (Hm s). unfold try_catch.
  destruct (m s) as [[a|e] s']; simpl in *; [done|].
  etrans; [exact Hm|]. apply Hh.
Qed.
Lemma moves_try_with {A} (m : M S A) (h : string → M S A) :
  moves R m → (∀ e, moves R (h e)) → moves R (try_catch_with m h).
Proof.
  intros Hm Hh s. specialize (Hm s). unfold try_catch_with.
  destruct (m s) as [[a|e] s']; simpl in *; [done|].
  etrans; [exact Hm|]. apply Hh.
Qed.
End moves.

Lemma moves_modify {S} (R : relation S) (f : S → S) :
  (∀ s, R s (f s)) → moves R (modify f).
Proof. intros H s. apply H. Qed.

Lemma moves_impl {S A} (R R' : relation S) (m : M S A) :
  (∀ s s', R s s' → R' s s') → moves R m → moves R' m.
Proof. intros H Hm s. apply H, Hm. Qed.

Lemma moves_zoom {T S A} (l : lens T S) (R : relation S) (R' : relation T) (m : M S A) :
  moves R m →
  (∀ t s, R (view l t) s → R' t (put l s t)) →
  moves R' (zoom l m).
Proof.
  intros Hm HR t. unfold zoom. specialize (Hm (view l t)).
  destruct (m (view l t)) as [r s]; simpl in *. by apply HR.
Qed.

(** A component that works through [l] leaves an independent one alone. *)
Lemma moves_zoom_frame {T S S' A} (l : lens T S) (l' : lens T S') `{!Indep l l'}
    (R : relation S') `{!Reflexive R} (m : M S A) :
  moves (λ t t', R (view l' t) (view l' t')) (zoom l m).
Proof.
  intros t. unfold zoom. destruct (m (view l t)) as [r s]; simpl.
  rewrite indep. reflexivity.
Qed.

Create HintDb moves discriminated.
#[export] Hint Resolve moves_ret moves_throw moves_gets moves_lift moves_bind moves_try moves_try_with : moves.
