(* ===== verification/Threads.v ===== *)
(** Asynchronous functions: a promise that is not settled yet is what remains of
    a function, as one turn of the event loop after the other.  Between two turns
    anything may have happened to the state, so what is proved of a thread is
    proved turn by turn; run alone, it is a function of [Prelude]. *)
From S2P Require Import Prelude.

(** ** Threads *)

(** Settled, or waiting for its next turn, which runs up to the next [await]. *)
#[warnings="-register-all"]
Inductive thread (S A : Type) : Type :=
| ended (r : res A)
| suspended (turn : S → thread S A * S).
Arguments ended {S A} r.
Arguments suspended {S A} turn.

(** Calling an [async] function runs its first turn at once. *)
Definition Async (S A : Type) : Type := S → thread S A * S.

Section threads.
Context {S : Type}.

Fixpoint thread_ind' {A} (P : thread S A → Prop) (Hf : ∀ r, P (ended r))
    (Hs : ∀ k, (∀ s, P (k s).1) → P (suspended k)) (t : thread S A) : P t :=
  match t with
  | ended r => Hf r
  | suspended k => Hs k (λ s,
      let x := k s in
      match x as x return P x.1 with (t', _) => thread_ind' P Hf Hs t' end)
  end.

(** Code without an [await]. *)
Definition sync {A} (m : M S A) : Async S A := λ s,
  let '(r, s') := m s in (ended r, s').

Fixpoint and_then {A B} (t : thread S A) (f : A → Async S B) : Async S B := λ s,
  match t with
  | ended (Ok a) => f a s
  | ended (Throw e) => (ended (Throw e), s)
  | suspended k => (suspended (λ s, let '(t', s') := k s in and_then t' f s'), s)
  end.

(** [try { t } catch { h }] *)
Fixpoint or_else {A} (t : thread S A) (h : Async S A) : Async S A := λ s,
  match t with
  | ended (Ok a) => (ended (Ok a), s)
  | ended (Throw _) => h s
  | suspended k => (suspended (λ s, let '(t', s') := k s in or_else t' h s'), s)
  end.
Definition async_try {A} (m h : Async S A) : Async S A := λ s,
  let '(t, s') := m s in or_else t h s'.

(** Whoever awaits a promise goes on in a turn of its own, even if it was settled. *)
Fixpoint pause {A} (t : thread S A) : thread S A :=
  match t with
  | ended r => suspended (λ s, (ended r, s))
  | suspended k => suspended (λ s, let '(t', s') := k s in (pause t', s'))
  end.
Definition await {A} (m : Async S A) : Async S A := λ s,
  let '(t, s') := m s in (pause t, s').

(** A promise of the runtime that does [f] some time later. *)
Definition later (f : S → S) : Async S unit := λ s, (suspended (λ s, (ended (Ok tt), f s)), s).
End threads.

#[export] Instance Async_ret S : MRet (Async S) := λ A a s, (ended (Ok a), s).
#[export] Instance Async_bind S : MBind (Async S) := λ A B f m s,
  let '(t, s') := m s in and_then t f s'.
Definition async_throw {S A} (e : string) : Async S A := sync (throw e).

(** Goroutines are threads too: one access to what they share, in a turn of its own. *)
Definition atomic {S A} (m : M S A) : Async S A := λ s, (suspended (λ s, sync m s), s).

(** What is left of a function that is at an access. *)
Definition at_access {S A B} (m : M S A) (f : A → Async S B) : S → thread S B * S := λ s,
  let '(t, s') := sync m s in and_then t f s'.
Lemma atomic_bind_run {S A B} (m : M S A) (f : A → Async S B) s :
  (a ← atomic m; f a) s = (suspended (at_access m f), s).
Proof. reflexivity. Qed.
Lemma at_access_run {S A B} (m : M S A) (f : A → Async S B) s :
  at_access m f s = match m s with (Ok a, s') => f a s' | (Throw e, s') => (ended (Throw e), s') end.
Proof. unfold at_access, sync. by destruct (m s) as [[a|e] s']. Qed.

(** A function of a component, in a larger state. *)
Section within.
Context {T S : Type} (l : lens T S).
Fixpoint within_thread {A} (t : thread S A) : thread T A :=
  match t with
  | ended r => ended r
  | suspended k => suspended (λ x, let '(t', s) := k (view l x) in (within_thread t', put l s x))
  end.
Definition within {A} (m : Async S A) : Async T A := λ x,
  let '(t, s) := m (view l x) in (within_thread t, put l s x).
End within.

(** ** A thread by itself

    [settle] is what the rest of the world does between two turns. *)
Section alone.
Context {S : Type} (settle : S → S).

Fixpoint finish_thread {A} (t : thread S A) (s : S) : res A * S :=
  match t with
  | ended r => (r, s)
  | suspended k => let '(t', s') := k (settle s) in finish_thread t' s'
  end.
Definition alone {A} (m : Async S A) : M S A := λ s, let '(t, s') := m s in finish_thread t s'.

Lemma alone_sync {A} (m : M S A) s : alone (sync m) s = m s.
Proof. unfold alone, sync. by destruct (m s). Qed.

Lemma finish_and_then {A B} (t : thread S A) (f : A → Async S B) s :
  alone (and_then t f) s =
  match finish_thread t s with (Ok a, s') => alone (f a) s' | (Throw e, s') => (Throw e, s') end.
Proof.
  unfold alone. revert s. induction t as [[a|e]|k IH] using thread_ind'; intros s; simpl; [done..|].
  specialize (IH (settle s)). destruct (k (settle s)) as [t' s'] eqn:E. simpl in IH.
  specialize (IH s'). by destruct (and_then t' f s').
Qed.
Lemma alone_bind {A B} (m : Async S A) (f : A → Async S B) s :
  alone (m ≫= f) s =
  match alone m s with (Ok a, s') => alone (f a) s' | (Throw e, s') => (Throw e, s') end.
Proof.
  pose proof (λ t s, finish_and_then (A:=A) t f s) as H. unfold alone, mbind, Async_bind in *.
  destruct (m s) as [t s']. specialize (H t s'). by rewrite <- H.
Qed.

Lemma finish_or_else {A} (t : thread S A) (h : Async S A) s :
  alone (or_else t h) s =
  match finish_thread t s with (Ok a, s') => (Ok a, s') | (Throw _, s') => alone h s' end.
Proof.
  unfold alone. revert s. induction t as [[a|e]|k IH] using thread_ind'; intros s; simpl; [done..|].
  specialize (IH (settle s)). destruct (k (settle s)) as [t' s'] eqn:E. simpl in IH.
  specialize (IH s'). by destruct (or_else t' h s').
Qed.
Lemma alone_try {A} (m h : Async S A) s :
  alone (async_try m h) s = match alone m s with (Ok a, s') => (Ok a, s') | (Throw _, s') => alone h s' end.
Proof.
  pose proof (λ t s, finish_or_else (A:=A) t h s) as H. unfold alone, async_try in *.
  destruct (m s) as [t s']. specialize (H t s'). by rewrite <- H.
Qed.

Lemma finish_pause {A} (t : thread S A) s :
  finish_thread (pause t) s = let '(r, s') := finish_thread t s in (r, settle s').
Proof.
  revert s. induction t as [r|k IH] using thread_ind'; intros s; simpl; [done|].
  specialize (IH (settle s)). destruct (k (settle s)) as [t' s']. apply IH.
Qed.
Lemma alone_await {A} (m : Async S A) s :
  alone (await m) s = let '(r, s') := alone m s in (r, settle s').
Proof. unfold alone, await. destruct (m s) as [t s']. apply finish_pause. Qed.
End alone.

(** ** Turn by turn

    Every turn that starts with [I] moves the state along [R]. *)
Section turns.
Context {S : Type} (I : S → Prop) (R : relation S).
Context `{!PreOrder R} (stable : ∀ s s', R s s' → I s → I s').

Fixpoint turns_keep {A} (t : thread S A) : Prop :=
  match t with
  | ended _ => True
  | suspended k => ∀ s, I s → let '(t', s') := k s in R s s' ∧ turns_keep t'
  end.
Definition async_keeps {A} (m : Async S A) : Prop :=
  ∀ s, I s → let '(t, s') := m s in R s s' ∧ turns_keep t.

Lemma keeps_sync {A} (m : M S A) : moves R m → async_keeps (sync m).
Proof. intros Hm s _. specialize (Hm s). unfold sync. by destruct (m s). Qed.
Lemma keeps_ret {A} (a : A) : async_keeps (mret a).
Proof. intros s _. split; [reflexivity|done]. Qed.
Lemma keeps_throw {A} e : async_keeps (async_throw (A:=A) e).
Proof. apply keeps_sync, moves_throw, _. Qed.

Lemma keeps_and_then {A B} (t : thread S A) (f : A → Async S B) :
  turns_keep t → (∀ a, async_keeps (f a)) → async_keeps (and_then t f).
Proof.
  intros Ht Hf. induction t as [[a|e]|k IH] using thread_ind'; simpl in *.
  - apply Hf.
  - intros s _. split; [reflexivity|done].
  - intros s _. split; [reflexivity|]. intros s1 H1. specialize (Ht s1 H1).
    specialize (IH s1). destruct (k s1) as [t' s2]. destruct Ht as [Hr Ht]. simpl in IH.
    specialize (IH Ht s2 (stable _ _ Hr H1)). destruct (and_then t' f s2) as [t2 s3].
    destruct IH as [Hr2 IH]. split; [by etrans|done].
Qed.
Lemma keeps_bind {A B} (m : Async S A) (f : A → Async S B) :
  async_keeps m → (∀ a, async_keeps (f a)) → async_keeps (m ≫= f).
Proof using PreOrder0 stable.
  intros Hm Hf s H. specialize (Hm s H). unfold mbind, Async_bind. destruct (m s) as [t s'].
  destruct Hm as [Hr Ht]. pose proof (keeps_and_then t f Ht Hf s' (stable _ _ Hr H)) as H2.
  destruct (and_then t f s') as [t2 s2]. destruct H2. split; [by etrans|done].
Qed.

Lemma keeps_or_else {A} (t : thread S A) (h : Async S A) :
  turns_keep t → async_keeps h → async_keeps (or_else t h).
Proof.
  intros Ht Hh. induction t as [[a|e]|k IH] using thread_ind'; simpl in *.
  - intros s _. split; [reflexivity|done].
  - apply Hh.
  - intros s _. split; [reflexivity|]. intros s1 H1. specialize (Ht s1 H1).
    specialize (IH s1). destruct (k s1) as [t' s2]. destruct Ht as [Hr Ht]. simpl in IH.
    specialize (IH Ht s2 (stable _ _ Hr H1)). destruct (or_else t' h s2) as [t2 s3].
    destruct IH as [Hr2 IH]. split; [by etrans|done].
Qed.
Lemma keeps_try {A} (m h : Async S A) : async_keeps m → async_keeps h → async_keeps (async_try m h).
Proof using PreOrder0 stable.
  intros Hm Hh s H. specialize (Hm s H). unfold async_try. destruct (m s) as [t s'].
  destruct Hm as [Hr Ht]. pose proof (keeps_or_else t h Ht Hh s' (stable _ _ Hr H)) as H2.
  destruct (or_else t h s') as [t2 s2]. destruct H2. split; [by etrans|done].
Qed.

Lemma keeps_pause {A} (t : thread S A) : turns_keep t → turns_keep (pause t).
Proof.
  induction t as [r|k IH] using thread_ind'; simpl; intros Ht s H.
  - split; [reflexivity|done].
  - specialize (Ht s H). specialize (IH s). destruct (k s) as [t' s']. destruct Ht as [Hr Ht].
    split; [done|by apply IH].
Qed.
Lemma keeps_await {A} (m : Async S A) : async_keeps m → async_keeps (await m).
Proof.
  intros Hm s H. specialize (Hm s H). unfold await. destruct (m s) as [t s'].
  destruct Hm. split; [done|by apply keeps_pause].
Qed.
Lemma keeps_later f : (∀ s, I s → R s (f s)) → async_keeps (later f).
Proof. intros Hf s H. split; [reflexivity|]. intros s1 H1. split; [by apply Hf|done]. Qed.

(** A value read now, with what [I] says of it. *)
Lemma keeps_gets {A B} (g : S → A) (Q : A → Prop) (f : A → Async S B) :
  (∀ s, I s → Q (g s)) → (∀ a, Q a → async_keeps (f a)) → async_keeps (a ← sync (gets g); f a).
Proof. intros Hg Hf s H. apply (Hf (g s)); auto. Qed.
End turns.

(** A component's turns inside a larger state. *)
Section within_turns.
Context {T S : Type} (l : lens T S) (I : S → Prop) (R : relation S) (I' : T → Prop) (R' : relation T).
Context (HI : ∀ x, I' x → I (view l x)) (HR : ∀ x s, R (view l x) s → R' x (put l s x)).

Lemma keeps_within_thread {A} (t : thread S A) : turns_keep I R t → turns_keep I' R' (within_thread l t).
Proof using HI HR.
  induction t as [r|k IH] using thread_ind'; simpl; [done|]. intros Ht x Hx.
  specialize (Ht (view l x) (HI x Hx)). specialize (IH (view l x)).
  destruct (k (view l x)) as [t' s']. destruct Ht. split; [by apply HR|by apply IH].
Qed.
Lemma keeps_within {A} (m : Async S A) : async_keeps I R m → async_keeps I' R' (within l m).
Proof using HI HR.
  intros Hm x Hx. specialize (Hm (view l x) (HI x Hx)). unfold within.
  destruct (m (view l x)) as [t s]. destruct Hm. split; [by apply HR|by apply keeps_within_thread].
Qed.
End within_turns.
