(* ===== verification/JsLib.v ===== *)
(** The parts of the JavaScript runtime the skill uses: truthiness, objects
    used as string-keyed maps in insertion order, the stable
    [Array.prototype.sort], the order of strings and the sign test on numbers.

    A JS string is a [string] of code units below 256; comparison with [<] is
    the lexicographic order of code units.  An object key that names a
    property inherited from [Object.prototype], or that is an array index, is
    outside the model (a pinch address is neither). *)
From S2P Require Import Prelude.
From Stdlib Require Export SpecFloat.

(** ** Truthiness *)

(** [if (s)] for a string that may be [undefined]: [""] is falsy too. *)
Definition truthy_str (o : option string) : bool :=
  match o with Some s => negb (bool_decide (s = "")) | None => false end.

(** [if (b)] for a boolean that may be [undefined]. *)
Definition truthy_bool (o : option bool) : bool := default false o.

(** [s || d] for a string that may be [undefined]. *)
Definition str_or (o : option string) (d : string) : string :=
  if truthy_str o then default "" o else d.

Lemma truthy_str_Some o : truthy_str o = true → ∃ s, o = Some s ∧ s ≠ "".
Proof. destruct o as [s|]; simpl; [|done]. case_bool_decide; naive_solver. Qed.

(** ** Numbers: IEEE doubles; only the sign test [n < 0] is used on them *)
Definition number : Type := spec_float.
Definition num0 : number := S754_zero false.
Definition num_neg (n : number) : bool := SFltb n num0.

#[export] Instance number_eq_dec : EqDecision number.
Proof. unfold number. solve_decision. Defined.

(** ** Objects as maps, keys in insertion order *)
Module Obj.
Section obj.
Context {V : Type}.

Fixpoint get (k : string) (o : list (string * V)) : option V :=
  match o with
  | [] => None
  | (k', v) :: o' => if decide (k = k') then Some v else get k o'
  end.

(** [o[k] = v]: replaced in place when the key exists, appended otherwise. *)
Fixpoint set (k : string) (v : V) (o : list (string * V)) : list (string * V) :=
  match o with
  | [] => [(k, v)]
  | (k', v') :: o' =>
      if decide (k = k') then (k', v) :: o' else (k', v') :: set k v o'
  end.

Definition values (o : list (string * V)) : list V := o.*2.
Definition keys (o : list (string * V)) : list string := o.*1.

Lemma get_set_eq k v o : get k (set k v o) = Some v.
Proof.
  induction o as [|[k' v'] o IH]; simpl.
  - by rewrite decide_True.
  - destruct (decide (k = k')) as [->|Hne]; simpl.
    + by rewrite decide_True.
    + by rewrite decide_False.
Qed.

Lemma get_set_ne k k' v o : k ≠ k' → get k' (set k v o) = get k' o.
Proof.
  intros Hne. induction o as [|[k1 v1] o IH]; simpl.
  - by rewrite decide_False.
  - destruct (decide (k = k1)) as [->|]; simpl; [|by rewrite IH].
    by rewrite !decide_False by done.
Qed.

Lemma get_set k k' v o :
  get k' (set k v o) = if decide (k = k') then Some v else get k' o.
Proof.
  case_decide as H; [subst; apply get_set_eq|by apply get_set_ne].
Qed.

Lemma set_set k v v' o : set k v (set k v' o) = set k v o.
Proof.
  induction o as [|[k' w] o IH]; simpl.
  - by rewrite decide_True.
  - destruct (decide (k = k')) as [|Hne]; simpl.
    + by rewrite decide_True.
    + rewrite decide_False by done. by rewrite IH.
Qed.

Lemma get_elem k v o : get k o = Some v → (k, v) ∈ o.
Proof.
  induction o as [|[k' v'] o IH]; simpl; [done|].
  case_decide; [intros [= ->]; subst; by left|]. right. by apply IH.
Qed.

Lemma elem_get k v o : NoDup (keys o) → (k, v) ∈ o → get k o = Some v.
Proof.
  induction o as [|[k' v'] o IH]; simpl; intros Hnd Hin.
  - by apply not_elem_of_nil in Hin.
  - apply NoDup_cons in Hnd as [Hk Hnd]. apply elem_of_cons in Hin as [[= -> ->]|Hin].
    + by rewrite decide_True.
    + rewrite decide_False; [by apply IH|]. intros ->. apply Hk.
      apply list_elem_of_fmap. by exists (k', v).
Qed.

Lemma get_None k o : get k o = None ↔ k ∉ keys o.
Proof.
  induction o as [|[k' v'] o IH]; simpl.
  - split; [intros _; apply not_elem_of_nil|done].
  - rewrite not_elem_of_cons, <- IH. destruct (decide (k = k')); naive_solver.
Qed.

Lemma keys_set k v o :
  keys (set k v o) = if decide (k ∈ keys o) then keys o else keys o ++ [k].
Proof.
  induction o as [|[k' v'] o IH]; simpl.
  - done.
  - destruct (decide (k = k')) as [->|Hne]; simpl.
    + rewrite decide_True; [done|]. by left.
    + unfold keys in *. rewrite IH.
      destruct (decide (k ∈ o.*1)) as [Hin|Hin].
      * rewrite decide_True; [done|]. by right.
      * rewrite decide_False; [done|]. by rewrite not_elem_of_cons.
Qed.

Lemma keys_set_NoDup k v o : NoDup (keys o) → NoDup (keys (set k v o)).
Proof.
  intros Hnd. rewrite keys_set. case_decide; [done|].
  apply NoDup_app. split; [done|]. split; [|apply NoDup_singleton].
  set_solver.
Qed.

Lemma set_values_Forall (P : V → Prop) k v o :
  Forall P (values o) → P v → Forall P (values (set k v o)).
Proof.
  intros Ho Hv. induction o as [|[k' w] o IH]; simpl in *; [by constructor|].
  apply Forall_cons in Ho as [Hw Ho]. destruct (decide (k = k')); simpl; auto.
Qed.

Lemma set_elem k v o p : p ∈ set k v o → p = (k, v) ∨ p ∈ o.
Proof.
  induction o as [|[k' w] o IH]; simpl; [set_solver|].
  destruct (decide (k = k')) as [->|]; set_solver.
Qed.
End obj.

(** Mutating every value in place keeps the keys and their order. *)
Definition map_values {V} (f : V → V) (o : list (string * V)) : list (string * V) :=
  (λ kv, (kv.1, f kv.2)) <$> o.

Lemma get_map_values {V} (f : V → V) k o :
  get k (map_values f o) = f <$> get k o.
Proof.
  induction o as [|[k' v'] o IH]; simpl; [done|]. by destruct (decide (k = k')).
Qed.

Lemma keys_map_values {V} (f : V → V) o : keys (map_values f o) = keys o.
Proof. unfold keys, map_values. rewrite <- list_fmap_compose. by apply list_fmap_ext. Qed.
End Obj.

Lemma StronglySorted_mono {A} (R R' : relation A) l :
  (∀ x y, R x y → R' x y) → StronglySorted R l → StronglySorted R' l.
Proof.
  intros HR. induction 1 as [|x l _ IH Hx]; constructor; [done|].
  eapply Forall_impl; [exact Hx|]. auto.
Qed.

Lemma StronglySorted_app_2 {A} (R : relation A) l l' :
  StronglySorted R l → StronglySorted R l' → (∀ x y, x ∈ l → y ∈ l' → R x y) →
  StronglySorted R (l ++ l').
Proof.
  induction 1 as [|x l Hl IH Hx]; simpl; intros Hl' HR; [done|]. constructor.
  - apply IH; [done|]. intros; apply HR; [by right|done].
  - apply Forall_app. split; [done|]. apply Forall_forall. intros y Hy. apply HR; [by left|done].
Qed.

Lemma StronglySorted_reverse {A} (R : relation A) l :
  StronglySorted R l → StronglySorted (flip R) (reverse l).
Proof.
  induction 1 as [|x l Hl IH Hx]; [constructor|]. rewrite reverse_cons.
  apply StronglySorted_app_2; [done|by repeat constructor|].
  intros a b Ha Hb. apply list_elem_of_singleton in Hb as ->.
  rewrite elem_of_reverse in Ha. rewrite Forall_forall in Hx. by apply Hx.
Qed.

Lemma filter_id {A} (P : A → Prop) `{∀ x, Decision (P x)} l : Forall P l → filter P l = l.
Proof. induction 1 as [|x l Hx _ IH]; [done|]. rewrite filter_cons, decide_True by done. by f_equal. Qed.

Lemma last_drop {A} n (l : list A) : n < length l → last (drop n l) = last l.
Proof.
  intros Hn. rewrite <- (take_drop n l) at 2. rewrite last_app.
  destruct (last (drop n l)) eqn:E; [done|]. apply last_None in E.
  apply (f_equal length) in E. rewrite length_drop in E. simpl in E. lia.
Qed.

(** ** [Array.prototype.sort]: stable, by a "not after" test *)
Section sort.
Context {A : Type} (leb : A → A → bool).

Fixpoint sort_insert (x : A) (l : list A) : list A :=
  match l with
  | [] => [x]
  | y :: l' => if leb x y then x :: l else y :: sort_insert x l'
  end.

Fixpoint stable_sort (l : list A) : list A :=
  match l with
  | [] => []
  | x :: l' => sort_insert x (stable_sort l')
  end.

Lemma sort_insert_perm x l : sort_insert x l ≡ₚ x :: l.
Proof.
  induction l as [|y l IH]; simpl; [done|]. destruct (leb x y); [done|].
  rewrite IH. by apply Permutation_swap.
Qed.

Lemma stable_sort_perm l : stable_sort l ≡ₚ l.
Proof.
  induction l as [|x l IH]; simpl; [done|]. by rewrite sort_insert_perm, IH.
Qed.

Hypothesis leb_total : ∀ x y, leb x y = true ∨ leb y x = true.
Hypothesis leb_trans : ∀ x y z, leb x y = true → leb y z = true → leb x z = true.

Lemma sort_insert_sorted x l :
  StronglySorted (λ a b, leb a b = true) l →
  StronglySorted (λ a b, leb a b = true) (sort_insert x l).
Proof.
  induction 1 as [|y l Hl IH Hy]; simpl; [repeat constructor|].
  destruct (leb x y) eqn:E.
  - constructor; [by constructor|]. constructor; [done|].
    eapply Forall_impl; [exact Hy|]. intros z Hz. by eapply leb_trans.
  - constructor; [done|]. rewrite sort_insert_perm. constructor; [|done].
    destruct (leb_total x y); congruence.
Qed.

Lemma stable_sort_sorted l : StronglySorted (λ a b, leb a b = true) (stable_sort l).
Proof. induction l; simpl; [constructor|by apply sort_insert_sorted]. Qed.

(** Stability: the elements equivalent to [z] keep their order. *)
Definition equivb (x y : A) : bool := leb x y && leb y x.

Lemma filter_sort_insert z x l :
  filter (λ y, equivb z y = true) (sort_insert x l) =
  filter (λ y, equivb z y = true) (x :: l).
Proof.
  induction l as [|y l IH]; simpl; [done|].
  destruct (leb x y) eqn:E; [done|].
  rewrite filter_cons, IH, !filter_cons.
  destruct (decide (equivb z x = true)) as [Hx|], (decide (equivb z y = true)) as [Hy|];
    try done.
  exfalso. unfold equivb in *. apply andb_prop in Hx as [? ?], Hy as [? ?].
  assert (leb x y = true) by eauto. congruence.
Qed.

Lemma stable_sort_stable z l :
  filter (λ y, equivb z y = true) (stable_sort l) =
  filter (λ y, equivb z y = true) l.
Proof.
  induction l as [|x l IH]; simpl; [done|].
  rewrite filter_sort_insert, !filter_cons, IH. done.
Qed.
End sort.

(** ** The order of strings *)
Definition clex (c d : comparison) : comparison :=
  match c with Eq => d | _ => c end.

Lemma str_compare_app a b c d :
  String.length a = String.length c →
  String.compare (a +:+ b) (c +:+ d) = clex (String.compare a c) (String.compare b d).
Proof.
  revert c. induction a as [|x a IH]; intros [|y c] Hl; simpl in *; try done.
  injection Hl as Hl. unfold String.app. simpl.
  destruct (Ascii.compare x y); [|done|done]. by apply IH.
Qed.

Lemma str_app_assoc a b c : (a +:+ b) +:+ c = a +:+ b +:+ c.
Proof. induction a as [|x a IH]; [done|]. exact (f_equal (String x) IH). Qed.

Lemma str_app_nil_r a : a +:+ "" = a.
Proof. induction a as [|x a IH]; [done|]. exact (f_equal (String x) IH). Qed.

Lemma str_length_app a b : String.length (a +:+ b) = String.length a + String.length b.
Proof. induction a as [|x a IH]; [done|]. exact (f_equal S IH). Qed.

Lemma str_compare_refl s : String.compare s s = Eq.
Proof.
  induction s as [|c s IH]; simpl; [done|].
  unfold Ascii.compare. by rewrite N.compare_refl.
Qed.

Lemma str_compare_eq s t : String.compare s t = Eq → s = t.
Proof. apply String.compare_eq_iff. Qed.

Lemma str_ltb_compare s t : String.ltb s t = true ↔ String.compare s t = Lt.
Proof. unfold String.ltb. by destruct (String.compare s t). Qed.

Lemma str_leb_total s t : String.leb s t = true ∨ String.leb t s = true.
Proof. destruct (String.leb_total s t) as [->| ->]; auto. Qed.

Lemma str_leb_trans s t u :
  String.leb s t = true → String.leb t u = true → String.leb s u = true.
Proof.
  intros H1 H2. apply Is_true_eq_true.
  change (String.le s u). transitivity t; by apply Is_true_eq_left.
Qed.

Lemma str_leb_antisym s t : String.leb s t = true → String.leb t s = true → s = t.
Proof. apply String.leb_antisym. Qed.

Lemma str_ltb_leb s t : String.ltb s t = negb (String.leb t s).
Proof.
  unfold String.ltb, String.leb. rewrite (String.compare_antisym t s).
  by destruct (String.compare s t).
Qed.

(** ** Prefixes of a string *)

(** [strip p s]: what follows the literal prefix [p]. *)
Fixpoint strip (p s : string) : option string :=
  match p, s with
  | EmptyString, _ => Some s
  | String c p', String d s' => if decide (c = d) then strip p' s' else None
  | _, _ => None
  end.

Fixpoint str_forall (p : Ascii.ascii → bool) (s : string) : bool :=
  match s with EmptyString => true | String c s' => p c && str_forall p s' end.

(** The longest prefix of characters satisfying [p], and the rest. *)
Fixpoint span (p : Ascii.ascii → bool) (s : string) : string * string :=
  match s with
  | EmptyString => ("", "")
  | String c s' => if p c then let '(a, b) := span p s' in (String c a, b) else ("", s)
  end.

Lemma strip_app p s : strip p (p +:+ s) = Some s.
Proof.
  induction p as [|c p IH]; [done|]. change (String c p +:+ s) with (String c (p +:+ s)).
  simpl. by rewrite decide_True.
Qed.

Lemma strip_Some p s r : strip p s = Some r → s = p +:+ r.
Proof.
  revert s. induction p as [|c p IH]; intros [|d s] Hs; simpl in *; simplify_eq/=; try done.
  case_decide; [|done]. subst. change (String d p +:+ r) with (String d (p +:+ r)).
  f_equal. by apply IH.
Qed.

Arguments strip : simpl never.

Lemma span_app p s c t :
  str_forall p s = true → p c = false →
  span p (s +:+ String c t) = (s, String c t).
Proof.
  induction s as [|d s IH]; simpl; intros Hs Hc.
  - change ("" +:+ String c t) with (String c t). simpl. by rewrite Hc.
  - apply andb_prop in Hs as [Hd Hs].
    change (String d s +:+ String c t) with (String d (s +:+ String c t)). simpl.
    by rewrite Hd, IH.
Qed.

Lemma span_Some p s a b : span p s = (a, b) → s = a +:+ b.
Proof.
  revert a b. induction s as [|c s IH]; simpl; intros a b; [intros [= <- <-]; reflexivity|].
  destruct (p c); [|intros [= <- <-]; reflexivity]. destruct (span p s) as [a' b'].
  intros [= <- <-]. change (String c a' +:+ b') with (String c (a' +:+ b')).
  f_equal. by apply IH.
Qed.

(** ** Strings and bytes *)

(** [l.join(sep)]. *)
Fixpoint join (sep : string) (l : list string) : string :=
  match l with
  | [] => ""
  | [s] => s
  | s :: l' => s +:+ sep +:+ join sep l'
  end.

#[export] Instance byte_eq_dec : EqDecision Byte.byte := Byte.byte_eq_dec.

(** [dst.set(src, off)] on a [Uint8Array]: [None] is the [RangeError]. *)
Definition u8_set (src : list Byte.byte) (off : nat) (dst : list Byte.byte)
    : option (list Byte.byte) :=
  if (off + length src <=? length dst)%nat
  then Some (take off dst ++ src ++ drop (off + length src) dst)
  else None.

(** Filling a zeroed array from left to right. *)
Lemma u8_set_fill src off pre k :
  off = length pre → length src ≤ k →
  u8_set src off (pre ++ replicate k Byte.x00) =
  Some ((pre ++ src) ++ replicate (k - length src) Byte.x00).
Proof.
  intros -> Hk. unfold u8_set. rewrite length_app, length_replicate.
  rewrite (proj2 (Nat.leb_le _ _)) by lia. rewrite take_app_length, <- drop_drop, drop_app_length.
  by rewrite drop_replicate, <- app_assoc.
Qed.

Lemma u8_set_fill_0 src k :
  length src ≤ k →
  u8_set src 0 (replicate k Byte.x00) = Some (src ++ replicate (k - length src) Byte.x00).
Proof. apply (u8_set_fill src 0 []). done. Qed.

(** One byte and its value. *)
Definition byte_of_Z (z : Z) : Byte.byte := default Byte.x00 (Byte.of_N (Z.to_N z)).
Definition Z_of_byte (b : Byte.byte) : Z := Z.of_N (Byte.to_N b).

Lemma Z_of_byte_of_Z z : (0 ≤ z < 256)%Z → Z_of_byte (byte_of_Z z) = z.
Proof.
  intros Hz. unfold Z_of_byte, byte_of_Z. destruct (Byte.of_N (Z.to_N z)) as [b|] eqn:E; simpl.
  - apply Byte.to_of_N in E. rewrite E. lia.
  - apply Byte.of_N_None_iff in E. lia.
Qed.

Lemma byte_of_Z_of_byte b : byte_of_Z (Z_of_byte b) = b.
Proof. by destruct b. Qed.

Lemma Z_of_byte_range b : (0 ≤ Z_of_byte b < 256)%Z.
Proof. by destruct b. Qed.

(** ** JSON text of strings ([JSON.stringify]) *)
Definition chr (n : nat) : string := String (Ascii.ascii_of_nat n) "".
Definition dquote : string := chr 34.
Definition hex_lower (n : nat) : string := chr (if (n <? 10)%nat then 48 + n else 87 + n).

(** One code unit: the two-character escapes, [\u00XX] for the other controls. *)
Definition json_char (c : Ascii.ascii) : string :=
  let n := Ascii.nat_of_ascii c in
  if (n =? 34)%nat then chr 92 +:+ dquote
  else if (n =? 92)%nat then chr 92 +:+ chr 92
  else if (n =? 8)%nat then chr 92 +:+ "b"
  else if (n =? 9)%nat then chr 92 +:+ "t"
  else if (n =? 10)%nat then chr 92 +:+ "n"
  else if (n =? 12)%nat then chr 92 +:+ "f"
  else if (n =? 13)%nat then chr 92 +:+ "r"
  else if (n <? 32)%nat then chr 92 +:+ "u00" +:+ hex_lower (n / 16) +:+ hex_lower (n mod 16)
  else String c "".

Fixpoint json_chars (s : string) : string :=
  match s with EmptyString => "" | String c s' => json_char c +:+ json_chars s' end.

Definition json_string (s : string) : string := dquote +:+ json_chars s +:+ dquote.

(** An object literal with already printed values, in property order. *)
Definition json_object (fields : list (string * string)) : string :=
  "{" +:+ join "," ((λ kv, json_string kv.1 +:+ ":" +:+ kv.2) <$> fields) +:+ "}".
