(* ===== verification/JsDate.v ===== *)
(** [Date.prototype.toISOString]: the calendar computation of the language, and
    the fact the stores rely on: within the years 0 to 9999, comparing two ISO
    timestamps as strings compares the instants. *)
From S2P Require Import Prelude JsLib.
From Stdlib Require Import Ascii.
Local Open Scope Z_scope.
Local Ltac zdiv := Z.to_euclidean_division_equations; lia.

(** ** The calendar *)
Definition msPerDay : Z := 86400000.

(** First day of year [y], counted from the epoch. *)
Definition DayFromYear (y : Z) : Z :=
  365 * (y - 1970) + (y - 1969) / 4 - (y - 1901) / 100 + (y - 1601) / 400.

(** The year of day [d]: the largest [y] with [DayFromYear y ≤ d]. *)
Definition YearFromDay (d : Z) : Z :=
  let y := 1970 + d * 400 / 146097 in
  if DayFromYear (y + 1) <=? d then y + 1
  else if DayFromYear y <=? d then y else y - 1.

Definition LeapDays (y : Z) : Z := DayFromYear (y + 1) - DayFromYear y - 365.

(** First day within the year of month [m] (0 to 11), [L] leap days. *)
Definition month_start (L m : Z) : Z :=
  match m with
  | 0 => 0 | 1 => 31 | 2 => 59 + L | 3 => 90 + L | 4 => 120 + L | 5 => 151 + L
  | 6 => 181 + L | 7 => 212 + L | 8 => 243 + L | 9 => 273 + L | 10 => 304 + L
  | _ => 334 + L
  end.

Definition MonthFromDay (L dy : Z) : Z :=
  if dy <? 31 then 0 else if dy <? 59 + L then 1 else if dy <? 90 + L then 2
  else if dy <? 120 + L then 3 else if dy <? 151 + L then 4
  else if dy <? 181 + L then 5 else if dy <? 212 + L then 6
  else if dy <? 243 + L then 7 else if dy <? 273 + L then 8
  else if dy <? 304 + L then 9 else if dy <? 334 + L then 10 else 11.

(** ** Formatting *)
Definition digit (n : Z) : Ascii.ascii := Ascii.ascii_of_N (48 + Z.to_N n).

(** [n] in [w] decimal digits. *)
Fixpoint pad (w : nat) (n : Z) : string :=
  match w with
  | O => ""
  | S w' => String (digit (n / 10 ^ Z.of_nat w')) (pad w' (n mod 10 ^ Z.of_nat w'))
  end.

Definition iso_year (y : Z) : string :=
  if (0 <=? y) && (y <=? 9999) then pad 4 y
  else if y <? 0 then "-" +:+ pad 6 (- y) else "+" +:+ pad 6 y.

Definition isoString (t : Z) : string :=
  let d := t / msPerDay in
  let ms := t mod msPerDay in
  let y := YearFromDay d in
  let dy := d - DayFromYear y in
  let L := LeapDays y in
  let m := MonthFromDay L dy in
  iso_year y +:+ "-" +:+ pad 2 (m + 1) +:+ "-" +:+ pad 2 (dy - month_start L m + 1)
  +:+ "T" +:+ pad 2 (ms / 3600000) +:+ ":" +:+ pad 2 (ms mod 3600000 / 60000)
  +:+ ":" +:+ pad 2 (ms mod 60000 / 1000) +:+ "." +:+ pad 3 (ms mod 1000) +:+ "Z".

(** [new Date(t).toISOString()]: [None] is the [RangeError] of an invalid date. *)
Definition toISOString (t : Z) : option string :=
  if (-8640000000000000 <=? t) && (t <=? 8640000000000000) then Some (isoString t) else None.

Example iso_epoch : isoString 0 = "1970-01-01T00:00:00.000Z".
Proof. reflexivity. Qed.
Example iso_leap : isoString 1709210096789 = "2024-02-29T12:34:56.789Z".
Proof. reflexivity. Qed.
Example iso_before : isoString (-1) = "1969-12-31T23:59:59.999Z".
Proof. reflexivity. Qed.
Example iso_far : isoString 253402300800000 = "+010000-01-01T00:00:00.000Z".
Proof. reflexivity. Qed.

(** ** Correctness of the calendar *)
Lemma DayFromYear_bounds y :
  146097 * (y - 1970) - 506 ≤ 400 * DayFromYear y ≤ 146097 * (y - 1970) + 589.
Proof. unfold DayFromYear. zdiv. Qed.

Lemma YearFromDay_spec d :
  DayFromYear (YearFromDay d) ≤ d < DayFromYear (YearFromDay d + 1).
Proof.
  unfold YearFromDay. set (y := 1970 + d * 400 / 146097).
  assert (Hy : (y - 1970) * 146097 ≤ d * 400 < (y - 1969) * 146097).
  { subst y. zdiv. }
  clearbody y.
  pose proof (DayFromYear_bounds (y + 1 + 1)). pose proof (DayFromYear_bounds (y - 1)).
  destruct (Z.leb_spec (DayFromYear (y + 1)) d); [lia|].
  destruct (Z.leb_spec (DayFromYear y) d); [lia|].
  replace (y - 1 + 1) with y by lia. lia.
Qed.

Lemma DayFromYear_step y : 365 ≤ DayFromYear (y + 1) - DayFromYear y ≤ 366.
Proof. unfold DayFromYear. zdiv. Qed.

Lemma DayFromYear_mono y y' : y ≤ y' → DayFromYear y ≤ DayFromYear y'.
Proof. unfold DayFromYear. zdiv. Qed.

Lemma month_spec L dy :
  0 ≤ L ≤ 1 → 0 ≤ dy < 365 + L →
  0 ≤ MonthFromDay L dy ≤ 11 ∧
  1 ≤ dy - month_start L (MonthFromDay L dy) + 1 ≤ 31.
Proof. intros HL Hd. unfold MonthFromDay. repeat case_match; simpl; lia. Qed.

(** ** Lexicographic comparison *)
Lemma clex_quot B q r q' r' :
  0 ≤ r < B → 0 ≤ r' < B → (q * B + r ?= q' * B + r') = clex (q ?= q') (r ?= r').
Proof.
  intros Hr Hr'. destruct (Z.compare_spec q q') as [->|H|H]; simpl.
  - destruct (Z.compare_spec r r') as [->|H|H];
      [apply Z.compare_refl|apply Z.compare_lt_iff; lia|apply Z.compare_gt_iff; lia].
  - apply Z.compare_lt_iff. nia.
  - apply Z.compare_gt_iff. nia.
Qed.

(** Splitting a number by a positive base compares lexicographically. *)
Lemma compare_divmod B a b :
  0 < B → (a ?= b) = clex (a / B ?= b / B) (a mod B ?= b mod B).
Proof.
  intros HB. rewrite <- (clex_quot B) by (apply Z.mod_pos_bound; lia).
  f_equal; [rewrite (Z.div_mod a B) at 1 by lia|rewrite (Z.div_mod b B) at 1 by lia]; lia.
Qed.

Lemma compare_day d d' :
  let y := YearFromDay d in let y' := YearFromDay d' in
  (d ?= d') = clex (y ?= y') (d - DayFromYear y ?= d' - DayFromYear y').
Proof.
  intros y y'. pose proof (YearFromDay_spec d) as H. pose proof (YearFromDay_spec d') as H'.
  change (YearFromDay d) with y in H. change (YearFromDay d') with y' in H'.
  clearbody y y'.
  destruct (Z.compare_spec y y') as [E|E|E]; simpl.
  - rewrite E. destruct (Z.compare_spec d d') as [->|H1|H1]; symmetry;
      [apply Z.compare_refl|apply Z.compare_lt_iff; lia|apply Z.compare_gt_iff; lia].
  - apply Z.compare_lt_iff. pose proof (DayFromYear_mono (y + 1) y'). lia.
  - apply Z.compare_gt_iff. pose proof (DayFromYear_mono (y' + 1) y). lia.
Qed.

Lemma compare_month L dy dy' :
  0 ≤ L ≤ 1 → 0 ≤ dy < 365 + L → 0 ≤ dy' < 365 + L →
  (dy ?= dy') =
  clex (MonthFromDay L dy + 1 ?= MonthFromDay L dy' + 1)
    (dy - month_start L (MonthFromDay L dy) + 1 ?=
     dy' - month_start L (MonthFromDay L dy') + 1).
Proof.
  intros HL Hd Hd'.
  assert (Hstep : ∀ e, 0 ≤ e < 365 + L →
            month_start L (MonthFromDay L e) ≤ e ∧
            ∀ m, MonthFromDay L e < m ≤ 11 → e < month_start L m).
  { intros e He. unfold MonthFromDay. repeat case_match; simpl; (split; [lia|]);
      intros m Hm; assert (m = 1 ∨ m = 2 ∨ m = 3 ∨ m = 4 ∨ m = 5 ∨ m = 6 ∨ m = 7 ∨ m = 8
        ∨ m = 9 ∨ m = 10 ∨ m = 11) as Hc by lia;
      repeat destruct Hc as [->|Hc]; try subst m; simpl; lia. }
  destruct (month_spec L dy HL Hd) as [? _], (month_spec L dy' HL Hd') as [? _].
  destruct (Hstep dy Hd) as [H1 H2], (Hstep dy' Hd') as [H3 H4].
  set (m := MonthFromDay L dy) in *. set (m' := MonthFromDay L dy') in *.
  destruct (Z.compare_spec (m + 1) (m' + 1)) as [E|E|E]; simpl.
  - replace m' with m by lia.
    destruct (Z.compare_spec dy dy') as [->|H5|H5]; symmetry;
      [apply Z.compare_refl|apply Z.compare_lt_iff; lia|apply Z.compare_gt_iff; lia].
  - apply Z.compare_lt_iff. specialize (H2 m'). lia.
  - apply Z.compare_gt_iff. specialize (H4 m). lia.
Qed.

(** ** Decimal digits *)
Lemma digit_compare a b :
  0 ≤ a < 10 → 0 ≤ b < 10 → Ascii.compare (digit a) (digit b) = (a ?= b).
Proof.
  intros Ha Hb. unfold Ascii.compare, digit. rewrite !Ascii.N_ascii_embedding by lia.
  rewrite <- (Z2N.inj_compare a b) by lia.
  destruct (N.compare_spec (48 + Z.to_N a) (48 + Z.to_N b)); symmetry;
    [apply N.compare_eq_iff|apply N.compare_lt_iff|apply N.compare_gt_iff]; lia.
Qed.

Lemma pad_length w n : String.length (pad w n) = w.
Proof. revert n. induction w; intros n; simpl; [done|]. by f_equal. Qed.

Lemma pad_compare w a b :
  0 ≤ a < 10 ^ Z.of_nat w → 0 ≤ b < 10 ^ Z.of_nat w →
  String.compare (pad w a) (pad w b) = (a ?= b).
Proof.
  revert a b. induction w as [|w IH]; intros a b Ha Hb; cbn [pad].
  - change (10 ^ Z.of_nat 0) with 1 in *. replace a with 0 by lia. by replace b with 0 by lia.
  - rewrite Nat2Z.inj_succ, Z.pow_succ_r in Ha, Hb by lia.
    assert (HB : 0 < 10 ^ Z.of_nat w) by (apply Z.pow_pos_nonneg; lia).
    cbn [String.compare]. rewrite digit_compare.
    + rewrite IH by (apply Z.mod_pos_bound; lia).
      rewrite (compare_divmod _ a b HB). by destruct (a / _ ?= b / _).
    + split; [apply Z.div_pos; lia|apply Z.div_lt_upper_bound; lia].
    + split; [apply Z.div_pos; lia|apply Z.div_lt_upper_bound; lia].
Qed.

Lemma compare_same_char x a b :
  String.compare (String x "" +:+ a) (String x "" +:+ b) = String.compare a b.
Proof. rewrite str_compare_app by done. by rewrite str_compare_refl. Qed.

(** ** Timestamps compare as instants *)
Definition iso_range (t : Z) : Prop := -62167219200000 ≤ t < 253402300800000.

Lemma iso_range_year t : iso_range t → 0 ≤ YearFromDay (t / msPerDay) ≤ 9999.
Proof.
  unfold iso_range, msPerDay. intros Ht.
  assert (-719528 ≤ t / 86400000 < 2932897) by zdiv.
  pose proof (YearFromDay_spec (t / 86400000)) as [H1 H2].
  split.
  - destruct (Z_lt_le_dec (YearFromDay (t / 86400000)) 0); [|done].
    pose proof (DayFromYear_mono (YearFromDay (t / 86400000) + 1) 0).
    change (DayFromYear 0) with (-719528) in *. lia.
  - destruct (Z_lt_le_dec 9999 (YearFromDay (t / 86400000))); [|done].
    pose proof (DayFromYear_mono 10000 (YearFromDay (t / 86400000))).
    change (DayFromYear 10000) with 2932897 in *. lia.
Qed.

Lemma compare_time_of_day a b :
  (a ?= b) =
  clex (a / 3600000 ?= b / 3600000)
    (clex (a mod 3600000 / 60000 ?= b mod 3600000 / 60000)
       (clex (a mod 60000 / 1000 ?= b mod 60000 / 1000) (a mod 1000 ?= b mod 1000))).
Proof.
  rewrite (compare_divmod 3600000) by lia. f_equal.
  rewrite (compare_divmod 60000) by lia. f_equal.
  rewrite (compare_divmod 1000) by lia. f_equal; f_equal; zdiv.
Qed.

Lemma clex_assoc a b c : clex (clex a b) c = clex a (clex b c).
Proof. by destruct a. Qed.

Lemma clex_Eq_r c : clex c Eq = c.
Proof. by destruct c. Qed.

Lemma isoString_compare t t' :
  iso_range t → iso_range t' →
  String.compare (isoString t) (isoString t') = (t ?= t').
Proof.
  intros Ht Ht'. pose proof (iso_range_year t Ht). pose proof (iso_range_year t' Ht').
  pose proof (YearFromDay_spec (t / msPerDay)). pose proof (YearFromDay_spec (t' / msPerDay)).
  pose proof (DayFromYear_step (YearFromDay (t / msPerDay))).
  pose proof (DayFromYear_step (YearFromDay (t' / msPerDay))).
  unfold isoString. rewrite (compare_divmod msPerDay t t') by done.
  assert (Hm : 0 ≤ t mod msPerDay < msPerDay) by by apply Z.mod_pos_bound.
  assert (Hm' : 0 ≤ t' mod msPerDay < msPerDay) by by apply Z.mod_pos_bound.
  set (ms := t mod msPerDay) in *. set (ms' := t' mod msPerDay) in *.
  set (d := t / msPerDay) in *. set (d' := t' / msPerDay) in *.
  unfold msPerDay in Hm, Hm'.
  rewrite (compare_day d d'), (compare_time_of_day ms ms').
  set (y := YearFromDay d) in *. set (y' := YearFromDay d') in *.
  set (dy := d - DayFromYear y). set (dy' := d' - DayFromYear y').
  assert (HL : 0 ≤ LeapDays y ≤ 1) by (unfold LeapDays; lia).
  assert (HL' : 0 ≤ LeapDays y' ≤ 1) by (unfold LeapDays; lia).
  assert (Hdy : 0 ≤ dy < 365 + LeapDays y) by (subst dy; unfold LeapDays; lia).
  assert (Hdy' : 0 ≤ dy' < 365 + LeapDays y') by (subst dy'; unfold LeapDays; lia).
  pose proof (month_spec _ _ HL Hdy). pose proof (month_spec _ _ HL' Hdy').
  unfold iso_year.
  rewrite !(proj2 (andb_true_iff _ _)) by lia.
  repeat (rewrite str_compare_app by (by rewrite ?pad_length)).
  rewrite !str_compare_refl. cbn [clex].
  rewrite !pad_compare by (simpl; first [lia | zdiv]). rewrite !clex_Eq_r.
  rewrite !clex_assoc.
  destruct (Z.compare_spec y y') as [E|E|E]; [|done|done].
  assert (EL : LeapDays y' = LeapDays y) by by rewrite E.
  rewrite EL in *. cbn [clex]. rewrite (compare_month (LeapDays y) dy dy') by lia.
  by rewrite !clex_assoc.
Qed.

Lemma isoString_cons t : ∃ c s, isoString t = String c s.
Proof. unfold isoString, iso_year. repeat case_match; eauto. Qed.

(** [s < t] on timestamps is "earlier". *)
Lemma isoString_ltb t t' :
  iso_range t → iso_range t' → String.ltb (isoString t) (isoString t') = (t <? t').
Proof.
  intros Ht Ht'. unfold String.ltb. rewrite isoString_compare by done.
  by rewrite Z.ltb_compare.
Qed.

Lemma isoString_inj t t' :
  iso_range t → iso_range t' → isoString t = isoString t' → t = t'.
Proof.
  intros Ht Ht' E. apply Z.compare_eq. rewrite <- isoString_compare by done.
  by rewrite E, str_compare_refl.
Qed.

(** ** Years beyond 9999 *)
Lemma isoString_plus t : (253402300800000 ≤ t)%Z → ∃ s, isoString t = String "+"%char s.
Proof.
  intros Ht. unfold isoString, iso_year.
  assert (9999 < YearFromDay (t / msPerDay)) as Hy.
  { pose proof (YearFromDay_spec (t / msPerDay)) as [_ H].
    assert (2932897 ≤ t / msPerDay) by (unfold msPerDay; zdiv).
    destruct (Z_lt_le_dec 9999 (YearFromDay (t / msPerDay))); [done|].
    pose proof (DayFromYear_mono (YearFromDay (t / msPerDay) + 1) 10000).
    change (DayFromYear 10000) with 2932897 in *. lia. }
  destruct (_ && _) eqn:E; [lia|]. rewrite (proj2 (Z.ltb_ge _ _)) by lia. by eexists.
Qed.

Lemma isoString_digit t :
  iso_range t → ∃ d s, 0 ≤ d < 10 ∧ isoString t = String (digit d) s.
Proof.
  intros Ht. pose proof (iso_range_year t Ht) as Hy. unfold isoString, iso_year.
  rewrite (proj2 (andb_true_iff _ _)) by lia.
  exists (YearFromDay (t / msPerDay) / 1000). eexists. split; [zdiv|reflexivity].
Qed.

Lemma plus_before_digit d s s' :
  0 ≤ d < 10 → String.ltb (String "+"%char s) (String (digit d) s') = true.
Proof.
  intros Hd. unfold String.ltb. cbn [String.compare].
  replace (Ascii.compare "+"%char (digit d)) with Lt; [done|].
  unfold Ascii.compare, digit. rewrite Ascii.N_ascii_embedding by lia.
  symmetry. apply N.compare_lt_iff. cbn. lia.
Qed.
