(* ===== verification/JsNumber.v ===== *)
(** Reading text as JavaScript does: [trim], [split], [Number(s)] and
    [Number.parseInt(s, 10)] with their exact rounding to doubles, and the
    comparison of a double with an integer. *)
From S2P Require Import Prelude JsLib.
From Stdlib Require Import Ascii.
#[local] Open Scope Z_scope.

(** ** Doubles and integers *)

(** The double nearest to an integer, ties to even. *)
Definition num_of_Z (z : Z) : number := binary_normalize 53 1024 z 0 false.

(** The double nearest to [±m * 10^e]. *)
Definition num_decimal (neg : bool) (m e : Z) : number :=
  match m with
  | Zpos p =>
      if 0 <=? e then binary_normalize 53 1024 (if neg then - (m * 10 ^ e) else m * 10 ^ e) 0 neg
      else let '(q, e', l) := SFdiv_core_binary 53 1024 m 0 (10 ^ (- e)) 0 in
           binary_round_aux 53 1024 neg q e' l
  | _ => S754_zero neg
  end.

(** [n < z] and [n > z] for a double and an integer below 2^53. *)
Definition num_ltb (n : number) (z : Z) : bool :=
  match n with
  | S754_zero _ => 0 <? z
  | S754_infinity neg => neg
  | S754_nan => false
  | S754_finite neg m e =>
      let m := if neg then Zneg m else Zpos m in
      if 0 <=? e then m * 2 ^ e <? z else m <? z * 2 ^ (- e)
  end.

Definition num_gtb (n : number) (z : Z) : bool :=
  match n with
  | S754_zero _ => z <? 0
  | S754_infinity neg => negb neg
  | S754_nan => false
  | S754_finite neg m e =>
      let m := if neg then Zneg m else Zpos m in
      if 0 <=? e then z <? m * 2 ^ e else z * 2 ^ (- e) <? m
  end.

(** [n >= z]: not less, and a number. *)
Definition num_geb (n : number) (z : Z) : bool :=
  match n with S754_nan => false | _ => negb (num_ltb n z) end.

Definition is_nan (n : number) : bool := match n with S754_nan => true | _ => false end.

(** The integer part of a finite double, towards zero. *)
Definition num_trunc (n : number) : option Z :=
  match n with
  | S754_zero _ => Some 0
  | S754_finite neg m e =>
      let a := if 0 <=? e then Zpos m * 2 ^ e else Zpos m / 2 ^ (- e) in
      Some (if neg then - a else a)
  | _ => None
  end.

(** ** Text *)

(** White space and line terminators below 256. *)
Definition is_space (c : ascii) : bool :=
  let n := nat_of_ascii c in
  ((9 <=? n) && (n <=? 13) || (n =? 32) || (n =? 160))%nat.

Fixpoint trim_start (s : string) : string :=
  match s with
  | EmptyString => ""
  | String c s' => if is_space c then trim_start s' else s
  end.

(** Without the longest suffix of characters satisfying [p]. *)
Fixpoint drop_end (p : ascii → bool) (s : string) : string :=
  match s with
  | EmptyString => ""
  | String c s' =>
      match drop_end p s' with
      | EmptyString => if p c then "" else String c ""
      | t => String c t
      end
  end.
Definition trim_end : string → string := drop_end is_space.

Definition trim (s : string) : string := trim_start (trim_end s).

(** [s.split(sep)] for a separator of one code unit. *)
Fixpoint split_on (sep : ascii) (s : string) : list string :=
  match s with
  | EmptyString => [""]
  | String c s' =>
      if decide (c = sep) then "" :: split_on sep s'
      else match split_on sep s' with
           | piece :: pieces => String c piece :: pieces
           | [] => [String c ""]
           end
  end.

(** [s.endsWith(suffix)] *)
Fixpoint ends_with (suffix s : string) : bool :=
  bool_decide (s = suffix) || match s with EmptyString => false | String _ s' => ends_with suffix s' end.

(** [s.replace(/^prefix/, by)] and [s.replace(/suffix$/, "")] *)
Definition replace_prefix (prefix by_ s : string) : string :=
  match strip prefix s with Some r => by_ +:+ r | None => s end.
Fixpoint remove_suffix (suffix s : string) : string :=
  if bool_decide (s = suffix) then ""
  else match s with EmptyString => "" | String c s' => String c (remove_suffix suffix s') end.

(** ** [Number.parseInt(s, 10)] and [Number(s)] *)
Definition is_digit (c : ascii) : bool :=
  let n := nat_of_ascii c in ((48 <=? n) && (n <=? 57))%nat.

(** The value of a digit in bases up to 16; 16 for any other character. *)
Definition digit_val (c : ascii) : Z :=
  let n := Z.of_nat (nat_of_ascii c) in
  if (48 <=? n) && (n <=? 57) then n - 48
  else if (65 <=? n) && (n <=? 70) then n - 55
  else if (97 <=? n) && (n <=? 102) then n - 87
  else 16.

Fixpoint digits_val (base acc : Z) (s : string) : Z :=
  match s with
  | EmptyString => acc
  | String c s' => digits_val base (acc * base + digit_val c) s'
  end.

(** A leading sign, and the rest. *)
Definition read_sign (s : string) : bool * string :=
  match s with
  | String "-" s' => (true, s')
  | String "+" s' => (false, s')
  | _ => (false, s)
  end.

(** [undefined] is read as the text [undefined]. *)
Definition parseInt (s : option string) : number :=
  let '(neg, s) := read_sign (trim_start (default "undefined" s)) in
  let digits := (span is_digit s).1 in
  if decide (digits = "") then S754_nan else num_decimal neg (digits_val 10 0 digits) 0.

(** What follows the mantissa: nothing, or an exponent that ends the text. *)
Definition read_exponent (s : string) : option Z :=
  match s with
  | EmptyString => Some 0
  | String c s' =>
      if bool_decide (c = "e"%char) || bool_decide (c = "E"%char) then
        let '(neg, digits) := read_sign s' in
        if bool_decide (digits ≠ "") && str_forall is_digit digits
        then Some (let e := digits_val 10 0 digits in if neg then - e else e) else None
      else None
  end.

Definition read_unsigned (neg : bool) (s : string) : option number :=
  if decide (s = "Infinity") then Some (S754_infinity neg)
  else
    let '(ip, rest) := span is_digit s in
    let '(fp, rest) := match rest with String "." r => span is_digit r | _ => ("", rest) end in
    if decide (ip +:+ fp = "") then None
    else
      e ← read_exponent rest;
      Some (num_decimal neg (digits_val 10 0 (ip +:+ fp)) (e - Z.of_nat (String.length fp))).

Definition radix_of (c : ascii) : option Z :=
  if bool_decide (c = "x"%char) || bool_decide (c = "X"%char) then Some 16
  else if bool_decide (c = "o"%char) || bool_decide (c = "O"%char) then Some 8
  else if bool_decide (c = "b"%char) || bool_decide (c = "B"%char) then Some 2
  else None.

(** An integer with a radix prefix; it has no sign. *)
Definition read_prefixed (s : string) : option number :=
  match s with
  | String "0" (String c digits) =>
      base ← radix_of c;
      if bool_decide (digits ≠ "") && str_forall (λ d, digit_val d <? base) digits
      then Some (num_of_Z (digits_val base 0 digits)) else None
  | _ => None
  end.

Definition Number (s : option string) : number :=
  match s with
  | None => S754_nan
  | Some s =>
      let s := trim s in
      if decide (s = "") then num0
      else match read_prefixed s with
           | Some n => n
           | None => let '(neg, u) := read_sign s in default S754_nan (read_unsigned neg u)
           end
  end.

(** ** Lemmas *)
Lemma num_trunc_range n z :
  num_geb n 0 = true → num_ltb n z = true → ∃ i, num_trunc n = Some i ∧ 0 ≤ i < z.
Proof.
  destruct n as [s|[]| |[] m e]; unfold num_geb, num_ltb, num_trunc; try done.
  - intros _ Hz%Z.ltb_lt. exists 0. split; [done|lia].
  - intros Hn. exfalso. apply negb_true_iff in Hn. destruct (0 <=? e) eqn:E; apply Z.ltb_ge in Hn.
    + apply Z.leb_le in E. pose proof (Z.pow_pos_nonneg 2 e). nia.
    + rewrite Z.mul_0_l in Hn. lia.
  - destruct (0 <=? e) eqn:E; intros _ Hlt%Z.ltb_lt; eexists; (split; [done|]).
    + apply Z.leb_le in E. pose proof (Z.pow_pos_nonneg 2 e). nia.
    + apply Z.leb_gt in E. pose proof (Z.pow_pos_nonneg 2 (- e)). split.
      * apply Z.div_pos; lia.
      * apply Z.div_lt_upper_bound; lia.
Qed.

(** Integers below 2^53 are represented exactly. *)
Lemma digits2_pos_low m : 2 ^ (Zpos (digits2_pos m) - 1) ≤ Zpos m.
Proof.
  induction m as [m IH|m IH|]; simpl digits2_pos; [| |done];
    rewrite Pos2Z.inj_succ, Z.sub_succ_l, Z.pow_succ_r by lia; lia.
Qed.

Lemma iter_xO m k :
  Zpos (Pos.iter xO m k) = Zpos m * 2 ^ Zpos k ∧
  Zpos (digits2_pos (Pos.iter xO m k)) = Zpos (digits2_pos m) + Zpos k.
Proof.
  induction k as [|k [IH1 IH2]] using Pos.peano_ind; [simpl; lia|].
  rewrite Pos.iter_succ. simpl digits2_pos. split; [|lia].
  rewrite Pos2Z.inj_xO, IH1, Pos2Z.inj_succ, Z.pow_succ_r by lia. lia.
Qed.

Lemma binary_round_aux_exact m e :
  Z.max (Zpos (digits2_pos m) + e - 53) (-1074) = e → e ≤ 971 →
  binary_round_aux 53 1024 false (Zpos m) e loc_Exact = S754_finite false m e.
Proof.
  intros Hf He. unfold binary_round_aux.
  assert (shr_fexp 53 1024 (Zpos m) e loc_Exact = (Build_shr_record (Zpos m) false false, e)) as Hs.
  { unfold shr_fexp, fexp, emin, Zdigits2. change (3 - 1024 - 53) with (-1074).
    by rewrite Hf, Z.sub_diag. }
  rewrite Hs. cbn [shr_m loc_of_shr_record round_nearest_even]. rewrite Hs. cbn [shr_m].
  by rewrite (proj2 (Z.leb_le e (1024 - 53))) by lia.
Qed.

Lemma num_trunc_of_Z z : 0 ≤ z < 2 ^ 53 → num_trunc (num_of_Z z) = Some z.
Proof.
  intros [H0 Hz]. destruct z as [|m|m]; [done| |lia].
  assert (Zpos (digits2_pos m) ≤ 53) as Hd.
  { pose proof (digits2_pos_low m). apply Z.lt_succ_r, Z.lt_pred_lt_succ.
    apply (Z.pow_lt_mono_r_iff 2); lia. }
  unfold num_of_Z, binary_normalize, binary_round, shl_align, fexp, emin.
  change (3 - 1024 - 53) with (-1074). rewrite Z.add_0_r, Z.sub_0_r.
  destruct (Z.max (Zpos (digits2_pos m) - 53) (-1074)) as [|k|k] eqn:Ek; [|lia|].
  - rewrite binary_round_aux_exact by lia. cbn. by rewrite Z.mul_1_r.
  - destruct (iter_xO m k) as [Hv Hk]. rewrite binary_round_aux_exact by lia.
    unfold num_trunc. change (0 <=? Z.neg k) with false. cbn [Z.opp]. rewrite Hv, Z.div_mul; [done|].
    pose proof (Z.pow_pos_nonneg 2 (Zpos k)). lia.
Qed.

Lemma num_gtb_nan n z : num_gtb n z = true → is_nan n = false.
Proof. by destruct n. Qed.

Lemma split_on_nonempty sep s : ∃ p ps, split_on sep s = p :: ps.
Proof.
  destruct s as [|c s]; simpl; [eauto|]. case_decide; [eauto|].
  destruct (split_on sep s); eauto.
Qed.

Lemma split_on_piece sep p :
  str_forall (λ c, bool_decide (c ≠ sep)) p = true → split_on sep p = [p].
Proof.
  induction p as [|c p IH]; simpl; [done|]. intros [Hc%bool_decide_eq_true Hp]%andb_prop.
  rewrite decide_False by done. by rewrite IH.
Qed.

Lemma split_on_app sep p s :
  str_forall (λ c, bool_decide (c ≠ sep)) p = true →
  split_on sep (p +:+ String sep s) = p :: split_on sep s.
Proof.
  induction p as [|c p IH]; intros Hp.
  - change ("" +:+ String sep s) with (String sep s). simpl. by rewrite decide_True.
  - simpl in Hp. apply andb_prop in Hp as [Hc%bool_decide_eq_true Hp].
    change (String c p +:+ String sep s) with (String c (p +:+ String sep s)). simpl.
    rewrite decide_False by done. by rewrite IH.
Qed.

(** [l.join(sep).split(sep)] *)
Lemma split_on_join sep ps :
  ps ≠ [] → Forall (λ p, str_forall (λ c, bool_decide (c ≠ sep)) p = true) ps →
  split_on sep (join (String sep "") ps) = ps.
Proof.
  intros Hne Hps. induction Hps as [|p ps Hp Hps IH]; [done|].
  destruct ps as [|q ps]; [by apply split_on_piece|].
  change (join (String sep "") (p :: q :: ps)) with
    (p +:+ String sep (join (String sep "") (q :: ps))).
  rewrite split_on_app by done. by rewrite IH.
Qed.

Lemma drop_end_app p a b : drop_end p b ≠ "" → drop_end p (a +:+ b) = a +:+ drop_end p b.
Proof.
  intros Hb. induction a as [|c a IH]; [done|].
  change (String c a +:+ b) with (String c (a +:+ b)). simpl. rewrite IH.
  change (String c a +:+ drop_end p b) with (String c (a +:+ drop_end p b)).
  destruct a as [|c' a]; [|done]. change ("" +:+ drop_end p b) with (drop_end p b).
  by destruct (drop_end p b).
Qed.

Lemma drop_end_all p a b : str_forall p b = true → drop_end p (a +:+ b) = drop_end p a.
Proof.
  intros Hb. assert (drop_end p b = "") as E.
  { induction b as [|c b IH]; [done|]. simpl in *. apply andb_prop in Hb as [Hc Hb].
    by rewrite IH, Hc. }
  induction a as [|c a IH]; [exact E|]. change (String c a +:+ b) with (String c (a +:+ b)). simpl.
  by rewrite IH.
Qed.

Lemma drop_end_none p s :
  str_forall (λ c, negb (p c)) s = true → drop_end p s = s.
Proof.
  induction s as [|c s IH]; simpl; [done|]. intros [Hc Hs]%andb_prop. rewrite (IH Hs).
  destruct s; [|done]. by destruct (p c).
Qed.

Lemma app_suffix_neq c a s : String c (a +:+ s) ≠ s.
Proof.
  intros E. apply (f_equal String.length) in E. simpl in E. rewrite str_length_app in E. lia.
Qed.

Lemma ends_with_app a s : ends_with s (a +:+ s) = true.
Proof.
  induction a as [|c a IH].
  - change ("" +:+ s) with s. destruct s; [done|]. simpl. by rewrite bool_decide_eq_true_2.
  - change (String c a +:+ s) with (String c (a +:+ s)). simpl. by rewrite IH, orb_true_r.
Qed.

Lemma remove_suffix_app a s : remove_suffix s (a +:+ s) = a.
Proof.
  induction a as [|c a IH].
  - change ("" +:+ s) with s. destruct s; [done|]. simpl. by rewrite bool_decide_eq_true_2.
  - change (String c a +:+ s) with (String c (a +:+ s)). simpl.
    rewrite bool_decide_eq_false_2 by apply app_suffix_neq. by rewrite IH.
Qed.

Lemma remove_suffix_none s t : ends_with s t = false → remove_suffix s t = t.
Proof.
  induction t as [|c t IH]; simpl; intros [Hb Ht]%orb_false_iff; rewrite Hb; [done|]. by rewrite IH.
Qed.

Lemma ends_with_long s a b :
  (String.length s ≤ String.length b)%nat → ends_with s (a +:+ b) = ends_with s b.
Proof.
  intros Hl. induction a as [|c a IH]; [done|].
  change (String c a +:+ b) with (String c (a +:+ b)). simpl. rewrite IH, bool_decide_eq_false_2; [done|].
  intros <-. simpl in Hl. rewrite str_length_app in Hl. lia.
Qed.

Lemma ends_with_char p s c t :
  p c = false → str_forall p t = true → ends_with (String c s) t = false.
Proof.
  intros Hc. induction t as [|d t IH]; simpl; intros Ht; [done|]. apply andb_prop in Ht as [Hd Ht].
  rewrite (IH Ht), orb_false_r. apply bool_decide_eq_false_2. intros [= -> _]. congruence.
Qed.

(** ** Some readings *)
Example Number_readings :
  (λ s, Number (Some s)) <$> [""; " 12 "; "-0"; "0x1F"; "1e3"; "-Infinity"; "0b2"; "1_0"; "."; "+"; "0.1"] =
  [num0; num_of_Z 12; S754_zero true; num_of_Z 31; num_of_Z 1000; S754_infinity true; S754_nan;
   S754_nan; S754_nan; S754_nan; S754_finite false 7205759403792794 (-56)].
Proof. vm_compute. reflexivity. Qed.

Example parseInt_readings :
  parseInt <$> [None; Some " 12abc"; Some "-7"; Some "x1"; Some "1.9"; Some ""; Some "9007199254740993"] =
  [S754_nan; num_of_Z 12; num_of_Z (-7); S754_nan; num_of_Z 1; S754_nan; num_of_Z 9007199254740992].
Proof. vm_compute. reflexivity. Qed.
