(* ===== verification/Platform.v ===== *)
(** Interfaces to the code outside the repository: hashing, base58 and base64
    codecs, locale collation and the SQL engine.  Each is a class of operations
    with a class of the laws the skill relies on; [Sample] gives concrete
    instances, used to evaluate the definitions on concrete inputs. *)
From S2P Require Import Prelude JsLib JsNumber.
From Stdlib Require Import Ascii.

(** ** node:crypto *)
Class Sha256 : Type := {
  sha256 : list Byte.byte → list Byte.byte;        (** [.digest()] of bytes *)
  sha256_hex : string → string                     (** [.digest("hex")] of a string *)
}.
Class Sha256Laws `{Sha256} : Prop := {
  sha256_length bs : length (sha256 bs) = 32;
  sha256_hex_nonempty s : sha256_hex s ≠ ""
}.

(** ** bs58: [decode] throws on a character outside the alphabet *)
Definition char_in (lo hi : ascii) (c : ascii) : bool :=
  (N.leb (N_of_ascii lo) (N_of_ascii c) && N.leb (N_of_ascii c) (N_of_ascii hi))%bool.

(** [[1-9A-HJ-NP-Za-km-z]] *)
Definition is_base58 (c : ascii) : bool :=
  char_in "1" "9" c || char_in "A" "H" c || char_in "J" "N" c || char_in "P" "Z" c
  || char_in "a" "k" c || char_in "m" "z" c.

Class Base58 : Type := {
  bs58_encode : list Byte.byte → string;
  bs58_decode : string → option (list Byte.byte)
}.
Class Base58Laws `{Base58} : Prop := {
  bs58_roundtrip bs : bs58_decode (bs58_encode bs) = Some bs;
  bs58_alphabet bs : str_forall is_base58 (bs58_encode bs) = true;
  bs58_nonempty bs : bs ≠ [] → bs58_encode bs ≠ ""
}.

(** ** [Buffer]'s base64: decoding ignores what it cannot read *)
Class Base64 : Type := {
  base64_encode : list Byte.byte → string;
  base64_decode : string → list Byte.byte
}.
Class Base64Laws `{Base64} : Prop := {
  base64_roundtrip bs : base64_decode (base64_encode bs) = bs;
  base64_nonempty bs : bs ≠ [] → base64_encode bs ≠ ""
}.

(** ** [String.prototype.localeCompare]: a consistent comparison *)
Class Locale : Type := { localeCompare : string → string → Z }.
Class LocaleLaws `{Locale} : Prop := {
  locale_total s t : (localeCompare s t ≤ 0)%Z ∨ (localeCompare t s ≤ 0)%Z;
  locale_trans s t u :
    (localeCompare s t ≤ 0)%Z → (localeCompare t u ≤ 0)%Z → (localeCompare s u ≤ 0)%Z
}.

(** ** SQLite: [ORDER BY] sorts; the order of ties is its own *)
Class SqlEngine : Type := { order_by : ∀ {A : Type}, (A → A → bool) → list A → list A }.
Class SqlLaws `{SqlEngine} : Prop := {
  order_by_perm {A} (leb : A → A → bool) l : order_by leb l ≡ₚ l;
  order_by_sorted {A} (leb : A → A → bool) l :
    (∀ x y, leb x y = true ∨ leb y x = true) →
    (∀ x y z, leb x y = true → leb y z = true → leb x z = true) →
    StronglySorted (λ x y, leb x y = true) (order_by leb l)
}.

(** How a JS number binds to the parameter of a [LIMIT] or [OFFSET]: an integer
    below 2^53 is that integer; the driver and the engine refuse or convert the others. *)
Class SqlBind : Type := { sql_integer : number → res Z }.
Class SqlBindLaws `{SqlBind} : Prop := {
  sql_integer_small z : (0 ≤ z < 2 ^ 53)%Z → sql_integer (num_of_Z z) = Ok z
}.

(** [LIMIT limit OFFSET offset]: a negative limit is no limit. *)
Definition sql_limit {A} (limit offset : Z) (l : list A) : list A :=
  let l' := drop (Z.to_nat offset) l in
  if (limit <? 0)%Z then l' else take (Z.to_nat limit) l'.

Section sql.
Context `{SqlLaws} {A : Type} (leb : A → A → bool).
Hypothesis leb_total : ∀ x y, leb x y = true ∨ leb y x = true.
Hypothesis leb_trans : ∀ x y z, leb x y = true → leb y z = true → leb x z = true.

(** When no two elements tie, every engine gives the same answer. *)
Lemma order_by_unique l l' :
  l' ≡ₚ l →
  StronglySorted (λ x y, leb x y = true) l' →
  (∀ x y, x ∈ l → y ∈ l → leb x y = true → leb y x = true → x = y) →
  order_by leb l = l'.
Proof using All.
  intros Hp Hs Hanti.
  apply (StronglySorted_unique_strong (λ x y, leb x y = true)); [|by apply order_by_sorted|done|].
  - intros x y Hx Hy. rewrite (order_by_perm leb l) in Hx. rewrite Hp in Hy. auto.
  - by rewrite (order_by_perm leb l), Hp.
Qed.
End sql.

(** ** Concrete instances *)
Module Sample.
Definition hex_digits : list ascii :=
  ["1"; "2"; "3"; "4"; "5"; "6"; "7"; "8"; "9"; "A"; "B"; "C"; "D"; "E"; "F"; "G"]%char.
Definition hex_digit (n : N) : ascii := default "1"%char (hex_digits !! N.to_nat n).
Definition hex_value (c : ascii) : option N :=
  N.of_nat ∘ fst <$> list_find (c =.) hex_digits.

Fixpoint encode (bs : list Byte.byte) : string :=
  match bs with
  | [] => ""
  | b :: bs' =>
      String (hex_digit (Byte.to_N b / 16)) (String (hex_digit (Byte.to_N b mod 16)) (encode bs'))
  end.

Fixpoint decode (s : string) : option (list Byte.byte) :=
  match s with
  | EmptyString => Some []
  | String c (String d s') =>
      h ← hex_value c; l ← hex_value d; b ← Byte.of_N (16 * h + l);
      bs ← decode s'; Some (b :: bs)
  | _ => None
  end.

Lemma decode_encode bs : decode (encode bs) = Some bs.
Proof.
  induction bs as [|b bs IH]; [done|]. simpl encode. cbn [decode]. rewrite IH.
  by destruct b.
Qed.

Lemma encode_alphabet bs : str_forall is_base58 (encode bs) = true.
Proof. induction bs as [|b bs IH]; [done|]. simpl. rewrite IH. by destruct b. Qed.

Lemma encode_nonempty bs : bs ≠ [] → encode bs ≠ "".
Proof. by destruct bs. Qed.

#[export] Instance base58 : Base58 := {| bs58_encode := encode; bs58_decode := decode |}.
#[export] Instance base58_laws : Base58Laws.
Proof. split; [apply decode_encode|apply encode_alphabet|apply encode_nonempty]. Qed.

#[export] Instance base64 : Base64 :=
  {| base64_encode := encode; base64_decode := λ s, default [] (decode s) |}.
#[export] Instance base64_laws : Base64Laws.
Proof. split; [intros; simpl; by rewrite decode_encode|apply encode_nonempty]. Qed.

(** A hash that keeps its input, with a mark. *)
#[export] Instance sha : Sha256 :=
  {| sha256 := λ bs, take 32 (bs ++ replicate 32 Byte.x00); sha256_hex := λ s, "#" +:+ s |}.
#[export] Instance sha_laws : Sha256Laws.
Proof.
  split; [|done]. intros bs. cbn [sha256 sha]. rewrite length_take, length_app, length_replicate. lia.
Qed.

#[export] Instance locale : Locale :=
  {| localeCompare := λ s t,
       match String.compare s t with Lt => -1 | Eq => 0 | Gt => 1 end%Z |}.
Lemma locale_leb s t : (localeCompare s t ≤ 0)%Z ↔ String.leb s t = true.
Proof. simpl. unfold String.leb. by destruct (String.compare s t). Qed.
#[export] Instance locale_laws : LocaleLaws.
Proof.
  split; intros; rewrite ?locale_leb in *; [apply str_leb_total|by eapply str_leb_trans].
Qed.

#[export] Instance sql : SqlEngine := {| order_by := λ A leb l, stable_sort leb l |}.
#[export] Instance sql_laws : SqlLaws.
Proof. split; intros; [apply stable_sort_perm|by apply stable_sort_sorted]. Qed.

#[export] Instance sql_bind : SqlBind :=
  {| sql_integer := λ n, match num_trunc n with Some z => Ok z | None => Throw "datatype mismatch" end |}.
#[export] Instance sql_bind_laws : SqlBindLaws.
Proof. split. intros z Hz. cbn. by rewrite num_trunc_of_Z. Qed.
End Sample.
