(* ===== verification/Identity.v ===== *)
(** [identity.ts]: pinch addresses, [pinch:<base58(pubkey + checksum)>@<host>].
    The key file is in KeyFile. *)
From S2P Require Import Prelude JsLib Platform.
From stdpp Require Import pretty.
From Stdlib Require Import Ascii.

Record Keypair : Type := mkKeypair {
  publicKey : list Byte.byte;
  privateKey : list Byte.byte
}.

(** ** [ADDRESS_REGEX = /^pinch:([1-9A-HJ-NP-Za-km-z]+)@(.+)$/] *)

(** [.]: any character but a line terminator. *)
Definition is_dot (c : ascii) : bool :=
  negb (bool_decide (c = "010"%char) || bool_decide (c = "013"%char)).

(** The class of the first group does not contain ["@"], so the greedy match is
    the only one. *)
Definition ADDRESS_REGEX (addr : string) : option (string * string) :=
  rest ← strip "pinch:" addr;
  let '(payload, rest) := span is_base58 rest in
  host ← strip "@" rest;
  if bool_decide (payload ≠ "") && bool_decide (host ≠ "") && str_forall is_dot host
  then Some (payload, host) else None.

Section identity.
Context `{Sha256, Base58}.

(** [payload.set(pubKey)] throws when the key is longer than the payload. *)
Definition generateAddress (pubKey : list Byte.byte) (relayHost : string) : res string :=
  let checksum := take 4 (sha256 pubKey) in
  match u8_set pubKey 0 (replicate 36 Byte.x00) ≫= u8_set checksum 32 with
  | Some payload => Ok ("pinch:" +:+ bs58_encode payload +:+ "@" +:+ relayHost)
  | None => Throw "offset is out of bounds"
  end.

Definition validateAddress (addr : string) : res (list Byte.byte * string) :=
  match ADDRESS_REGEX addr with
  | None => Throw ("Invalid address format: " +:+ addr)
  | Some (encodedPayload, host) =>
      match bs58_decode encodedPayload with
      | None => Throw "Non-base58 character"
      | Some decoded =>
          if bool_decide (length decoded ≠ 36) then
            Throw ("Invalid address payload length: expected 36, got " +:+ pretty (length decoded))
          else
            let pubKey := take 32 decoded in
            let checksum := take 4 (drop 32 decoded) in
            let expectedChecksum := take 4 (sha256 pubKey) in
            if bool_decide (checksum = expectedChecksum)
            then Ok (pubKey, host) else Throw "Address checksum mismatch"
      end
  end.
End identity.

(** ** The format determines its parts *)
Lemma ADDRESS_REGEX_complete payload host :
  str_forall is_base58 payload = true → payload ≠ "" →
  host ≠ "" → str_forall is_dot host = true →
  ADDRESS_REGEX ("pinch:" +:+ payload +:+ "@" +:+ host) = Some (payload, host).
Proof.
  intros Hp Hne Hh Hd. unfold ADDRESS_REGEX. rewrite strip_app. simpl.
  change ("@" +:+ host) with (String "@" host). rewrite span_app by done.
  change (String "@" host) with ("@" +:+ host). rewrite strip_app. simpl.
  by rewrite !bool_decide_eq_true_2, Hd by done.
Qed.

Lemma u8_set_exact src off dst :
  off + length src = length dst →
  u8_set src off dst = Some (take off dst ++ src).
Proof.
  intros Hl. unfold u8_set. rewrite (proj2 (Nat.leb_le _ _)) by lia.
  rewrite drop_ge by lia. by rewrite app_nil_r.
Qed.

Lemma payload_layout pubKey checksum :
  length pubKey = 32 → length checksum = 4 →
  u8_set pubKey 0 (replicate 36 Byte.x00) ≫= u8_set checksum 32 = Some (pubKey ++ checksum).
Proof.
  intros Hk Hc. unfold u8_set at 2. rewrite length_replicate, Hk. cbn [Nat.leb Nat.add mbind option_bind].
  rewrite take_0, app_nil_l, u8_set_exact.
  - by rewrite take_app_length' by done.
  - rewrite length_app, length_drop, length_replicate. lia.
Qed.

Lemma address_roundtrip_of `{Sha256Laws, Base58Laws} pubKey host :
  length pubKey = 32 → host ≠ "" → str_forall is_dot host = true →
  ∃ addr, generateAddress pubKey host = Ok addr ∧ validateAddress addr = Ok (pubKey, host).
Proof.
  intros Hk Hh Hd. unfold generateAddress.
  assert (Hc : length (take 4 (sha256 pubKey)) = 4) by (rewrite length_take, sha256_length; lia).
  rewrite payload_layout by done. eexists; split; [done|].
  unfold validateAddress.
  rewrite ADDRESS_REGEX_complete; try done.
  - rewrite bs58_roundtrip, length_app, Hk, Hc. simpl.
    rewrite take_app_length', drop_app_length' by done.
    rewrite (take_ge (take 4 _)) by (rewrite Hc; lia). by rewrite bool_decide_eq_true_2.
  - apply bs58_alphabet.
  - apply bs58_nonempty. by destruct pubKey.
Qed.

(** Round trip: the address generated for a 32-byte key and a host (non-empty,
    on one line) validates, and gives back exactly that key and host. *)
Theorem address_roundtrip `{Sha256Laws, Base58Laws} pubKey host :
  length pubKey = 32 → host ≠ "" → str_forall is_dot host = true →
  ∃ addr, generateAddress pubKey host = Ok addr ∧ validateAddress addr = Ok (pubKey, host).
Proof. apply address_roundtrip_of. Qed.

Import Sample.
Lemma address_roundtrip_witness :
  ∃ addr, generateAddress (replicate 32 Byte.x41) "localhost" = Ok addr ∧
          validateAddress addr = Ok (replicate 32 Byte.x41, "localhost").
Proof. apply (address_roundtrip (replicate 32 Byte.x41) "localhost"); done. Defined.

(** An accepted address carries its own proof: the payload decodes to the key
    followed by the first four bytes of the key's hash, so changing any checksum
    byte, or the key to one with another checksum, is refused. *)
Theorem validateAddress_sound `{Sha256, Base58} addr pubKey host :
  validateAddress addr = Ok (pubKey, host) →
  ∃ payload, addr = "pinch:" +:+ payload +:+ "@" +:+ host ∧
    bs58_decode payload = Some (pubKey ++ take 4 (sha256 pubKey)) ∧
    length pubKey = 32 ∧ length (take 4 (sha256 pubKey)) = 4.
Proof.
  unfold validateAddress, ADDRESS_REGEX. intros Hv.
  destruct (strip "pinch:" addr) as [rest|] eqn:E1; simpl in Hv; [|done].
  destruct (span is_base58 rest) as [payload rest'] eqn:E2.
  destruct (strip "@" rest') as [h|] eqn:E3; simpl in Hv; [|done].
  destruct (_ && _) eqn:E4; [|done].
  destruct (bs58_decode payload) as [dec|] eqn:E5; [|done].
  destruct (bool_decide_reflect (length dec ≠ 36)) as [|Hl]; [done|].
  apply dec_stable in Hl.
  case_bool_decide as Hc; [|done]. injection Hv as <- <-.
  exists payload. apply strip_Some in E1 as ->, E3 as ->.
  apply span_Some in E2 as ->. split; [done|].
  assert (Hd : take 4 (drop 32 dec) = drop 32 dec) by (apply take_ge; rewrite length_drop; lia).
  rewrite <- Hc, Hd, take_drop. split; [done|].
  rewrite length_take, length_drop. lia.
Qed.

Lemma validateAddress_sound_witness :
  ∃ payload, bs58_decode payload = Some (replicate 36 Byte.x41).
Proof.
  assert (H : validateAddress ("pinch:" +:+ Sample.encode (replicate 36 Byte.x41) +:+ "@localhost")
              = Ok (replicate 32 Byte.x41, "localhost")) by (vm_compute; reflexivity).
  destruct (validateAddress_sound _ _ _ H) as (p & _ & Hp & _). exists p. exact Hp.
Defined.
