(* ===== verification/PermissionsManifest.v ===== *)
(** [autonomy/permissions-manifest.ts]: the capability tiers of a connection,
    the deny-all default and the validation that gates [setPermissions]. *)
From S2P Require Import Prelude JsLib.

Inductive CalendarPermission : Type :=
| cal_none | cal_free_busy_only | cal_full_details | cal_propose_and_book.
Inductive FilePermission : Type :=
| files_none | files_specific_folders | files_everything.
Inductive ActionPermission : Type :=
| actions_none | actions_scoped | actions_full.

#[export] Instance CalendarPermission_eq_dec : EqDecision CalendarPermission.
Proof. solve_decision. Defined.
#[export] Instance FilePermission_eq_dec : EqDecision FilePermission.
Proof. solve_decision. Defined.
#[export] Instance ActionPermission_eq_dec : EqDecision ActionPermission.
Proof. solve_decision. Defined.

(** Caps in USD; the numbers are JS doubles. *)
Record SpendingCaps : Type := mkCaps {
  perTransaction : number;
  perDay : number;
  perConnection : number
}.

Record CustomCategory : Type := mkCategory {
  cat_name : string;
  cat_description : string;
  cat_allowed : bool
}.

Record PermissionsManifest : Type := mkManifest {
  calendar : CalendarPermission;
  files : FilePermission;
  allowedFolders : option (list string);
  actions : ActionPermission;
  actionScopes : option (list string);
  spending : SpendingCaps;
  informationBoundaries : list string;
  customCategories : list CustomCategory
}.

#[export] Instance SpendingCaps_eq_dec : EqDecision SpendingCaps.
Proof. solve_decision. Defined.
#[export] Instance CustomCategory_eq_dec : EqDecision CustomCategory.
Proof. solve_decision. Defined.
#[export] Instance PermissionsManifest_eq_dec : EqDecision PermissionsManifest.
Proof. solve_decision. Defined.

Definition defaultPermissionsManifest : PermissionsManifest := {|
  calendar := cal_none;
  files := files_none;
  allowedFolders := None;
  actions := actions_none;
  actionScopes := None;
  spending := mkCaps num0 num0 num0;
  informationBoundaries := [];
  customCategories := []
|}.

(** [!xs || xs.length === 0] *)
Definition missing_or_empty (xs : option (list string)) : bool :=
  match xs with None => true | Some l => bool_decide (l = []) end.

Definition push_if (b : bool) (msg : string) (errors : list string) : list string :=
  if b then errors ++ [msg] else errors.

Definition validateManifest (m : PermissionsManifest) : list string :=
  let errors := [] in
  let errors := push_if
    (bool_decide (files m = files_specific_folders) && missing_or_empty (allowedFolders m))
    "files is 'specific_folders' but allowedFolders is empty or undefined" errors in
  let errors := push_if
    (bool_decide (actions m = actions_scoped) && missing_or_empty (actionScopes m))
    "actions is 'scoped' but actionScopes is empty or undefined" errors in
  let errors := push_if (num_neg (perTransaction (spending m)))
    "spending.perTransaction must not be negative" errors in
  let errors := push_if (num_neg (perDay (spending m)))
    "spending.perDay must not be negative" errors in
  push_if (num_neg (perConnection (spending m)))
    "spending.perConnection must not be negative" errors.

(** ** What validation means *)

(** A cap validation accepts: any number that is not below zero, NaN included. *)
Inductive cap_ok : number → Prop :=
| cap_zero s : cap_ok (S754_zero s)
| cap_inf : cap_ok (S754_infinity false)
| cap_nan : cap_ok S754_nan
| cap_pos m e : cap_ok (S754_finite false m e).

Record manifest_ok (m : PermissionsManifest) : Prop := {
  ok_folders : files m = files_specific_folders →
               ∃ f fs, allowedFolders m = Some (f :: fs);
  ok_scopes : actions m = actions_scoped → ∃ s ss, actionScopes m = Some (s :: ss);
  ok_tx : cap_ok (perTransaction (spending m));
  ok_day : cap_ok (perDay (spending m));
  ok_conn : cap_ok (perConnection (spending m))
}.

Lemma num_neg_cap_ok n : num_neg n = false ↔ cap_ok n.
Proof.
  destruct n as [s|[]| |[] m e]; cbn; split; intros H; try done; try constructor;
    inversion H.
Qed.

Lemma missing_or_empty_false xs :
  missing_or_empty xs = false ↔ ∃ x l, xs = Some (x :: l).
Proof.
  destruct xs as [[|x l]|]; cbn; split; try naive_solver.
Qed.

Lemma push_if_nil b msg l : push_if b msg l = [] ↔ b = false ∧ l = [].
Proof. destruct b, l; naive_solver. Qed.

(** [validateManifest] returns no error exactly on the well-formed
    manifests: scoped tiers come with a non-empty scope list and no spending cap
    is below zero (NaN passes). *)
Theorem validateManifest_nil_iff m : validateManifest m = [] ↔ manifest_ok m.
Proof.
  unfold validateManifest. rewrite !push_if_nil, !num_neg_cap_ok, !andb_false_iff,
    !bool_decide_eq_false, !missing_or_empty_false.
  split.
  - intros (? & ? & ? & Ha & Hf & _). split; try done; intros; naive_solver.
  - intros [Hf Ha ? ? ?]. repeat split; try done.
    + destruct (decide (actions m = actions_scoped)); naive_solver.
    + destruct (decide (files m = files_specific_folders)); naive_solver.
Qed.

Lemma default_manifest_ok : validateManifest defaultPermissionsManifest = [].
Proof. reflexivity. Qed.
