(* ===== verification/ConnectionStore.v ===== *)
(** [connection-store.ts]: the JSON-backed store of connections.

    The store object holds [data] and the file behind it.  [StoreFile] is what
    the file holds: nothing, text that is not JSON, or the text of a
    [StoreData], which StoreText writes and reads back; Saving has [save] as the
    asynchronous function it is. *)
From S2P Require Import Prelude JsLib JsDate Platform Identity PermissionsManifest.

(** ** Data *)
Inductive ConnectionState : Type :=
| active | pending_outbound | pending_inbound | blocked | revoked.

Definition state_text (s : ConnectionState) : string :=
  match s with
  | active => "active" | pending_outbound => "pending_outbound"
  | pending_inbound => "pending_inbound" | blocked => "blocked" | revoked => "revoked"
  end.

(** The four tiers, and any other string a hand-edited store file may hold. *)
Inductive AutonomyLevel : Type :=
| full_manual | notify | auto_respond | full_auto | level_other (s : string).

#[export] Instance ConnectionState_eq_dec : EqDecision ConnectionState.
Proof. solve_decision. Defined.
#[export] Instance AutonomyLevel_eq_dec : EqDecision AutonomyLevel.
Proof. solve_decision. Defined.

(** [None] is [undefined].  [peerPublicKey] can become [undefined] at run time
    ([Object.assign] copies an [undefined] property). *)
Record Connection : Type := mkConnection {
  peerAddress : string;
  peerPublicKey : option string;
  cstate : ConnectionState;
  nickname : string;
  autonomyLevel : AutonomyLevel;
  autoRespondPolicy : option string;
  circuitBreakerTripped : option bool;
  permissionsManifest : option PermissionsManifest;
  muted : option bool;
  passthrough : option bool;
  shortMessage : option string;
  createdAt : string;
  lastActivity : string;
  expiresAt : option string
}.

#[export] Instance Connection_eq_dec : EqDecision Connection.
Proof. solve_decision. Defined.

Record StoreData : Type := mkStoreData {
  version : Z;
  connections : list (string * Connection)
}.

Inductive StoreFile : Type :=
| NoFile | NotJson (text : string) | Json (d : StoreData).

Record ConnectionStore : Type := mkStore {
  data : StoreData;
  file : StoreFile
}.

Definition emptyData : StoreData := mkStoreData 1 [].
Definition newStore (f : StoreFile) : ConnectionStore := mkStore emptyData f.

Definition STATE_PRIORITY (s : ConnectionState) : Z :=
  match s with
  | active => 0 | pending_inbound => 1 | pending_outbound => 2 | revoked => 3 | blocked => 4
  end.

Definition MAX_SHORT_MESSAGE_LENGTH : nat := 280.

Definition set_connections (f : list (string * Connection) → list (string * Connection))
    (st : ConnectionStore) : ConnectionStore :=
  mkStore (mkStoreData (version (data st)) (f (connections (data st)))) (file st).

(** ** Persistence *)
Definition load : M ConnectionStore unit := modify (λ st,
  mkStore (match file st with Json d => d | _ => emptyData end) (file st)).

Definition save : M ConnectionStore unit := modify (λ st, mkStore (data st) (Json (data st))).

(** ** Reads *)
Definition getConnection (addr : string) (st : ConnectionStore) : option Connection :=
  Obj.get addr (connections (data st)).

Section list_connections.
Context `{Locale}.

(** The comparator passed to [sort]. *)
Definition compareConnections (a b : Connection) : Z :=
  let priorityDiff := (STATE_PRIORITY (cstate a) - STATE_PRIORITY (cstate b))%Z in
  if bool_decide (priorityDiff ≠ 0%Z) then priorityDiff
  else localeCompare (lastActivity b) (lastActivity a).

Definition listConnections (filter_state : option ConnectionState) (st : ConnectionStore)
    : list Connection :=
  let cs := Obj.values (connections (data st)) in
  let cs := match filter_state with
            | Some s => filter (λ c, cstate c = s) cs
            | None => cs
            end in
  stable_sort (λ a b, (compareConnections a b <=? 0)%Z) cs.
End list_connections.

(** ** Updates; [now] is the instant of the [new Date()] of the call *)

(** The argument of [addConnection]: [Omit<Connection, "createdAt" | "lastActivity">],
    with the two fields the body defaults. *)
Record ConnectionInput : Type := mkInput {
  in_peerAddress : string;
  in_peerPublicKey : string;
  in_state : ConnectionState;
  in_nickname : string;
  in_autonomyLevel : option AutonomyLevel;
  in_permissionsManifest : option PermissionsManifest;
  in_shortMessage : option string;
  in_expiresAt : option string
}.

Definition addConnection (now : Z) (conn : ConnectionInput) : M ConnectionStore Connection :=
  if truthy_str (in_shortMessage conn) &&
     (MAX_SHORT_MESSAGE_LENGTH <? String.length (default "" (in_shortMessage conn)))%nat
  then throw "shortMessage exceeds 280 character limit"
  else
    let now := isoString now in
    let connection := {|
      peerAddress := in_peerAddress conn;
      peerPublicKey := Some (in_peerPublicKey conn);
      cstate := in_state conn;
      nickname := in_nickname conn;
      autonomyLevel := default full_manual (in_autonomyLevel conn);
      autoRespondPolicy := None;
      circuitBreakerTripped := None;
      permissionsManifest :=
        Some (default defaultPermissionsManifest (in_permissionsManifest conn));
      muted := None;
      passthrough := None;
      shortMessage := in_shortMessage conn;
      createdAt := now;
      lastActivity := now;
      expiresAt := in_expiresAt conn
    |} in
    modify (set_connections (Obj.set (peerAddress connection) connection));;
    mret connection.

(** The [updates] argument: [None] is a key that is absent.  Only [peerPublicKey]
    is ever present with the value [undefined]. *)
Record ConnectionUpdates : Type := mkUpdates {
  upd_state : option ConnectionState;
  upd_nickname : option string;
  upd_autonomyLevel : option AutonomyLevel;
  upd_peerPublicKey : option (option string);
  upd_lastActivity : option string;
  upd_autoRespondPolicy : option string;
  upd_circuitBreakerTripped : option bool;
  upd_permissionsManifest : option PermissionsManifest;
  upd_muted : option bool;
  upd_passthrough : option bool
}.

Definition no_updates : ConnectionUpdates :=
  mkUpdates None None None None None None None None None None.
Definition with_state (s : ConnectionState) : ConnectionUpdates :=
  mkUpdates (Some s) None None None None None None None None None.
Definition with_nickname (n : string) : ConnectionUpdates :=
  mkUpdates None (Some n) None None None None None None None None.
Definition with_autonomy (l : AutonomyLevel) : ConnectionUpdates :=
  mkUpdates None None (Some l) None None None None None None None.
Definition with_tripped (b : bool) : ConnectionUpdates :=
  mkUpdates None None None None None None (Some b) None None None.
Definition with_manifest (m : PermissionsManifest) : ConnectionUpdates :=
  mkUpdates None None None None None None None (Some m) None None.
Definition with_state_and_key (s : ConnectionState) (k : option string) : ConnectionUpdates :=
  mkUpdates (Some s) None None (Some k) None None None None None None.
Definition with_muted (b : bool) : ConnectionUpdates :=
  mkUpdates None None None None None None None None (Some b) None.
Definition with_passthrough (b : bool) : ConnectionUpdates :=
  mkUpdates None None None None None None None None None (Some b).
Definition with_policy (p : string) : ConnectionUpdates :=
  mkUpdates None None None None None (Some p) None None None None.

(** [x ?? y] on a field: the update when the key is present. *)
Definition assigned {A} (u : option A) (old : option A) : option A :=
  match u with Some a => Some a | None => old end.

(** [Object.assign(conn, updates, { lastActivity: now })] *)
Definition assign (c : Connection) (u : ConnectionUpdates) (now : string) : Connection := {|
  peerAddress := peerAddress c;
  peerPublicKey := default (peerPublicKey c) (upd_peerPublicKey u);
  cstate := default (cstate c) (upd_state u);
  nickname := default (nickname c) (upd_nickname u);
  autonomyLevel := default (autonomyLevel c) (upd_autonomyLevel u);
  autoRespondPolicy := assigned (upd_autoRespondPolicy u) (autoRespondPolicy c);
  circuitBreakerTripped := assigned (upd_circuitBreakerTripped u) (circuitBreakerTripped c);
  permissionsManifest := assigned (upd_permissionsManifest u) (permissionsManifest c);
  muted := assigned (upd_muted u) (muted c);
  passthrough := assigned (upd_passthrough u) (passthrough c);
  shortMessage := shortMessage c;
  createdAt := createdAt c;
  lastActivity := now;
  expiresAt := expiresAt c
|}.

Definition updateConnection (now : Z) (addr : string) (updates : ConnectionUpdates)
    : M ConnectionStore Connection :=
  conn ← gets (getConnection addr);
  match conn with
  | None => throw ("connection not found: " +:+ addr)
  | Some conn =>
      let conn := assign conn updates (isoString now) in
      modify (set_connections (Obj.set addr conn));;
      mret conn
  end.

Definition setNickname (now : Z) (addr nick : string) : M ConnectionStore Connection :=
  updateConnection now addr (with_nickname nick).

(** [conn.circuitBreakerTripped = b], in place. *)
Definition set_tripped (b : bool) (c : Connection) : Connection :=
  mkConnection (peerAddress c) (peerPublicKey c) (cstate c) (nickname c) (autonomyLevel c)
    (autoRespondPolicy c) (Some b) (permissionsManifest c) (muted c) (passthrough c)
    (shortMessage c) (createdAt c) (lastActivity c) (expiresAt c).

(** [confirmed] is [opts?.confirmed]. *)
Definition setAutonomy (now : Z) (addr : string) (level : AutonomyLevel)
    (confirmed : option bool) : M ConnectionStore Connection :=
  conn ← gets (getConnection addr);
  match conn with
  | None => throw ("connection not found: " +:+ addr)
  | Some conn =>
      if bool_decide (level = full_auto) && bool_decide (autonomyLevel conn ≠ full_auto)
         && bool_decide (confirmed ≠ Some true)
      then throw "Upgrading to Full Auto requires explicit confirmation"
      else
        (if truthy_bool (circuitBreakerTripped conn)
         then modify (set_connections (Obj.set addr (set_tripped false conn)))
         else mret tt);;
        updateConnection now addr (with_autonomy level)
  end.

Definition setPermissions (now : Z) (addr : string) (manifest : PermissionsManifest)
    : M ConnectionStore Connection :=
  let errors := validateManifest manifest in
  if bool_decide (errors ≠ [])
  then throw ("Invalid permissions manifest: " +:+ join "; " errors)
  else updateConnection now addr (with_manifest manifest).

(** [null] is [None]. *)
Definition getPeerPublicKey `{Sha256, Base58, Base64} (addr : string) (st : ConnectionStore)
    : option (list Byte.byte) :=
  let stored := getConnection addr st ≫= peerPublicKey in
  if truthy_str stored then Some (base64_decode (default "" stored))
  else match validateAddress addr with
       | Ok (pubKey, _) => Some pubKey
       | Throw _ => None
       end.

(** ** Expiry *)
Definition is_pending (s : ConnectionState) : bool :=
  match s with pending_outbound | pending_inbound => true | _ => false end.

Definition expired (now : string) (c : Connection) : bool :=
  is_pending (cstate c) && truthy_str (expiresAt c)
  && String.ltb (default "" (expiresAt c)) now.

(** [conn.state = "revoked"; conn.lastActivity = now;] *)
Definition revoke_expired (now : string) (c : Connection) : Connection :=
  mkConnection (peerAddress c) (peerPublicKey c) revoked (nickname c) (autonomyLevel c)
    (autoRespondPolicy c) (circuitBreakerTripped c) (permissionsManifest c) (muted c)
    (passthrough c) (shortMessage c) (createdAt c) now (expiresAt c).

(** The loop over [Object.entries]: each connection is updated in place, the
    addresses of the expired ones are collected in order. *)
Fixpoint expire_loop (now : string) (entries : list (string * Connection))
    : list (string * Connection) * list string :=
  match entries with
  | [] => ([], [])
  | (addr, conn) :: rest =>
      let '(rest', addrs) := expire_loop now rest in
      if expired now conn
      then ((addr, revoke_expired now conn) :: rest', addr :: addrs)
      else ((addr, conn) :: rest', addrs)
  end.

Definition expirePendingRequests (now : Z) : M ConnectionStore (list string) := λ st,
  let '(entries, addrs) := expire_loop (isoString now) (connections (data st)) in
  (Ok addrs, set_connections (λ _, entries) st).

Definition clear_passthrough (c : Connection) : Connection :=
  if truthy_bool (passthrough c) then
    mkConnection (peerAddress c) (peerPublicKey c) (cstate c) (nickname c) (autonomyLevel c)
      (autoRespondPolicy c) (circuitBreakerTripped c) (permissionsManifest c) (muted c)
      (Some false) (shortMessage c) (createdAt c) (lastActivity c) (expiresAt c)
  else c.

Definition clearPassthroughFlags : M ConnectionStore unit :=
  modify (set_connections (Obj.map_values clear_passthrough));;
  save.

(** ** Lemmas: running the operations *)
Lemma getConnection_set a addr c st :
  getConnection a (set_connections (Obj.set addr c) st) =
  if decide (addr = a) then Some c else getConnection a st.
Proof. apply Obj.get_set. Qed.

Lemma set_connections_twice addr c c' st :
  set_connections (Obj.set addr c) (set_connections (Obj.set addr c') st) =
  set_connections (Obj.set addr c) st.
Proof. unfold set_connections. simpl. by rewrite Obj.set_set. Qed.

Lemma updateConnection_run now addr u st c :
  getConnection addr st = Some c →
  updateConnection now addr u st =
  (Ok (assign c u (isoString now)), set_connections (Obj.set addr (assign c u (isoString now))) st).
Proof. intros Hc. unfold updateConnection, gets, mbind, M_bind. by rewrite Hc. Qed.

Lemma updateConnection_missing now addr u st :
  getConnection addr st = None →
  updateConnection now addr u st = (Throw ("connection not found: " +:+ addr), st).
Proof. intros Hc. unfold updateConnection, gets, mbind, M_bind. by rewrite Hc. Qed.

(** ** The store invariant: one entry per address, filed under its own address *)
Definition store_wf (st : ConnectionStore) : Prop :=
  NoDup (Obj.keys (connections (data st))) ∧
  ∀ k c, (k, c) ∈ connections (data st) → peerAddress c = k.

Lemma store_wf_address st a c : store_wf st → getConnection a st = Some c → peerAddress c = a.
Proof. intros [_ Hk] Hc. by apply Hk, Obj.get_elem. Qed.

Lemma store_wf_set st c :
  store_wf st → store_wf (set_connections (Obj.set (peerAddress c) c) st).
Proof.
  intros [Hnd Hk]. split; [by apply Obj.keys_set_NoDup|].
  intros k c' Hin. apply Obj.elem_get in Hin; [|by apply Obj.keys_set_NoDup].
  simpl in Hin. rewrite Obj.get_set in Hin. case_decide; [naive_solver|].
  by apply Hk, Obj.get_elem.
Qed.

Lemma store_wf_update now addr u st : store_wf st → store_wf (updateConnection now addr u st).2.
Proof.
  intros Hwf. destruct (getConnection addr st) as [c|] eqn:E.
  - rewrite (updateConnection_run _ _ _ _ _ E). simpl.
    pose proof (store_wf_address _ _ _ Hwf E) as Ha.
    rewrite <- Ha. change (peerAddress c) with (peerAddress (assign c u (isoString now))).
    by apply store_wf_set.
  - by rewrite updateConnection_missing.
Qed.

Lemma store_wf_map st f :
  (∀ c, peerAddress (f c) = peerAddress c) →
  store_wf st → store_wf (set_connections (Obj.map_values f) st).
Proof.
  intros Hf [Hnd Hk]. split; simpl.
  - by rewrite Obj.keys_map_values.
  - intros k c Hin. unfold Obj.map_values in Hin.
    apply list_elem_of_fmap in Hin as ([k' c'] & [= -> ->] & Hin). simpl. rewrite Hf. eauto.
Qed.

Create HintDb store discriminated.
#[export] Hint Resolve store_wf_update store_wf_set : store.
Create Rewrite HintDb store_rw.
#[export] Hint Rewrite getConnection_set set_connections_twice : store_rw.

(** ** [setAutonomy] *)

(** The connection a call that passes the gate leaves: the breaker flag is cleared
    first, in place. *)
Definition with_level (now : Z) (level : AutonomyLevel) (c : Connection) : Connection :=
  assign (if truthy_bool (circuitBreakerTripped c) then set_tripped false c else c)
    (with_autonomy level) (isoString now).

Lemma with_level_fields now level c :
  autonomyLevel (with_level now level c) = level ∧
  truthy_bool (circuitBreakerTripped (with_level now level c)) = false ∧
  cstate (with_level now level c) = cstate c ∧
  lastActivity (with_level now level c) = isoString now ∧
  autoRespondPolicy (with_level now level c) = autoRespondPolicy c.
Proof. unfold with_level. by destruct (truthy_bool (circuitBreakerTripped c)) eqn:E. Qed.

Definition gated (level : AutonomyLevel) (confirmed : option bool) (c : Connection) : Prop :=
  level = full_auto ∧ autonomyLevel c ≠ full_auto ∧ confirmed ≠ Some true.
#[export] Instance gated_dec level confirmed c : Decision (gated level confirmed c).
Proof. unfold gated. apply _. Defined.

Lemma setAutonomy_run now addr level confirmed st c :
  getConnection addr st = Some c →
  setAutonomy now addr level confirmed st =
  if decide (gated level confirmed c)
  then (Throw "Upgrading to Full Auto requires explicit confirmation", st)
  else (Ok (with_level now level c), set_connections (Obj.set addr (with_level now level c)) st).
Proof.
  intros Hc. unfold setAutonomy, gets, mbind, M_bind. rewrite Hc.
  destruct (decide (gated _ _ _)) as [(-> & Hl & Hn)|Hno]; [by rewrite !bool_decide_eq_true_2 by done|].
  destruct (_ && _ && _) eqn:E.
  { exfalso. apply Hno. unfold gated. rewrite !andb_true_iff, !bool_decide_eq_true in E. naive_solver. }
  unfold with_level. destruct (truthy_bool (circuitBreakerTripped c)).
  - unfold modify. rewrite (updateConnection_run _ _ _ _ (set_tripped false c));
      [by autorewrite with store_rw|]. autorewrite with store_rw. by rewrite decide_True.
  - unfold mret, M_ret. by apply updateConnection_run.
Qed.

Lemma setAutonomy_missing now addr level confirmed st :
  getConnection addr st = None →
  setAutonomy now addr level confirmed st = (Throw ("connection not found: " +:+ addr), st).
Proof. intros Hc. unfold setAutonomy, gets, mbind, M_bind. by rewrite Hc. Qed.

(** The consent gate of [setAutonomy]: raising a connection to [full_auto] from
    another level without [confirmed: true] throws and leaves the store as it
    was; every other call on a known connection succeeds, sets exactly the
    level, clears the circuit-breaker flag, keeps the lifecycle state and leaves
    the other connections alone. *)
Theorem setAutonomy_gate now addr level confirmed st c r st' :
  getConnection addr st = Some c →
  setAutonomy now addr level confirmed st = (r, st') →
  if decide (level = full_auto ∧ autonomyLevel c ≠ full_auto ∧ confirmed ≠ Some true)
  then r = Throw "Upgrading to Full Auto requires explicit confirmation" ∧ st' = st
  else ∃ c', r = Ok c' ∧ getConnection addr st' = Some c' ∧
         autonomyLevel c' = level ∧ truthy_bool (circuitBreakerTripped c') = false ∧
         cstate c' = cstate c ∧ lastActivity c' = isoString now ∧
         ∀ a, a ≠ addr → getConnection a st' = getConnection a st.
Proof.
  intros Hc. rewrite (setAutonomy_run _ _ _ _ _ _ Hc). fold (gated level confirmed c).
  case_decide; intros [= <- <-]; [done|].
  destruct (with_level_fields now level c) as (? & ? & ? & ? & _).
  exists (with_level now level c). split; [done|]. autorewrite with store_rw.
  rewrite decide_True by done. split_and!; try done.
  intros a Ha. autorewrite with store_rw. by rewrite decide_False.
Qed.

Definition sample_connection (s : ConnectionState) (l : AutonomyLevel) : Connection :=
  mkConnection "pinch:p@h" (Some "") s "" l None None (Some defaultPermissionsManifest)
    None None None "2026-01-01T00:00:00.000Z" "2026-01-01T00:00:00.000Z" None.
Definition sample_store (c : Connection) : ConnectionStore :=
  mkStore (mkStoreData 1 [(peerAddress c, c)]) NoFile.

Lemma setAutonomy_gate_witness :
  ∃ msg, setAutonomy 0 "pinch:p@h" full_auto None
           (sample_store (sample_connection active full_manual)) =
         (Throw msg, sample_store (sample_connection active full_manual)).
Proof.
  pose proof (setAutonomy_gate 0 "pinch:p@h" full_auto None
    (sample_store (sample_connection active full_manual)) _ _ _ eq_refl eq_refl) as H.
  destruct (decide _) as [_|Hn] in H; [|destruct Hn; done].
  eexists. rewrite <- (proj1 H). reflexivity.
Defined.

(** ** [listConnections] *)
Section list_theorems.
Context `{LocaleLaws}.

(** The documented order: state priority, then most recent activity first. *)
Definition shown_before (a b : Connection) : Prop :=
  (STATE_PRIORITY (cstate a) < STATE_PRIORITY (cstate b))%Z ∨
  STATE_PRIORITY (cstate a) = STATE_PRIORITY (cstate b) ∧
  (localeCompare (lastActivity b) (lastActivity a) ≤ 0)%Z.

Lemma compareConnections_spec a b :
  (compareConnections a b <=? 0)%Z = true ↔ shown_before a b.
Proof.
  unfold compareConnections, shown_before. rewrite Z.leb_le. case_bool_decide; lia.
Qed.

(** [listConnections] returns exactly the connections of the requested state
    (all of them without a filter), ordered by state priority and then by last
    activity, most recent first; connections that tie keep their insertion
    order. *)
Theorem listConnections_spec flt st :
  let wanted := match flt with
                | Some s => filter (λ c, cstate c = s) (Obj.values (connections (data st)))
                | None => Obj.values (connections (data st))
                end in
  let out := listConnections flt st in
  out ≡ₚ wanted ∧ StronglySorted shown_before out ∧
  ∀ c, filter (λ d, shown_before c d ∧ shown_before d c) out =
       filter (λ d, shown_before c d ∧ shown_before d c) wanted.
Proof.
  intros wanted out. unfold out, listConnections. fold wanted.
  set (leb := λ a b, (compareConnections a b <=? 0)%Z).
  assert (Htot : ∀ x y, leb x y = true ∨ leb y x = true).
  { intros x y. unfold leb. rewrite !compareConnections_spec. unfold shown_before.
    destruct (locale_total (lastActivity x) (lastActivity y)); lia. }
  assert (Htrans : ∀ x y z, leb x y = true → leb y z = true → leb x z = true).
  { intros x y z. unfold leb. rewrite !compareConnections_spec. unfold shown_before.
    pose proof (locale_trans (lastActivity z) (lastActivity y) (lastActivity x)). lia. }
  split; [apply stable_sort_perm|split].
  - eapply StronglySorted_mono; [|by apply stable_sort_sorted].
    intros x y Hxy. by apply compareConnections_spec.
  - intros c. pose proof (stable_sort_stable leb Htrans c wanted) as Hs.
    assert (Heq : ∀ d, equivb leb c d = true ↔ shown_before c d ∧ shown_before d c).
    { intros d. unfold equivb, leb. by rewrite andb_true_iff, !compareConnections_spec. }
    rewrite !(list_filter_iff _ _ _ Heq) in Hs. exact Hs.
Qed.
End list_theorems.

(** ** Expiry *)
Lemma expire_loop_spec now l :
  expire_loop now l =
  ((λ kc, (kc.1, if expired now kc.2 then revoke_expired now kc.2 else kc.2)) <$> l,
   (filter (λ kc, expired now kc.2 = true) l).*1).
Proof.
  induction l as [|[a c] l IH]; [done|]. simpl. rewrite IH, filter_cons. simpl.
  destruct (expired now c); done.
Qed.

Lemma expire_get now st a :
  getConnection a (expirePendingRequests now st).2 =
  (λ c, if expired (isoString now) c then revoke_expired (isoString now) c else c)
    <$> getConnection a st.
Proof.
  unfold expirePendingRequests. rewrite expire_loop_spec. unfold getConnection. simpl.
  apply (Obj.get_map_values (λ c, if expired (isoString now) c
    then revoke_expired (isoString now) c else c)).
Qed.

Lemma revoked_not_expired now now' c : expired now (revoke_expired now' c) = false.
Proof. done. Qed.

Lemma expired_iso now c e :
  expiresAt c = Some (isoString e) → iso_range e → iso_range now →
  expired (isoString now) c = is_pending (cstate c) && (e <? now)%Z.
Proof.
  intros He Hr Hn. unfold expired. rewrite He. simpl. rewrite isoString_ltb by done.
  destruct (isoString_cons e) as (x & s & ->). by rewrite bool_decide_eq_false_2, andb_true_r.
Qed.

Lemma expire_addrs now st a c :
  store_wf st → getConnection a st = Some c →
  a ∈ (filter (λ kc, expired now kc.2 = true) (connections (data st))).*1 ↔ expired now c = true.
Proof.
  intros [Hnd _] Hc. rewrite list_elem_of_fmap. split.
  - intros ([a' c'] & -> & [He Hin]%list_elem_of_filter). simpl in *.
    apply Obj.elem_get in Hin; [|done]. unfold getConnection in Hc. naive_solver.
  - intros He. exists (a, c). split; [done|]. apply list_elem_of_filter.
    split; [done|by apply Obj.get_elem].
Qed.

(** A second pass at the same instant finds nothing left to do. *)
Lemma expire_loop_idem now l :
  expire_loop now (expire_loop now l).1 = ((expire_loop now l).1, []).
Proof.
  induction l as [|[a c] l IH]; [done|]. simpl.
  destruct (expire_loop now l) as [l' addrs]. simpl in IH.
  destruct (expired now c) eqn:E; simpl; rewrite IH, ?E; done.
Qed.

(** Expiry is by the clock: with timestamps written by [toISOString], the run
    at instant [now] reports a connection exactly when it is pending and its
    expiry instant is before [now]; the reported ones become revoked, nothing
    else of the store changes, and a second run at that instant does nothing. *)
Theorem expirePendingRequests_spec now st r st' :
  store_wf st → iso_range now →
  expirePendingRequests now st = (r, st') →
  ∃ addrs, r = Ok addrs ∧
    (∀ a c e, getConnection a st = Some c → expiresAt c = Some (isoString e) → iso_range e →
       (a ∈ addrs ↔ is_pending (cstate c) = true ∧ (e < now)%Z) ∧
       getConnection a st' =
         Some (if decide (a ∈ addrs) then revoke_expired (isoString now) c else c)) ∧
    (∀ a c, getConnection a st = Some c → expiresAt c = None →
       (a ∉ addrs) ∧ getConnection a st' = Some c) ∧
    expirePendingRequests now st' = (Ok [], st').
Proof.
  intros Hwf Hnow E.
  assert (Est : st' = (expirePendingRequests now st).2) by by rewrite E.
  assert (Er : r = (expirePendingRequests now st).1) by by rewrite E.
  unfold expirePendingRequests in Er. rewrite expire_loop_spec in Er. simpl in Er.
  eexists. split; [exact Er|]. split; [|split].
  - intros a c e Hc He Hr. pose proof (expire_addrs (isoString now) _ _ _ Hwf Hc) as Ha.
    rewrite (expired_iso _ _ _ He Hr Hnow) in Ha. split.
    + rewrite Ha. rewrite andb_true_iff, Z.ltb_lt. done.
    + rewrite Est, expire_get, Hc. simpl. rewrite (expired_iso _ _ _ He Hr Hnow).
      destruct (_ && _); destruct (decide _); naive_solver.
  - intros a c Hc He. pose proof (expire_addrs (isoString now) _ _ _ Hwf Hc) as Ha.
    assert (Hx : expired (isoString now) c = false).
    { unfold expired. rewrite He. simpl. by rewrite andb_false_r. }
    rewrite Ha, Est, expire_get, Hc. simpl. rewrite Hx. done.
  - rewrite Est. unfold expirePendingRequests. destruct st as [[v l] f]. simpl.
    destruct (expire_loop (isoString now) l) as [l' addrs] eqn:El. simpl.
    pose proof (expire_loop_idem (isoString now) l) as Hi. rewrite El in Hi. simpl in Hi.
    by rewrite Hi.
Qed.

Definition sample_pending : Connection :=
  mkConnection "pinch:q@h" (Some "") pending_inbound "" full_manual None None
    (Some defaultPermissionsManifest) None None None "x" "x" (Some (isoString 1000)).

Lemma sample_store_wf c : store_wf (sample_store c).
Proof.
  split; [apply NoDup_singleton|]. intros k d [[= -> ->]|Hn]%elem_of_cons; [done|].
  by apply not_elem_of_nil in Hn.
Qed.

Lemma expirePendingRequests_spec_witness :
  ∃ st', expirePendingRequests 2000 (sample_store sample_pending) = (Ok ["pinch:q@h"], st') ∧
         expirePendingRequests 2000 st' = (Ok [], st').
Proof.
  assert (Hn : iso_range 2000) by (unfold iso_range; lia).
  destruct (expirePendingRequests 2000 (sample_store sample_pending)) as [r st'] eqn:E.
  destruct (expirePendingRequests_spec 2000 (sample_store sample_pending) r st'
    (sample_store_wf _) Hn E) as (addrs & Hr & _ & _ & H).
  exists st'. split; [|exact H]. vm_compute in E. injection E as <- <-. reflexivity.
Defined.

(** An expiry instant in the year 10000 or later is written with a leading
    ["+"], which sorts before every digit: a pending request that asks for such
    an expiry is treated as already expired at every instant of the years 0 to
    9999. *)
Theorem far_expiry_is_expired now c t :
  iso_range now → (253402300800000 ≤ t ≤ 8640000000000000)%Z →
  toISOString t = Some (isoString t) ∧
  (is_pending (cstate c) = true → expiresAt c = Some (isoString t) →
   expired (isoString now) c = true).
Proof.
  intros Hn Ht. split.
  { unfold toISOString. by rewrite (proj2 (andb_true_iff _ _)) by lia. }
  intros Hp He. unfold expired. rewrite Hp, He. simpl.
  destruct (isoString_plus t) as [s Hs]; [lia|].
  destruct (isoString_digit now Hn) as (d & s' & Hd & Hd'). rewrite Hs, Hd'.
  rewrite bool_decide_eq_false_2 by done. by apply plus_before_digit.
Qed.

Lemma far_expiry_is_expired_witness :
  toISOString 253402300800000 = Some "+010000-01-01T00:00:00.000Z".
Proof.
  refine (proj1 (far_expiry_is_expired 0 sample_pending 253402300800000 _ _)); [split|]; lia.
Defined.

(** [bootstrap] in tools/cli.ts: open the store and clear stuck passthrough. *)
Definition openStore : M ConnectionStore unit := load;; clearPassthroughFlags.

(** Opening the store: whatever the file holds, no connection comes up in
    passthrough mode, every other field of every stored connection is as saved
    (an unreadable file gives an empty store), and the file is brought up to
    date, so that opening it again yields the same connections. *)
Theorem openStore_spec f st :
  openStore (newStore f) = (Ok tt, st) →
  (∀ a c, getConnection a st = Some c → truthy_bool (passthrough c) = false) ∧
  (∀ a, getConnection a st =
        clear_passthrough <$> (match f with Json d => Obj.get a (connections d) | _ => None end)) ∧
  file st = Json (data st) ∧ openStore (newStore (file st)) = (Ok tt, st).
Proof.
  unfold openStore, load, clearPassthroughFlags, save, modify, mbind, M_bind. simpl.
  intros [= <-]. set (d := match f with Json d => d | _ => emptyData end).
  assert (Hget : ∀ a, Obj.get a (Obj.map_values clear_passthrough (connections d)) =
            clear_passthrough <$> (match f with Json d => Obj.get a (connections d) | _ => None end)).
  { intros a. rewrite Obj.get_map_values. subst d. by destruct f. }
  assert (Hclear : ∀ c, truthy_bool (passthrough (clear_passthrough c)) = false).
  { intros c. unfold clear_passthrough. destruct (truthy_bool (passthrough c)) eqn:E; done. }
  split; [|split; [exact Hget|split; [done|]]].
  - intros a c. unfold getConnection. simpl. rewrite Hget.
    intros (c' & _ & ->)%fmap_Some. apply Hclear.
  - simpl. unfold set_connections. simpl.
    replace (Obj.map_values clear_passthrough (Obj.map_values clear_passthrough (connections d)))
      with (Obj.map_values clear_passthrough (connections d)); [done|].
    unfold Obj.map_values. rewrite <- list_fmap_compose. apply list_fmap_ext.
    intros i [k c] _. simpl. f_equal. unfold clear_passthrough at 2.
    rewrite Hclear. done.
Qed.

Lemma openStore_spec_witness :
  ∃ st, openStore (newStore (Json (data (sample_store (sample_connection active notify))))) = (Ok tt, st)
        ∧ file st = Json (data st).
Proof.
  eexists. split; [reflexivity|].
  exact (proj1 (proj2 (proj2 (openStore_spec (Json (data (sample_store
    (sample_connection active notify)))) _ eq_refl)))).
Defined.

(** [getPeerPublicKey] falls back on the address: for a peer without a stored
    key, known or not, the address generated from a 32-byte key yields that key;
    a stored key wins over the address. *)
Theorem getPeerPublicKey_spec `{Sha256Laws, Base58Laws, Base64Laws} addr pubKey host st :
  length pubKey = 32 → host ≠ "" → str_forall is_dot host = true →
  generateAddress pubKey host = Ok addr →
  (truthy_str (getConnection addr st ≫= peerPublicKey) = false →
     getPeerPublicKey addr st = Some pubKey) ∧
  (∀ c k, getConnection addr st = Some c → k ≠ [] → peerPublicKey c = Some (base64_encode k) →
     getPeerPublicKey addr st = Some k).
Proof.
  intros Hk Hh Hd Hg. unfold getPeerPublicKey. split.
  - intros ->. destruct (address_roundtrip_of pubKey host) as (addr' & E1 & E2); try done.
    rewrite Hg in E1. injection E1 as <-.
    by rewrite E2.
  - intros c k Hc Hne Hp. rewrite Hc. simpl. rewrite Hp. simpl.
    rewrite bool_decide_eq_false_2 by by apply base64_nonempty.
    simpl. by rewrite base64_roundtrip.
Qed.

Import Sample.
Lemma getPeerPublicKey_spec_witness :
  ∃ addr, getPeerPublicKey addr (newStore NoFile) = Some (replicate 32 Byte.x41).
Proof.
  eexists. refine (proj1 (getPeerPublicKey_spec _ (replicate 32 Byte.x41) "localhost"
    (newStore NoFile) eq_refl _ eq_refl eq_refl) eq_refl). discriminate.
Defined.

Lemma listConnections_spec_witness :
  listConnections (Some active) (sample_store (sample_connection active notify)) ≡ₚ
    [sample_connection active notify].
Proof.
  exact (proj1 (listConnections_spec (Some active) (sample_store (sample_connection active notify)))).
Defined.
