(* ===== verification/MessageStore.v ===== *)
(** [message-store.ts]: the SQLite tables [messages] and [sequences] and the
    queries over them.  A table is the list of its rows in insertion order; the
    CHECK constraints hold by the types of the columns. *)
From S2P Require Import Prelude JsLib JsDate Platform.
From stdpp Require Import gmap.

Inductive Direction : Type := inbound | outbound.
Inductive Priority : Type := low | normal | urgent.
Inductive Attribution : Type := agent | human.

#[export] Instance Direction_eq_dec : EqDecision Direction.
Proof. solve_decision. Defined.
#[export] Instance Priority_eq_dec : EqDecision Priority.
Proof. solve_decision. Defined.
#[export] Instance Attribution_eq_dec : EqDecision Attribution.
Proof. solve_decision. Defined.

(** What [body] holds at run time.  The type says string, but the text of a received
    message is whatever JSON.parse gave: [number_body] is the number that [token]
    denotes, and any other value is one that SQLite cannot bind. *)
Inductive BodyValue : Type := text_body (s : string) | number_body (token : string) | unbindable_body.

(** [m_body] is the text that the column gets; [m_numberBody] is set while the body of
    the object is a number. *)
Record MessageRecord : Type := mkMessage {
  m_id : string;
  m_connectionAddress : string;
  m_direction : Direction;
  m_body : string;
  m_threadId : option string;
  m_replyTo : option string;
  m_priority : Priority;
  m_sequence : Z;
  m_state : string;
  m_failureReason : option string;
  m_attribution : option Attribution;
  m_createdAt : string;
  m_updatedAt : string;
  m_numberBody : option string
}.
Definition body_value (m : MessageRecord) : BodyValue :=
  match m_numberBody m with Some token => number_body token | None => text_body (m_body m) end.

(** A row of [messages]; [None] is NULL. *)
Record MessageRow : Type := mkRow {
  id : string;
  connection_address : string;
  direction : Direction;
  body : string;
  thread_id : option string;
  reply_to : option string;
  priority : Priority;
  sequence : Z;
  state : string;
  failure_reason : option string;
  attribution : option Attribution;
  created_at : string;
  updated_at : string
}.

#[export] Instance MessageRow_eq_dec : EqDecision MessageRow.
Proof. solve_decision. Defined.

Record MessageDb : Type := mkDb {
  messages : list MessageRow;
  sequences : gmap string Z
}.

Definition emptyDb : MessageDb := mkDb [] ∅.

Definition set_messages (f : list MessageRow → list MessageRow) (db : MessageDb) : MessageDb :=
  mkDb (f (messages db)) (sequences db).

(** The parameters bound by [stmt.run] in [saveMessage]. *)
Definition recordToRow (m : MessageRecord) : MessageRow := {|
  id := m_id m;
  connection_address := m_connectionAddress m;
  direction := m_direction m;
  body := m_body m;
  thread_id := m_threadId m;
  reply_to := m_replyTo m;
  priority := m_priority m;
  sequence := m_sequence m;
  state := m_state m;
  failure_reason := m_failureReason m;
  attribution := m_attribution m;
  created_at := m_createdAt m;
  updated_at := m_updatedAt m
|}.

Definition rowToRecord (row : MessageRow) : MessageRecord := {|
  m_id := id row;
  m_connectionAddress := connection_address row;
  m_direction := direction row;
  m_body := body row;
  m_threadId := thread_id row;
  m_replyTo := reply_to row;
  m_priority := priority row;
  m_sequence := sequence row;
  m_state := state row;
  m_failureReason := failure_reason row;
  m_attribution := attribution row;
  m_createdAt := created_at row;
  m_updatedAt := updated_at row;
  m_numberBody := None
|}.

(** [INSERT]: [id] is the primary key. *)
Definition saveMessage (msg : MessageRecord) : M MessageDb unit :=
  rows ← gets messages;
  if bool_decide (m_id msg ∈ id <$> rows) then throw "UNIQUE constraint failed: messages.id"
  else modify (set_messages (λ rows, rows ++ [recordToRow msg])).

(** [SELECT * FROM messages WHERE id = ?] *)
Definition getMessage (i : string) (db : MessageDb) : option MessageRecord :=
  rowToRecord <$> List.find (λ r, bool_decide (id r = i)) (messages db).

(** [UPDATE messages SET state = ?, failure_reason = ?, updated_at = ? WHERE id = ?] *)
Definition update_row (i st : string) (reason : option string) (now : string) (r : MessageRow)
    : MessageRow :=
  if bool_decide (id r = i) then
    mkRow (id r) (connection_address r) (direction r) (body r) (thread_id r) (reply_to r)
      (priority r) (sequence r) st reason (attribution r) (created_at r) now
  else r.

Definition updateState (now : Z) (i st : string) (failureReason : option string)
    : M MessageDb unit :=
  modify (set_messages (fmap (update_row i st failureReason (isoString now)))).

(** ** Queries *)
Record HistoryOptions : Type := mkHistoryOptions {
  opt_connectionAddress : option string;
  opt_threadId : option string;
  opt_direction : option string;
  opt_state : option string;
  opt_limit : option Z;
  opt_offset : option Z
}.

Definition direction_text (d : Direction) : string :=
  match d with inbound => "inbound" | outbound => "outbound" end.

(** [if (opt) conditions.push("column = @opt")]: no condition when [opt] is falsy;
    a NULL column matches nothing. *)
Definition condition (opt : option string) (column : option string) : bool :=
  if truthy_str opt then bool_decide (column = opt) else true.

Definition history_where (opts : HistoryOptions) (r : MessageRow) : bool :=
  condition (opt_connectionAddress opts) (Some (connection_address r))
  && condition (opt_threadId opts) (thread_id r)
  && condition (opt_direction opts) (Some (direction_text (direction r)))
  && condition (opt_state opts) (Some (state r)).

(** [ORDER BY created_at DESC] and [ASC]. *)
Definition newer_first (a b : MessageRow) : bool := String.leb (created_at b) (created_at a).
Definition older_first (a b : MessageRow) : bool := String.leb (created_at a) (created_at b).

Section queries.
Context `{SqlEngine}.

Definition getHistory (opts : HistoryOptions) (db : MessageDb) : list MessageRecord :=
  let rows := filter (λ r, history_where opts r = true) (messages db) in
  rowToRecord <$>
    sql_limit (default 50%Z (opt_limit opts)) (default 0%Z (opt_offset opts))
      (order_by newer_first rows).

Definition getPending (d : Direction) (db : MessageDb) : list MessageRecord :=
  rowToRecord <$>
    order_by older_first
      (filter (λ r, direction r = d ∧ (state r = "sent" ∨ state r = "escalated_to_human"))
         (messages db)).
End queries.

(** The transaction of [nextSequence]: [INSERT OR IGNORE] then
    [UPDATE ... RETURNING]. *)
Definition nextSequence (addr : string) : M MessageDb Z := λ db,
  let inserted := match sequences db !! addr with
                  | Some _ => sequences db
                  | None => <[addr := 1%Z]> (sequences db)
                  end in
  let updated := alter (λ n, n + 1)%Z addr inserted in
  let row := updated !! addr in
  (Ok (match row with Some next_sequence => next_sequence - 1 | None => 1 end)%Z,
   mkDb (messages db) updated).

(** ** Lemmas *)
(** The message as it is read back: a body that was a number is its text. *)
Definition with_number (token : option string) (m : MessageRecord) : MessageRecord :=
  mkMessage (m_id m) (m_connectionAddress m) (m_direction m) (m_body m) (m_threadId m)
    (m_replyTo m) (m_priority m) (m_sequence m) (m_state m) (m_failureReason m) (m_attribution m) (m_createdAt m)
    (m_updatedAt m) token.
Definition as_text : MessageRecord → MessageRecord := with_number None.

Lemma rowToRecord_recordToRow m : rowToRecord (recordToRow m) = as_text m.
Proof. by destruct m. Qed.

Definition ids_unique (db : MessageDb) : Prop := NoDup (id <$> messages db).

Lemma getMessage_Some i db m :
  ids_unique db → getMessage i db = Some m ↔ ∃ r, r ∈ messages db ∧ id r = i ∧ m = rowToRecord r.
Proof.
  unfold ids_unique, getMessage. intros Hnd. rewrite fmap_Some. split.
  - intros (r & [Hin Hi]%List.find_some & ->). exists r.
    by rewrite list_elem_of_In, <- (bool_decide_eq_true (id r = i)).
  - intros (r & Hin & Hi & ->). exists r. split; [|done].
    induction (messages db) as [|r' l IH]; [by apply not_elem_of_nil in Hin|].
    simpl in *. apply NoDup_cons in Hnd as [Hr' Hnd]. apply elem_of_cons in Hin as [->|Hin].
    + by rewrite bool_decide_eq_true_2.
    + rewrite bool_decide_eq_false_2; [by apply IH|]. intros Heq. apply Hr'.
      apply list_elem_of_fmap. exists r. by rewrite Heq.
Qed.

Lemma getMessage_id i db m : getMessage i db = Some m → m_id m = i.
Proof.
  unfold getMessage. intros (r & [_ Hr]%List.find_some & ->)%fmap_Some.
  by apply bool_decide_eq_true in Hr.
Qed.

Lemma getMessage_None i db : getMessage i db = None ↔ i ∉ id <$> messages db.
Proof.
  unfold getMessage. rewrite fmap_None. induction (messages db) as [|r l IH]; simpl.
  - split; [intros _; apply not_elem_of_nil|done].
  - rewrite not_elem_of_cons. case_bool_decide; naive_solver.
Qed.

Lemma update_row_id i st fr now r : id (update_row i st fr now r) = id r.
Proof. unfold update_row. by case_bool_decide. Qed.

Lemma updateState_ids now i st fr db :
  id <$> messages (updateState now i st fr db).2 = id <$> messages db.
Proof.
  simpl. rewrite <- list_fmap_compose. apply list_fmap_ext. intros k r _. apply update_row_id.
Qed.

Lemma updateState_unique now i st fr db :
  ids_unique db → ids_unique (updateState now i st fr db).2.
Proof. unfold ids_unique. by rewrite updateState_ids. Qed.

Definition set_state (st : string) (fr : option string) (now : string) (m : MessageRecord)
    : MessageRecord :=
  mkMessage (m_id m) (m_connectionAddress m) (m_direction m) (m_body m) (m_threadId m)
    (m_replyTo m) (m_priority m) (m_sequence m) st fr (m_attribution m) (m_createdAt m) now (m_numberBody m).

Lemma getMessage_updateState now i st fr j db :
  getMessage j (updateState now i st fr db).2 =
  (λ m, if decide (i = j) then set_state st fr (isoString now) m else m) <$> getMessage j db.
Proof.
  unfold getMessage, updateState, modify. simpl.
  induction (messages db) as [|r l IH]; [done|]. simpl. rewrite update_row_id.
  destruct (bool_decide_reflect (id r = j)) as [<-|Hj]; [|exact IH]. simpl. f_equal.
  unfold update_row. case_bool_decide; case_decide; naive_solver.
Qed.

(** Saving: a fresh id is stored and read back field for field, with a number as its text, leaving every
    other message as it was; an id already in the table is refused with the
    database unchanged.  Ids stay unique either way. *)
Theorem saveMessage_spec msg db r db' :
  ids_unique db → saveMessage msg db = (r, db') →
  ids_unique db' ∧
  match getMessage (m_id msg) db with
  | Some _ => r = Throw "UNIQUE constraint failed: messages.id" ∧ db' = db
  | None => r = Ok tt ∧ getMessage (m_id msg) db' = Some (as_text msg) ∧
      ∀ j, j ≠ m_id msg → getMessage j db' = getMessage j db
  end.
Proof.
  intros Hnd. unfold saveMessage, gets, modify, mbind, M_bind.
  destruct (getMessage (m_id msg) db) as [m|] eqn:Hg.
  - rewrite bool_decide_eq_true_2; [by intros [= <- <-]|].
    apply getMessage_Some in Hg as (row & Hin & Hi & _); [|done].
    apply list_elem_of_fmap. eauto.
  - apply getMessage_None in Hg. rewrite bool_decide_eq_false_2 by done. intros [= <- <-].
    assert (Hnd' : ids_unique (set_messages (λ rows, rows ++ [recordToRow msg]) db)).
    { unfold ids_unique. simpl. rewrite fmap_app. apply NoDup_app. split; [done|].
      split; [|apply NoDup_singleton]. set_solver. }
    split; [done|]. split; [done|]. split.
    + apply getMessage_Some; [done|]. exists (recordToRow msg). simpl.
      rewrite rowToRecord_recordToRow. split; [|done]. apply elem_of_app. right. by left.
    + intros j Hj. apply option_eq. intros m. rewrite !getMessage_Some by done. simpl.
      split; intros (row & Hin & Hi & ->); exists row; (split; [|done]).
      * apply elem_of_app in Hin as [|Hin]; [done|].
        apply list_elem_of_singleton in Hin as ->. by destruct Hj.
      * apply elem_of_app. by left.
Qed.

Definition sample_message (i : string) : MessageRecord :=
  mkMessage i "pinch:p@h" inbound "hi" None None normal 1 "delivered" None (Some agent)
    "2026-01-01T00:00:00.000Z" "2026-01-01T00:00:00.000Z" None.

Lemma emptyDb_unique : ids_unique emptyDb.
Proof. apply NoDup_nil_2. Qed.

Lemma saveMessage_spec_witness :
  ∃ db, saveMessage (sample_message "m1") emptyDb = (Ok tt, db) ∧ ids_unique db ∧
        getMessage "m1" db = Some (sample_message "m1").
Proof.
  eexists. split; [reflexivity|].
  destruct (saveMessage_spec (sample_message "m1") emptyDb _ _ emptyDb_unique eq_refl) as [Hu Hm].
  split; [exact Hu|]. exact (proj1 (proj2 Hm)).
Defined.

(** [updateState] is an update of one row: the message keeps everything but
    its state, failure reason (cleared when none is given) and update time, the
    other messages are untouched, and no row appears or disappears. *)
Theorem updateState_spec now i st fr db j :
  let db' := (updateState now i st fr db).2 in
  getMessage j db' =
    (λ m, if decide (i = j) then set_state st fr (isoString now) m else m) <$> getMessage j db ∧
  id <$> messages db' = id <$> messages db ∧ sequences db' = sequences db.
Proof. intros db'. split; [apply getMessage_updateState|split; [apply updateState_ids|done]]. Qed.

(** ** History *)
Lemma sql_limit_length {A} limit offset (l : list A) :
  (0 ≤ limit)%Z → (Z.of_nat (length (sql_limit limit offset l)) ≤ limit)%Z.
Proof.
  intros Hl. unfold sql_limit. rewrite (proj2 (Z.ltb_ge _ _)) by done.
  rewrite length_take. lia.
Qed.

(** Consecutive pages are the pages of one listing. *)
Lemma sql_limit_app {A} n k off (l : list A) :
  (0 ≤ n)%Z → (0 ≤ k)%Z → (0 ≤ off)%Z →
  sql_limit n off l ++ sql_limit k (off + n) l = sql_limit (n + k) off l.
Proof.
  intros Hn Hk Ho. unfold sql_limit. rewrite !(proj2 (Z.ltb_ge _ _)) by lia.
  rewrite !Z2Nat.inj_add by lia. rewrite <- drop_drop. apply take_take_drop.
Qed.

Lemma newer_first_total x y : newer_first x y = true ∨ newer_first y x = true.
Proof. apply str_leb_total. Qed.
Lemma newer_first_trans x y z :
  newer_first x y = true → newer_first y z = true → newer_first x z = true.
Proof. intros H1 H2. by eapply str_leb_trans. Qed.

Lemma StronglySorted_sublist {A} (R : relation A) l l' :
  l `sublist_of` l' → StronglySorted R l' → StronglySorted R l.
Proof.
  induction 1 as [|x l l' Hs IH|x l l' Hs IH]; intros Hl; inversion Hl; subst; [done| |auto].
  constructor; [auto|]. rewrite Forall_forall in *. eauto using elem_of_sublist.
Qed.

Lemma sql_limit_sublist {A} limit offset (l : list A) : sql_limit limit offset l `sublist_of` l.
Proof.
  unfold sql_limit. case_match; [apply sublist_drop|].
  etrans; [apply sublist_take|apply sublist_drop].
Qed.

Definition with_page (limit offset : Z) (o : HistoryOptions) : HistoryOptions :=
  mkHistoryOptions (opt_connectionAddress o) (opt_threadId o) (opt_direction o) (opt_state o)
    (Some limit) (Some offset).

(** History is a faithful paging of the matching messages: a page holds only
    stored messages that satisfy the filters, newest first and at most [limit]
    of them; consecutive pages join without overlap or gap; and a limit that
    covers the table returns every matching message exactly once. *)
Theorem getHistory_spec `{SqlLaws} opts db n k off :
  (0 ≤ n)%Z → (0 ≤ k)%Z → (0 ≤ off)%Z →
  let matching := filter (λ r, history_where opts r = true) (messages db) in
  (∀ m, m ∈ getHistory (with_page n off opts) db →
        ∃ r, r ∈ matching ∧ m = rowToRecord r) ∧
  StronglySorted (λ a b, String.leb (m_createdAt b) (m_createdAt a) = true)
    (getHistory (with_page n off opts) db) ∧
  (Z.of_nat (length (getHistory (with_page n off opts) db)) ≤ n)%Z ∧
  getHistory (with_page n off opts) db ++ getHistory (with_page k (off + n) opts) db
    = getHistory (with_page (n + k) off opts) db ∧
  ((Z.of_nat (length (messages db)) ≤ n)%Z →
   getHistory (with_page n 0 opts) db ≡ₚ rowToRecord <$> matching).
Proof.
  intros Hn Hk Ho matching. unfold getHistory.
  change (history_where (with_page n off opts)) with (history_where opts).
  change (history_where (with_page k (off + n) opts)) with (history_where opts).
  change (history_where (with_page (n + k) off opts)) with (history_where opts).
  change (history_where (with_page n 0 opts)) with (history_where opts). fold matching. simpl.
  pose proof (order_by_perm newer_first matching) as Hp.
  pose proof (order_by_sorted newer_first matching newer_first_total newer_first_trans) as Hs.
  split_and!.
  - intros m (r & -> & Hin)%list_elem_of_fmap. exists r. split; [|done].
    rewrite <- Hp. by eapply elem_of_sublist; [|apply sql_limit_sublist].
  - eapply StronglySorted_fmap, StronglySorted_sublist; [|apply sql_limit_sublist|exact Hs]. done.
  - rewrite length_fmap. by apply sql_limit_length.
  - by rewrite <- fmap_app, sql_limit_app.
  - intros Hlen. unfold sql_limit. rewrite (proj2 (Z.ltb_ge _ _)) by done. simpl.
    rewrite take_ge; [by rewrite Hp|]. rewrite Hp. unfold matching.
    etrans; [apply length_filter|lia].
Qed.

Import Sample.
Lemma getHistory_spec_witness :
  let o := mkHistoryOptions None None None (Some "delivered") None None in
  (Z.of_nat (length (getHistory (with_page 1 0 o) (mkDb [recordToRow (sample_message "a")] ∅))) ≤ 1)%Z.
Proof.
  refine (proj1 (proj2 (proj2 (getHistory_spec
    (mkHistoryOptions None None None (Some "delivered") None None)
    (mkDb [recordToRow (sample_message "a")] ∅) 1 1 0 _ _ _)))); lia.
Defined.

(** ** Sequence numbers *)

(** Invariant: a stored counter is the next number to hand out. *)
Definition calls_before (addr : string) (done_ : list string) : Z :=
  Z.of_nat (length (filter (addr =.) done_)).

Definition sequences_after (done_ : list string) (db : MessageDb) : Prop :=
  ∀ addr, sequences db !! addr =
          if decide (addr ∈ done_) then Some (1 + calls_before addr done_)%Z else None.

Lemma calls_before_snoc a addr l :
  calls_before a (l ++ [addr]) = (calls_before a l + if decide (a = addr) then 1 else 0)%Z.
Proof.
  unfold calls_before. rewrite filter_app, length_app, filter_cons, filter_nil.
  case_decide; simpl; lia.
Qed.

Lemma filter_not_elem (a : string) l : a ∉ l → filter (a =.) l = [].
Proof.
  induction l as [|b l IH]; [done|]. rewrite not_elem_of_cons, filter_cons. intros [? ?].
  rewrite decide_False by done. auto.
Qed.

Lemma sequences_after_step addr done_ db :
  sequences_after done_ db →
  ∃ db', nextSequence addr db = (Ok (1 + calls_before addr done_)%Z, db') ∧
         sequences_after (done_ ++ [addr]) db' ∧ messages db' = messages db.
Proof.
  intros Hinv. unfold nextSequence. rewrite (Hinv addr).
  assert (Hval : (default 1%Z (sequences db !! addr) = 1 + calls_before addr done_)%Z).
  { rewrite (Hinv addr). destruct (decide (addr ∈ done_)) as [|Hn]; [done|]. simpl.
    unfold calls_before. rewrite (filter_not_elem addr done_) by done. done. }
  set (ins := match _ with Some _ => sequences db | None => _ end).
  assert (Hins : ins !! addr = Some (1 + calls_before addr done_)%Z ∧
                 ∀ a, a ≠ addr → ins !! a = sequences db !! a).
  { unfold ins. rewrite (Hinv addr) in Hval. destruct (decide (addr ∈ done_)) as [Hd|Hd].
    - split; [by rewrite (Hinv addr), decide_True|done].
    - simpl in Hval. rewrite <- Hval. split; [apply lookup_insert_eq|].
      intros a Ha. by rewrite lookup_insert_ne. }
  destruct Hins as [He Hne]. rewrite lookup_alter_eq, He. simpl.
  eexists. split; [do 2 f_equal; lia|]. split; [|done].
  intros a. rewrite calls_before_snoc. simpl. destruct (decide (a = addr)) as [->|Ha].
  - rewrite lookup_alter_eq, He, decide_True by set_solver. simpl. f_equal. lia.
  - rewrite lookup_alter_ne, Hne, (Hinv a) by done.
    destruct (decide (a ∈ done_)); [rewrite decide_True by set_solver|rewrite decide_False by set_solver];
      [f_equal; lia|done].
Qed.

(** The results of a run of calls, one per address in order. *)
Fixpoint nextSequences (addrs : list string) : M MessageDb (list Z) :=
  match addrs with
  | [] => mret []
  | a :: addrs => n ← nextSequence a; ns ← nextSequences addrs; mret (n :: ns)
  end.

Fixpoint numbered (done_ addrs : list string) : list Z :=
  match addrs with
  | [] => []
  | a :: addrs => (1 + calls_before a done_)%Z :: numbered (done_ ++ [a]) addrs
  end.

Lemma nextSequences_run addrs done_ db :
  sequences_after done_ db →
  (nextSequences addrs db).1 = Ok (numbered done_ addrs) ∧
  messages (nextSequences addrs db).2 = messages db.
Proof.
  revert done_ db. induction addrs as [|a addrs IH]; intros done_ db Hinv; [done|].
  destruct (sequences_after_step a _ _ Hinv) as (db' & Hrun & Hinv' & Hm).
  simpl. unfold mbind at 1 3, M_bind at 1 3. rewrite Hrun.
  destruct (IH _ _ Hinv') as [H1 H2]. unfold mbind, M_bind.
  destruct (nextSequences addrs db') as [[ns|e] db'']; simpl in *; naive_solver congruence.
Qed.

(** Sequence numbers per connection have no gap and no repeat: whatever the
    interleaving of calls for different connections on a fresh database, the
    [n]-th call for a connection returns [n], and the messages are untouched. *)
Theorem nextSequence_gapless addrs i a :
  addrs !! i = Some a →
  ∃ ns, (nextSequences addrs emptyDb).1 = Ok ns ∧
        ns !! i = Some (1 + calls_before a (take i addrs))%Z ∧
        messages (nextSequences addrs emptyDb).2 = [].
Proof.
  assert (Hinv : sequences_after [] emptyDb) by (intros b; apply lookup_empty).
  destruct (nextSequences_run addrs [] emptyDb Hinv) as [-> ->].
  intros Hi. eexists. split; [done|]. split; [|done].
  change (take i addrs) with ([] ++ take i addrs). clear Hinv.
  generalize (@nil string) as done_. revert i Hi.
  induction addrs as [|b addrs IH]; intros [|i] Hi done_; simplify_eq/=.
  - by rewrite app_nil_r.
  - rewrite IH by done. by rewrite <- app_assoc.
Qed.

Lemma nextSequence_gapless_witness :
  ∃ ns, (nextSequences ["a"; "b"; "a"] emptyDb).1 = Ok ns ∧ ns !! 2 = Some 2%Z.
Proof.
  destruct (nextSequence_gapless ["a"; "b"; "a"] 2 "a" eq_refl) as (ns & H1 & H2 & _).
  exists ns. split; [exact H1|exact H2].
Defined.
