(* ===== verification/Args.v ===== *)
(** The argument parsing of the tools (tools/cli.ts, tools/pinch-*.ts).

    Every [parseArgs] is one loop over the arguments with a [switch] on the
    option's name; an option is a switch, or takes [args[++i]] as its value.
    [scan] is that loop and each tool gives its [switch]; the checks after the
    loop follow the tool's code.  An absent option is [None]. *)
From S2P Require Import Prelude JsLib JsNumber Platform PermissionsManifest ConnectionStore MessageStore.
From Stdlib Require Import Ascii.

(** ** The loop *)

(** What a [case] does: set something, or use [args[++i]], which is [None] past
    the end and may be refused. *)
Inductive Flag (A : Type) : Type :=
| Switch (f : A → A)
| Value (f : option string → A → res A).
Arguments Switch {A} f.
Arguments Value {A} f.

Section scan.
Context {A : Type} (cases : string → option (Flag A)).

Fixpoint scan (args : list string) (acc : A) : res A :=
  match args with
  | [] => Ok acc
  | arg :: rest =>
      match cases arg with
      | None => scan rest acc
      | Some (Switch f) => scan rest (f acc)
      | Some (Value f) =>
          match rest with
          | [] => f None acc
          | value :: rest =>
              match f (Some value) acc with
              | Ok acc => scan rest acc
              | Throw e => Throw e
              end
          end
      end
  end.
End scan.

(** ** Helpers of the [case]s *)

(** [x = args[++i]] and [x = args[++i] ?? ""] *)
Definition assigns {A V} (set : V → A → A) (get : option string → V) : Flag A :=
  Value (λ v acc, Ok (set (get v) acc)).
Definition or_empty (v : option string) : string := default "" v.

(** [VALID.includes(val)], the value as a member of the type. *)
Definition member {T} (name : T → string) (VALID : list T) (val : string) : option T :=
  List.find (λ t, bool_decide (name t = val)) VALID.

Definition quoted (s : string) : string := dquote +:+ s +:+ dquote.
Definition invalid {T} (flag val : string) (name : T → string) (VALID : list T) : string :=
  "Invalid " +:+ flag +:+ ": " +:+ quoted val +:+ ". Must be one of: " +:+ join ", " (name <$> VALID).

(** A value from a fixed list, refused when it is not in it. *)
Definition checked {A T} (flag : string) (name : T → string) (VALID : list T)
    (set : T → A → A) : Flag A :=
  Value (λ v acc, match member name VALID (or_empty v) with
                  | Some t => Ok (set t acc)
                  | None => Throw (invalid flag (or_empty v) name VALID)
                  end).

(** ** pinch-permissions *)
Definition calendar_name (c : CalendarPermission) : string :=
  match c with
  | cal_none => "none" | cal_free_busy_only => "free_busy_only"
  | cal_full_details => "full_details" | cal_propose_and_book => "propose_and_book"
  end.
Definition files_name (f : FilePermission) : string :=
  match f with
  | files_none => "none" | files_specific_folders => "specific_folders"
  | files_everything => "everything"
  end.
Definition actions_name (a : ActionPermission) : string :=
  match a with actions_none => "none" | actions_scoped => "scoped" | actions_full => "full" end.

Definition VALID_CALENDAR : list CalendarPermission :=
  [cal_none; cal_free_busy_only; cal_full_details; cal_propose_and_book].
Definition VALID_FILES : list FilePermission :=
  [files_none; files_specific_folders; files_everything].
Definition VALID_ACTIONS : list ActionPermission := [actions_none; actions_scoped; actions_full].

Record ParsedArgs : Type := mkParsedArgs {
  pa_address : string;
  pa_show : bool;
  pa_calendar : option CalendarPermission;
  pa_files : option FilePermission;
  pa_folders : option (list string);
  pa_actions : option ActionPermission;
  pa_scopes : option (list string);
  pa_spendingPerTx : option number;
  pa_spendingPerDay : option number;
  pa_spendingPerConnection : option number;
  pa_addBoundary : option string;
  pa_removeBoundary : option number;
  pa_addCategory : option string;
  pa_categoryDescription : option string;
  pa_categoryAllowed : option bool;
  pa_removeCategory : option string
}.

Definition set_address (v : string) (p : ParsedArgs) : ParsedArgs :=
  let 'mkParsedArgs _ x1 x2 x3 x4 x5 x6 x7 x8 x9 x10 x11 x12 x13 x14 x15 := p in
  mkParsedArgs v x1 x2 x3 x4 x5 x6 x7 x8 x9 x10 x11 x12 x13 x14 x15.
Definition set_show (v : bool) (p : ParsedArgs) : ParsedArgs :=
  let 'mkParsedArgs x0 _ x2 x3 x4 x5 x6 x7 x8 x9 x10 x11 x12 x13 x14 x15 := p in
  mkParsedArgs x0 v x2 x3 x4 x5 x6 x7 x8 x9 x10 x11 x12 x13 x14 x15.
Definition set_calendar (v : option CalendarPermission) (p : ParsedArgs) : ParsedArgs :=
  let 'mkParsedArgs x0 x1 _ x3 x4 x5 x6 x7 x8 x9 x10 x11 x12 x13 x14 x15 := p in
  mkParsedArgs x0 x1 v x3 x4 x5 x6 x7 x8 x9 x10 x11 x12 x13 x14 x15.
Definition set_files (v : option FilePermission) (p : ParsedArgs) : ParsedArgs :=
  let 'mkParsedArgs x0 x1 x2 _ x4 x5 x6 x7 x8 x9 x10 x11 x12 x13 x14 x15 := p in
  mkParsedArgs x0 x1 x2 v x4 x5 x6 x7 x8 x9 x10 x11 x12 x13 x14 x15.
Definition set_folders (v : option (list string)) (p : ParsedArgs) : ParsedArgs :=
  let 'mkParsedArgs x0 x1 x2 x3 _ x5 x6 x7 x8 x9 x10 x11 x12 x13 x14 x15 := p in
  mkParsedArgs x0 x1 x2 x3 v x5 x6 x7 x8 x9 x10 x11 x12 x13 x14 x15.
Definition set_actions (v : option ActionPermission) (p : ParsedArgs) : ParsedArgs :=
  let 'mkParsedArgs x0 x1 x2 x3 x4 _ x6 x7 x8 x9 x10 x11 x12 x13 x14 x15 := p in
  mkParsedArgs x0 x1 x2 x3 x4 v x6 x7 x8 x9 x10 x11 x12 x13 x14 x15.
Definition set_scopes (v : option (list string)) (p : ParsedArgs) : ParsedArgs :=
  let 'mkParsedArgs x0 x1 x2 x3 x4 x5 _ x7 x8 x9 x10 x11 x12 x13 x14 x15 := p in
  mkParsedArgs x0 x1 x2 x3 x4 x5 v x7 x8 x9 x10 x11 x12 x13 x14 x15.
Definition set_spendingPerTx (v : option number) (p : ParsedArgs) : ParsedArgs :=
  let 'mkParsedArgs x0 x1 x2 x3 x4 x5 x6 _ x8 x9 x10 x11 x12 x13 x14 x15 := p in
  mkParsedArgs x0 x1 x2 x3 x4 x5 x6 v x8 x9 x10 x11 x12 x13 x14 x15.
Definition set_spendingPerDay (v : option number) (p : ParsedArgs) : ParsedArgs :=
  let 'mkParsedArgs x0 x1 x2 x3 x4 x5 x6 x7 _ x9 x10 x11 x12 x13 x14 x15 := p in
  mkParsedArgs x0 x1 x2 x3 x4 x5 x6 x7 v x9 x10 x11 x12 x13 x14 x15.
Definition set_spendingPerConnection (v : option number) (p : ParsedArgs) : ParsedArgs :=
  let 'mkParsedArgs x0 x1 x2 x3 x4 x5 x6 x7 x8 _ x10 x11 x12 x13 x14 x15 := p in
  mkParsedArgs x0 x1 x2 x3 x4 x5 x6 x7 x8 v x10 x11 x12 x13 x14 x15.
Definition set_addBoundary (v : option string) (p : ParsedArgs) : ParsedArgs :=
  let 'mkParsedArgs x0 x1 x2 x3 x4 x5 x6 x7 x8 x9 _ x11 x12 x13 x14 x15 := p in
  mkParsedArgs x0 x1 x2 x3 x4 x5 x6 x7 x8 x9 v x11 x12 x13 x14 x15.
Definition set_removeBoundary (v : option number) (p : ParsedArgs) : ParsedArgs :=
  let 'mkParsedArgs x0 x1 x2 x3 x4 x5 x6 x7 x8 x9 x10 _ x12 x13 x14 x15 := p in
  mkParsedArgs x0 x1 x2 x3 x4 x5 x6 x7 x8 x9 x10 v x12 x13 x14 x15.
Definition set_addCategory (v : option string) (p : ParsedArgs) : ParsedArgs :=
  let 'mkParsedArgs x0 x1 x2 x3 x4 x5 x6 x7 x8 x9 x10 x11 _ x13 x14 x15 := p in
  mkParsedArgs x0 x1 x2 x3 x4 x5 x6 x7 x8 x9 x10 x11 v x13 x14 x15.
Definition set_categoryDescription (v : option string) (p : ParsedArgs) : ParsedArgs :=
  let 'mkParsedArgs x0 x1 x2 x3 x4 x5 x6 x7 x8 x9 x10 x11 x12 _ x14 x15 := p in
  mkParsedArgs x0 x1 x2 x3 x4 x5 x6 x7 x8 x9 x10 x11 x12 v x14 x15.
Definition set_categoryAllowed (v : option bool) (p : ParsedArgs) : ParsedArgs :=
  let 'mkParsedArgs x0 x1 x2 x3 x4 x5 x6 x7 x8 x9 x10 x11 x12 x13 _ x15 := p in
  mkParsedArgs x0 x1 x2 x3 x4 x5 x6 x7 x8 x9 x10 x11 x12 x13 v x15.
Definition set_removeCategory (v : option string) (p : ParsedArgs) : ParsedArgs :=
  let 'mkParsedArgs x0 x1 x2 x3 x4 x5 x6 x7 x8 x9 x10 x11 x12 x13 x14 _ := p in
  mkParsedArgs x0 x1 x2 x3 x4 x5 x6 x7 x8 x9 x10 x11 x12 x13 x14 v.

Definition no_args : ParsedArgs :=
  mkParsedArgs "" false None None None None None None None None None None None None None None.

(** [.split(",").map((f) => f.trim())] *)
Definition comma_list (v : option string) : list string := trim <$> split_on ","%char (or_empty v).

Definition permissions_cases (flag : string) : option (Flag ParsedArgs) :=
  if bool_decide (flag = "--address") then Some (assigns set_address or_empty)
  else if bool_decide (flag = "--show") then Some (Switch (set_show true))
  else if bool_decide (flag = "--calendar")
  then Some (checked flag calendar_name VALID_CALENDAR (set_calendar ∘ Some))
  else if bool_decide (flag = "--files")
  then Some (checked flag files_name VALID_FILES (set_files ∘ Some))
  else if bool_decide (flag = "--folders") then Some (assigns (set_folders ∘ Some) comma_list)
  else if bool_decide (flag = "--actions")
  then Some (checked flag actions_name VALID_ACTIONS (set_actions ∘ Some))
  else if bool_decide (flag = "--scopes") then Some (assigns (set_scopes ∘ Some) comma_list)
  else if bool_decide (flag = "--spending-per-tx")
  then Some (assigns (set_spendingPerTx ∘ Some) Number)
  else if bool_decide (flag = "--spending-per-day")
  then Some (assigns (set_spendingPerDay ∘ Some) Number)
  else if bool_decide (flag = "--spending-per-connection")
  then Some (assigns (set_spendingPerConnection ∘ Some) Number)
  else if bool_decide (flag = "--add-boundary") then Some (assigns set_addBoundary (λ v, v))
  else if bool_decide (flag = "--remove-boundary")
  then Some (assigns (set_removeBoundary ∘ Some) Number)
  else if bool_decide (flag = "--add-category") then Some (assigns set_addCategory (λ v, v))
  else if bool_decide (flag = "--category-description")
  then Some (assigns set_categoryDescription (λ v, v))
  else if bool_decide (flag = "--category-allowed")
  then Some (assigns (set_categoryAllowed ∘ Some) (λ v, bool_decide (or_empty v = "true")))
  else if bool_decide (flag = "--remove-category") then Some (assigns set_removeCategory (λ v, v))
  else None.

(** [if (!x) throw new Error(...)] for a string. *)
Definition required (x : string) (msg : string) {A} (k : res A) : res A :=
  if bool_decide (x = "") then Throw msg else k.

Definition res_bind {A B} (r : res A) (f : A → res B) : res B :=
  match r with Ok a => f a | Throw e => Throw e end.

Definition permissions_parseArgs (args : list string) : res ParsedArgs :=
  res_bind (scan permissions_cases args no_args) (λ p,
    required (pa_address p) "--address is required" (Ok p)).

(** ** pinch-connect *)
Record ConnectArgs : Type := mkConnectArgs {
  ca_to : string;
  ca_message : string
}.
Definition set_ca_to (v : string) (p : ConnectArgs) : ConnectArgs :=
  let 'mkConnectArgs _ x1 := p in mkConnectArgs v x1.
Definition set_ca_message (v : string) (p : ConnectArgs) : ConnectArgs :=
  let 'mkConnectArgs x0 _ := p in mkConnectArgs x0 v.

Definition connect_cases (flag : string) : option (Flag ConnectArgs) :=
  if bool_decide (flag = "--to") then Some (assigns set_ca_to or_empty)
  else if bool_decide (flag = "--message") then Some (assigns set_ca_message or_empty)
  else None.

Definition connect_parseArgs (args : list string) : res ConnectArgs :=
  res_bind (scan connect_cases args (mkConnectArgs "" "")) (λ p,
    required (ca_to p) "--to is required"
      (required (ca_message p) "--message is required" (Ok p))).

(** ** pinch-contacts *)
Definition LISTED_STATES : list ConnectionState :=
  [active; pending_inbound; pending_outbound; blocked; revoked].

(** A value from a fixed list, ignored when it is not in it (or absent). *)
Definition if_member {A T} (name : T → string) (VALID : list T) (set : T → A → A) : Flag A :=
  Value (λ v acc, Ok (match v ≫= member name VALID with Some t => set t acc | None => acc end)).

Definition contacts_cases (flag : string) : option (Flag (option ConnectionState)) :=
  if bool_decide (flag = "--state") then Some (if_member state_text LISTED_STATES (λ s _, Some s))
  else None.

Definition contacts_parseArgs (args : list string) : res (option ConnectionState) :=
  scan contacts_cases args None.

(** ** pinch-history *)
Record HistoryArgs : Type := mkHistoryArgs {
  ha_connection : option string;
  ha_thread : option string;
  ha_limit : number;
  ha_offset : number
}.
Definition set_ha_connection (v : option string) (p : HistoryArgs) : HistoryArgs :=
  let 'mkHistoryArgs _ x1 x2 x3 := p in mkHistoryArgs v x1 x2 x3.
Definition set_ha_thread (v : option string) (p : HistoryArgs) : HistoryArgs :=
  let 'mkHistoryArgs x0 _ x2 x3 := p in mkHistoryArgs x0 v x2 x3.
Definition set_ha_limit (v : number) (p : HistoryArgs) : HistoryArgs :=
  let 'mkHistoryArgs x0 x1 _ x3 := p in mkHistoryArgs x0 x1 v x3.
Definition set_ha_offset (v : number) (p : HistoryArgs) : HistoryArgs :=
  let 'mkHistoryArgs x0 x1 x2 _ := p in mkHistoryArgs x0 x1 x2 v.

(** [if (!Number.isNaN(val) && val > 0) limit = val] *)
Definition if_positive {A} (set : number → A → A) : Flag A :=
  Value (λ v acc, Ok (let val := parseInt v in
                      if negb (is_nan val) && num_gtb val 0 then set val acc else acc)).
Definition if_not_negative {A} (set : number → A → A) : Flag A :=
  Value (λ v acc, Ok (let val := parseInt v in
                      if negb (is_nan val) && num_geb val 0 then set val acc else acc)).

Definition history_cases (flag : string) : option (Flag HistoryArgs) :=
  if bool_decide (flag = "--connection") then Some (assigns set_ha_connection (λ v, v))
  else if bool_decide (flag = "--thread") then Some (assigns set_ha_thread (λ v, v))
  else if bool_decide (flag = "--limit") then Some (if_positive set_ha_limit)
  else if bool_decide (flag = "--offset") then Some (if_not_negative set_ha_offset)
  else None.

Definition history_parseArgs (args : list string) : res HistoryArgs :=
  scan history_cases args (mkHistoryArgs None None (num_of_Z 20) (num_of_Z 0)).

(** ** pinch-activity *)
Record ActivityArgs : Type := mkActivityArgs {
  aa_connection : option string;
  aa_type : option string;
  aa_since : option string;
  aa_until : option string;
  aa_limit : number;
  aa_includeMuted : bool
}.
Definition set_aa_connection (v : option string) (p : ActivityArgs) : ActivityArgs :=
  let 'mkActivityArgs _ x1 x2 x3 x4 x5 := p in mkActivityArgs v x1 x2 x3 x4 x5.
Definition set_aa_type (v : option string) (p : ActivityArgs) : ActivityArgs :=
  let 'mkActivityArgs x0 _ x2 x3 x4 x5 := p in mkActivityArgs x0 v x2 x3 x4 x5.
Definition set_aa_since (v : option string) (p : ActivityArgs) : ActivityArgs :=
  let 'mkActivityArgs x0 x1 _ x3 x4 x5 := p in mkActivityArgs x0 x1 v x3 x4 x5.
Definition set_aa_until (v : option string) (p : ActivityArgs) : ActivityArgs :=
  let 'mkActivityArgs x0 x1 x2 _ x4 x5 := p in mkActivityArgs x0 x1 x2 v x4 x5.
Definition set_aa_limit (v : number) (p : ActivityArgs) : ActivityArgs :=
  let 'mkActivityArgs x0 x1 x2 x3 _ x5 := p in mkActivityArgs x0 x1 x2 x3 v x5.
Definition set_aa_includeMuted (v : bool) (p : ActivityArgs) : ActivityArgs :=
  let 'mkActivityArgs x0 x1 x2 x3 x4 _ := p in mkActivityArgs x0 x1 x2 x3 x4 v.

Definition activity_cases (flag : string) : option (Flag ActivityArgs) :=
  if bool_decide (flag = "--connection") then Some (assigns set_aa_connection (λ v, v))
  else if bool_decide (flag = "--type") then Some (assigns set_aa_type (λ v, v))
  else if bool_decide (flag = "--since") then Some (assigns set_aa_since (λ v, v))
  else if bool_decide (flag = "--until") then Some (assigns set_aa_until (λ v, v))
  else if bool_decide (flag = "--limit") then Some (if_positive set_aa_limit)
  else if bool_decide (flag = "--include-muted") then Some (Switch (set_aa_includeMuted true))
  else None.

Definition activity_parseArgs (args : list string) : res ActivityArgs :=
  scan activity_cases args (mkActivityArgs None None None None (num_of_Z 50) false).

(** ** pinch-send *)
Record SendArgs : Type := mkSendArgs {
  sa_to : string;
  sa_body : string;
  sa_thread : option string;
  sa_replyTo : option string;
  sa_priority : option Priority
}.
Definition set_sa_to (v : string) (p : SendArgs) : SendArgs :=
  let 'mkSendArgs _ x1 x2 x3 x4 := p in mkSendArgs v x1 x2 x3 x4.
Definition set_sa_body (v : string) (p : SendArgs) : SendArgs :=
  let 'mkSendArgs x0 _ x2 x3 x4 := p in mkSendArgs x0 v x2 x3 x4.
Definition set_sa_thread (v : option string) (p : SendArgs) : SendArgs :=
  let 'mkSendArgs x0 x1 _ x3 x4 := p in mkSendArgs x0 x1 v x3 x4.
Definition set_sa_replyTo (v : option string) (p : SendArgs) : SendArgs :=
  let 'mkSendArgs x0 x1 x2 _ x4 := p in mkSendArgs x0 x1 x2 v x4.
Definition set_sa_priority (v : option Priority) (p : SendArgs) : SendArgs :=
  let 'mkSendArgs x0 x1 x2 x3 _ := p in mkSendArgs x0 x1 x2 x3 v.

Definition priority_name (p : Priority) : string :=
  match p with low => "low" | normal => "normal" | urgent => "urgent" end.

Definition send_cases (flag : string) : option (Flag SendArgs) :=
  if bool_decide (flag = "--to") then Some (assigns set_sa_to or_empty)
  else if bool_decide (flag = "--body") then Some (assigns set_sa_body or_empty)
  else if bool_decide (flag = "--thread") then Some (assigns set_sa_thread (λ v, v))
  else if bool_decide (flag = "--reply-to") then Some (assigns set_sa_replyTo (λ v, v))
  else if bool_decide (flag = "--priority")
  then Some (if_member priority_name [low; normal; urgent] (set_sa_priority ∘ Some))
  else None.

Definition send_parseArgs (args : list string) : res SendArgs :=
  res_bind (scan send_cases args (mkSendArgs "" "" None None None)) (λ p,
    required (sa_to p) "--to is required"
      (required (sa_body p) "--body is required" (Ok p))).

(** ** pinch-status *)
Definition status_cases (flag : string) : option (Flag string) :=
  if bool_decide (flag = "--id") then Some (assigns (λ v _, v) or_empty) else None.

Definition status_parseArgs (args : list string) : res string :=
  res_bind (scan status_cases args "") (λ i, required i "--id is required" (Ok i)).

(** ** pinch-accept and pinch-reject: the first [--connection] counts *)
Fixpoint find_connection (args : list string) : string :=
  match args with
  | [] => ""
  | arg :: rest =>
      if bool_decide (arg = "--connection") then or_empty (head rest) else find_connection rest
  end.

Definition parseConnectionArg (args : list string) : res string :=
  let connection := find_connection args in
  required connection "--connection is required" (Ok connection).

(** ** pinch-intervene *)
Inductive InterveneMode : Type := mode_start | mode_stop | mode_send.

Record InterveneArgs : Type := mkInterveneArgs {
  ia_mode : InterveneMode;
  ia_connection : string;
  ia_body : option string
}.

Record InterveneFlags : Type := mkInterveneFlags {
  if_start : bool;
  if_stop : bool;
  if_send : bool;
  if_connection : string;
  if_body : option string
}.
Definition set_if_start (v : bool) (p : InterveneFlags) : InterveneFlags :=
  let 'mkInterveneFlags _ x1 x2 x3 x4 := p in mkInterveneFlags v x1 x2 x3 x4.
Definition set_if_stop (v : bool) (p : InterveneFlags) : InterveneFlags :=
  let 'mkInterveneFlags x0 _ x2 x3 x4 := p in mkInterveneFlags x0 v x2 x3 x4.
Definition set_if_send (v : bool) (p : InterveneFlags) : InterveneFlags :=
  let 'mkInterveneFlags x0 x1 _ x3 x4 := p in mkInterveneFlags x0 x1 v x3 x4.
Definition set_if_connection (v : string) (p : InterveneFlags) : InterveneFlags :=
  let 'mkInterveneFlags x0 x1 x2 _ x4 := p in mkInterveneFlags x0 x1 x2 v x4.
Definition set_if_body (v : option string) (p : InterveneFlags) : InterveneFlags :=
  let 'mkInterveneFlags x0 x1 x2 x3 _ := p in mkInterveneFlags x0 x1 x2 x3 v.

Definition intervene_cases (flag : string) : option (Flag InterveneFlags) :=
  if bool_decide (flag = "--start") then Some (Switch (set_if_start true))
  else if bool_decide (flag = "--stop") then Some (Switch (set_if_stop true))
  else if bool_decide (flag = "--send") then Some (Switch (set_if_send true))
  else if bool_decide (flag = "--connection") then Some (assigns set_if_connection or_empty)
  else if bool_decide (flag = "--body") then Some (assigns (set_if_body ∘ Some) or_empty)
  else None.

Definition intervene_parseArgs (args : list string) : res InterveneArgs :=
  res_bind (scan intervene_cases args (mkInterveneFlags false false false "" None)) (λ p,
    required (if_connection p) "--connection is required" (
      let modeCount := length (List.filter (λ b, b) [if_start p; if_stop p; if_send p]) in
      if bool_decide (modeCount ≠ 1%nat)
      then Throw "Exactly one of --start, --stop, or --send is required"
      else
        let mode := if if_start p then mode_start else if if_stop p then mode_stop else mode_send in
        match mode with
        | mode_send =>
            if truthy_str (if_body p) then Ok (mkInterveneArgs mode (if_connection p) (if_body p))
            else Throw "--body is required with --send"
        | _ => Ok (mkInterveneArgs mode (if_connection p) (if_body p))
        end)).

(** ** pinch-autonomy *)
Definition level_name (l : AutonomyLevel) : string :=
  match l with
  | full_manual => "full_manual" | notify => "notify" | auto_respond => "auto_respond"
  | full_auto => "full_auto" | level_other s => s
  end.
Definition VALID_LEVELS : list AutonomyLevel := [full_manual; notify; auto_respond; full_auto].

Record AutonomyArgs : Type := mkAutonomyArgs {
  ua_address : string;
  ua_level : AutonomyLevel;
  ua_confirmed : bool;
  ua_policy : option string
}.

Record AutonomyFlags : Type := mkAutonomyFlags {
  uf_address : string;
  uf_level : string;
  uf_confirmed : bool;
  uf_policy : option string
}.
Definition set_uf_address (v : string) (p : AutonomyFlags) : AutonomyFlags :=
  let 'mkAutonomyFlags _ x1 x2 x3 := p in mkAutonomyFlags v x1 x2 x3.
Definition set_uf_level (v : string) (p : AutonomyFlags) : AutonomyFlags :=
  let 'mkAutonomyFlags x0 _ x2 x3 := p in mkAutonomyFlags x0 v x2 x3.
Definition set_uf_confirmed (v : bool) (p : AutonomyFlags) : AutonomyFlags :=
  let 'mkAutonomyFlags x0 x1 _ x3 := p in mkAutonomyFlags x0 x1 v x3.
Definition set_uf_policy (v : option string) (p : AutonomyFlags) : AutonomyFlags :=
  let 'mkAutonomyFlags x0 x1 x2 _ := p in mkAutonomyFlags x0 x1 x2 v.

Definition autonomy_cases (flag : string) : option (Flag AutonomyFlags) :=
  if bool_decide (flag = "--address") then Some (assigns set_uf_address or_empty)
  else if bool_decide (flag = "--level") then Some (assigns set_uf_level or_empty)
  else if bool_decide (flag = "--confirmed") then Some (Switch (set_uf_confirmed true))
  else if bool_decide (flag = "--policy") then Some (assigns set_uf_policy (λ v, v))
  else None.

Definition autonomy_parseArgs (args : list string) : res AutonomyArgs :=
  res_bind (scan autonomy_cases args (mkAutonomyFlags "" "" false None)) (λ p,
    required (uf_address p) "--address is required" (
      required (uf_level p) "--level is required" (
        match member level_name VALID_LEVELS (uf_level p) with
        | Some level => Ok (mkAutonomyArgs (uf_address p) level (uf_confirmed p) (uf_policy p))
        | None => Throw (invalid "--level" (uf_level p) level_name VALID_LEVELS)
        end))).

(** ** pinch-mute *)
Record MuteArgs : Type := mkMuteArgs {
  ma_connection : string;
  ma_unmute : bool
}.
Definition set_ma_connection (v : string) (p : MuteArgs) : MuteArgs :=
  let 'mkMuteArgs _ x1 := p in mkMuteArgs v x1.
Definition set_ma_unmute (v : bool) (p : MuteArgs) : MuteArgs :=
  let 'mkMuteArgs x0 _ := p in mkMuteArgs x0 v.

Definition mute_cases (flag : string) : option (Flag MuteArgs) :=
  if bool_decide (flag = "--connection") then Some (assigns set_ma_connection or_empty)
  else if bool_decide (flag = "--unmute") then Some (Switch (set_ma_unmute true))
  else None.

Definition mute_parseArgs (args : list string) : res MuteArgs :=
  res_bind (scan mute_cases args (mkMuteArgs "" false)) (λ p,
    required (ma_connection p) "--connection is required" (Ok p)).

(** ** pinch-audit-verify *)
Definition audit_verify_cases (flag : string) : option (Flag (option number)) :=
  if bool_decide (flag = "--tail") then
    Some (Value (λ raw tail,
      match raw with
      | None => Throw "--tail requires a number"
      | Some _ =>
          let val := parseInt raw in
          if is_nan val || negb (num_gtb val 0) then Throw "--tail requires a positive number"
          else Ok (Some val)
      end))
  else None.

Definition audit_verify_parseArgs (args : list string) : res (option number) :=
  scan audit_verify_cases args None.

(** ** pinch-audit-export *)
Record AuditExportArgs : Type := mkAuditExportArgs {
  xa_output : option string;
  xa_since : option string;
  xa_until : option string
}.
Definition set_xa_output (v : option string) (p : AuditExportArgs) : AuditExportArgs :=
  let 'mkAuditExportArgs _ x1 x2 := p in mkAuditExportArgs v x1 x2.
Definition set_xa_since (v : option string) (p : AuditExportArgs) : AuditExportArgs :=
  let 'mkAuditExportArgs x0 _ x2 := p in mkAuditExportArgs x0 v x2.
Definition set_xa_until (v : option string) (p : AuditExportArgs) : AuditExportArgs :=
  let 'mkAuditExportArgs x0 x1 _ := p in mkAuditExportArgs x0 x1 v.

Definition audit_export_cases (flag : string) : option (Flag AuditExportArgs) :=
  if bool_decide (flag = "--output") then
    Some (Value (λ v p, match v with
                        | None => Throw "--output requires a file path"
                        | Some _ => Ok (set_xa_output v p)
                        end))
  else if bool_decide (flag = "--since") then Some (assigns set_xa_since (λ v, v))
  else if bool_decide (flag = "--until") then Some (assigns set_xa_until (λ v, v))
  else None.

Definition audit_export_parseArgs (args : list string) : res AuditExportArgs :=
  res_bind (scan audit_export_cases args (mkAuditExportArgs None None None)) (λ p,
    if truthy_str (xa_output p) then Ok p else Throw "--output is required").
