(* ===== verification/ArgsSpec.v ===== *)
(** What the argument parsers of the tools do.  The arguments are first read as a
    list of options, each with its value; the loop is the fold of the [case]s
    over it, so a value is never taken for an option and the last occurrence
    wins.  From this: pinch-autonomy takes [--confirmed] only as an option of its
    own, and the options of pinch-permissions round-trip. *)
From S2P Require Import Prelude JsLib JsNumber Platform PermissionsManifest ConnectionStore MessageStore.
From S2P Require Import Args.
From Stdlib Require Import Ascii.

(** ** The loop as a fold over options *)
Section options.
Context {A : Type} (cases : string → option (Flag A)).

(** The options of a command line; a value option at the end has no value. *)
Fixpoint options (args : list string) : list (string * option string) :=
  match args with
  | [] => []
  | arg :: rest =>
      match cases arg with
      | None => options rest
      | Some (Switch _) => (arg, None) :: options rest
      | Some (Value _) =>
          match rest with
          | [] => [(arg, None)]
          | value :: rest => (arg, Some value) :: options rest
          end
      end
  end.

Definition apply_option (o : string * option string) (acc : A) : res A :=
  match cases o.1 with
  | None => Ok acc
  | Some (Switch f) => Ok (f acc)
  | Some (Value f) => f o.2 acc
  end.

Fixpoint apply_options (os : list (string * option string)) (acc : A) : res A :=
  match os with
  | [] => Ok acc
  | o :: os => res_bind (apply_option o acc) (apply_options os)
  end.

Lemma apply_options_app os os' acc :
  apply_options (os ++ os') acc = res_bind (apply_options os acc) (apply_options os').
Proof.
  revert acc. induction os as [|o os IH]; intros acc; simpl; [done|].
  destruct (apply_option o acc); simpl; auto.
Qed.

Lemma scan_options args acc : scan cases args acc = apply_options (options args) acc.
Proof.
  remember (length args) as n eqn:Hn. assert (length args ≤ n) as Hle by lia. clear Hn.
  revert args acc Hle. induction n as [|n IH]; intros [|arg rest] acc Hle; simpl in *; try done; try lia.
  assert (∀ rest' acc', length rest' ≤ length rest →
    scan cases rest' acc' = apply_options (options rest') acc') as IH' by (intros; apply IH; lia).
  destruct (cases arg) as [[f|f]|] eqn:E; simpl; unfold apply_option; simpl; rewrite ?E; [by apply IH'| |by apply IH'].
  destruct rest as [|v rest]; simpl; unfold apply_option; simpl; rewrite ?E; simpl.
  - by destruct (f None acc).
  - destruct (f (Some v) acc); simpl; [|done]. apply IH'. simpl. lia.
Qed.

(** The last value given to an option; [occurs] for switches. *)
Definition last_value (flag : string) (args : list string) : option (option string) :=
  snd <$> last (filter (λ o, o.1 = flag) (options args)).
Definition occurs (flag : string) (args : list string) : bool :=
  bool_decide (flag ∈ (options args).*1).

(** A field that one option assigns and no other touches. *)
Lemma field_last {V} (field : A → V) (flag : string) (get : option string → V) os acc acc' :
  (∀ v a a', apply_option (flag, v) a = Ok a' → field a' = get v) →
  (∀ o a a', o.1 ≠ flag → apply_option o a = Ok a' → field a' = field a) →
  apply_options os acc = Ok acc' →
  field acc' = match last (filter (λ o, o.1 = flag) os) with
               | Some o => get o.2 | None => field acc
               end.
Proof.
  intros Hset Hkeep. revert acc'. induction os as [|o os IH] using rev_ind; simpl; intros acc'.
  - by intros [= ->].
  - rewrite apply_options_app, filter_app. simpl.
    destruct (apply_options os acc) as [a|]; simpl; [|done].
    destruct (apply_option o a) as [a'|] eqn:Ho; simpl; [|done]. intros [= ->].
    rewrite filter_cons. case_decide as Hf.
    + rewrite filter_nil, last_snoc. apply (Hset o.2 a). by destruct o as [f v]; simpl in *; subst.
    + rewrite filter_nil, app_nil_r, <- (IH a eq_refl). by apply (Hkeep o).
Qed.
End options.

(** A parser none of whose options is refused ends with a result. *)
Lemma apply_options_total {A} (cases : string → option (Flag A)) os acc :
  (∀ o a, ∃ a', apply_option cases o a = Ok a') → ∃ a', apply_options cases os acc = Ok a'.
Proof.
  intros Ht. revert acc. induction os as [|o os IH]; intros acc; simpl; [eauto|].
  destruct (Ht o acc) as [a ->]. apply IH.
Qed.

Lemma last_filter_value flag (os : list (string * option string)) :
  match last (filter (λ o, o.1 = flag) os) with Some o => o.2 | None => None end =
  default None (snd <$> last (filter (λ o, o.1 = flag) os)).
Proof. by destruct (last _). Qed.

Lemma last_filter_occurs flag (os : list (string * option string)) :
  match last (filter (λ o, o.1 = flag) os) with Some _ => true | None => false end =
  bool_decide (flag ∈ os.*1).
Proof.
  destruct (last (filter _ os)) as [o|] eqn:E; symmetry.
  - apply last_Some in E as [l E]. apply bool_decide_eq_true, list_elem_of_fmap.
    assert (o ∈ filter (λ o, o.1 = flag) os) as [<- Ho]%list_elem_of_filter
      by (rewrite E; set_solver). by exists o.
  - apply bool_decide_eq_false. intros (o & -> & Ho)%list_elem_of_fmap. apply last_None in E.
    assert (o ∈ filter (λ o', o'.1 = o.1) os) as Hin by by apply list_elem_of_filter.
    rewrite E in Hin. by apply not_elem_of_nil in Hin.
Qed.

(** One [case] of a tool at a time. *)
Ltac by_flag cases :=
  unfold apply_option, cases, assigns, checked, if_member, if_positive, if_not_negative; simpl;
  repeat case_bool_decide; simpl; subst.
Ltac by_field cases := intros [? ?] []; by_flag cases; intros; simplify_eq/=; done.
Ltac by_set cases := intros ? []; by_flag cases; intros; simplify_eq/=; done.

(** [field acc' = last value], from a run of the options. *)
Ltac last_wins cases field flag get Hp :=
  let H := fresh in
  assert (H := field_last cases field flag get _ _ _ ltac:(by_set cases) ltac:(by_field cases) Hp);
  cbn in H; rewrite H; by destruct (last _).

(** ** pinch-autonomy *)

(** The command line read declaratively: the last [--address], [--level] and
    [--policy], and whether [--confirmed] is one of the options. *)
Definition autonomy_reference (args : list string) : res AutonomyArgs :=
  let value flag := default None (last_value autonomy_cases flag args) in
  let address := or_empty (value "--address") in
  let level := or_empty (value "--level") in
  required address "--address is required" (
    required level "--level is required" (
      match member level_name VALID_LEVELS level with
      | Some level =>
          Ok (mkAutonomyArgs address level (occurs autonomy_cases "--confirmed" args) (value "--policy"))
      | None => Throw (invalid "--level" level level_name VALID_LEVELS)
      end)).

Lemma autonomy_scan args :
  scan autonomy_cases args (mkAutonomyFlags "" "" false None) =
  Ok (mkAutonomyFlags (or_empty (default None (last_value autonomy_cases "--address" args)))
        (or_empty (default None (last_value autonomy_cases "--level" args)))
        (occurs autonomy_cases "--confirmed" args)
        (default None (last_value autonomy_cases "--policy" args))).
Proof.
  rewrite scan_options.
  destruct (apply_options_total autonomy_cases (options autonomy_cases args)
    (mkAutonomyFlags "" "" false None)) as [p Hp].
  { intros [f v] a. by_flag autonomy_cases; eauto. }
  rewrite Hp. f_equal. unfold last_value, occurs.
  rewrite <- last_filter_occurs, <- !last_filter_value.
  destruct p as [a l c po]. f_equal.
  - last_wins autonomy_cases uf_address "--address" or_empty Hp.
  - last_wins autonomy_cases uf_level "--level" or_empty Hp.
  - last_wins autonomy_cases uf_confirmed "--confirmed" (λ _ : option string, true) Hp.
  - last_wins autonomy_cases uf_policy "--policy" (λ v : option string, v) Hp.
Qed.

(** The loop of pinch-autonomy reads its command line as intended: the last
    occurrence of each option counts, a value is never taken for an option (so
    [--policy --confirmed] confirms nothing), unknown words are skipped, and
    the three checks are made in order on the result. *)
Theorem autonomy_parseArgs_last_wins args : autonomy_parseArgs args = autonomy_reference args.
Proof. unfold autonomy_parseArgs, autonomy_reference. by rewrite autonomy_scan. Qed.

(** ** Options that may be absent, in a printed command line *)
Definition switch_arg (flag : string) (b : bool) : list string := if b then [flag] else [].
Definition value_arg {V} (flag : string) (text : V → string) (o : option V) : list string :=
  match o with Some v => [flag; text v] | None => [] end.

Section render.
Context {A : Type} (cases : string → option (Flag A)).

Lemma scan_switch_arg flag f b rest acc :
  cases flag = Some (Switch f) →
  scan cases (switch_arg flag b ++ rest) acc = scan cases rest (if b then f acc else acc).
Proof. intros Hf. destruct b; simpl; by rewrite ?Hf. Qed.

Lemma scan_value_arg {V} flag f (text : V → string) (g : option V → A → A) o rest acc :
  cases flag = Some (Value f) →
  (∀ v, o = Some v → f (Some (text v)) acc = Ok (g (Some v) acc)) → g None acc = acc →
  scan cases (value_arg flag text o ++ rest) acc = scan cases rest (g o acc).
Proof.
  intros Hf Hv Hn. destruct o as [v|]; simpl; [|by rewrite Hn]. by rewrite Hf, Hv.
Qed.
End render.

Lemma member_name {T} (name : T → string) VALID t :
  Inj (=) (=) name → t ∈ VALID → member name VALID (name t) = Some t.
Proof.
  intros Hinj. unfold member. induction VALID as [|u l IH]; intros Hin; simpl.
  - by apply not_elem_of_nil in Hin.
  - case_bool_decide as Hu; [by apply Hinj in Hu as ->|]. apply IH.
    by apply elem_of_cons in Hin as [->|].
Qed.

Lemma member_Some {T} (name : T → string) VALID val t :
  member name VALID val = Some t → t ∈ VALID ∧ name t = val.
Proof.
  unfold member. intros [Hin Hb]%find_some. split; [by apply list_elem_of_In|].
  by apply bool_decide_eq_true in Hb.
Qed.

(** ** pinch-permissions *)

(** A list [--folders] and [--scopes] can carry: no comma, no outer blanks. *)
Definition comma_free (l : list string) : Prop :=
  l ≠ [] ∧ Forall (λ s, str_forall (λ c, bool_decide (c ≠ ","%char)) s = true ∧ trim s = s) l.

Lemma comma_list_join l : comma_free l → comma_list (Some (join "," l)) = l.
Proof.
  intros [Hne Hl]. unfold comma_list. simpl. rewrite (split_on_join ","%char).
  - rewrite <- (list_fmap_id l) at 2. apply list_fmap_ext. intros i s Hs.
    rewrite Forall_lookup in Hl. by destruct (Hl i s Hs).
  - done.
  - eapply Forall_impl; [exact Hl|]. by intros ? [].
Qed.

Section permissions.
(** [String(n)]. *)
Context (num_str : number → string).

Definition permissions_render (p : ParsedArgs) : list string :=
  value_arg "--address" (λ s, s) (Some (pa_address p)) ++
  switch_arg "--show" (pa_show p) ++
  value_arg "--calendar" calendar_name (pa_calendar p) ++
  value_arg "--files" files_name (pa_files p) ++
  value_arg "--folders" (join ",") (pa_folders p) ++
  value_arg "--actions" actions_name (pa_actions p) ++
  value_arg "--scopes" (join ",") (pa_scopes p) ++
  value_arg "--spending-per-tx" num_str (pa_spendingPerTx p) ++
  value_arg "--spending-per-day" num_str (pa_spendingPerDay p) ++
  value_arg "--spending-per-connection" num_str (pa_spendingPerConnection p) ++
  value_arg "--add-boundary" (λ s, s) (pa_addBoundary p) ++
  value_arg "--remove-boundary" num_str (pa_removeBoundary p) ++
  value_arg "--add-category" (λ s, s) (pa_addCategory p) ++
  value_arg "--category-description" (λ s, s) (pa_categoryDescription p) ++
  value_arg "--category-allowed" (λ b : bool, if b then "true" else "false") (pa_categoryAllowed p) ++
  value_arg "--remove-category" (λ s, s) (pa_removeCategory p) ++ [].

(** What a command line can say. *)
Record writable (p : ParsedArgs) : Prop := {
  wr_address : pa_address p ≠ "";
  wr_folders l : pa_folders p = Some l → comma_free l;
  wr_scopes l : pa_scopes p = Some l → comma_free l;
  wr_numbers o n :
    o ∈ [pa_spendingPerTx p; pa_spendingPerDay p; pa_spendingPerConnection p;
         pa_removeBoundary p] → o = Some n → Number (Some (num_str n)) = n
}.

Lemma member_calendar v : member calendar_name VALID_CALENDAR (calendar_name v) = Some v.
Proof. by destruct v. Qed.
Lemma member_files v : member files_name VALID_FILES (files_name v) = Some v.
Proof. by destruct v. Qed.
Lemma member_actions v : member actions_name VALID_ACTIONS (actions_name v) = Some v.
Proof. by destruct v. Qed.

(** One option: its [case] is found by evaluation, its text is read back by [tac]. *)
Ltac option_is g tac :=
  erewrite (scan_value_arg permissions_cases _ _ _ g);
  [|reflexivity|intros ? Hv; cbn -[join comma_list Number member]; tac Hv; reflexivity|reflexivity].
Ltac plain Hv := idtac.
Ltac from_list Hv := first [rewrite member_calendar|rewrite member_files|rewrite member_actions].

(** The command line of pinch-permissions round-trips: printing a set of
    options and parsing it yields exactly those options, whatever the texts of
    the boundaries and categories are, for an address that is not empty, lists
    without commas and outer blanks, and numbers that [String] and [Number]
    round-trip. *)
Theorem permissions_args_roundtrip p :
  writable p → permissions_parseArgs (permissions_render p) = Ok p.
Proof.
  intros [Ha Hf Hs Hn]. unfold permissions_parseArgs, permissions_render.
  option_is (λ o, set_address (default "" o)) plain.
  rewrite (scan_switch_arg _ _ (set_show true)) by reflexivity.
  assert ((if pa_show p then set_show true (set_address (default "" (Some (pa_address p))) no_args)
           else set_address (default "" (Some (pa_address p))) no_args) =
          set_show (pa_show p) (set_address (pa_address p) no_args)) as -> by by destruct (pa_show p).
  option_is set_calendar from_list. option_is set_files from_list.
  option_is set_folders ltac:(fun Hv => rewrite comma_list_join by by apply Hf).
  option_is set_actions from_list.
  option_is set_scopes ltac:(fun Hv => rewrite comma_list_join by by apply Hs).
  option_is set_spendingPerTx ltac:(fun Hv => rewrite (Hn (pa_spendingPerTx p) _ ltac:(set_solver) Hv)).
  option_is set_spendingPerDay ltac:(fun Hv => rewrite (Hn (pa_spendingPerDay p) _ ltac:(set_solver) Hv)).
  option_is set_spendingPerConnection ltac:(fun Hv => rewrite (Hn (pa_spendingPerConnection p) _ ltac:(set_solver) Hv)).
  option_is set_addBoundary plain.
  option_is set_removeBoundary ltac:(fun Hv => rewrite (Hn (pa_removeBoundary p) _ ltac:(set_solver) Hv)).
  option_is set_addCategory plain. option_is set_categoryDescription plain.
  option_is set_categoryAllowed ltac:(fun Hv => case_match).
  option_is set_removeCategory plain.
  cbn [scan res_bind]. destruct p; cbn in *. unfold required. by rewrite bool_decide_false.
Qed.
End permissions.

(** ** Witnesses *)
Definition sample_num_str (n : number) : string :=
  if decide (n = num_of_Z 250) then "250" else "1".
Definition sample_args : ParsedArgs :=
  mkParsedArgs "pinch:p@h" false (Some cal_full_details) (Some files_specific_folders)
    (Some ["work"; "my notes"]) None None (Some (num_of_Z 250)) None None (Some "--show")
    (Some (num_of_Z 1)) None None (Some true) None.

Lemma permissions_args_roundtrip_witness :
  permissions_parseArgs (permissions_render sample_num_str sample_args) = Ok sample_args.
Proof.
  apply (permissions_args_roundtrip sample_num_str sample_args). split.
  - discriminate.
  - intros l [= <-]. split; [done|]. by repeat constructor.
  - discriminate.
  - intros o n Ho ->. cbn [sample_args pa_spendingPerTx pa_spendingPerDay pa_spendingPerConnection
      pa_removeBoundary] in Ho.
    repeat (apply elem_of_cons in Ho as [Ho|Ho];
      [try discriminate Ho; injection Ho as ->; vm_compute; reflexivity|]).
    by apply not_elem_of_nil in Ho.
Defined.
