(* ===== verification/ActivityFeed.v ===== *)
(** [autonomy/activity-feed.ts]: the event log and its SHA-256 hash chain.  The
    table [activity_events] is the list of its rows in insertion order. *)
From S2P Require Import Prelude JsLib Platform.

(** ** Data *)
Record ActivityEvent : Type := mkEvent {
  ev_id : string;
  ev_connectionAddress : string;
  ev_eventType : string;
  ev_messageId : option string;
  ev_badge : option string;
  ev_details : option string;
  ev_createdAt : string;
  ev_actorPubkey : option string;
  ev_actionType : option string;
  ev_messageHash : option string;
  ev_prevHash : option string;
  ev_entryHash : option string
}.

(** The argument of [record]: [Omit<ActivityEvent, "id" | "createdAt" | ...>]. *)
Record EventInput : Type := mkEventInput {
  in_connectionAddress : string;
  in_eventType : string;
  in_messageId : option string;
  in_badge : option string;
  in_details : option string;
  in_actorPubkey : option string;
  in_actionType : option string;
  in_messageHash : option string
}.

(** A row of [activity_events]; the two hash columns are NOT NULL DEFAULT ''. *)
Record ActivityRow : Type := mkActivityRow {
  id : string;
  connection_address : string;
  event_type : string;
  message_id : option string;
  badge : option string;
  details : option string;
  created_at : string;
  actor_pubkey : option string;
  action_type : option string;
  message_hash : option string;
  prev_hash : string;
  entry_hash : string
}.

#[export] Instance ActivityRow_eq_dec : EqDecision ActivityRow.
Proof. solve_decision. Defined.

(** The argument of [computeEntryHash]. *)
Record HashedEntry : Type := mkHashed {
  h_id : string;
  h_timestamp : string;
  h_actorPubkey : string;
  h_actionType : string;
  h_connectionAddress : string;
  h_messageHash : string;
  h_prevHash : string
}.

Section feed.
Context `{Sha256, SqlEngine}.

Definition entry_data (entry : HashedEntry) : string :=
  join "|" [h_id entry; h_timestamp entry; h_actorPubkey entry; h_actionType entry;
            h_connectionAddress entry; h_messageHash entry; h_prevHash entry].

Definition computeEntryHash (entry : HashedEntry) : string := sha256_hex (entry_data entry).

(** [ORDER BY created_at DESC, id DESC] and the ascending order. *)
Definition key_asc (a b : ActivityRow) : bool :=
  match String.compare (created_at a) (created_at b) with
  | Lt => true
  | Eq => String.leb (id a) (id b)
  | Gt => false
  end.
Definition key_desc (a b : ActivityRow) : bool := key_asc b a.

(** [record(event)]: [i] is the [uuidv7()] and [createdAt] the timestamp the call draws. *)
Definition record (i createdAt : string) (event : EventInput)
    : M (list ActivityRow) ActivityEvent :=
  rows ← gets (λ rows, rows);
  let lastRow := head (sql_limit 1 0 (order_by key_desc rows)) in
  let prevHash := str_or (entry_hash <$> lastRow) "" in
  let actionType := default (in_eventType event) (in_actionType event) in
  let entryHash := computeEntryHash {|
    h_id := i;
    h_timestamp := createdAt;
    h_actorPubkey := default "" (in_actorPubkey event);
    h_actionType := actionType;
    h_connectionAddress := in_connectionAddress event;
    h_messageHash := default "" (in_messageHash event);
    h_prevHash := prevHash
  |} in
  (if bool_decide (i ∈ id <$> rows) then throw "UNIQUE constraint failed: activity_events.id"
   else modify (λ rows, rows ++ [{|
     id := i;
     connection_address := in_connectionAddress event;
     event_type := in_eventType event;
     message_id := in_messageId event;
     badge := in_badge event;
     details := in_details event;
     created_at := createdAt;
     actor_pubkey := in_actorPubkey event;
     action_type := Some actionType;
     message_hash := in_messageHash event;
     prev_hash := prevHash;
     entry_hash := entryHash
   |}]));;
  mret {|
    ev_id := i;
    ev_connectionAddress := in_connectionAddress event;
    ev_eventType := in_eventType event;
    ev_messageId := in_messageId event;
    ev_badge := in_badge event;
    ev_details := in_details event;
    ev_createdAt := createdAt;
    ev_actorPubkey := in_actorPubkey event;
    ev_actionType := in_actionType event;
    ev_messageHash := in_messageHash event;
    ev_prevHash := Some prevHash;
    ev_entryHash := Some entryHash
  |}.

(** ** Queries *)
Record EventQuery : Type := mkEventQuery {
  q_connectionAddress : option string;
  q_eventType : option string;
  q_since : option string;
  q_until : option string;
  q_excludeEventTypes : option (list string);
  q_limit : option Z
}.

Definition event_where (q : EventQuery) (r : ActivityRow) : bool :=
  (if truthy_str (q_connectionAddress q)
   then bool_decide (Some (connection_address r) = q_connectionAddress q) else true)
  && (if truthy_str (q_eventType q)
      then bool_decide (Some (event_type r) = q_eventType q) else true)
  && (if truthy_str (q_since q)
      then String.leb (default "" (q_since q)) (created_at r) else true)
  && (if truthy_str (q_until q)
      then String.leb (created_at r) (default "" (q_until q)) else true)
  && (if bool_decide (default [] (q_excludeEventTypes q) ≠ [])
      then bool_decide (event_type r ∉ default [] (q_excludeEventTypes q)) else true).

Definition rowToEvent (r : ActivityRow) : ActivityEvent := {|
  ev_id := id r;
  ev_connectionAddress := connection_address r;
  ev_eventType := event_type r;
  ev_messageId := message_id r;
  ev_badge := badge r;
  ev_details := details r;
  ev_createdAt := created_at r;
  ev_actorPubkey := actor_pubkey r;
  ev_actionType := action_type r;
  ev_messageHash := message_hash r;
  ev_prevHash := Some (prev_hash r);
  ev_entryHash := Some (entry_hash r)
|}.

(** [ORDER BY created_at DESC LIMIT @limit] *)
Definition getEvents (q : EventQuery) (rows : list ActivityRow) : list ActivityEvent :=
  rowToEvent <$>
    sql_limit (default 100%Z (q_limit q)) 0
      (order_by (λ a b, String.leb (created_at b) (created_at a))
         (filter (λ r, event_where q r = true) rows)).
End feed.

(** ** The order of the log *)
Lemma key_asc_total a b : key_asc a b = true ∨ key_asc b a = true.
Proof.
  unfold key_asc. rewrite (String.compare_antisym (created_at b) (created_at a)).
  destruct (String.compare (created_at a) (created_at b)); simpl; auto.
  apply str_leb_total.
Qed.

Lemma str_compare_lt_trans s t u :
  String.compare s t = Lt → String.compare t u = Lt → String.compare s u = Lt.
Proof.
  intros H1 H2. destruct (String.compare s u) eqn:E; [| done |].
  - apply str_compare_eq in E as ->.
    rewrite (String.compare_antisym t u), H1 in H2. done.
  - assert (String.leb u s = true) as H3
      by (unfold String.leb; by rewrite (String.compare_antisym u s), E).
    assert (String.leb s t = true) as H4 by (unfold String.leb; by rewrite H1).
    pose proof (str_leb_trans _ _ _ H3 H4) as H5. unfold String.leb in H5.
    rewrite (String.compare_antisym u t), H2 in H5. done.
Qed.

Lemma key_asc_trans a b c : key_asc a b = true → key_asc b c = true → key_asc a c = true.
Proof.
  unfold key_asc. intros H1 H2.
  destruct (String.compare (created_at a) (created_at b)) eqn:E1,
    (String.compare (created_at b) (created_at c)) eqn:E2; try done.
  - apply str_compare_eq in E1 as ->. rewrite E2. by eapply str_leb_trans.
  - apply str_compare_eq in E1 as ->. by rewrite E2.
  - apply str_compare_eq in E2 as <-. by rewrite E1.
  - by rewrite (str_compare_lt_trans _ _ _ E1 E2).
Qed.

Lemma key_asc_antisym a b : key_asc a b = true → key_asc b a = true → id a = id b.
Proof.
  unfold key_asc. rewrite (String.compare_antisym (created_at b) (created_at a)).
  destruct (String.compare (created_at a) (created_at b)); simpl; try done.
  apply str_leb_antisym.
Qed.

Definition feed_unique (rows : list ActivityRow) : Prop := NoDup (id <$> rows).

Lemma feed_unique_eq rows a b :
  feed_unique rows → a ∈ rows → b ∈ rows → id a = id b → a = b.
Proof.
  intros Hnd [i Hi]%list_elem_of_lookup [j Hj]%list_elem_of_lookup E.
  assert (i = j) as ->; [|congruence].
  apply (NoDup_lookup _ _ _ (id a) Hnd); rewrite list_lookup_fmap, ?Hi, ?Hj; simpl; congruence.
Qed.

Section order.
Context `{SqlLaws}.

(** With unique ids every engine returns the rows in the one key order. *)
Lemma order_asc_unique rows l :
  feed_unique rows → l ≡ₚ rows → StronglySorted (λ a b, key_asc a b = true) l →
  order_by key_asc rows = l.
Proof.
  intros Hu Hp Hs.
  apply order_by_unique; [apply key_asc_total|apply key_asc_trans|done|done|].
  intros a b Ha Hb H1 H2. eapply feed_unique_eq; eauto using key_asc_antisym.
Qed.

Lemma order_desc_unique rows l :
  feed_unique rows → l ≡ₚ rows → StronglySorted (λ a b, key_desc a b = true) l →
  order_by key_desc rows = l.
Proof.
  intros Hu Hp Hs. unfold key_desc in *.
  apply order_by_unique; [intros; apply key_asc_total| |done|done|].
  - intros x y z H1 H2. by eapply key_asc_trans.
  - intros a b Ha Hb H1 H2. eapply feed_unique_eq; eauto using key_asc_antisym.
Qed.
End order.
