(* ===== verification/AuditVerify.v ===== *)
(** [tools/pinch-audit-verify.ts]: walking the hash chain of the activity log,
    and what a passing walk says about the log. *)
From S2P Require Import Prelude JsLib Platform ActivityFeed.
From Stdlib Require Import Ascii.

(** The JSON object the tool prints. *)
Inductive AuditReport : Type :=
| Valid (total_entries verified_entries : nat) (genesis_id latest_id : option string)
| Broken (total_entries : nat) (first_broken_at : string) (broken_index : nat)
    (expected_hash actual_hash : string).

Section verify.
Context `{Sha256, SqlEngine}.

(** The recomputed hash of a row; NULL columns count as [""]. *)
Definition rowHash (entry : ActivityRow) : string := computeEntryHash {|
  h_id := id entry;
  h_timestamp := created_at entry;
  h_actorPubkey := default "" (actor_pubkey entry);
  h_actionType := default "" (action_type entry);
  h_connectionAddress := connection_address entry;
  h_messageHash := default "" (message_hash entry);
  h_prevHash := prev_hash entry
|}.

(** The [for] loop, [prevEntry] being [entries[i - 1]]; [None] when it runs to the end. *)
Fixpoint walk (tail : bool) (totalEntries i : nat) (prevEntry : option ActivityRow)
    (entries : list ActivityRow) : option AuditReport :=
  match entries with
  | [] => None
  | entry :: rest =>
      let expectedHash := rowHash entry in
      if bool_decide (expectedHash ≠ entry_hash entry)
      then Some (Broken totalEntries (id entry) i expectedHash (entry_hash entry))
      else
        match prevEntry with
        | None =>
            if negb tail && bool_decide (prev_hash entry ≠ "")
            then Some (Broken totalEntries (id entry) i "" (prev_hash entry))
            else walk tail totalEntries (S i) (Some entry) rest
        | Some prevEntry =>
            if bool_decide (prev_hash entry ≠ entry_hash prevEntry)
            then Some (Broken totalEntries (id entry) i (entry_hash prevEntry) (prev_hash entry))
            else walk tail totalEntries (S i) (Some entry) rest
        end
  end.

(** [WHERE entry_hash != ''] *)
Definition chained (rows : list ActivityRow) : list ActivityRow :=
  filter (λ r, entry_hash r ≠ "") rows.

Definition select_entries (tail : option Z) (rows : list ActivityRow) : list ActivityRow :=
  match tail with
  | Some n => reverse (sql_limit n 0 (order_by key_desc (chained rows)))
  | None => order_by key_asc (chained rows)
  end.

(** [run], after argument parsing: [tail] is [parsed.tail]. *)
Definition audit_verify (tail : option Z) (rows : list ActivityRow) : AuditReport :=
  let totalEntries := length (chained rows) in
  if bool_decide (totalEntries = 0) then Valid 0 0 None None
  else
    let entries := select_entries tail rows in
    match walk (bool_decide (tail ≠ None)) totalEntries 0 None entries with
    | Some report => report
    | None => Valid totalEntries (length entries) (id <$> head entries) (id <$> last entries)
    end.

(** ** What the walk checks *)

(** Each entry carries its own hash and the hash of the one before it. *)
Fixpoint linked (prev : string) (entries : list ActivityRow) : Prop :=
  match entries with
  | [] => True
  | e :: rest => prev_hash e = prev ∧ entry_hash e = rowHash e ∧ linked (entry_hash e) rest
  end.

Lemma walk_linked tail total i p l :
  walk tail total i (Some p) l = None ↔ linked (entry_hash p) l.
Proof.
  revert i p. induction l as [|e l IH]; intros i p; simpl; [done|].
  repeat case_bool_decide; rewrite ?IH; naive_solver.
Qed.

Lemma walk_genesis total i l : walk false total i None l = None ↔ linked "" l.
Proof.
  destruct l as [|e l]; simpl; [done|].
  repeat (case_bool_decide; simpl); rewrite ?walk_linked; naive_solver.
Qed.

Lemma walk_tail total i l :
  walk true total i None l = None ↔
  match l with [] => True | e :: rest => entry_hash e = rowHash e ∧ linked (entry_hash e) rest end.
Proof.
  destruct l as [|e l]; simpl; [done|].
  repeat (case_bool_decide; simpl); rewrite ?walk_linked; naive_solver.
Qed.

Lemma linked_app prev l l' :
  linked prev (l ++ l') ↔ linked prev l ∧ linked (default prev (entry_hash <$> last l)) l'.
Proof.
  revert prev. induction l as [|e l IH]; intros prev; simpl; [naive_solver|].
  rewrite IH. destruct l as [|e' l]; simpl; [naive_solver|].
  assert (default prev (entry_hash <$> last (e' :: l)) =
          default (entry_hash e) (entry_hash <$> last (e' :: l))) as ->; [|naive_solver].
  destruct (last (e' :: l)) eqn:E; [done|]. by apply last_None in E.
Qed.

Lemma linked_hash prev l e : linked prev l → e ∈ l → entry_hash e = rowHash e.
Proof.
  revert prev. induction l as [|d l IH]; simpl; intros prev Hl Hin.
  - by apply not_elem_of_nil in Hin.
  - apply elem_of_cons in Hin as [->|Hin]; [naive_solver|]. eapply IH; [|done]. naive_solver.
Qed.

Lemma linked_drop prev n l :
  linked prev l →
  match drop n l with
  | [] => True | e :: rest => entry_hash e = rowHash e ∧ linked (entry_hash e) rest
  end.
Proof.
  intros Hl. rewrite <- (take_drop n l), linked_app in Hl.
  destruct (drop n l) as [|e rest]; simpl in *; naive_solver.
Qed.
End verify.

(** ** Appending to an ordered log *)
Definition key_lt (a b : ActivityRow) : Prop := key_asc a b = true ∧ id a ≠ id b.

Lemma sorted_unique rows : StronglySorted key_lt rows → feed_unique rows.
Proof.
  unfold feed_unique. induction 1 as [|r l _ IH Hr]; simpl; constructor; [|done].
  intros (r' & Hid & Hin)%list_elem_of_fmap. rewrite Forall_forall in Hr.
  by destruct (Hr _ Hin).
Qed.

Section ordered.
Context `{Sha256, SqlLaws}.

Lemma ordered_asc rows : StronglySorted key_lt rows → order_by key_asc rows = rows.
Proof.
  intros Hs. apply order_asc_unique; [by apply sorted_unique|done|].
  eapply StronglySorted_mono; [|exact Hs]. by intros x y [].
Qed.

Lemma ordered_desc rows : StronglySorted key_lt rows → order_by key_desc rows = reverse rows.
Proof.
  intros Hs. apply order_desc_unique; [by apply sorted_unique|by rewrite reverse_Permutation|].
  eapply StronglySorted_mono; [|by apply StronglySorted_reverse]. by intros x y [].
Qed.

Lemma chained_sorted rows : StronglySorted key_lt rows → StronglySorted key_lt (chained rows).
Proof.
  unfold chained. induction 1 as [|r l Hl IH Hr]; [constructor|]. rewrite filter_cons.
  case_decide; [|done]. constructor; [done|]. rewrite Forall_forall in *.
  intros x [_ Hx]%list_elem_of_filter. auto.
Qed.

(** The invariant of a log that was only appended to, in key order: rows written
    before the hash columns existed come first, the rest is one chain. *)
Record feed_ok (rows : list ActivityRow) : Prop := {
  feed_sorted : StronglySorted key_lt rows;
  feed_legacy : ∃ legacy, Forall (λ r, entry_hash r = "") legacy ∧
                          rows = legacy ++ chained rows;
  feed_linked : linked "" (chained rows)
}.

Lemma feed_ok_nil : feed_ok [].
Proof. split; [constructor| |done]. exists []. by split. Qed.

Lemma feed_ok_last rows :
  feed_ok rows →
  str_or (entry_hash <$> head (sql_limit 1 0 (order_by key_desc rows))) "" =
  default "" (entry_hash <$> last (chained rows)).
Proof.
  intros [Hs (legacy & Hl & Hr) _]. rewrite ordered_desc by done.
  assert (Hhd : head (sql_limit 1 0 (reverse rows)) = last rows).
  { rewrite <- head_reverse. by destruct (reverse rows). }
  rewrite Hhd. destruct (last (chained rows)) as [r|] eqn:Er.
  - rewrite Hr, last_app, Er. simpl. unfold str_or. simpl.
    assert (Hin : r ∈ chained rows) by (apply last_Some_elem_of; exact Er).
    apply list_elem_of_filter in Hin as [Hne _]. by rewrite bool_decide_eq_false_2.
  - apply last_None in Er. rewrite Hr, Er, app_nil_r.
    destruct (last legacy) as [r|] eqn:E; [|done]. simpl.
    rewrite Forall_forall in Hl. rewrite (Hl r) by (apply last_Some_elem_of; exact E). done.
Qed.

(** A row for the event, linked to [prev]. *)
Definition new_row (i createdAt prev : string) (event : EventInput) : ActivityRow :=
  let actionType := default (in_eventType event) (in_actionType event) in
  mkActivityRow i (in_connectionAddress event) (in_eventType event) (in_messageId event)
    (in_badge event) (in_details event) createdAt (in_actorPubkey event) (Some actionType)
    (in_messageHash event) prev
    (computeEntryHash (mkHashed i createdAt (default "" (in_actorPubkey event)) actionType
       (in_connectionAddress event) (default "" (in_messageHash event)) prev)).

Lemma record_run i createdAt event rows :
  i ∉ id <$> rows →
  ∃ ev, record i createdAt event rows =
    (Ok ev, rows ++ [new_row i createdAt
       (str_or (entry_hash <$> head (sql_limit 1 0 (order_by key_desc rows))) "") event]).
Proof.
  intros Hi. unfold record, gets, modify, mbind, M_bind.
  rewrite bool_decide_eq_false_2 by done. by eexists.
Qed.
End ordered.

(** ** Honest logs verify *)
Definition audit_entry : Type := string * string * EventInput.

Fixpoint record_all `{Sha256, SqlEngine} (evs : list audit_entry) : M (list ActivityRow) unit :=
  match evs with
  | [] => mret tt
  | (i, t, e) :: evs => _ ← record i t e; record_all evs
  end.

(** A later draw of the clock and of the id generator: the timestamp grows, or it
    is the same and the id does (a UUIDv7 is monotone within a millisecond). *)
Definition drawn_before (a b : audit_entry) : Prop :=
  let '(i, t, _) := a in let '(j, u, _) := b in
  i ≠ j ∧ match String.compare t u with Lt => True | Eq => String.leb i j = true | Gt => False end.

Definition row_of_draw (a : audit_entry) : ActivityRow :=
  let '(i, t, e) := a in mkActivityRow i "" "" None None None t None None None "" "".

Lemma drawn_before_key a b : drawn_before a b ↔ key_lt (row_of_draw a) (row_of_draw b).
Proof.
  destruct a as [[i t] e], b as [[j u] f]. unfold drawn_before, key_lt, key_asc. simpl.
  destruct (String.compare t u); naive_solver.
Qed.

Section honest.
Context `{Sha256Laws, SqlLaws}.

Lemma record_step i t e rows :
  feed_ok rows →
  (∀ r, r ∈ rows → key_lt r (row_of_draw (i, t, e))) →
  ∃ ev r, record i t e rows = (Ok ev, rows ++ [r]) ∧ feed_ok (rows ++ [r]) ∧
    id r = i ∧ created_at r = t ∧ chained (rows ++ [r]) = chained rows ++ [r].
Proof.
  intros Hok Hlt.
  destruct (record_run i t e rows) as [ev Hrun].
  { intros (r & -> & Hr)%list_elem_of_fmap. by destruct (Hlt r Hr). }
  rewrite feed_ok_last in Hrun by done.
  set (r := new_row i t (default "" (entry_hash <$> last (chained rows))) e) in *.
  exists ev, r. destruct Hok as [Hs (legacy & Hleg & Hrows) Hl].
  assert (Hne : entry_hash r ≠ "") by apply sha256_hex_nonempty.
  assert (Hch : chained (rows ++ [r]) = chained rows ++ [r]).
  { unfold chained. rewrite filter_app, filter_cons, filter_nil. by rewrite decide_True. }
  split; [done|]. split; [|done]. split.
  - apply StronglySorted_app_2; [done|by repeat constructor|].
    intros x y Hx Hy. apply list_elem_of_singleton in Hy as ->. apply (Hlt x Hx).
  - exists legacy. split; [done|]. rewrite Hch, app_assoc, <- Hrows. done.
  - rewrite Hch, linked_app. done.
Qed.

Lemma record_all_ok evs rows :
  feed_ok rows → StronglySorted drawn_before evs →
  (∀ r a, r ∈ rows → a ∈ evs → key_lt r (row_of_draw a)) →
  ∃ new, record_all evs rows = (Ok tt, rows ++ new) ∧ feed_ok (rows ++ new) ∧
    chained (rows ++ new) = chained rows ++ new ∧ id <$> new = (λ a, a.1.1) <$> evs.
Proof.
  revert rows. induction evs as [|[[i t] e] evs IH]; intros rows Hok Hs Hlt.
  { exists []. by rewrite !app_nil_r. }
  inversion Hs as [|? ? Hs' Hall]; subst.
  destruct (record_step i t e rows Hok) as (ev & r & Hrun & Hok' & Hid & Ht & Hc).
  { intros r Hr. apply (Hlt r (i, t, e) Hr). by left. }
  destruct (IH (rows ++ [r])) as (new & Hr' & Hok'' & Hch' & Hids); try done.
  - intros r' a Hr' Ha. apply elem_of_app in Hr' as [Hr'|Hr'].
    + apply (Hlt r' a Hr'). by right.
    + apply list_elem_of_singleton in Hr' as ->. rewrite Forall_forall in Hall.
      specialize (Hall a Ha). apply drawn_before_key in Hall.
      unfold key_lt, key_asc in *. simpl in Hall. by rewrite Hid, Ht.
  - exists (r :: new). rewrite Hc, <- !app_assoc in *. split_and!; try done.
    + simpl. unfold mbind, M_bind. by rewrite Hrun.
    + by rewrite !fmap_cons, Hid, Hids.
Qed.

Lemma audit_verify_ok rows tail :
  feed_ok rows → match tail with Some n => (0 < n)%Z | None => True end →
  audit_verify tail rows =
  let all := chained rows in
  let entries := match tail with Some n => drop (length all - Z.to_nat n) all | None => all end in
  Valid (length all) (length entries) (id <$> head entries) (id <$> last entries).
Proof.
  intros [Hs%chained_sorted _ Hl] Htail. unfold audit_verify. cbv zeta.
  case_bool_decide as Hz.
  { apply nil_length_inv in Hz as ->. by destruct tail. }
  assert (Hsel : select_entries tail rows =
    match tail with
    | Some n => drop (length (chained rows) - Z.to_nat n) (chained rows) | None => chained rows end).
  { unfold select_entries. destruct tail as [n|]; [|by apply ordered_asc].
    rewrite ordered_desc by done. unfold sql_limit.
    rewrite (proj2 (Z.ltb_ge _ _)) by lia. rewrite drop_0, take_reverse, reverse_involutive. done. }
  rewrite Hsel. destruct tail as [n|].
  - rewrite bool_decide_eq_true_2 by done.
    rewrite (proj2 (walk_tail _ _ _)); [done|]. by eapply linked_drop.
  - rewrite bool_decide_eq_false_2 by naive_solver. by rewrite (proj2 (walk_genesis _ _ _)).
Qed.

(** An honest log always verifies: after any run of [record] calls whose
    timestamps and ids grow, the full audit passes over every entry and names
    the first and the last one, and the audit of the last [n] entries passes
    for every [n]. *)
Theorem honest_log_verifies evs n :
  StronglySorted drawn_before evs → (0 < n)%Z →
  ∃ rows, record_all evs [] = (Ok tt, rows) ∧ (id <$> rows) = (λ a, a.1.1) <$> evs ∧
    audit_verify None rows =
      Valid (length evs) (length evs) (id <$> head rows) (id <$> last rows) ∧
    ∃ genesis, audit_verify (Some n) rows =
      Valid (length evs) (min (length evs) (Z.to_nat n)) genesis (id <$> last rows).
Proof.
  intros Hs Hn.
  destruct (record_all_ok evs [] feed_ok_nil) as (rows & Hrun & Hok & Hch & Hids); try done.
  { intros r a Hr. by apply not_elem_of_nil in Hr. }
  simpl in *. exists rows. split; [done|]. split; [done|].
  assert (Hlen : length rows = length evs).
  { rewrite <- (length_fmap id rows), Hids. apply length_fmap. }
  rewrite (audit_verify_ok rows None) by done. cbn. rewrite Hch, Hlen. split; [done|].
  eexists. rewrite (audit_verify_ok rows (Some n)) by done. cbn. rewrite Hch, length_drop, Hlen.
  f_equal; [lia|].
  destruct (decide (rows = [])) as [->|Hne]; [by rewrite drop_nil|].
  rewrite last_drop; [done|]. destruct rows; simpl in *; [done|lia].
Qed.
End honest.

Import Sample.

Definition sample_event (s : string) : EventInput :=
  mkEventInput "pinch:p@h" s None None None None None None.
Definition sample_draws : list audit_entry :=
  [("u1", "2026-01-01T00:00:00.000Z", sample_event "a");
   ("u2", "2026-01-01T00:00:00.000Z", sample_event "b");
   ("u0", "2026-01-01T00:00:00.001Z", sample_event "c")].

Lemma sample_draws_ordered : StronglySorted drawn_before sample_draws.
Proof. unfold sample_draws. repeat (constructor; try (split; done)). Qed.

Lemma honest_log_verifies_witness :
  ∃ rows, record_all sample_draws [] = (Ok tt, rows) ∧
    audit_verify None rows = Valid 3 3 (Some "u1") (Some "u0").
Proof.
  destruct (honest_log_verifies sample_draws 2 sample_draws_ordered eq_refl)
    as (rows & H1 & _ & H2 & _).
  exists rows. split; [exact H1|]. vm_compute in H1. injection H1 as <-. exact H2.
Defined.

(** ** Tamper evidence *)

(** The columns the hash covers, NULL read as [""]. *)
Definition covered (r : ActivityRow) : list string :=
  [id r; created_at r; default "" (actor_pubkey r); default "" (action_type r);
   connection_address r; default "" (message_hash r)].

Definition no_pipe (s : string) : Prop := str_forall (λ c, bool_decide (c ≠ "|"%char)) s = true.

Lemma append_pipe_inj a b a' b' :
  no_pipe a → no_pipe a' → a +:+ "|" +:+ b = a' +:+ "|" +:+ b' → a = a' ∧ b = b'.
Proof.
  unfold no_pipe. revert a'. induction a as [|c a IH]; intros [|c' a'] Ha Ha' E;
    cbn in Ha, Ha'.
  - split; [done|]. by injection E.
  - exfalso. injection E as <- _. done.
  - exfalso. injection E as -> _. done.
  - injection E as -> E. apply andb_prop in Ha as [_ Ha], Ha' as [_ Ha'].
    destruct (IH a' Ha Ha' E) as [-> ->]. done.
Qed.

(** Joining with ["|"] keeps the fields apart when only the last may contain it. *)
Lemma join_pipe_inj l l' s s' :
  length l = length l' → Forall no_pipe l → Forall no_pipe l' →
  join "|" (l ++ [s]) = join "|" (l' ++ [s']) → l = l' ∧ s = s'.
Proof.
  revert l'. induction l as [|a l IH]; intros [|a' l'] Hlen Hl Hl' E; try done.
  injection Hlen as Hlen. apply Forall_cons in Hl as [Ha Hl], Hl' as [Ha' Hl'].
  assert (Hcons : ∀ x k y, join "|" (x :: k ++ [y]) = x +:+ "|" +:+ join "|" (k ++ [y])).
  { intros x k y. by destruct k. }
  rewrite <- !app_comm_cons, !Hcons in E. apply append_pipe_inj in E as [-> E]; [|done..].
  apply IH in E as [-> ->]; done.
Qed.

Section tamper.
Context `{Sha256Laws, SqlLaws}.

(** The text that is hashed for an entry, and a collision in hand: two entries of the
    logs whose texts differ and have the same hash. *)
Definition hashed_text (r : ActivityRow) : string := join "|" (covered r ++ [prev_hash r]).
Definition collision (l l' : list ActivityRow) : Prop :=
  ∃ r r', r ∈ l ∧ r' ∈ l' ∧ hashed_text r ≠ hashed_text r' ∧
    sha256_hex (hashed_text r) = sha256_hex (hashed_text r').

Lemma collision_app l l' k k' : collision l l' → collision (l ++ k) (l' ++ k').
Proof.
  intros (r & r' & Hr & Hr' & Hcol). exists r, r'. split; [by apply elem_of_app; left|].
  split; [by apply elem_of_app; left|done].
Qed.

Lemma rowHash_inj r r' :
  Forall no_pipe (covered r) → Forall no_pipe (covered r') → rowHash r = rowHash r' →
  collision [r] [r'] ∨ (covered r = covered r' ∧ prev_hash r = prev_hash r').
Proof.
  intros Hr Hr' E. destruct (decide (hashed_text r = hashed_text r')) as [Eq|Hne].
  - right. by apply join_pipe_inj.
  - left. exists r, r'. by split_and!; [apply list_elem_of_singleton..|exact Hne|exact E].
Qed.

Lemma linked_covered l l' :
  linked "" l → linked "" l' →
  Forall (λ r, entry_hash r ≠ "" ∧ Forall no_pipe (covered r)) l →
  Forall (λ r, entry_hash r ≠ "" ∧ Forall no_pipe (covered r)) l' →
  default "" (entry_hash <$> last l) = default "" (entry_hash <$> last l') →
  collision l l' ∨ (covered <$> l = covered <$> l').
Proof.
  revert l'. induction l as [|r l IH] using rev_ind; intros l' Hl Hl' Hp Hp' Hlast;
    destruct l' as [|r' l' _] using rev_ind.
  - by right.
  - exfalso. rewrite last_snoc in Hlast. simpl in Hlast.
    apply Forall_app in Hp' as [_ [Hne _]%Forall_singleton]. congruence.
  - exfalso. rewrite last_snoc in Hlast. simpl in Hlast.
    apply Forall_app in Hp as [_ [Hne _]%Forall_singleton]. congruence.
  - rewrite !last_snoc in Hlast. simpl in Hlast.
    apply linked_app in Hl as [Hl (Hpr & Her & _)], Hl' as [Hl' (Hpr' & Her' & _)].
    apply Forall_app in Hp as [Hp [_ Hc]%Forall_singleton],
      Hp' as [Hp' [_ Hc']%Forall_singleton].
    rewrite Her, Her' in Hlast.
    destruct (rowHash_inj r r' Hc Hc' Hlast) as [Hcol|[Ecov Eprev]].
    { left. destruct Hcol as (x & x' & Hx & Hx' & Hcol). exists x, x'.
      split; [by apply elem_of_app; right|]. split; [by apply elem_of_app; right|done]. }
    rewrite Hpr, Hpr' in Eprev.
    destruct (IH l' Hl Hl' Hp Hp' Eprev) as [|E]; [by left; apply collision_app|]. right.
    rewrite !fmap_app, E. simpl. by rewrite Ecov.
Qed.

Lemma audit_verify_full_linked rows total n g e :
  audit_verify None rows = Valid total n g e →
  chained rows = [] ∨ linked "" (order_by key_asc (chained rows)).
Proof.
  unfold audit_verify. case_bool_decide as Hz.
  - left. by apply nil_length_inv.
  - rewrite bool_decide_eq_false_2 by naive_solver. simpl.
    destruct (walk _ _ _ _ _) eqn:Hw; [intros ->|].
    + exfalso. clear -Hw. revert Hw. generalize 0 as i, (@None ActivityRow) as p.
      generalize (order_by key_asc (chained rows)) as es.
      induction es as [|x es IH]; intros i p; simpl; [done|].
      repeat case_match; naive_solver.
    + intros _. right. by apply walk_genesis in Hw.
Qed.

(** C26. The chain is tamper-evident: if two logs both pass the full audit and agree
    on the hash of the latest entry, then they agree, entry by entry, on every
    column the hash covers - or a SHA-256 collision is in hand: an entry of the
    one and an entry of the other have different hashed texts and the same hash.
    (The covered columns must be free of the separator ["|"].) *)
Theorem audit_tamper_evident rows rows' t n g e t' n' g' e' :
  audit_verify None rows = Valid t n g e → audit_verify None rows' = Valid t' n' g' e' →
  let log := order_by key_asc (chained rows) in
  let log' := order_by key_asc (chained rows') in
  Forall (λ r, Forall no_pipe (covered r)) rows →
  Forall (λ r, Forall no_pipe (covered r)) rows' →
  entry_hash <$> last log = entry_hash <$> last log' →
  collision log log' ∨ (covered <$> log = covered <$> log').
Proof.
  intros Hv Hv' log log' Hp Hp' Hlast.
  assert (Hlinked : ∀ rs u m f k, audit_verify None rs = Valid u m f k →
            linked "" (order_by key_asc (chained rs))).
  { intros rs u m f k Hrs. apply audit_verify_full_linked in Hrs as [Hnil|]; [|done].
    pose proof (order_by_perm key_asc (chained rs)) as Hperm. rewrite Hnil in *.
    by apply Permutation_nil_r in Hperm as ->. }
  assert (Hall : ∀ rs, Forall (λ r, Forall no_pipe (covered r)) rs →
            Forall (λ r, entry_hash r ≠ "" ∧ Forall no_pipe (covered r))
              (order_by key_asc (chained rs))).
  { intros rs Hrs. rewrite order_by_perm. rewrite Forall_forall in *.
    intros r [Hne Hr]%list_elem_of_filter. auto. }
  apply linked_covered; eauto. fold log log'. by rewrite Hlast.
Qed.
End tamper.

(** ** What the chain does not protect *)

(** An edit of a row that leaves the hashed columns and the two hashes alone. *)
Definition same_chain_columns (r r' : ActivityRow) : Prop :=
  id r' = id r ∧ created_at r' = created_at r ∧ actor_pubkey r' = actor_pubkey r ∧
  action_type r' = action_type r ∧ connection_address r' = connection_address r ∧
  message_hash r' = message_hash r ∧ prev_hash r' = prev_hash r ∧ entry_hash r' = entry_hash r.

Section uncovered.
Context `{Sha256, SqlLaws} (f : ActivityRow → ActivityRow).
Hypothesis f_keeps : ∀ r, same_chain_columns r (f r).

Lemma rowHash_edit r : rowHash (f r) = rowHash r.
Proof using f_keeps.
  destruct (f_keeps r) as (E1 & E2 & E3 & E4 & E5 & E6 & E7 & _). unfold rowHash.
  by rewrite E1, E2, E3, E4, E5, E6, E7.
Qed.

Lemma walk_edit tail total i p l :
  walk tail total i (f <$> p) (f <$> l) = walk tail total i p l.
Proof using f_keeps.
  revert i p. induction l as [|e l IH]; intros i p; [done|].
  destruct (f_keeps e) as (E1 & _ & _ & _ & _ & _ & E7 & E8).
  rewrite fmap_cons. cbn [walk]. rewrite rowHash_edit, E1, E7, E8.
  case_bool_decide; [done|]. pose proof (IH (S i) (Some e)) as IHe.
  change (f <$> Some e) with (Some (f e)) in IHe.
  destruct p as [p|]; cbn [fmap option_fmap option_map].
  - destruct (f_keeps p) as (_ & _ & _ & _ & _ & _ & _ & ->). by rewrite IHe.
  - by rewrite IHe.
Qed.

Lemma chained_edit rows : chained (f <$> rows) = f <$> chained rows.
Proof using f_keeps.
  unfold chained. induction rows as [|r rows IH]; [done|]. rewrite fmap_cons, !filter_cons, IH.
  destruct (f_keeps r) as (_ & _ & _ & _ & _ & _ & _ & E8).
  repeat case_decide; try done; exfalso; naive_solver congruence.
Qed.

Lemma key_asc_edit a b : key_asc (f a) (f b) = key_asc a b.
Proof using f_keeps.
  destruct (f_keeps a) as (E1 & E2 & _), (f_keeps b) as (E3 & E4 & _).
  unfold key_asc. by rewrite E1, E2, E3, E4.
Qed.

Lemma feed_unique_edit rows : feed_unique rows → feed_unique (f <$> rows).
Proof using f_keeps.
  unfold feed_unique. rewrite <- list_fmap_compose.
  intros Hu. erewrite list_fmap_ext; [exact Hu|]. intros i r _. apply (f_keeps r).
Qed.

Lemma feed_unique_chained rows : feed_unique rows → feed_unique (chained rows).
Proof.
  unfold feed_unique, chained. intros Hu. eapply sublist_NoDup; [exact Hu|].
  apply fmap_sublist, sublist_filter.
Qed.

Lemma order_edit rows :
  feed_unique rows →
  order_by key_asc (f <$> rows) = f <$> order_by key_asc rows ∧
  order_by key_desc (f <$> rows) = f <$> order_by key_desc rows.
Proof using All.
  intros Hu. split.
  - apply order_asc_unique; [by apply feed_unique_edit|by rewrite order_by_perm|].
    eapply StronglySorted_fmap;
      [|apply order_by_sorted; [apply key_asc_total|apply key_asc_trans]].
    intros x y Hxy. by rewrite key_asc_edit.
  - apply order_desc_unique; [by apply feed_unique_edit|by rewrite order_by_perm|].
    eapply StronglySorted_fmap; [|apply order_by_sorted].
    + intros x y Hxy. unfold key_desc in *. by rewrite key_asc_edit.
    + intros x y. apply key_asc_total.
    + intros x y z Hxy Hyz. unfold key_desc in *. by eapply key_asc_trans.
Qed.

(** The columns outside the hash are not protected: rewriting the event type,
    message id, badge and details of any entries of a log leaves every report of
    the audit, full or of the last [n] entries, exactly as it was. *)
Theorem uncovered_columns_undetected tail rows :
  feed_unique rows → audit_verify tail (f <$> rows) = audit_verify tail rows.
Proof using All.
  intros Hu. unfold audit_verify. rewrite chained_edit, length_fmap.
  case_bool_decide; [done|].
  destruct (order_edit _ (feed_unique_chained _ Hu)) as [Ha Hd].
  assert (Hsel : select_entries tail (f <$> rows) = f <$> select_entries tail rows).
  { unfold select_entries. rewrite chained_edit. destruct tail as [n|]; [|exact Ha].
    rewrite Hd. unfold sql_limit. case_match;
      by rewrite fmap_reverse, ?fmap_take, ?fmap_drop. }
  rewrite Hsel, length_fmap, fmap_last.
  rewrite (walk_edit _ _ _ None). destruct (walk _ _ _ _ _); [done|].
  f_equal.
  - destruct (select_entries tail rows) as [|r l]; [done|]. simpl. f_equal. apply (f_keeps r).
  - destruct (last (select_entries tail rows)) as [r|]; [|done]. simpl. f_equal. apply (f_keeps r).
Qed.
End uncovered.

(** An edit that blanks what the hash leaves out. *)
Definition blank_details (r : ActivityRow) : ActivityRow :=
  mkActivityRow (id r) (connection_address r) "forged" None None (Some "forged") (created_at r)
    (actor_pubkey r) (action_type r) (message_hash r) (prev_hash r) (entry_hash r).

Definition sample_rows : list ActivityRow := (record_all sample_draws []).2.

Lemma sample_rows_unique : feed_unique sample_rows.
Proof. apply (bool_decide_unpack _). vm_compute. exact I. Qed.

Lemma uncovered_columns_undetected_witness :
  audit_verify None (blank_details <$> sample_rows) = Valid 3 3 (Some "u1") (Some "u0").
Proof.
  transitivity (audit_verify None sample_rows); [|vm_compute; reflexivity].
  apply (uncovered_columns_undetected blank_details); [|apply sample_rows_unique].
  intros r. repeat split.
Defined.

Lemma audit_tamper_evident_witness :
  let log := order_by key_asc (chained sample_rows) in
  let log' := order_by key_asc (chained (blank_details <$> sample_rows)) in
  collision log log' ∨ (covered <$> log = covered <$> log').
Proof.
  apply (audit_tamper_evident sample_rows (blank_details <$> sample_rows)
    3 3 (Some "u1") (Some "u0") 3 3 (Some "u1") (Some "u0"));
    try (vm_compute; reflexivity); vm_compute; repeat constructor.
Defined.

(** The separator is not escaped: moving a ["|"]-separated part from the action
    type to the connection address gives another entry with the same hash
    input, so the chain cannot tell the two apart. *)
Theorem separator_ambiguity `{Sha256} i ts pk act part addr mh prev :
  let e := mkHashed i ts pk (act +:+ "|" +:+ part) addr mh prev in
  let e' := mkHashed i ts pk act (part +:+ "|" +:+ addr) mh prev in
  e ≠ e' ∧ computeEntryHash e = computeEntryHash e'.
Proof.
  intros e e'. split.
  - intros E. injection E as E _. apply (f_equal String.length) in E.
    rewrite str_length_app in E. simpl in E. lia.
  - unfold computeEntryHash, entry_data. f_equal. subst e e'.
    cbn [join h_id h_timestamp h_actorPubkey h_actionType h_connectionAddress h_messageHash
      h_prevHash]. by rewrite !str_app_assoc.
Qed.

(** A clock that steps back breaks the chain without tampering: when an entry
    is recorded with a timestamp before those of a verified log, the full audit
    reports the new entry as the broken genesis. *)
Theorem clock_step_back_breaks_audit `{Sha256Laws, SqlLaws} i t e rows r0 :
  feed_ok rows → chained rows = rows → head rows = Some r0 → i ∉ id <$> rows →
  String.compare t (created_at r0) = Lt →
  ∃ ev rows' prev, record i t e rows = (Ok ev, rows') ∧ prev ≠ "" ∧
    audit_verify None rows' = Broken (S (length rows)) i 0 "" prev.
Proof.
  intros Hok Hch Hhd Hi Ht.
  destruct (record_run i t e rows Hi) as [ev Hrun]. rewrite feed_ok_last, Hch in Hrun by done.
  set (prev := default "" (entry_hash <$> last rows)) in *. set (r := new_row i t prev e) in *.
  assert (Hne : entry_hash r ≠ "") by apply sha256_hex_nonempty.
  assert (Hprev : prev ≠ "").
  { unfold prev. destruct (last rows) as [rl|] eqn:El; simpl.
    - apply last_Some_elem_of in El. rewrite <- Hch in El.
      by apply list_elem_of_filter in El as [].
    - apply last_None in El as ->. done. }
  exists ev, (rows ++ [r]), prev. split; [done|]. split; [done|].
  destruct Hok as [Hs _ _].
  assert (Hch' : chained (rows ++ [r]) = rows ++ [r]).
  { unfold chained in *. rewrite filter_app, Hch, filter_cons, filter_nil.
    by rewrite decide_True. }
  assert (Hlt : ∀ x, x ∈ rows → key_lt r x).
  { destruct rows as [|r1 l]; [done|]. simpl in Hhd. injection Hhd as ->.
    assert (Hr0 : key_lt r r0).
    { split; [unfold key_asc; simpl; by rewrite Ht|]. simpl. set_solver. }
    inversion Hs as [|? ? _ Hall]; subst. intros x [->|Hx]%elem_of_cons; [done|].
    rewrite Forall_forall in Hall. destruct (Hall x Hx) as [Hx0 _]. split.
    - eapply key_asc_trans; [apply Hr0|done].
    - simpl. intros Heq. apply Hi. apply list_elem_of_fmap. exists x.
      split; [done|]. by right. }
  assert (Hord : order_by key_asc (rows ++ [r]) = r :: rows).
  { apply order_asc_unique.
    - unfold feed_unique. rewrite fmap_app. apply NoDup_app.
      split; [by apply sorted_unique|]. split; [|apply NoDup_singleton].
      intros x Hx Hr. apply list_elem_of_singleton in Hr as ->. done.
    - by rewrite Permutation_app_comm.
    - eapply (StronglySorted_mono key_lt); [by intros x y []|]. constructor; [done|].
      by apply Forall_forall. }
  unfold audit_verify, select_entries. rewrite Hch', Hord, length_app, Nat.add_1_r.
  rewrite bool_decide_eq_false_2 by lia. cbn [walk].
  rewrite (bool_decide_eq_false_2 (rowHash r ≠ entry_hash r)) by (intros Hn; by apply Hn).
  by rewrite (bool_decide_eq_true_2 (prev_hash r ≠ "")).
Qed.

Lemma clock_step_back_breaks_audit_witness :
  ∃ ev rows' prev,
    record "u9" "2025-12-31T23:59:59.999Z" (sample_event "late") sample_rows = (Ok ev, rows') ∧
    prev ≠ "" ∧ audit_verify None rows' = Broken 4 "u9" 0 "" prev.
Proof.
  assert (Hok : feed_ok sample_rows).
  { destruct (record_all_ok sample_draws [] feed_ok_nil) as (rows & Hr & Hok & _).
    - apply sample_draws_ordered.
    - intros r a Hin. by apply not_elem_of_nil in Hin.
    - unfold sample_rows. rewrite Hr. exact Hok. }
  eapply (clock_step_back_breaks_audit "u9" "2025-12-31T23:59:59.999Z" (sample_event "late")
    sample_rows _ Hok eq_refl eq_refl); [|reflexivity].
  apply (bool_decide_unpack _). vm_compute. exact I.
Defined.

(** ** Where the audit stops *)
Section stop.
Context `{Sha256, SqlLaws}.

(** The two checks on one entry, [prev] being the hash it has to link to. *)
Definition entry_good (prev : string) (e : ActivityRow) : Prop :=
  prev_hash e = prev ∧ entry_hash e = rowHash e.

Lemma walk_broken total i p l who k expd act :
  walk false total i p l = Some (Broken total who k expd act) →
  ∃ good bad rest, l = good ++ bad :: rest ∧ k = i + length good ∧ who = id bad ∧
    linked (default "" (entry_hash <$> p)) good ∧
    ¬ entry_good (default "" (entry_hash <$> last (option_list p ++ good))) bad ∧ expd ≠ act.
Proof.
  revert i p. induction l as [|e l IH]; intros i p; [done|]. cbn [walk].
  case_bool_decide as Hh.
  { intros [= <- <- <- <-]. exists [], e, l. unfold entry_good.
    split_and!; try done; try (simpl; lia). intros [_ ?]. congruence. }
  assert (Hstep : ∀ prev, prev = default "" (entry_hash <$> p) → prev_hash e = prev →
    walk false total (S i) (Some e) l = Some (Broken total who k expd act) →
    ∃ good bad rest, e :: l = good ++ bad :: rest ∧ k = i + length good ∧ who = id bad ∧
      linked (default "" (entry_hash <$> p)) good ∧
      ¬ entry_good (default "" (entry_hash <$> last (option_list p ++ good))) bad ∧ expd ≠ act).
  { intros prev Hprev He Hw. destruct (IH _ _ Hw) as (good & bad & rest & -> & -> & -> & Hl & Hb & ?).
    exists (e :: good), bad, rest. split_and!; try done; try (simpl; lia).
    - simpl. simpl in Hl. naive_solver.
    - rewrite last_app_cons. exact Hb. }
  destruct p as [p|]; simpl.
  - case_bool_decide as Hp.
    + intros [= <- <- <- <-]. exists [], e, l. unfold entry_good.
      split_and!; try done; try (simpl; lia). intros [Hq _]. simpl in Hq. congruence.
    + by apply (Hstep (entry_hash p)).
  - case_bool_decide as Hp.
    + intros [= <- <- <- <-]. exists [], e, l. unfold entry_good.
      split_and!; try done; try (simpl; lia). intros [Hq _]. simpl in Hq. congruence.
    + by apply (Hstep "").
Qed.

(** A failing full audit points at the first bad entry: the entries before the
    reported index form a good chain from the genesis, and the reported entry
    itself has a wrong hash or does not link to the entry before it. *)
Theorem audit_broken_is_first rows total who k expd act :
  audit_verify None rows = Broken total who k expd act →
  ∃ good bad rest,
    order_by key_asc (chained rows) = good ++ bad :: rest ∧
    k = length good ∧ who = id bad ∧ linked "" good ∧
    ¬ entry_good (default "" (entry_hash <$> last good)) bad ∧ expd ≠ act.
Proof.
  unfold audit_verify. case_bool_decide; [done|].
  rewrite bool_decide_eq_false_2 by naive_solver. simpl.
  destruct (walk _ _ _ _ _) as [rep|] eqn:Hw; [|done]. intros ->.
  assert (total = length (chained rows)) as ->.
  { clear -Hw. revert Hw. generalize (length (chained rows)) as n.
    generalize (order_by key_asc (chained rows)) as es. generalize 0 as i, (@None ActivityRow) as p.
    intros i p es n. revert i p. induction es as [|x es IH]; intros i p; simpl; [done|].
    repeat case_match; naive_solver. }
  destruct (walk_broken _ _ _ _ _ _ _ _ Hw) as (good & bad & rest & ? & ? & ? & ? & ? & ?).
  exists good, bad, rest. done.
Qed.
End stop.

(** Forging the action type of the second entry is caught at index 1. *)
Definition forge_action (i : string) (r : ActivityRow) : ActivityRow :=
  if bool_decide (id r = i) then
    mkActivityRow (id r) (connection_address r) (event_type r) (message_id r) (badge r)
      (details r) (created_at r) (actor_pubkey r) (Some "forged") (message_hash r)
      (prev_hash r) (entry_hash r)
  else r.

Lemma audit_broken_is_first_witness :
  ∃ good bad rest, order_by key_asc (chained (forge_action "u2" <$> sample_rows)) = good ++ bad :: rest
    ∧ length good = 1 ∧ id bad = "u2".
Proof.
  destruct (audit_verify None (forge_action "u2" <$> sample_rows)) as [|t w k x a] eqn:E;
    [vm_compute in E; discriminate E|].
  destruct (audit_broken_is_first _ _ _ _ _ _ E) as (good & bad & rest & H1 & H2 & H3 & _).
  exists good, bad, rest. vm_compute in E. injection E as <- <- <- <- <-.
  split; [exact H1|split; [symmetry; exact H2|symmetry; exact H3]].
Defined.
