(* ===== verification/Schema.v ===== *)
(** The database's schema and its upgrade: [initSchema] of the message store
    (message-store.ts) and of the activity feed (autonomy/activity-feed.ts), over
    tables that know their columns, and what becomes of a log written before
    the hash columns existed.  Indexes are left out: no result depends on them. *)
From stdpp Require Import gmap.
From S2P Require Import Prelude JsLib Platform MessageStore ActivityFeed AuditVerify.

(** ** Tables *)
Inductive Cell : Type := c_null | c_text (s : string) | c_integer (n : Z).

Record Table : Type := mkTable {
  t_columns : list string;
  t_rows : list (gmap string Cell)
}.
Abbreviation Database := (gmap string Table).

(** [CREATE TABLE IF NOT EXISTS] *)
Definition created (name : string) (columns : list string) (db : Database) : Database :=
  match db !! name with Some _ => db | None => <[name := mkTable columns []]> db end.
Definition create_table (name : string) (columns : list string) : M Database unit :=
  modify (created name columns).

(** The names [PRAGMA table_info] lists: none for a table that does not exist. *)
Definition table_info (name : string) : M Database (list string) :=
  gets (λ db, default [] (t_columns <$> db !! name)).

(** [ALTER TABLE name ADD COLUMN column DEFAULT dflt] *)
Definition alter_table (name column : string) (dflt : Cell) : M Database unit := λ db,
  match db !! name with
  | None => (Throw ("no such table: " +:+ name), db)
  | Some t =>
      if bool_decide (column ∈ t_columns t)
      then (Throw ("duplicate column name: " +:+ column), db)
      else (Ok tt, <[name := mkTable (t_columns t ++ [column]) (<[column := dflt]> <$> t_rows t)]> db)
  end.

(** The [if (!columnNames.has(column))] statements of an upgrade. *)
Fixpoint add_missing (name : string) (columnNames : list string) (added : list (string * Cell))
    : M Database unit :=
  match added with
  | [] => mret tt
  | (column, dflt) :: added =>
      (if bool_decide (column ∈ columnNames) then mret tt else alter_table name column dflt);;
      add_missing name columnNames added
  end.

(** ** The two [initSchema] *)
Definition messages_columns : list string :=
  ["id"; "connection_address"; "direction"; "body"; "thread_id"; "reply_to"; "priority";
   "sequence"; "state"; "failure_reason"; "created_at"; "updated_at"].
Definition messages_added : list (string * Cell) := [("attribution", c_null)].

Definition messages_initSchema : M Database unit :=
  create_table "messages" messages_columns;;
  create_table "sequences" ["connection_address"; "next_sequence"];;
  columnNames ← table_info "messages";
  add_missing "messages" columnNames messages_added.

Definition activity_columns : list string :=
  ["id"; "connection_address"; "event_type"; "message_id"; "badge"; "details"; "created_at"].
Definition activity_added : list (string * Cell) :=
  [("actor_pubkey", c_null); ("action_type", c_null); ("message_hash", c_null);
   ("prev_hash", c_text ""); ("entry_hash", c_text "")].

Definition activity_initSchema : M Database unit :=
  create_table "activity_events" activity_columns;;
  columnNames ← table_info "activity_events";
  add_missing "activity_events" columnNames activity_added.

(** [new MessageStore(path)], then [new ActivityFeed(store.getDb())] *)
Definition open_database : M Database unit := messages_initSchema;; activity_initSchema.

(** ** The specification of an upgrade *)
Definition missing (columns : list string) (added : list (string * Cell)) : list (string * Cell) :=
  filter (λ c, c.1 ∉ columns) added.

Definition fill (cs : list (string * Cell)) (row : gmap string Cell) : gmap string Cell :=
  foldl (λ row c, <[c.1 := c.2]> row) row cs.

Definition evolved (columns : list string) (added : list (string * Cell)) (t : option Table) : Table :=
  let t := default (mkTable columns []) t in
  let cs := missing (t_columns t) added in
  mkTable (t_columns t ++ cs.*1) (fill cs <$> t_rows t).

Lemma add_missing_run name names added db t :
  NoDup added.*1 → db !! name = Some t →
  (∀ c, c ∈ added.*1 → c ∈ t_columns t ↔ c ∈ names) →
  add_missing name names added db =
  (Ok tt, <[name := mkTable (t_columns t ++ (missing names added).*1)
                      (fill (missing names added) <$> t_rows t)]> db).
Proof.
  revert db t. induction added as [|[c v] added IH]; intros db t Hnd Hdb Hc; cbn [add_missing].
  - unfold missing. rewrite filter_nil. simpl. rewrite app_nil_r, list_fmap_id.
    rewrite insert_id; [done|]. rewrite Hdb. by destruct t.
  - inversion Hnd as [|? ? Hn Hnd']; subst. unfold missing in *. rewrite filter_cons. simpl.
    pose proof (Hc c ltac:(by left)) as Hcc. case_bool_decide as Hin.
    + rewrite decide_False by naive_solver.
      change ((mret tt;; add_missing name names added) db) with (add_missing name names added db).
      apply IH; [done..|]. intros d Hd. apply Hc. by right.
    + rewrite decide_True by done. unfold mbind at 1, M_bind at 1, alter_table. rewrite Hdb.
      rewrite bool_decide_eq_false_2 by naive_solver.
      erewrite (IH _ (mkTable _ _)); [|done|by rewrite lookup_insert_eq|].
      * rewrite insert_insert_eq. simpl. rewrite <- app_assoc, <- list_fmap_compose. done.
      * intros d Hd. simpl. rewrite elem_of_app, list_elem_of_singleton, Hc by (by right).
        split; [intros [?| ->]; [done|]|by left]. done.
Qed.

Lemma created_comm a ca b cb db : a ≠ b → created a ca (created b cb db) = created b cb (created a ca db).
Proof.
  intros Hne. unfold created. destruct (db !! a) eqn:Ea, (db !! b) eqn:Eb;
    rewrite ?lookup_insert_ne, ?Ea, ?Eb by done; try done. by rewrite insert_insert_ne.
Qed.

Lemma created_lookup name columns db :
  created name columns db = <[name := default (mkTable columns []) (db !! name)]> db.
Proof. unfold created. destruct (db !! name) eqn:E; [|done]. symmetry. by apply insert_id. Qed.

Lemma upgrade_run name columns added db :
  NoDup added.*1 →
  (create_table name columns;; names ← table_info name; add_missing name names added) db =
  (Ok tt, <[name := evolved columns added (db !! name)]> db).
Proof.
  intros Hnd. unfold create_table, table_info, modify, gets, mbind at 1 2, M_bind at 1 2, evolved.
  rewrite created_lookup, lookup_insert_eq. set (t := default _ _).
  erewrite add_missing_run; [|done|by rewrite lookup_insert_eq|done]. by rewrite insert_insert_eq.
Qed.

Definition activity_after (db : Database) : Table :=
  evolved activity_columns activity_added (db !! "activity_events").
Definition messages_after (db : Database) : Table :=
  evolved messages_columns messages_added (db !! "messages").
Definition sequences_after (db : Database) : Table :=
  default (mkTable ["connection_address"; "next_sequence"] []) (db !! "sequences").

Lemma messages_initSchema_run db :
  messages_initSchema db =
  (Ok tt, <["messages" := messages_after db]> (<["sequences" := sequences_after db]> db)).
Proof.
  assert (E : messages_initSchema db =
    (create_table "messages" messages_columns;; names ← table_info "messages";
     add_missing "messages" names messages_added)
    (created "sequences" ["connection_address"; "next_sequence"] db)).
  { change (messages_initSchema db) with
      ((names ← table_info "messages"; add_missing "messages" names messages_added)
         (created "sequences" ["connection_address"; "next_sequence"]
            (created "messages" messages_columns db))).
    by rewrite created_comm. }
  rewrite E, upgrade_run by (by apply (bool_decide_unpack _)). rewrite created_lookup.
  by rewrite lookup_insert_ne.
Qed.

Lemma activity_initSchema_run db :
  activity_initSchema db = (Ok tt, <["activity_events" := activity_after db]> db).
Proof. apply upgrade_run. by apply (bool_decide_unpack _). Qed.

Lemma open_database_run db :
  open_database db =
  (Ok tt, <["activity_events" := activity_after db]>
            (<["messages" := messages_after db]> (<["sequences" := sequences_after db]> db))).
Proof.
  unfold open_database. run1 (messages_initSchema_run db). rewrite activity_initSchema_run.
  unfold activity_after. by rewrite !lookup_insert_ne.
Qed.

Lemma evolved_again columns added t :
  evolved columns added (Some (evolved columns added t)) = evolved columns added t.
Proof.
  unfold evolved. cbn [default from_option Datatypes.id t_columns t_rows].
  set (u := default _ t).
  assert (missing (t_columns u ++ (missing (t_columns u) added).*1) added = []) as ->.
  { apply elem_of_nil_inv. intros c [Hn Hc]%list_elem_of_filter. apply Hn, elem_of_app.
    destruct (decide (c.1 ∈ t_columns u)); [by left|right].
    apply list_elem_of_fmap. exists c. split; [done|]. by apply list_elem_of_filter. }
  simpl. by rewrite app_nil_r, list_fmap_id.
Qed.

(** ** What an upgrade keeps and adds *)
Lemma fill_other cs row c : c ∉ cs.*1 → fill cs row !! c = row !! c.
Proof.
  revert row. induction cs as [|[d v] cs IH]; intros row Hc; [done|].
  rewrite fmap_cons, not_elem_of_cons in Hc. cbn [fill foldl fst snd].
  change (fill cs (<[d:=v]> row) !! c = row !! c). rewrite IH by naive_solver.
  apply lookup_insert_ne. naive_solver.
Qed.

Lemma fill_added cs row c v : NoDup cs.*1 → (c, v) ∈ cs → fill cs row !! c = Some v.
Proof.
  revert row. induction cs as [|[d u] cs IH]; intros row Hnd Hin; [by apply not_elem_of_nil in Hin|].
  rewrite fmap_cons in Hnd. inversion Hnd as [|? ? Hd Hnd']; subst.
  change (fill cs (<[d:=u]> row) !! c = Some v).
  apply elem_of_cons in Hin as [[= -> ->]|Hin]; [|by apply IH].
  rewrite fill_other by done. apply lookup_insert_eq.
Qed.


(** [t'] is [t] with columns added to every row; what a row held it still holds. *)
Definition extends (t t' : Table) : Prop :=
  ∃ cs, t_columns t' = t_columns t ++ cs.*1 ∧ t_rows t' = fill cs <$> t_rows t ∧
    ∀ row c, c ∈ t_columns t → fill cs row !! c = row !! c.

Lemma evolved_extends columns added t : extends t (evolved columns added (Some t)).
Proof.
  exists (missing (t_columns t) added). split; [done|]. split; [done|].
  intros row c Hc. apply fill_other. intros ([d v] & -> & [Hn _]%list_elem_of_filter)%list_elem_of_fmap.
  by apply Hn.
Qed.

Lemma evolved_complete columns added t c : c ∈ added.*1 → c ∈ t_columns (evolved columns added t).
Proof.
  intros ([d v] & -> & Hin)%list_elem_of_fmap. unfold evolved. set (u := default _ t). simpl.
  apply elem_of_app. destruct (decide (d ∈ t_columns u)); [by left|right].
  apply list_elem_of_fmap. exists (d, v). split; [done|]. by apply list_elem_of_filter.
Qed.

Lemma extends_refl t : extends t t.
Proof. exists []. rewrite app_nil_r. unfold fill. simpl. by rewrite list_fmap_id. Qed.

(** Opening a database never throws, whatever version wrote it: every table that
    was there keeps its columns, rows and cells and only gains columns, the
    columns this version uses are all there afterwards, and opening it again
    changes nothing. *)
Theorem open_database_upgrades db :
  ∃ db', open_database db = (Ok tt, db') ∧ open_database db' = (Ok tt, db') ∧
    (∀ name t, db !! name = Some t → ∃ t', db' !! name = Some t' ∧ extends t t') ∧
    (∃ events messages, db' !! "activity_events" = Some events ∧ db' !! "messages" = Some messages ∧
       (∀ c, c ∈ activity_added.*1 → c ∈ t_columns events) ∧
       (∀ c, c ∈ messages_added.*1 → c ∈ t_columns messages) ∧
       (db !! "activity_events" = None → activity_columns ⊆ t_columns events) ∧
       (db !! "messages" = None → messages_columns ⊆ t_columns messages)).
Proof.
  rewrite open_database_run. eexists. split; [reflexivity|]. set (db' := <[_ := _]> _).
  assert (Ee : db' !! "activity_events" = Some (activity_after db)) by apply lookup_insert_eq.
  assert (Em : db' !! "messages" = Some (messages_after db)).
  { unfold db'. rewrite lookup_insert_ne by done. apply lookup_insert_eq. }
  assert (Es : db' !! "sequences" = Some (sequences_after db)).
  { unfold db'. rewrite !lookup_insert_ne by done. apply lookup_insert_eq. }
  split; [|split].
  - rewrite open_database_run. f_equal. rewrite (insert_id db' "sequences"), (insert_id db' "messages");
      [apply insert_id; rewrite Ee|rewrite Em|rewrite Es]; f_equal; symmetry.
    + unfold activity_after at 1. rewrite Ee. apply evolved_again.
    + unfold messages_after at 1. rewrite Em. apply evolved_again.
    + unfold sequences_after at 1. by rewrite Es.
  - intros name t Ht. unfold db'.
    destruct (decide (name = "activity_events")) as [->|N1].
    { rewrite lookup_insert_eq. eexists. split; [done|]. unfold activity_after. rewrite Ht.
      apply evolved_extends. }
    rewrite lookup_insert_ne by done. destruct (decide (name = "messages")) as [->|N2].
    { rewrite lookup_insert_eq. eexists. split; [done|]. unfold messages_after. rewrite Ht.
      apply evolved_extends. }
    rewrite lookup_insert_ne by done. exists t. split; [|apply extends_refl].
    destruct (decide (name = "sequences")) as [->|N3]; [|by rewrite lookup_insert_ne].
    rewrite lookup_insert_eq. unfold sequences_after. by rewrite Ht.
  - exists (activity_after db), (messages_after db). split_and!; try done; try (intros c; apply evolved_complete).
    + unfold activity_after. intros ->. by apply (bool_decide_unpack _).
    + unfold messages_after. intros ->. by apply (bool_decide_unpack _).
Qed.

(** ** A log from before the hash columns *)

(** The columns of a row as the code reads them. *)
Definition text (column : string) (row : gmap string Cell) : option string :=
  match row !! column with Some (c_text s) => Some s | _ => None end.
Definition nullable (column : string) (row : gmap string Cell) : option (option string) :=
  match row !! column with
  | Some (c_text s) => Some (Some s) | Some c_null => Some None | _ => None
  end.

Definition read_row (row : gmap string Cell) : option ActivityRow :=
  i ← text "id" row;
  address ← text "connection_address" row;
  type ← text "event_type" row;
  message ← nullable "message_id" row;
  badge ← nullable "badge" row;
  details ← nullable "details" row;
  created_at ← text "created_at" row;
  actor ← nullable "actor_pubkey" row;
  action ← nullable "action_type" row;
  hash ← nullable "message_hash" row;
  prev ← text "prev_hash" row;
  entry ← text "entry_hash" row;
  Some (mkActivityRow i address type message badge details created_at actor action hash prev entry).

Definition activity_log (db : Database) : option (list ActivityRow) :=
  t ← db !! "activity_events"; mapM read_row (t_rows t).

(** What the version without the hash columns stored of an event. *)
Record OldEvent : Type := mkOldEvent {
  old_id : string;
  old_address : string;
  old_type : string;
  old_message : option string;
  old_badge : option string;
  old_details : option string;
  old_created_at : string
}.

Definition null_or (o : option string) : Cell := match o with Some s => c_text s | None => c_null end.

Definition old_cells (e : OldEvent) : gmap string Cell := list_to_map
  [("id", c_text (old_id e)); ("connection_address", c_text (old_address e));
   ("event_type", c_text (old_type e)); ("message_id", null_or (old_message e));
   ("badge", null_or (old_badge e)); ("details", null_or (old_details e));
   ("created_at", c_text (old_created_at e))].

Definition old_row (e : OldEvent) : ActivityRow :=
  mkActivityRow (old_id e) (old_address e) (old_type e) (old_message e) (old_badge e) (old_details e)
    (old_created_at e) None None None "" "".

(** A database of that version. *)
Definition old_version (old : list OldEvent) (db : Database) : Prop :=
  db !! "activity_events" = Some (mkTable activity_columns (old_cells <$> old)).

Lemma read_filled e : read_row (fill activity_added (old_cells e)) = Some (old_row e).
Proof. destruct e as [i a t [m|] [b|] [d|] c]; reflexivity. Qed.

Lemma old_log old db : old_version old db →
  ∃ db', open_database db = (Ok tt, db') ∧ activity_log db' = Some (old_row <$> old).
Proof.
  intros Hv. rewrite open_database_run. eexists. split; [reflexivity|].
  unfold activity_log. rewrite lookup_insert_eq. cbn. unfold activity_after. rewrite Hv. simpl.
  apply mapM_Some_2. rewrite <- list_fmap_compose. apply Forall2_fmap, Forall_Forall2_diag.
  apply Forall_forall. intros e _. apply read_filled.
Qed.

Section upgraded.
Context `{Sha256Laws, SqlLaws}.

Lemma old_chained old : chained (old_row <$> old) = [].
Proof. induction old as [|e old IH]; [done|]. unfold chained. by rewrite fmap_cons, filter_cons. Qed.

Lemma old_feed_ok old : StronglySorted key_lt (old_row <$> old) → feed_ok (old_row <$> old).
Proof.
  intros Hs. split; [done| |by rewrite old_chained]. exists (old_row <$> old).
  split; [|by rewrite old_chained, app_nil_r]. apply Forall_fmap, Forall_true. done.
Qed.

(** An upgrade does not break the audit: a log from before the hash columns is
    read back entry for entry, recording goes on after it, and the audit of the
    result passes over exactly the entries recorded since; the old ones, which
    carry no hash, are left out of it. *)
Theorem upgraded_log_verifies old evs db :
  old_version old db → StronglySorted key_lt (old_row <$> old) →
  StronglySorted drawn_before evs →
  (∀ e a, e ∈ old → a ∈ evs → key_lt (old_row e) (row_of_draw a)) →
  ∃ db' new,
    open_database db = (Ok tt, db') ∧ activity_log db' = Some (old_row <$> old) ∧
    record_all evs (old_row <$> old) = (Ok tt, (old_row <$> old) ++ new) ∧
    id <$> new = (λ a, a.1.1) <$> evs ∧
    audit_verify None ((old_row <$> old) ++ new) =
      Valid (length evs) (length evs) (id <$> head new) (id <$> last new).
Proof.
  intros Hv Hs Hd Hlt. destruct (old_log old db Hv) as (db' & Ho & Hl).
  destruct (record_all_ok evs (old_row <$> old)) as (new & Hr & Hok & Hc & Hids);
    [by apply old_feed_ok|done| |].
  { intros r a (e & -> & He)%list_elem_of_fmap. by apply Hlt. }
  exists db', new. split_and!; try done. rewrite audit_verify_ok by done. cbn.
  rewrite Hc, old_chained, app_nil_l. rewrite <- (length_fmap id new), Hids. by rewrite length_fmap.
Qed.
End upgraded.

(** ** Witness *)
Import Sample.

Definition old_log_of_one : list OldEvent :=
  [mkOldEvent "u-old" "pinch:p@h" "message_received" None None None "2025-06-01T00:00:00.000Z"].
Definition old_database : Database :=
  {["activity_events" := mkTable activity_columns (old_cells <$> old_log_of_one)]}.

Lemma upgraded_log_verifies_witness :
  ∃ db' rows, open_database old_database = (Ok tt, db') ∧
    record_all sample_draws (old_row <$> old_log_of_one) = (Ok tt, rows) ∧
    audit_verify None rows = Valid 3 3 (Some "u1") (Some "u0").
Proof.
  destruct (upgraded_log_verifies old_log_of_one sample_draws old_database)
    as (db' & new & Ho & _ & Hr & _ & Ha).
  - reflexivity.
  - repeat constructor.
  - exact sample_draws_ordered.
  - intros e a He Ha. apply list_elem_of_singleton in He as ->.
    assert (Forall (λ a, key_lt (old_row (mkOldEvent "u-old" "pinch:p@h" "message_received" None None
      None "2025-06-01T00:00:00.000Z")) (row_of_draw a)) sample_draws) as Hf
      by (repeat constructor; discriminate).
    rewrite Forall_forall in Hf. exact (Hf a Ha).
  - exists db', ((old_row <$> old_log_of_one) ++ new). split; [exact Ho|]. split; [exact Hr|].
    rewrite Ha. vm_compute in Hr. injection Hr as <-. reflexivity.
Defined.
