(* ===== verification/World.v ===== *)
(** The running skill: the environment it draws time, ids and policy verdicts
    from, and the state of all its components in one [World].  Each component is
    reached through a lens; the calls of the autonomy layer are run here. *)
From S2P Require Import Prelude JsLib JsDate Platform PermissionsManifest ConnectionStore.
From S2P Require Import MessageStore ActivityFeed.
From stdpp Require Import gmap pretty.

(** ** [autonomy/policy-evaluator.ts] *)
Inductive PolicyAction : Type := allow | deny | escalate.
Inductive Confidence : Type := conf_high | conf_medium | conf_low.

#[export] Instance PolicyAction_eq_dec : EqDecision PolicyAction.
Proof. solve_decision. Defined.

Record PolicyDecision : Type := mkDecision {
  d_action : PolicyAction;
  d_confidence : Confidence;
  d_reasoning : string
}.

Record PolicyRequest : Type := mkPolicyRequest {
  rq_policy : string;
  rq_messageBody : BodyValue;
  rq_senderAddress : string;
  rq_connectionNickname : string
}.

(** ** The environment

    [Date.now()], [uuidv7()] and the injected [PolicyEvaluator] answer anew at
    every call: the answer depends on the number of calls made so far.  [None]
    from the evaluator is a rejected promise. *)
Class Env : Type := {
  env_now : nat → Z;
  env_uuid : nat → string;
  evaluatePolicy : nat → PolicyRequest → option PolicyDecision;
  checkInformationBoundary : nat → list string → BodyValue → option PolicyDecision
}.

(** ** State *)

(** [EventRecord] of the circuit breaker; the type is a string because the
    pipeline casts a violation type to it unchecked. *)
Record EventRecord : Type := mkEventRecord {
  er_timestamp : Z;
  er_type : string
}.

#[export] Instance EventRecord_eq_dec : EqDecision EventRecord.
Proof. solve_decision. Defined.

Record World : Type := mkWorld {
  w_tick : nat;
  w_store : ConnectionStore;
  w_db : MessageDb;
  w_feed : list ActivityRow;
  w_events : gmap string (list EventRecord)
}.

Definition put_store (s : ConnectionStore) (w : World) : World :=
  mkWorld (w_tick w) s (w_db w) (w_feed w) (w_events w).
Definition put_db (d : MessageDb) (w : World) : World :=
  mkWorld (w_tick w) (w_store w) d (w_feed w) (w_events w).
Definition put_feed (f : list ActivityRow) (w : World) : World :=
  mkWorld (w_tick w) (w_store w) (w_db w) f (w_events w).
Definition put_events (e : gmap string (list EventRecord)) (w : World) : World :=
  mkWorld (w_tick w) (w_store w) (w_db w) (w_feed w) e.
Definition put_tick (n : nat) (w : World) : World :=
  mkWorld n (w_store w) (w_db w) (w_feed w) (w_events w).

Ltac solve_lens := let t := fresh in try intros ?; intros t; destruct t; reflexivity.

Program Definition storeL : lens World ConnectionStore := Lens w_store put_store _ _ _.
Solve All Obligations with (by intros; try destruct t).
Program Definition dbL : lens World MessageDb := Lens w_db put_db _ _ _.
Solve All Obligations with (by intros; try destruct t).
Program Definition feedL : lens World (list ActivityRow) := Lens w_feed put_feed _ _ _.
Solve All Obligations with (by intros; try destruct t).
Program Definition eventsL : lens World (gmap string (list EventRecord)) :=
  Lens w_events put_events _ _ _.
Solve All Obligations with (by intros; try destruct t).

(** The components do not share state. *)
#[export] Instance indep_store_db : Indep storeL dbL. Proof. done. Qed.
#[export] Instance indep_store_feed : Indep storeL feedL. Proof. done. Qed.
#[export] Instance indep_store_events : Indep storeL eventsL. Proof. done. Qed.
#[export] Instance indep_db_store : Indep dbL storeL. Proof. done. Qed.
#[export] Instance indep_db_feed : Indep dbL feedL. Proof. done. Qed.
#[export] Instance indep_db_events : Indep dbL eventsL. Proof. done. Qed.
#[export] Instance indep_feed_store : Indep feedL storeL. Proof. done. Qed.
#[export] Instance indep_feed_db : Indep feedL dbL. Proof. done. Qed.
#[export] Instance indep_feed_events : Indep feedL eventsL. Proof. done. Qed.
#[export] Instance indep_events_store : Indep eventsL storeL. Proof. done. Qed.
#[export] Instance indep_events_db : Indep eventsL dbL. Proof. done. Qed.
#[export] Instance indep_events_feed : Indep eventsL feedL. Proof. done. Qed.

(** ** Calls *)
Section calls.
Context `{Env, Sha256, SqlEngine}.

(** One question to the environment. *)
Definition ask {A} (f : nat → A) : M World A := λ w,
  (Ok (f (w_tick w)), put_tick (S (w_tick w)) w).

Definition date_now : M World Z := ask env_now.
Definition uuidv7 : M World string := ask env_uuid.

Definition w_getConnection (addr : string) : M World (option Connection) :=
  gets (λ w, getConnection addr (w_store w)).

Definition w_updateConnection (addr : string) (u : ConnectionUpdates) : M World Connection :=
  now ← date_now; zoom storeL (updateConnection now addr u).

Definition w_save : M World unit := zoom storeL save.

Definition w_updateState (i st : string) (reason : option string) : M World unit :=
  now ← date_now; zoom dbL (updateState now i st reason).

Definition w_record (event : EventInput) : M World ActivityEvent :=
  i ← uuidv7; now ← date_now; zoom feedL (record i (isoString now) event).

(** An evaluator call: a rejected promise is a throw at the [await]. *)
Definition await_policy (q : PolicyRequest) : M World PolicyDecision :=
  o ← ask (λ n, evaluatePolicy n q);
  match o with Some d => mret d | None => throw "policy evaluation failed" end.

Definition await_boundary (boundaries : list string) (content : BodyValue)
    : M World PolicyDecision :=
  o ← ask (λ n, checkInformationBoundary n boundaries content);
  match o with Some d => mret d | None => throw "boundary evaluation failed" end.
End calls.

(** [NoOpPolicyEvaluator]: every verdict escalates. *)
Definition noop_decision : PolicyDecision :=
  mkDecision escalate conf_low "No LLM available -- escalating to human".

Class NoOpEvaluator `{Env} : Prop := {
  noop_policy n q : evaluatePolicy n q = Some noop_decision;
  noop_boundary n bs c : checkInformationBoundary n bs c = Some noop_decision
}.

(** ** Running the calls *)
Section running.
Context `{EN : Env, SH : Sha256, SQ : SqlEngine}.

(** The row a call of [record] appends. *)
Definition logs (event : EventInput) (row : ActivityRow) : Prop :=
  connection_address row = in_connectionAddress event ∧
  event_type row = in_eventType event ∧
  message_id row = in_messageId event ∧
  badge row = in_badge event ∧
  details row = in_details event ∧
  action_type row = Some (default (in_eventType event) (in_actionType event)).

Lemma w_record_run event w :
  env_uuid (w_tick w) ∉ id <$> w_feed w →
  ∃ ev row, w_record event w =
            (Ok ev, mkWorld (S (S (w_tick w))) (w_store w) (w_db w) (w_feed w ++ [row])
                      (w_events w)) ∧
            logs event row ∧ id row = env_uuid (w_tick w).
Proof.
  intros Hf. destruct w as [t s d f ev]. simpl in Hf.
  unfold w_record, uuidv7, date_now, zoom, record, mbind, M_bind, ask, gets. cbn.
  rewrite bool_decide_eq_false_2 by done. cbn.
  eexists _, _. split; [reflexivity|]. by repeat split.
Qed.

Lemma w_record_clash event w :
  env_uuid (w_tick w) ∈ id <$> w_feed w →
  w_record event w =
  (Throw "UNIQUE constraint failed: activity_events.id", put_tick (S (S (w_tick w))) w).
Proof.
  intros Hf. destruct w as [t s d f ev]. simpl in Hf.
  unfold w_record, uuidv7, date_now, zoom, record, mbind, M_bind, ask, gets. cbn.
  rewrite bool_decide_eq_true_2 by done. done.
Qed.

(** The identifiers still to be drawn are new: what [uuidv7] documents. *)
Definition fresh_ids (w : World) : Prop :=
  (∀ n, w_tick w ≤ n → env_uuid n ∉ id <$> w_feed w) ∧
  (∀ m n, env_uuid m = env_uuid n → m = n).

Lemma w_record_fresh event w :
  fresh_ids w →
  ∃ ev row, w_record event w =
            (Ok ev, mkWorld (S (S (w_tick w))) (w_store w) (w_db w) (w_feed w ++ [row])
                      (w_events w)) ∧
            logs event row ∧
            fresh_ids (mkWorld (S (S (w_tick w))) (w_store w) (w_db w) (w_feed w ++ [row])
                         (w_events w)).
Proof.
  intros [Hf Hi]. destruct (w_record_run event w) as (ev & row & Hr & Hl & Hid).
  { apply Hf. lia. }
  exists ev, row. split; [done|]. split; [done|]. split; [|done]. simpl.
  intros n Hn. rewrite fmap_app, not_elem_of_app. split; [apply Hf; lia|].
  simpl. rewrite list_elem_of_singleton, Hid. intros E%Hi. lia.
Qed.

Lemma fresh_ids_tick w w' :
  fresh_ids w → w_feed w' = w_feed w → w_tick w ≤ w_tick w' → fresh_ids w'.
Proof. intros [Hf Hi] E Ht. split; [|done]. intros n Hn. rewrite E. apply Hf. lia. Qed.

Lemma w_updateState_run i st reason w :
  w_updateState i st reason w =
  (Ok tt, mkWorld (S (w_tick w)) (w_store w)
            (set_messages (fmap (update_row i st reason (isoString (env_now (w_tick w)))))
               (w_db w))
            (w_feed w) (w_events w)).
Proof. by destruct w. Qed.

Lemma await_policy_run q w :
  await_policy q w =
  (match evaluatePolicy (w_tick w) q with
   | Some d => Ok d | None => Throw "policy evaluation failed" end, put_tick (S (w_tick w)) w).
Proof. unfold await_policy, mbind, M_bind, ask. by destruct (evaluatePolicy _ _). Qed.

Lemma try_catch_bind {A B} (m : M World A) (k : A → M World B) h w :
  try_catch (m ≫= k) h w =
  match m w with
  | (Ok a, w') => try_catch (k a) h w'
  | (Throw _, w') => h w'
  end.
Proof. unfold try_catch, mbind, M_bind. by destruct (m w) as [[a|e] w']. Qed.

(** ** Frames: what a call leaves alone

    [R] relates a world to one whose clock has moved on. *)
Lemma moves_ask (R : relation World) {A} (f : nat → A) :
  (∀ w, R w (put_tick (S (w_tick w)) w)) → moves R (ask f).
Proof. intros Hw w. apply Hw. Qed.

(** Time passes and the circuit breaker's counters stay. *)
Definition quiet (w w' : World) : Prop :=
  w_events w' = w_events w ∧ w_tick w ≤ w_tick w'.

#[export] Instance quiet_preorder : PreOrder quiet.
Proof. split; [by split|]. intros x y z [E1 L1] [E2 L2]. split; [congruence|lia]. Qed.

Lemma quiet_ask {A} (f : nat → A) : moves quiet (ask f).
Proof. apply moves_ask. intros w. split; simpl; [done|lia]. Qed.
Lemma quiet_store {A} (m : M ConnectionStore A) : moves quiet (zoom storeL m).
Proof. apply (moves_zoom _ (λ _ _, True)); [done|]. by split. Qed.
Lemma quiet_db {A} (m : M MessageDb A) : moves quiet (zoom dbL m).
Proof. apply (moves_zoom _ (λ _ _, True)); [done|]. by split. Qed.
Lemma quiet_feed {A} (m : M (list ActivityRow) A) : moves quiet (zoom feedL m).
Proof. apply (moves_zoom _ (λ _ _, True)); [done|]. by split. Qed.
End running.

Ltac moves_calls :=
  unfold w_getConnection, w_updateConnection, w_save, w_updateState, w_record, uuidv7, date_now,
    await_policy, await_boundary in *;
  repeat first
    [ solve [auto with moves typeclass_instances]
    | apply moves_bind; [try apply _|..] | progress intros
    | apply moves_ret; apply _ | apply moves_gets; apply _ | apply moves_throw; apply _
    | case_match ].
#[export] Hint Resolve quiet_ask quiet_store quiet_db quiet_feed : moves.

(** ** A concrete environment, for the witnesses *)
Module SampleEnv.
Definition env (policy boundary : option PolicyDecision) : Env := {|
  env_now n := (1000 * Z.of_nat n)%Z;
  env_uuid n := pretty n;
  evaluatePolicy _ _ := policy;
  checkInformationBoundary _ _ _ := boundary
|}.

Lemma env_monotone p b m n : m ≤ n → (@env_now (env p b) m ≤ @env_now (env p b) n)%Z.
Proof. simpl. lia. Qed.

(** A world that has just started, holding one connection. *)
Definition world (c : Connection) (d : MessageDb) : World :=
  mkWorld 0 (mkStore (mkStoreData 1 [(peerAddress c, c)]) NoFile) d [] ∅.

Lemma world_fresh p b c d : @fresh_ids (env p b) (world c d).
Proof.
  split; simpl; [intros n _; apply not_elem_of_nil|].
  intros m n E. by apply (inj pretty) in E.
Qed.
End SampleEnv.
