(* ===== verification/CircuitBreaker.v ===== *)
(** [autonomy/circuit-breaker.ts]: sliding-window counters per connection that
    downgrade the connection to Full Manual when a threshold is reached. *)
From S2P Require Import Prelude JsLib JsDate Platform PermissionsManifest ConnectionStore.
From S2P Require Import MessageStore ActivityFeed World.
From stdpp Require Import gmap pretty.

Inductive TriggerType : Type :=
| message_flood | permission_violation | spending_exceeded | boundary_probe.

Definition trigger_text (t : TriggerType) : string :=
  match t with
  | message_flood => "message_flood"
  | permission_violation => "permission_violation"
  | spending_exceeded => "spending_exceeded"
  | boundary_probe => "boundary_probe"
  end.

Record CircuitBreakerConfig : Type := mkConfig {
  floodThreshold : Z;
  floodWindowMs : Z;
  violationThreshold : Z;
  violationWindowMs : Z;
  boundaryProbeThreshold : Z;
  boundaryProbeWindowMs : Z
}.

Definition DEFAULT_CIRCUIT_BREAKER_CONFIG : CircuitBreakerConfig :=
  mkConfig 50 60000 5 300000 3 600000.

Record Check : Type := mkCheck {
  chk_type : TriggerType;
  chk_threshold : Z;
  chk_windowMs : Z
}.

Section breaker.
Context `{EN : Env, SH : Sha256, SQ : SqlEngine} (config : CircuitBreakerConfig).
Local Open Scope Z_scope.

Definition isTripped (addr : string) (w : World) : bool :=
  match getConnection addr (w_store w) with
  | Some c => bool_decide (circuitBreakerTripped c = Some true)
  | None => false
  end.

Definition longestWindow : Z :=
  Z.max (floodWindowMs config) (Z.max (violationWindowMs config) (boundaryProbeWindowMs config)).

Definition newer_than (cutoff : Z) (events : list EventRecord) : list EventRecord :=
  filter (λ e, cutoff < er_timestamp e) events.

Definition pruneOldEvents (addr : string) : M World unit :=
  events ← gets (λ w, w_events w !! addr);
  match events with
  | None => mret tt
  | Some events =>
      now ← date_now;
      let cutoff := now - longestWindow in
      zoom eventsL (modify (insert addr (newer_than cutoff events)))
  end.

Definition addEvent (addr type : string) : M World unit :=
  zoom eventsL (modify (λ m, match m !! addr with Some _ => m | None => <[addr := []]> m end));;
  now ← date_now;
  zoom eventsL (modify (alter (λ l, l ++ [mkEventRecord now type]) addr));;
  pruneOldEvents addr.

Definition trip_details (trigger : TriggerType) (count threshold windowMs : Z) : string :=
  json_object [("trigger", json_string (trigger_text trigger)); ("count", pretty count);
               ("threshold", pretty threshold); ("windowMs", pretty windowMs)].

Definition trip (addr : string) (trigger : TriggerType) (count threshold windowMs : Z)
    : M World unit :=
  _ ← w_updateConnection addr (with_autonomy full_manual);
  _ ← w_updateConnection addr (with_tripped true);
  w_save;;
  _ ← w_record {|
    in_connectionAddress := addr;
    in_eventType := "circuit_breaker_tripped";
    in_messageId := None;
    in_badge := Some "circuit_breaker";
    in_details := Some (trip_details trigger count threshold windowMs);
    in_actorPubkey := None;
    in_actionType := None;
    in_messageHash := None
  |};
  mret tt.

Definition checks : list Check :=
  [mkCheck message_flood (floodThreshold config) (floodWindowMs config);
   mkCheck permission_violation (violationThreshold config) (violationWindowMs config);
   mkCheck spending_exceeded (violationThreshold config) (violationWindowMs config);
   mkCheck boundary_probe (boundaryProbeThreshold config) (boundaryProbeWindowMs config)].

(** [events.filter(e => e.type === check.type && e.timestamp > now - check.windowMs).length] *)
Definition window_count (now : Z) (check : Check) (events : list EventRecord) : Z :=
  Z.of_nat (length (filter (λ e, er_type e = trigger_text (chk_type check) ∧
                                 now - chk_windowMs check < er_timestamp e) events)).

Fixpoint run_checks (addr : string) (now : Z) (events : list EventRecord) (cs : list Check)
    : M World bool :=
  match cs with
  | [] => mret false
  | check :: rest =>
      let count := window_count now check events in
      if chk_threshold check <=? count
      then trip addr (chk_type check) count (chk_threshold check) (chk_windowMs check);; mret true
      else run_checks addr now events rest
  end.

Definition checkAndTrip (addr : string) : M World bool :=
  tripped ← gets (isTripped addr);
  if tripped : bool then mret true
  else
    events ← gets (λ w, default [] (w_events w !! addr));
    now ← date_now;
    run_checks addr now events checks.

Definition recordMessage (addr : string) : M World unit :=
  addEvent addr (trigger_text message_flood);;
  _ ← checkAndTrip addr;
  mret tt.

(** The argument type is a union in the source, but the pipeline casts into it. *)
Definition recordViolation (addr type : string) : M World unit :=
  addEvent addr type;;
  _ ← checkAndTrip addr;
  mret tt.

(** ** Running the steps *)
Lemma bind_ask {A B} (f : nat → A) (k : A → M World B) w :
  (ask f ≫= k) w = k (f (w_tick w)) (put_tick (S (w_tick w)) w).
Proof. done. Qed.

Lemma insert_over_alter {A} (m : gmap string A) i f x : <[i:=x]> (alter f i m) = <[i:=x]> m.
Proof.
  apply map_eq. intros j. destruct (decide (i = j)) as [->|Hij].
  - by rewrite !lookup_insert_eq.
  - by rewrite !lookup_insert_ne, lookup_alter_ne.
Qed.

(** What [addEvent] leaves: the event is pushed with the first clock reading,
    the list is pruned with the second. *)
Definition events_after_add (addr type : string) (w : World) : list EventRecord :=
  newer_than (env_now (S (w_tick w)) - longestWindow)
    (default [] (w_events w !! addr) ++ [mkEventRecord (env_now (w_tick w)) type]).

Lemma addEvent_run addr type w :
  addEvent addr type w =
  (Ok tt, mkWorld (S (S (w_tick w))) (w_store w) (w_db w) (w_feed w)
            (<[addr := events_after_add addr type w]> (w_events w))).
Proof.
  unfold addEvent, pruneOldEvents, date_now, events_after_add.
  destruct w as [t s d f ev].
  unfold mbind, M_bind, zoom, modify, gets, ask. cbn.
  destruct (ev !! addr) as [l|] eqn:E; cbn.
  - rewrite lookup_alter_eq, E. cbv [put_events put_tick]. cbn. do 2 f_equal.
    by rewrite insert_over_alter.
  - rewrite lookup_alter_eq, lookup_insert_eq. cbv [put_events put_tick]. cbn. do 2 f_equal.
    by rewrite insert_over_alter, insert_insert_eq.
Qed.

(** What a trip does to the connection and the store. *)
Definition tripped_conn (now1 now2 : Z) (c : Connection) : Connection :=
  assign (assign c (with_autonomy full_manual) (isoString now1)) (with_tripped true)
    (isoString now2).

Definition saved_set (addr : string) (c : Connection) (st : ConnectionStore) : ConnectionStore :=
  let st' := set_connections (Obj.set addr c) st in mkStore (data st') (Json (data st')).

Definition trip_event (addr : string) (trigger : TriggerType) (count threshold windowMs : Z)
    : EventInput :=
  mkEventInput addr "circuit_breaker_tripped" None (Some "circuit_breaker")
    (Some (trip_details trigger count threshold windowMs)) None None None.

Definition trip_world (addr : string) (c : Connection) (w : World) : World :=
  mkWorld (S (S (w_tick w)))
    (saved_set addr (tripped_conn (env_now (w_tick w)) (env_now (S (w_tick w))) c) (w_store w))
    (w_db w) (w_feed w) (w_events w).

Lemma trip_run addr trigger n th win w c :
  getConnection addr (w_store w) = Some c →
  trip addr trigger n th win w =
  (w_record (trip_event addr trigger n th win) ≫= λ _, mret tt) (trip_world addr c w).
Proof.
  intros Hc. unfold trip, w_updateConnection, date_now, w_save, save, trip_world, saved_set.
  destruct w as [t s d f ev]. simpl in Hc.
  bind1. unfold mbind at 1, M_bind at 1, ask at 1. cbn [zoom view storeL].
  unfold zoom at 1. cbn. rewrite (updateConnection_run _ _ _ _ _ Hc). cbn.
  bind1. unfold mbind at 1, M_bind at 1, ask at 1. cbn.
  unfold zoom at 1. cbn.
  erewrite updateConnection_run by (autorewrite with store_rw; by rewrite decide_True).
  cbn. rewrite set_connections_twice. reflexivity.
Qed.

(** ** The specification: thresholds over the whole history

    [first_exceeded now H] is the first check whose window, ending at [now],
    holds enough events of the history [H]. *)
Definition first_exceeded (now : Z) (H : list EventRecord) : option Check :=
  List.find (λ chk, chk_threshold chk <=? window_count now chk H) checks.

(** The list kept for [addr] is what a past pruning of the history [H] left. *)
Definition tracked (addr : string) (w : World) (H : list EventRecord) : Prop :=
  ∃ cutoff, default [] (w_events w !! addr) = newer_than cutoff H ∧
            (cutoff ≤ env_now (w_tick w) - longestWindow ∨ H = []).

Definition clock_monotone : Prop := ∀ m n : nat, (m ≤ n)%nat → env_now m ≤ env_now n.

Lemma newer_than_le c1 c2 l : c1 ≤ c2 → newer_than c2 (newer_than c1 l) = newer_than c2 l.
Proof.
  intros Hc. unfold newer_than. rewrite list_filter_filter.
  apply list_filter_iff. intros e. simpl. naive_solver lia.
Qed.

Lemma newer_than_app c l1 l2 : newer_than c (l1 ++ l2) = newer_than c l1 ++ newer_than c l2.
Proof. apply filter_app. Qed.

Lemma window_count_newer now chk cutoff l :
  cutoff ≤ now - chk_windowMs chk →
  window_count now chk (newer_than cutoff l) = window_count now chk l.
Proof.
  intros Hc. unfold window_count, newer_than. rewrite list_filter_filter.
  do 2 f_equal. apply list_filter_iff. intros e. simpl. naive_solver lia.
Qed.

Lemma checks_window chk : chk ∈ checks → chk_windowMs chk ≤ longestWindow.
Proof.
  unfold checks, longestWindow. rewrite !elem_of_cons.
  intros [->|[->|[->|[->|H']]]]; simpl; [lia..|by apply not_elem_of_nil in H'].
Qed.

Lemma tracked_start addr w : w_events w !! addr = None → tracked addr w [].
Proof. intros E. exists 0. rewrite E. auto. Qed.

Lemma tracked_other addr w w' H :
  clock_monotone → w_events w' !! addr = w_events w !! addr → (w_tick w ≤ w_tick w')%nat →
  tracked addr w H → tracked addr w' H.
Proof.
  intros Hm E Ht (c & Hl & Hc). exists c. rewrite E. split; [done|].
  destruct Hc as [Hc|Hc]; [left|by right]. specialize (Hm _ _ Ht). lia.
Qed.

Lemma tracked_add addr type w H :
  clock_monotone → tracked addr w H →
  tracked addr (addEvent addr type w).2 (H ++ [mkEventRecord (env_now (w_tick w)) type]).
Proof.
  intros Hm (c & Hl & Hc). rewrite addEvent_run. unfold tracked. simpl.
  rewrite lookup_insert_eq. simpl. exists (env_now (S (w_tick w)) - longestWindow).
  pose proof (Hm (w_tick w) (S (w_tick w)) ltac:(lia)).
  pose proof (Hm (S (w_tick w)) (S (S (w_tick w))) ltac:(lia)). split; [|left; lia].
  unfold events_after_add. rewrite Hl, !newer_than_app. f_equal.
  destruct Hc as [Hc| ->]; [apply newer_than_le; lia|done].
Qed.

Lemma tracked_count addr w H now chk :
  tracked addr w H → env_now (w_tick w) ≤ now → chk ∈ checks →
  window_count now chk (default [] (w_events w !! addr)) = window_count now chk H.
Proof.
  intros (c & -> & Hc) Hn Hin%checks_window. destruct Hc as [Hc| ->]; [|done].
  apply window_count_newer. lia.
Qed.

Lemma find_ext {A} (f g : A → bool) l :
  (∀ x, x ∈ l → f x = g x) → List.find f l = List.find g l.
Proof.
  induction l as [|x l IH]; intros Hfg; simpl; [done|].
  rewrite Hfg by left. destruct (g x); [done|]. apply IH. intros y Hy. apply Hfg. by right.
Qed.

Lemma run_checks_first addr now events cs w :
  run_checks addr now events cs w =
  match List.find (λ chk, chk_threshold chk <=? window_count now chk events) cs with
  | Some chk =>
      (trip addr (chk_type chk) (window_count now chk events) (chk_threshold chk)
         (chk_windowMs chk);; mret true) w
  | None => (Ok false, w)
  end.
Proof.
  induction cs as [|chk cs IH]; simpl; [done|].
  destruct (chk_threshold chk <=? window_count now chk events); [done|apply IH].
Qed.

(** [checkAndTrip] on an untripped connection, against the whole history. *)
Lemma checkAndTrip_run addr w H :
  tracked addr w H → isTripped addr w = false →
  checkAndTrip addr w =
  match first_exceeded (env_now (w_tick w)) H with
  | Some chk =>
      (trip addr (chk_type chk) (window_count (env_now (w_tick w)) chk H) (chk_threshold chk)
         (chk_windowMs chk);; mret true) (put_tick (S (w_tick w)) w)
  | None => (Ok false, put_tick (S (w_tick w)) w)
  end.
Proof.
  intros Ht Hnt. unfold checkAndTrip. unfold mbind, M_bind, gets, date_now, ask.
  rewrite Hnt. fold (@mbind (M World) _). rewrite run_checks_first. unfold first_exceeded.
  rewrite (find_ext _ (λ chk, chk_threshold chk <=? window_count (env_now (w_tick w)) chk H));
    [|intros chk Hc; by rewrite (tracked_count addr w H)].
  destruct (List.find _ _) as [chk|] eqn:E; [|done].
  apply List.find_some in E as [Hin%list_elem_of_In _].
  by rewrite (tracked_count addr w H).
Qed.

(** ** Histories: every interleaving of recorded events with other activity *)

(** [records op type]: the public operations that record an event. *)
Inductive records (addr : string) : M World unit → string → Prop :=
| records_message : records addr (recordMessage addr) "message_flood"
| records_violation type : records addr (recordViolation addr type) type.

Inductive breaker_history (addr : string) : World → list EventRecord → Prop :=
| history_start w : w_events w !! addr = None → breaker_history addr w []
| history_record w hist op type :
    breaker_history addr w hist → records addr op type →
    breaker_history addr (op w).2 (hist ++ [mkEventRecord (env_now (w_tick w)) type])
| history_other w w' hist :
    breaker_history addr w hist → w_events w' !! addr = w_events w !! addr →
    (w_tick w ≤ w_tick w')%nat → breaker_history addr w' hist.

Lemma quiet_trip addr trigger n th win : moves quiet (trip addr trigger n th win).
Proof. unfold trip. moves_calls. Qed.

Lemma quiet_run_checks addr now events cs : moves quiet (run_checks addr now events cs).
Proof.
  induction cs as [|chk cs IH]; simpl; [moves_calls|].
  case_match; [|done]. apply moves_bind; [apply _|apply quiet_trip|moves_calls].
Qed.

Lemma quiet_checkAndTrip addr : moves quiet (checkAndTrip addr).
Proof. unfold checkAndTrip. moves_calls. apply quiet_run_checks. Qed.

Lemma records_unfold addr op type w :
  records addr op type →
  op w = (addEvent addr type;; _ ← checkAndTrip addr; mret tt) w.
Proof. by intros [|]. Qed.

Lemma records_quiet addr op type w :
  records addr op type → quiet (addEvent addr type w).2 (op w).2.
Proof.
  intros Hop. rewrite (records_unfold _ _ _ w Hop).
  bind1. rewrite addEvent_run. cbn [snd].
  apply moves_bind; [apply _|apply quiet_checkAndTrip|moves_calls].
Qed.

Lemma history_tracked addr w hist :
  clock_monotone → breaker_history addr w hist → tracked addr w hist.
Proof.
  intros Hm. induction 1 as [w E|w hist op type _ IH Hop|w w' hist _ IH E Ht].
  - by apply tracked_start.
  - destruct (records_quiet _ _ _ w Hop) as [E Ht].
    eapply tracked_other; [done|by rewrite E|done|]. by apply tracked_add.
  - by eapply tracked_other.
Qed.

Lemma isTripped_add addr type w : isTripped addr (addEvent addr type w).2 = isTripped addr w.
Proof. by rewrite addEvent_run. Qed.

Lemma breaker_record_run addr op type w hist c r w' :
  clock_monotone → breaker_history addr w hist → records addr op type →
  getConnection addr (w_store w) = Some c → isTripped addr w = false →
  op w = (r, w') →
  let hist' := hist ++ [mkEventRecord (env_now (w_tick w)) type] in
  let now := env_now (S (S (w_tick w))) in
  match first_exceeded now hist' with
  | None =>
      r = Ok tt ∧ w_store w' = w_store w ∧ w_feed w' = w_feed w ∧ w_tick w' = (3 + w_tick w)%nat
  | Some chk =>
      w_store w' = saved_set addr
        (tripped_conn (env_now (3 + w_tick w)) (env_now (4 + w_tick w)) c) (w_store w) ∧
      (r = Ok tt →
       ∃ row, w_feed w' = w_feed w ++ [row] ∧
         logs (trip_event addr (chk_type chk) (window_count now chk hist') (chk_threshold chk)
                 (chk_windowMs chk)) row)
  end.
Proof.
  intros Hm Hh Hop Hc Hnt Hrun hist' now.
  pose proof (tracked_add addr type w hist Hm (history_tracked _ _ _ Hm Hh)) as Htr.
  rewrite (records_unfold _ _ _ _ Hop) in Hrun. unfold mbind at 1, M_bind at 1 in Hrun.
  pose proof (isTripped_add addr type w) as Hnt'. rewrite Hnt in Hnt'.
  rewrite addEvent_run in Hrun, Htr, Hnt'. cbn [snd] in Htr, Hnt'.
  unfold mbind at 1, M_bind at 1 in Hrun. rewrite (checkAndTrip_run _ _ _ Htr Hnt') in Hrun.
  cbn [w_tick put_tick] in Hrun. change (env_now _) with now in Hrun at 1.
  unfold hist'. destruct (first_exceeded now _) as [chk|] eqn:Ef.
  - unfold mbind at 1, M_bind at 1 in Hrun. erewrite trip_run in Hrun by exact Hc.
    unfold mbind at 1, M_bind at 1 in Hrun. unfold trip_world in Hrun. cbn in Hrun.
    set (w1 := mkWorld _ _ _ _ _) in Hrun.
    set (e := trip_event _ _ _ _ _) in Hrun.
    destruct (decide (env_uuid (w_tick w1) ∈ id <$> w_feed w1)) as [Hin|Hin].
    + rewrite w_record_clash in Hrun by done. injection Hrun as <- <-. split; [done|]. done.
    + destruct (w_record_run e w1 Hin) as (ev & row & Hr & Hl & _). rewrite Hr in Hrun.
      injection Hrun as <- <-. split; [done|]. intros _. exists row. done.
  - injection Hrun as <- <-. done.
Qed.

(** C30. The sliding window refines counting over the full history: whatever was
    recorded and whatever ran in between, and as long as the clock does not step
    back, recording one more event trips the
    breaker exactly when some trigger's events of the whole history within its
    own window (the new one included) reach its threshold, although older
    events are pruned from memory.  The trip sets the connection to Full Manual
    with the flag, saves the store before anything else, and logs the first
    exceeded trigger with its count; otherwise store and log are untouched. *)
Theorem breaker_trips_exactly addr op type w hist c r w' :
  clock_monotone → breaker_history addr w hist → records addr op type →
  getConnection addr (w_store w) = Some c → isTripped addr w = false →
  op w = (r, w') →
  let hist' := hist ++ [mkEventRecord (env_now (w_tick w)) type] in
  let now := env_now (S (S (w_tick w))) in
  match first_exceeded now hist' with
  | None => r = Ok tt ∧ w_store w' = w_store w ∧ w_feed w' = w_feed w
  | Some chk =>
      w_store w' = saved_set addr
        (tripped_conn (env_now (3 + w_tick w)) (env_now (4 + w_tick w)) c) (w_store w) ∧
      (r = Ok tt →
       ∃ row, w_feed w' = w_feed w ++ [row] ∧
         logs (trip_event addr (chk_type chk) (window_count now chk hist') (chk_threshold chk)
                 (chk_windowMs chk)) row)
  end.
Proof.
  intros Hm Hh Hop Hc Hnt Hrun. cbv zeta.
  pose proof (breaker_record_run _ _ _ _ _ _ _ _ Hm Hh Hop Hc Hnt Hrun) as H. cbv zeta in H.
  case_match; [done|]. naive_solver.
Qed.

(** ** A flood, message by message *)
Fixpoint repeat_m (n : nat) (m : M World unit) : M World unit :=
  match n with O => mret tt | S n => m;; repeat_m n m end.

Lemma repeat_m_snoc n m w :
  repeat_m (S n) m w = (repeat_m n m;; m) w.
Proof.
  revert w. induction n as [|n IH]; intros w.
  - simpl. unfold mbind, M_bind, mret, M_ret. by destruct (m w) as [[[]|] w'].
  - change (repeat_m (S (S n)) m w) with ((m;; repeat_m (S n) m) w).
    simpl. unfold mbind, M_bind. destruct (m w) as [[[]|] w1]; [|done].
    specialize (IH w1). simpl in IH. unfold mbind, M_bind in IH. by rewrite IH.
Qed.

Definition flood_history (t0 : Z) (n : nat) (hist : list EventRecord) : Prop :=
  length hist = n ∧ Forall (λ e, er_type e = "message_flood" ∧ t0 ≤ er_timestamp e) hist.

Lemma flood_count t0 n hist now th win :
  flood_history t0 n hist → now - win < t0 →
  window_count now (mkCheck message_flood th win) hist = Z.of_nat n.
Proof.
  intros [<- Hf] Hn. unfold window_count. induction Hf as [|e l [Ht Hs] _ IH]; [done|].
  rewrite filter_cons_True; [simpl in *; lia|]. rewrite Ht. simpl. split; [done|lia].
Qed.

Lemma flood_count_other t0 n hist now chk :
  flood_history t0 n hist → chk_type chk ≠ message_flood → window_count now chk hist = 0.
Proof.
  intros [_ Hf] Hn. unfold window_count. induction Hf as [|e l [Ht Hs] _ IH]; [done|].
  rewrite filter_cons_False; [done|]. rewrite Ht. intros [E' _]. by destruct (chk_type chk).
Qed.

(** Of the checks only the flood check sees a flood, and it sees all of it. *)
Lemma flood_exceeded t0 n hist now :
  0 < violationThreshold config → 0 < boundaryProbeThreshold config →
  now - floodWindowMs config < t0 → flood_history t0 n hist →
  first_exceeded now hist =
  if floodThreshold config <=? Z.of_nat n
  then Some (mkCheck message_flood (floodThreshold config) (floodWindowMs config)) else None.
Proof.
  intros Hv Hb Hn Hf. unfold first_exceeded, checks. cbn [List.find chk_threshold].
  rewrite (flood_count t0 n) by done. case_match; [done|].
  rewrite !(flood_count_other t0 n) by done. rewrite !(proj2 (Z.leb_gt _ 0)) by done. done.
Qed.

(** The state of a flood after [n] messages that did not trip. *)
Lemma flood_below addr w c n :
  clock_monotone → 0 < violationThreshold config → 0 < boundaryProbeThreshold config →
  w_events w !! addr = None → getConnection addr (w_store w) = Some c →
  isTripped addr w = false → Z.of_nat n < floodThreshold config →
  env_now (w_tick w + 3 * n)%nat - floodWindowMs config < env_now (w_tick w) →
  ∃ w' hist, repeat_m n (recordMessage addr) w = (Ok tt, w') ∧
    w_tick w' = (w_tick w + 3 * n)%nat ∧ w_store w' = w_store w ∧ w_feed w' = w_feed w ∧
    breaker_history addr w' hist ∧ flood_history (env_now (w_tick w)) n hist.
Proof.
  intros Hm Hv Hb He Hc Hnt. induction n as [|n IH]; intros Hn Hw.
  - exists w, []. split; [done|]. split; [lia|]. do 2 (split; [done|]).
    split; [by apply history_start|]. by split.
  - pose proof (Hm (w_tick w + 3 * n)%nat (w_tick w + 3 * S n)%nat ltac:(lia)).
    destruct IH as (w1 & hist & Hr & Ht & Es & Ef & Hh & Hf); [lia..|].
    rewrite repeat_m_snoc. unfold mbind, M_bind. rewrite Hr.
    destruct (recordMessage addr w1) as [r w2] eqn:E.
    assert (isTripped addr w1 = false) as Hnt1 by (unfold isTripped in *; by rewrite Es).
    assert (getConnection addr (w_store w1) = Some c) as Hc1 by (by rewrite Es).
    pose proof (breaker_record_run addr _ _ w1 hist c r w2 Hm Hh (records_message addr) Hc1 Hnt1 E) as Hrun.
    assert (flood_history (env_now (w_tick w)) (S n)
              (hist ++ [mkEventRecord (env_now (w_tick w1)) "message_flood"])) as Hf'.
    { destruct Hf as [<- Hf]. split; [rewrite length_app; simpl; lia|].
      apply Forall_app. split; [done|]. repeat constructor. simpl. rewrite Ht. apply Hm. lia. }
    pose proof (history_record addr w1 hist _ _ Hh (records_message addr)) as Hh'.
    rewrite E in Hh'. cbn [snd] in Hh'. cbv zeta in Hrun.
    pose proof (Hm (S (S (w_tick w1))) (w_tick w + 3 * S n)%nat ltac:(lia)).
    rewrite (flood_exceeded (env_now (w_tick w)) (S n)) in Hrun by (done || lia).
    rewrite (proj2 (Z.leb_gt _ _)) in Hrun by lia.
    destruct Hrun as (-> & E2 & E3 & E4). eexists w2, _.
    split; [done|]. split; [lia|]. split; [congruence|]. split; [congruence|]. by split.
Qed.

Lemma saved_set_get addr c st : getConnection addr (saved_set addr c st) = Some c.
Proof.
  change (getConnection addr (set_connections (Obj.set addr c) st) = Some c).
  rewrite getConnection_set. by rewrite decide_True.
Qed.

(** A flood trips at the threshold: of messages that arrive within one window
    on a connection without earlier events, none before the
    [floodThreshold]-th leaves it tripped, and that one does, whatever the
    connection's autonomy level was. *)
Theorem flood_trips_at_threshold addr w c k n r w' :
  clock_monotone → 0 < violationThreshold config → 0 < boundaryProbeThreshold config →
  floodThreshold config = Z.of_nat (S k) →
  env_now (w_tick w + 3 * S k)%nat - floodWindowMs config < env_now (w_tick w) →
  w_events w !! addr = None → getConnection addr (w_store w) = Some c →
  isTripped addr w = false → (n ≤ S k)%nat →
  repeat_m n (recordMessage addr) w = (r, w') →
  isTripped addr w' = bool_decide (n = S k) ∧
  (autonomyLevel <$> getConnection addr (w_store w')) =
    Some (if decide (n = S k) then full_manual else autonomyLevel c).
Proof.
  intros Hm Hv Hb Hk Hw He Hc Hnt Hn Hr.
  assert (∀ m, (m ≤ k)%nat → env_now (w_tick w + 3 * m)%nat - floodWindowMs config < env_now (w_tick w))
    as Hwin by (intros m Hmk; pose proof (Hm (w_tick w + 3 * m)%nat (w_tick w + 3 * S k)%nat ltac:(lia)); lia).
  destruct (decide (n = S k)) as [->|Hne].
  - rewrite repeat_m_snoc in Hr. rewrite bool_decide_eq_true_2 by done.
    destruct (flood_below addr w c k) as (w1 & hist & Hr1 & Ht & Es & Ef & Hh & Hf);
      [auto with lia..|].
    unfold mbind, M_bind in Hr. rewrite Hr1 in Hr.
    assert (isTripped addr w1 = false) as Hnt1 by (unfold isTripped in *; by rewrite Es).
    assert (getConnection addr (w_store w1) = Some c) as Hc1 by (by rewrite Es).
    pose proof (breaker_record_run addr _ _ w1 hist c r w' Hm Hh (records_message addr) Hc1 Hnt1 Hr) as Hrun.
    cbv zeta in Hrun.
    rewrite (flood_exceeded (env_now (w_tick w)) (S k)) in Hrun; [|done..| |].
    + rewrite (proj2 (Z.leb_le _ _)) in Hrun by lia. destruct Hrun as [Es' _].
      unfold isTripped. rewrite Es', saved_set_get. simpl. done.
    + pose proof (Hm (S (S (w_tick w1))) (w_tick w + 3 * S k)%nat ltac:(lia)). lia.
    + destruct Hf as [<- Hf]. split; [rewrite length_app; simpl; lia|].
      apply Forall_app. split; [done|]. repeat constructor. simpl. apply Hm. lia.
  - rewrite bool_decide_eq_false_2 by done.
    destruct (flood_below addr w c n) as (w1 & hist & Hr1 & Ht & Es & _); [auto with lia..|].
    rewrite Hr1 in Hr. injection Hr as <- <-. unfold isTripped in *. rewrite Es, Hc in *. done.
Qed.

(** ** Events of a type no check counts *)
Definition counted (type : string) : Prop := ∃ t, type = trigger_text t.

Definition uncounted_only (addr : string) (w : World) : Prop :=
  Forall (λ e, ¬ counted (er_type e)) (default [] (w_events w !! addr)).

Definition thresholds_positive : Prop :=
  0 < floodThreshold config ∧ 0 < violationThreshold config ∧ 0 < boundaryProbeThreshold config.

Lemma window_count_uncounted now chk l :
  Forall (λ e, ¬ counted (er_type e)) l → window_count now chk l = 0.
Proof.
  intros Hl. unfold window_count. induction Hl as [|e l He _ IH]; [done|].
  rewrite filter_cons_False; [done|]. intros [E _]. apply He. by exists (chk_type chk).
Qed.

Lemma run_checks_uncounted addr now events w :
  thresholds_positive → Forall (λ e, ¬ counted (er_type e)) events →
  run_checks addr now events checks w = (Ok false, w).
Proof.
  intros (H1 & H2 & H3) Hl. unfold checks. cbn [run_checks chk_threshold].
  rewrite !window_count_uncounted by done.
  rewrite !(proj2 (Z.leb_gt _ 0)) by done. done.
Qed.

Lemma Forall_newer (P : EventRecord → Prop) cutoff l : Forall P l → Forall P (newer_than cutoff l).
Proof.
  rewrite !Forall_forall. intros Hl e [_ He]%list_elem_of_filter. by apply Hl.
Qed.

Lemma recordViolation_uncounted addr type w :
  thresholds_positive → ¬ counted type → uncounted_only addr w → isTripped addr w = false →
  ∃ w', recordViolation addr type w = (Ok tt, w') ∧
        w_store w' = w_store w ∧ w_db w' = w_db w ∧ w_feed w' = w_feed w ∧
        (w_tick w ≤ w_tick w')%nat ∧ uncounted_only addr w'.
Proof.
  intros Hp Hc Hu Hnt. unfold recordViolation, checkAndTrip.
  bind1. pose proof (isTripped_add addr type w) as Hnt'.
  rewrite addEvent_run in *. cbn [snd] in Hnt'.
  set (w1 := mkWorld _ _ _ _ _) in *.
  assert (uncounted_only addr w1) as Hu1.
  { unfold uncounted_only, w1. cbn. rewrite lookup_insert_eq. simpl.
    apply Forall_newer, Forall_app. split; [done|]. by constructor. }
  unfold mbind, M_bind, gets, date_now, ask. rewrite Hnt', Hnt.
  rewrite run_checks_uncounted by done. eexists. split; [reflexivity|]. cbn.
  repeat split; [lia|exact Hu1].
Qed.

(** Violations of a type outside the four counted ones (the pipeline reports
    every hard denial as [information_boundary]) never trip the breaker: after
    any number of them the store, the message table and the log are unchanged
    and the connection keeps its autonomy level. *)
Theorem information_boundary_never_trips n addr w r w' :
  thresholds_positive → uncounted_only addr w → isTripped addr w = false →
  repeat_m n (recordViolation addr "information_boundary") w = (r, w') →
  r = Ok tt ∧ w_store w' = w_store w ∧ w_db w' = w_db w ∧ w_feed w' = w_feed w ∧
  isTripped addr w' = false.
Proof.
  intros Hp. revert w. induction n as [|n IH]; intros w Hu Hnt; simpl.
  { by intros [= <- <-]. }
  destruct (recordViolation_uncounted addr "information_boundary" w) as (w1 & Hr & E1 & E2 & E3 & _ & Hu1);
    [done|by intros [[] ?]|done..|].
  unfold mbind, M_bind. rewrite Hr. intros Hrun.
  assert (isTripped addr w1 = false) as Hnt1 by (unfold isTripped in *; by rewrite E1).
  destruct (IH w1 Hu1 Hnt1 Hrun) as (-> & -> & -> & -> & ?). done.
Qed.

(** ** What the breaker may do to connections: demote, nothing else *)

(** [c'] is [c], or [c] set to Full Manual with the flag, but for [lastActivity]. *)
Definition demoted (c c' : Connection) : Prop :=
  ∃ level flag last,
    c' = mkConnection (peerAddress c) (peerPublicKey c) (cstate c) (nickname c) level
           (autoRespondPolicy c) flag (permissionsManifest c) (muted c) (passthrough c)
           (shortMessage c) (createdAt c) last (expiresAt c) ∧
    (level = autonomyLevel c ∧ flag = circuitBreakerTripped c ∧ last = lastActivity c ∨
     level = full_manual ∧ flag = Some true).
End breaker.

#[export] Instance demoted_preorder : PreOrder demoted.
Proof.
  split.
  - intros c. exists (autonomyLevel c), (circuitBreakerTripped c), (lastActivity c).
    split; [by destruct c|auto].
  - intros c c1 c2 (l1 & f1 & t1 & -> & H1) (l2 & f2 & t2 & -> & H2). simpl in *.
    exists l2, f2, t2. split; [done|]. destruct H2 as [(-> & -> & ->)|?]; [|auto]. done.
Qed.

(** No connection appears or disappears and each is demoted at most. *)
Definition demotes (w w' : World) : Prop :=
  ∀ a, option_Forall2 demoted (getConnection a (w_store w)) (getConnection a (w_store w')).

#[export] Instance demotes_preorder : PreOrder demotes.
Proof.
  split; [by intros w a|]. intros x y z H1 H2 a. etrans; [apply H1|apply H2].
Qed.

Section frames.
Context `{EN : Env, SH : Sha256, SQ : SqlEngine} (config : CircuitBreakerConfig).

Lemma demotes_same_store w w' : w_store w' = w_store w → demotes w w'.
Proof. intros E a. by rewrite E. Qed.

Lemma demotes_ask {A} (f : nat → A) : moves demotes (ask f).
Proof. apply moves_ask. intros w. by apply demotes_same_store. Qed.
Lemma demotes_db {A} (m : M MessageDb A) : moves demotes (zoom dbL m).
Proof. apply (moves_zoom _ (λ _ _, True)); [done|]. intros; by apply demotes_same_store. Qed.
Lemma demotes_feed {A} (m : M (list ActivityRow) A) : moves demotes (zoom feedL m).
Proof. apply (moves_zoom _ (λ _ _, True)); [done|]. intros; by apply demotes_same_store. Qed.
Lemma demotes_events {A} (m : M (gmap string (list EventRecord)) A) : moves demotes (zoom eventsL m).
Proof. apply (moves_zoom _ (λ _ _, True)); [done|]. intros; by apply demotes_same_store. Qed.

Lemma demoted_tripped now1 now2 c : demoted c (tripped_conn now1 now2 c).
Proof. eexists _, _, _. split; [reflexivity|by right]. Qed.

Lemma demotes_trip addr trigger n th win : moves demotes (trip addr trigger n th win).
Proof.
  intros w. destruct (getConnection addr (w_store w)) as [c|] eqn:E.
  - rewrite (trip_run _ _ _ _ _ _ _ E). trans (trip_world addr c w).
    + intros a. unfold trip_world, saved_set. cbn.
      change (getConnection a (mkStore ?d _)) with (getConnection a (mkStore d (file (w_store w)))).
      change (option_Forall2 demoted (getConnection a (w_store w))
        (getConnection a (set_connections (Obj.set addr
           (tripped_conn (env_now (w_tick w)) (env_now (S (w_tick w))) c)) (w_store w)))).
      rewrite getConnection_set. destruct (decide (addr = a)) as [<-|]; [|done].
      rewrite E. constructor. apply demoted_tripped.
    + assert (moves demotes (w_record (trip_event addr trigger n th win) ≫= λ _, mret tt)) as Hm;
        [|apply Hm].
      pose proof (@demotes_ask); pose proof (@demotes_feed). moves_calls.
  - unfold trip, w_updateConnection, date_now, mbind, M_bind, zoom, ask. cbn.
    rewrite updateConnection_missing by done. cbn. by apply demotes_same_store.
Qed.
End frames.
#[export] Hint Resolve demotes_ask demotes_db demotes_feed demotes_events demotes_trip : moves.

Section record_frames.
Context `{EN : Env, SH : Sha256, SQ : SqlEngine} (config : CircuitBreakerConfig).

Lemma demotes_addEvent addr type : moves demotes (addEvent config addr type).
Proof. unfold addEvent, pruneOldEvents. moves_calls. Qed.

Lemma demotes_run_checks addr now events cs : moves demotes (run_checks addr now events cs).
Proof. induction cs as [|chk cs IH]; simpl; moves_calls. Qed.

Lemma demotes_checkAndTrip addr : moves demotes (checkAndTrip config addr).
Proof. unfold checkAndTrip. moves_calls. apply demotes_run_checks. Qed.

Lemma demotes_records addr op type : records config addr op type → moves demotes op.
Proof.
  intros Hop w. rewrite (records_unfold config _ _ _ w Hop).
  apply moves_bind; [apply _|apply demotes_addEvent|intros []].
  apply moves_bind; [apply _|apply demotes_checkAndTrip|moves_calls].
Qed.
End record_frames.

(** Recording an event on a known connection does not throw, whatever the clock does. *)
Section record_ok.
Context `{EN : Env, SH : Sha256, SQ : SqlEngine} (config : CircuitBreakerConfig).

Lemma trip_fresh addr trigger n th win w c :
  fresh_ids w → getConnection addr (w_store w) = Some c →
  ∃ w', trip addr trigger n th win w = (Ok tt, w') ∧ fresh_ids w' ∧ w_db w' = w_db w.
Proof.
  intros Hf Hc. rewrite (trip_run _ _ _ _ _ _ _ Hc).
  assert (fresh_ids (trip_world addr c w)) as Hf1
    by (eapply fresh_ids_tick; [exact Hf|done|simpl; lia]).
  destruct (w_record_fresh (trip_event addr trigger n th win) _ Hf1) as (ev & row & Hr & _ & Hf2).
  unfold mbind, M_bind. rewrite Hr. eexists. by split.
Qed.

Lemma records_fresh addr op type w c :
  records config addr op type → fresh_ids w → getConnection addr (w_store w) = Some c →
  ∃ w', op w = (Ok tt, w') ∧ fresh_ids w' ∧ w_db w' = w_db w.
Proof.
  intros Hop Hf Hc. rewrite (records_unfold config _ _ _ w Hop).
  bind1. rewrite addEvent_run. set (w1 := mkWorld _ _ _ _ _).
  assert (fresh_ids w1) as Hf1 by (eapply fresh_ids_tick; [exact Hf|done|simpl; lia]).
  unfold mbind at 1, M_bind at 1, checkAndTrip. unfold mbind at 1, M_bind at 1, gets at 1.
  destruct (isTripped addr w1); [by exists w1|].
  unfold mbind at 1, M_bind at 1, gets at 1. unfold mbind at 1, M_bind at 1, date_now, ask.
  rewrite run_checks_first. set (w2 := put_tick _ w1).
  assert (fresh_ids w2) as Hf2 by (eapply fresh_ids_tick; [exact Hf1|done|simpl; lia]).
  destruct (List.find _ _) as [chk|]; [|by exists w2].
  destruct (trip_fresh addr (chk_type chk)
    (window_count (env_now (w_tick w1)) chk (default [] (w_events w1 !! addr)))
    (chk_threshold chk) (chk_windowMs chk) w2 c Hf2 Hc) as (w3 & Hr & Hf3 & E).
  unfold mbind, M_bind. rewrite Hr. by exists w3.
Qed.
End record_ok.

(** ** Witnesses *)
Section witnesses.
Import Sample SampleEnv.

Definition cb_env : Env := env None None.
#[local] Existing Instance cb_env.

Definition cb_conn : Connection := sample_connection active full_auto.
Definition cb_addr : string := "pinch:p@h".
Definition two_messages : CircuitBreakerConfig := mkConfig 2 60000 5 300000 3 600000.

Lemma breaker_trips_exactly_witness :
  let w := (recordMessage two_messages cb_addr (world cb_conn emptyDb)).2 in
  ∃ c, getConnection cb_addr (w_store (recordMessage two_messages cb_addr w).2) = Some c ∧
       autonomyLevel c = full_manual.
Proof.
  intros w.
  assert (Hh : breaker_history two_messages cb_addr w
                 ([] ++ [mkEventRecord 0 "message_flood"])).
  { exact (history_record two_messages cb_addr (world cb_conn emptyDb) []
             (recordMessage two_messages cb_addr) "message_flood"
             (history_start _ _ (world cb_conn emptyDb) eq_refl) (records_message _ _)). }
  assert (Hm : @clock_monotone cb_env) by exact (env_monotone None None).
  pose proof (breaker_trips_exactly two_messages cb_addr (recordMessage two_messages cb_addr)
    "message_flood" w _ cb_conn _ _ Hm Hh (records_message _ _)
    eq_refl eq_refl (surjective_pairing _)) as H.
  cbv zeta in H. assert (E : first_exceeded two_messages (env_now (S (S (w_tick w))))
    (([] ++ [mkEventRecord 0 "message_flood"]) ++
     [mkEventRecord (env_now (w_tick w)) "message_flood"]) =
    Some (mkCheck message_flood 2 60000)) by (vm_compute; reflexivity).
  revert H. cbv zeta. rewrite E. intros H. destruct H as [-> _]. eexists. rewrite saved_set_get. split; reflexivity.
Defined.

(** A clock that barely moves, so that fifty messages fall in one window. *)
Definition fast_env : Env := {|
  env_now n := Z.of_nat n;
  env_uuid n := pretty n;
  evaluatePolicy _ _ := None;
  checkInformationBoundary _ _ _ := None
|}.

Lemma flood_trips_at_threshold_witness :
  let run n := (@repeat_m n (@recordMessage fast_env sha sql DEFAULT_CIRCUIT_BREAKER_CONFIG cb_addr)
                  (world cb_conn emptyDb)).2 in
  isTripped cb_addr (run 49%nat) = false ∧ isTripped cb_addr (run 50%nat) = true.
Proof.
  assert (Hm : @clock_monotone fast_env) by (intros m n; simpl; lia).
  split.
  - apply (@flood_trips_at_threshold fast_env sha sql DEFAULT_CIRCUIT_BREAKER_CONFIG cb_addr
      (world cb_conn emptyDb) cb_conn 49 49 _ _ Hm ltac:(done) ltac:(done) eq_refl ltac:(done)
      eq_refl eq_refl eq_refl ltac:(lia) (surjective_pairing _)).
  - apply (@flood_trips_at_threshold fast_env sha sql DEFAULT_CIRCUIT_BREAKER_CONFIG cb_addr
      (world cb_conn emptyDb) cb_conn 49 50 _ _ Hm ltac:(done) ltac:(done) eq_refl ltac:(done)
      eq_refl eq_refl eq_refl ltac:(lia) (surjective_pairing _)).
Defined.

Lemma information_boundary_never_trips_witness :
  isTripped cb_addr
    (repeat_m 20 (recordViolation two_messages cb_addr "information_boundary")
       (world cb_conn emptyDb)).2 = false.
Proof.
  apply (information_boundary_never_trips two_messages 20 cb_addr (world cb_conn emptyDb) _ _
    ltac:(done) ltac:(constructor) eq_refl (surjective_pairing _)).
Defined.
End witnesses.
