(* ===== verification/InboundRouter.v ===== *)
(** [inbound-router.ts]: the routing of an inbound message by the autonomy level
    of its connection, and the queue of messages a human has to look at. *)
From S2P Require Import Prelude JsLib JsDate Platform PermissionsManifest ConnectionStore.
From S2P Require Import MessageStore ActivityFeed World.

Record RoutedMessage : Type := mkRouted {
  rm_messageId : string;
  rm_senderAddress : string;
  rm_body : BodyValue;
  rm_threadId : option string;
  rm_replyTo : option string;
  rm_priority : Priority;
  rm_state : string;
  rm_failureReason : option string
}.

(** The object literal the router and the pipeline return. *)
Definition routed (message : MessageRecord) (connectionAddress st : string)
    (failureReason : option string) : RoutedMessage :=
  mkRouted (m_id message) connectionAddress (body_value message) (m_threadId message)
    (m_replyTo message) (m_priority message) st failureReason.

Definition unknown_sender : string := "Message from unknown or inactive sender".

Definition is_active (conn : option Connection) : bool :=
  match conn with Some c => bool_decide (cstate c = active) | None => false end.

Section router.
Context `{EN : Env, SH : Sha256, SQ : SqlEngine}.

(** Whether the optional third argument of the constructor is there. *)
Context (activityFeed : bool).

Definition autonomous_event (messageId connectionAddress : string) : EventInput :=
  mkEventInput connectionAddress "message_processed_autonomously" (Some messageId)
    (Some "processed_autonomously") None None None None.

Definition route (message : MessageRecord) (connectionAddress : string)
    : M World RoutedMessage :=
  connection ← w_getConnection connectionAddress;
  match connection with
  | Some connection =>
      if bool_decide (cstate connection ≠ active)
      then
        w_updateState (m_id message) "failed" (Some unknown_sender);;
        mret (routed message connectionAddress "failed" (Some unknown_sender))
      else
        st ← match autonomyLevel connection with
             | full_auto => mret "read_by_agent"
             | notify =>
                 (if activityFeed
                  then _ ← w_record (autonomous_event (m_id message) connectionAddress); mret tt
                  else mret tt);;
                 mret "read_by_agent"
             | auto_respond => mret "pending_policy_eval"
             | full_manual | level_other _ => mret "escalated_to_human"
             end;
        w_updateState (m_id message) st None;;
        mret (routed message connectionAddress st None)
  | None =>
      w_updateState (m_id message) "failed" (Some unknown_sender);;
      mret (routed message connectionAddress "failed" (Some unknown_sender))
  end.

Definition with_state_filter (st : string) : HistoryOptions :=
  mkHistoryOptions None None None (Some st) (Some 1000%Z) None.

Definition getPendingForReview (db : MessageDb) : list MessageRecord :=
  reverse (getHistory (with_state_filter "escalated_to_human") db).

Definition getPendingPolicyEval (db : MessageDb) : list MessageRecord :=
  reverse (getHistory (with_state_filter "pending_policy_eval") db).

Inductive ReviewAction : Type := agent_handle | human_respond.

Definition approveMessage (messageId : string) (action : ReviewAction)
    : M World (option MessageRecord) :=
  message ← gets (λ w, getMessage messageId (w_db w));
  match message with
  | None => mret None
  | Some message =>
      if bool_decide (m_state message ≠ "escalated_to_human") then mret None
      else
        let newState :=
          match action with agent_handle => "read_by_agent" | human_respond => "delivered" end in
        w_updateState messageId newState None;;
        gets (λ w, getMessage messageId (w_db w))
  end.

(** ** The routing decision *)

(** What the level asks for; anything but the three other tiers goes to a human. *)
Definition level_state (l : AutonomyLevel) : string :=
  match l with
  | full_auto | notify => "read_by_agent"
  | auto_respond => "pending_policy_eval"
  | full_manual | level_other _ => "escalated_to_human"
  end.

Definition decide_route (conn : option Connection) : string * option string :=
  match conn with
  | Some c =>
      if bool_decide (cstate c = active) then (level_state (autonomyLevel c), None)
      else ("failed", Some unknown_sender)
  | None => ("failed", Some unknown_sender)
  end.

Definition route_event (message : MessageRecord) (addr : string) (conn : option Connection)
    : list EventInput :=
  match conn with
  | Some c =>
      if bool_decide (cstate c = active) && bool_decide (autonomyLevel c = notify) && activityFeed
      then [autonomous_event (m_id message) addr] else []
  | None => []
  end.

(** [w'] is [w] after the message's row was set to [st], with the rows [events]
    appended to the log and time gone on; the store is the same. *)
Definition settled (i st : string) (reason : option string) (events : list EventInput)
    (w w' : World) : Prop :=
  w_store w' = w_store w ∧ w_events w' = w_events w ∧
  (w_tick w ≤ w_tick w') ∧
  (∃ now, w_db w' = set_messages (fmap (update_row i st reason (isoString now))) (w_db w)) ∧
  (∃ rows, w_feed w' = w_feed w ++ rows ∧ Forall2 logs events rows).

Lemma settled_update i st reason w :
  settled i st reason [] w (w_updateState i st reason w).2.
Proof.
  rewrite w_updateState_run. split_and!; try done; [simpl; lia|by eexists|].
  exists []. by rewrite app_nil_r.
Qed.

Lemma update_row_twice i st1 r1 t1 st2 r2 t2 row :
  update_row i st2 r2 t2 (update_row i st1 r1 t1 row) = update_row i st2 r2 t2 row.
Proof.
  unfold update_row. repeat (case_bool_decide; simpl in *); done.
Qed.

(** Settling the same message again: the last state counts, the log grows by both. *)
Lemma settled_trans i st1 r1 e1 st2 r2 e2 w w1 w2 :
  settled i st1 r1 e1 w w1 → settled i st2 r2 e2 w1 w2 →
  settled i st2 r2 (e1 ++ e2) w w2.
Proof.
  intros (S1 & E1 & T1 & (n1 & D1) & (l1 & F1 & L1)) (S2 & E2 & T2 & (n2 & D2) & (l2 & F2 & L2)).
  split_and!; [congruence|congruence|lia| |].
  - exists n2. rewrite D2, D1. unfold set_messages. simpl. f_equal.
    rewrite <- list_fmap_compose. apply list_fmap_ext. intros k row _. apply update_row_twice.
  - exists (l1 ++ l2). rewrite F2, F1, app_assoc. split; [done|]. by apply Forall2_app.
Qed.

(** A log entry after the update, or before it. *)
Lemma settled_log i st reason events event w w1 :
  settled i st reason events w w1 → fresh_ids w1 →
  ∃ ev w2, w_record event w1 = (Ok ev, w2) ∧ fresh_ids w2 ∧
           settled i st reason (events ++ [event]) w w2.
Proof.
  intros (S1 & E1 & T1 & D1 & (l1 & F1 & L1)) Hf.
  destruct (w_record_fresh event w1 Hf) as (ev & row & Hr & Hl & Hf2).
  eexists ev, _. split; [exact Hr|]. split; [done|]. split_and!; cbn; try done; [lia|].
  exists (l1 ++ [row]). rewrite F1, app_assoc. split; [done|].
  apply Forall2_app; [done|by constructor].
Qed.

Lemma route_run message addr w :
  fresh_ids w →
  ∃ w', route message addr w =
          (let '(st, reason) := decide_route (getConnection addr (w_store w)) in
           Ok (routed message addr st reason), w') ∧
        fresh_ids w' ∧
        w_tick w' = S (w_tick w + 2 * length (route_event message addr (getConnection addr (w_store w)))) ∧
        (let '(st, reason) := decide_route (getConnection addr (w_store w)) in
         settled (m_id message) st reason
           (route_event message addr (getConnection addr (w_store w))) w w').
Proof.
  intros Hf. unfold route, w_getConnection, decide_route, route_event.
  unfold mbind at 1, M_bind at 1, gets at 1.
  assert (∀ st reason, ∃ w',
    (w_updateState (m_id message) st reason;; mret (routed message addr st reason)) w =
      (Ok (routed message addr st reason), w') ∧ fresh_ids w' ∧
    w_tick w' = S (w_tick w + 0) ∧ settled (m_id message) st reason [] w w') as Hplain.
  { intros st reason. exists (w_updateState (m_id message) st reason w).2.
    split; [by rewrite w_updateState_run|].
    split; [|split; [rewrite w_updateState_run; simpl; lia|apply settled_update]].
    rewrite w_updateState_run. eapply fresh_ids_tick; [done|done|simpl; lia]. }
  destruct (getConnection addr (w_store w)) as [c|]; [|apply Hplain].
  destruct (decide (cstate c = active)) as [Ha|Ha].
  2:{ rewrite bool_decide_eq_true_2, bool_decide_eq_false_2 by done. apply Hplain. }
  rewrite bool_decide_eq_false_2, (bool_decide_eq_true_2 _ Ha) by naive_solver.
  destruct (autonomyLevel c); simpl; try apply Hplain.
  destruct activityFeed; simpl; [|apply Hplain].
  destruct (w_record_fresh (autonomous_event (m_id message) addr) w Hf) as (ev & row & Hr & Hl & Hf1).
  unfold mbind, M_bind. rewrite Hr. unfold mret, M_ret. rewrite w_updateState_run. cbn.
  eexists. split; [reflexivity|]. split; [eapply fresh_ids_tick; [exact Hf1|done|simpl; lia]|].
  split; [simpl; lia|]. split_and!; cbn; try done; [lia|by eexists|]. eexists [row]. split; [done|]. by constructor.
Qed.
End router.

Section router_theorems.
Context `{EN : Env, SH : Sha256}.

Lemma settled_message i st reason events w w' j :
  settled i st reason events w w' →
  ∃ now, getMessage j (w_db w') =
    (λ m, if decide (i = j) then set_state st reason now m else m) <$> getMessage j (w_db w).
Proof.
  intros (_ & _ & _ & (now & E) & _). exists (isoString now). rewrite E.
  apply (getMessage_updateState now i st reason j (w_db w)).
Qed.

(** Routing: a message from an unknown or inactive connection fails with the
    reason; otherwise the autonomy level alone decides (any unrecognised level
    counts as Full Manual).  The message's row gets exactly the returned state,
    no other row and no connection changes, and the log gains one entry just in
    the case of the notify tier. *)
Theorem route_decides `{SQ : SqlEngine} feed message addr w r w' m :
  fresh_ids w → getMessage (m_id message) (w_db w) = Some m →
  route feed message addr w = (r, w') →
  let conn := getConnection addr (w_store w) in
  let '(st, reason) := decide_route conn in
  r = Ok (routed message addr st reason) ∧
  (∃ now, getMessage (m_id message) (w_db w') = Some (set_state st reason now m)) ∧
  (∀ j, j ≠ m_id message → getMessage j (w_db w') = getMessage j (w_db w)) ∧
  w_store w' = w_store w ∧
  (∃ rows, w_feed w' = w_feed w ++ rows ∧
           Forall2 logs (route_event feed message addr conn) rows).
Proof.
  intros Hf Hm Hr conn. destruct (route_run feed message addr w Hf) as (w1 & Hr1 & _ & _ & Hs).
  rewrite Hr1 in Hr. fold conn in Hs, Hr |- *.
  destruct (decide_route conn) as [st reason]. injection Hr as <- <-.
  split; [done|]. split.
  - destruct (settled_message _ _ _ _ _ _ (m_id message) Hs) as (now & E). exists now.
    rewrite E, Hm. simpl. by rewrite decide_True.
  - split; [|by destruct Hs as (? & _ & _ & _ & ?)]. intros j Hj.
    destruct (settled_message _ _ _ _ _ _ j Hs) as (now & E). rewrite E.
    destruct (getMessage j (w_db w)); simpl; [by rewrite decide_False|done].
Qed.

(** Approving acts only on an escalated message: it is then read by the agent
    or marked delivered, as asked; any other message, and an unknown id, is
    left as it is and nothing is returned. *)
Theorem approveMessage_spec i action w r w' :
  approveMessage i action w = (r, w') →
  w_store w' = w_store w ∧ w_feed w' = w_feed w ∧
  match getMessage i (w_db w) with
  | Some m =>
      if decide (m_state m = "escalated_to_human") then
        ∃ now, let m' := set_state
                 (match action with agent_handle => "read_by_agent"
                                  | human_respond => "delivered" end) None now m in
               r = Ok (Some m') ∧ getMessage i (w_db w') = Some m'
      else r = Ok None ∧ w' = w
  | None => r = Ok None ∧ w' = w
  end.
Proof.
  unfold approveMessage. unfold mbind at 1, M_bind at 1, gets at 1.
  destruct (getMessage i (w_db w)) as [m|] eqn:E; [|by intros [= <- <-]].
  destruct (decide (m_state m = "escalated_to_human")) as [He|He].
  2:{ rewrite bool_decide_eq_true_2 by done. by intros [= <- <-]. }
  rewrite bool_decide_eq_false_2 by naive_solver.
  set (st := match action with agent_handle => _ | human_respond => _ end).
  unfold mbind, M_bind, gets. rewrite w_updateState_run. intros [= <- <-]. cbn [w_store w_feed w_db].
  pose proof (getMessage_updateState (env_now (w_tick w)) i st None i (w_db w)) as G.
  rewrite E in G. simpl in G. rewrite decide_True in G by done.
  split; [done|]. split; [done|]. eexists. split; [f_equal|]; exact G.
Qed.
End router_theorems.

Section review.
Context `{SqlLaws}.

Definition escalated (r : MessageRow) : Prop := state r = "escalated_to_human".
#[export] Instance escalated_dec r : Decision (escalated r).
Proof. unfold escalated. apply _. Defined.

Lemma escalated_where r :
  history_where (with_state_filter "escalated_to_human") r = true ↔ escalated r.
Proof.
  unfold history_where, condition, escalated. simpl. rewrite bool_decide_eq_true.
  split; [by intros [= ?]|by intros ->].
Qed.

(** The review queue holds only escalated messages, oldest first and at most
    a thousand of them; and while no more than a thousand are escalated it
    holds every one exactly once, so none is lost to the human. *)
Theorem getPendingForReview_spec db :
  let q := getPendingForReview db in
  let all := filter escalated (messages db) in
  (∀ m, m ∈ q → ∃ r, r ∈ all ∧ m = rowToRecord r) ∧
  StronglySorted (λ a b, String.leb (m_createdAt a) (m_createdAt b) = true) q ∧
  (length q ≤ 1000) ∧
  ((length all ≤ 1000) → q ≡ₚ rowToRecord <$> all).
Proof.
  intros q all. unfold q, getPendingForReview, getHistory.
  rewrite (list_filter_iff _ escalated (messages db) escalated_where). fold all. simpl.
  pose proof (order_by_perm newer_first all) as Hp.
  pose proof (order_by_sorted newer_first all newer_first_total newer_first_trans) as Hs.
  split_and!.
  - intros m [r [-> Hin]]%elem_of_reverse%list_elem_of_fmap. exists r. split; [|done].
    rewrite <- Hp. by eapply elem_of_sublist; [|apply sql_limit_sublist].
  - apply (StronglySorted_reverse (λ a b, String.leb (m_createdAt b) (m_createdAt a) = true)).
    eapply StronglySorted_fmap, StronglySorted_sublist; [|apply sql_limit_sublist|exact Hs]. done.
  - rewrite length_reverse, length_fmap.
    pose proof (sql_limit_length 1000 0 (order_by newer_first all)). lia.
  - intros Hlen. rewrite reverse_Permutation. unfold sql_limit.
    rewrite (proj2 (Z.ltb_ge _ _)) by done. rewrite drop_0, take_ge; [by rewrite Hp|].
    rewrite Hp. lia.
Qed.
End review.

(** ** Witnesses *)
Section witnesses.
Import Sample SampleEnv.
#[local] Instance router_env : Env := env None None.

Definition one_message_db (m : MessageRecord) : MessageDb := mkDb [recordToRow m] ∅.
Definition router_message : MessageRecord := sample_message "m1".
Definition router_world : World :=
  world (sample_connection active notify) (one_message_db router_message).

Lemma route_decides_witness :
  ∃ rm w', route true router_message "pinch:p@h" router_world = (Ok rm, w') ∧
           rm_state rm = "read_by_agent".
Proof.
  destruct (route true router_message "pinch:p@h" router_world) as [r w'] eqn:E.
  pose proof (route_decides true router_message "pinch:p@h" router_world r w' router_message
    (world_fresh None None _ _) eq_refl E) as H. cbv zeta in H.
  destruct (decide_route _) as [st reason] eqn:Ed. destruct H as [-> _].
  vm_compute in Ed. injection Ed as <- <-. eexists _, _. split; reflexivity.
Defined.

Lemma approveMessage_spec_witness :
  (approveMessage "m1" agent_handle router_world).1 = Ok None.
Proof.
  destruct (approveMessage "m1" agent_handle router_world) as [r w'] eqn:E.
  destruct (approveMessage_spec "m1" agent_handle router_world r w' E) as (_ & _ & H).
  change (getMessage "m1" (w_db router_world)) with (Some router_message) in H.
  cbv iota beta in H. destruct (decide _) as [He|_] in H; [discriminate He|]. apply H.
Defined.

Lemma getPendingForReview_spec_witness :
  length (getPendingForReview (one_message_db router_message)) ≤ 1000.
Proof. exact (proj1 (proj2 (proj2 (getPendingForReview_spec (one_message_db router_message))))). Defined.
End witnesses.
