(* ===== verification/PermissionsEnforcer.v ===== *)
(** [autonomy/permissions-enforcer.ts]: the content gate an inbound message passes
    before autonomy routing. *)
From S2P Require Import Prelude JsLib JsDate Platform PermissionsManifest ConnectionStore.
From S2P Require Import MessageStore ActivityFeed World InboundRouter.

Record EnforcementResult : Type := mkEnforcement {
  allowed : bool;
  e_reason : option string;
  violationType : option string;
  escalateToHuman : option bool
}.

Definition evaluation_unavailable : EnforcementResult :=
  mkEnforcement false (Some "Policy evaluation unavailable -- escalating to human") None (Some true).

Definition boundary_denied (decision : PolicyDecision) : EnforcementResult :=
  mkEnforcement false (Some (d_reasoning decision)) (Some "information_boundary")
    (Some (bool_decide (d_action decision = escalate))).

Section enforcer.
Context `{EN : Env}.

(** The [try] block around one evaluator call; [Some] is an early return. *)
Definition ask_boundary (boundaries : list string) (content : BodyValue)
    : M World (option EnforcementResult) :=
  try_catch
    (decision ← await_boundary boundaries content;
     if bool_decide (d_action decision = deny) || bool_decide (d_action decision = escalate)
     then mret (Some (boundary_denied decision)) else mret None)
    (mret (Some evaluation_unavailable)).

(** The loop over the denied custom categories. *)
Fixpoint check_categories (deniedCategories : list CustomCategory) (messageBody : BodyValue)
    : M World EnforcementResult :=
  match deniedCategories with
  | [] => mret (mkEnforcement true None None None)
  | category :: rest =>
      early ← ask_boundary [cat_description category] messageBody;
      match early with
      | Some result => mret result
      | None => check_categories rest messageBody
      end
  end.

Definition check (messageBody : BodyValue) (connectionAddress : string) : M World EnforcementResult :=
  connection ← w_getConnection connectionAddress;
  match connection with
  | Some connection =>
      if bool_decide (cstate connection ≠ active)
      then mret (mkEnforcement false (Some "unknown sender") None None)
      else
        let manifest := default defaultPermissionsManifest (permissionsManifest connection) in
        early ← (if bool_decide (informationBoundaries manifest ≠ [])
                 then ask_boundary (informationBoundaries manifest) messageBody
                 else mret None);
        match early with
        | Some result => mret result
        | None =>
            check_categories
              (filter (λ c, cat_allowed c = false) (customCategories manifest)) messageBody
        end
  | None => mret (mkEnforcement false (Some "unknown sender") None None)
  end.

(** ** The specification: a list of questions, every one to be answered [allow] *)
Definition questions (manifest : PermissionsManifest) : list (list string) :=
  (if bool_decide (informationBoundaries manifest ≠ []) then [informationBoundaries manifest]
   else []) ++
  ((λ c, [cat_description c]) <$> filter (λ c, cat_allowed c = false) (customCategories manifest)).

Definition manifest_of (c : Connection) : PermissionsManifest :=
  default defaultPermissionsManifest (permissionsManifest c).

(** The verdict on the questions asked from tick [t] on, and the tick after. *)
Fixpoint verdict (t : nat) (body : BodyValue) (qs : list (list string)) : EnforcementResult * nat :=
  match qs with
  | [] => (mkEnforcement true None None None, t)
  | q :: qs =>
      match checkInformationBoundary t q body with
      | Some d => if bool_decide (d_action d = allow) then verdict (S t) body qs
                  else (boundary_denied d, S t)
      | None => (evaluation_unavailable, S t)
      end
  end.

Definition check_verdict (w : World) (body : BodyValue) (addr : string) : EnforcementResult * nat :=
  match getConnection addr (w_store w) with
  | Some c => if bool_decide (cstate c = active)
              then verdict (w_tick w) body (questions (manifest_of c))
              else (mkEnforcement false (Some "unknown sender") None None, w_tick w)
  | None => (mkEnforcement false (Some "unknown sender") None None, w_tick w)
  end.

Lemma ask_boundary_run q body w :
  ask_boundary q body w =
  (Ok (match checkInformationBoundary (w_tick w) q body with
       | Some d => if bool_decide (d_action d = allow) then None else Some (boundary_denied d)
       | None => Some evaluation_unavailable
       end), put_tick (S (w_tick w)) w).
Proof.
  unfold ask_boundary, try_catch, await_boundary, mbind, M_bind, ask.
  destruct (checkInformationBoundary (w_tick w) q body) as [d|]; [|done]. simpl.
  by destruct d as [[] ? ?].
Qed.

Lemma put_tick_self w : put_tick (w_tick w) w = w.
Proof. by destruct w. Qed.

Lemma check_categories_run cats body w :
  check_categories cats body w =
  (Ok (verdict (w_tick w) body ((λ c, [cat_description c]) <$> cats)).1,
   put_tick (verdict (w_tick w) body ((λ c, [cat_description c]) <$> cats)).2 w).
Proof.
  revert w. induction cats as [|c cats IH]; intros w; [simpl; by rewrite put_tick_self|].
  cbn [check_categories fmap list_fmap verdict]. unfold mbind, M_bind. rewrite ask_boundary_run.
  destruct (checkInformationBoundary _ _ _) as [d|]; [|done].
  case_bool_decide; [|done]. rewrite IH. done.
Qed.

(** [check] never throws: it returns the verdict and only time passes. *)
Lemma check_run body addr w :
  check body addr w =
  (Ok (check_verdict w body addr).1, put_tick (check_verdict w body addr).2 w).
Proof.
  unfold check, check_verdict, w_getConnection. unfold mbind at 1, M_bind at 1, gets.
  destruct (getConnection addr (w_store w)) as [c|]; [|simpl; by rewrite put_tick_self].
  destruct (decide (cstate c = active)) as [Ha|Ha].
  2:{ rewrite bool_decide_eq_true_2, bool_decide_eq_false_2 by done. simpl. by rewrite put_tick_self. }
  rewrite bool_decide_eq_false_2, (bool_decide_eq_true_2 _ Ha) by naive_solver.
  fold (manifest_of c). unfold questions, mbind, M_bind.
  case_bool_decide.
  - rewrite ask_boundary_run. cbn [app verdict].
    destruct (checkInformationBoundary _ _ _) as [d|]; [|done].
    destruct (decide (d_action d = allow)) as [E|E].
    + rewrite (bool_decide_eq_true_2 _ E).
      etrans; [apply (check_categories_run _ body (put_tick (S (w_tick w)) w))|done].
    + by rewrite (bool_decide_eq_false_2 _ E).
  - apply check_categories_run.
Qed.

Lemma verdict_tick t body qs : t ≤ (verdict t body qs).2.
Proof.
  revert t. induction qs as [|q qs IH]; intros t; simpl; [lia|].
  repeat case_match; simpl; [etrans; [|apply IH]; lia|lia..].
Qed.

Lemma check_verdict_tick w body addr : w_tick w ≤ (check_verdict w body addr).2.
Proof.
  unfold check_verdict. destruct (getConnection _ _); [|done]. case_bool_decide; [|done].
  apply verdict_tick.
Qed.

Lemma verdict_violation t body qs :
  is_Some (violationType (verdict t body qs).1) →
  violationType (verdict t body qs).1 = Some "information_boundary".
Proof.
  revert t. induction qs as [|q qs IH]; intros t; simpl; [by intros [? ?]|].
  repeat case_match; simpl; [by apply IH|done|by intros [? ?]].
Qed.

(** A connection the gate judged at all is there and active, and the one
    violation it ever reports is [information_boundary]. *)
Lemma check_verdict_known w body addr :
  allowed (check_verdict w body addr).1 = true ∨
  is_Some (violationType (check_verdict w body addr).1) →
  ∃ c, getConnection addr (w_store w) = Some c ∧ cstate c = active ∧
       (allowed (check_verdict w body addr).1 = true ∨
        violationType (check_verdict w body addr).1 = Some "information_boundary").
Proof.
  unfold check_verdict. destruct (getConnection addr (w_store w)) as [c|];
    [|by intros [?|[? ?]]].
  case_bool_decide; [|by intros [?|[? ?]]]. intros Hv. exists c. split; [done|]. split; [done|].
  destruct Hv; [by left|right]. by apply verdict_violation.
Qed.

Lemma verdict_allowed t body qs :
  allowed (verdict t body qs).1 = true ↔
  ∀ k q, qs !! k = Some q →
    ∃ d, checkInformationBoundary (t + k) q body = Some d ∧ d_action d = allow.
Proof.
  revert t. induction qs as [|q qs IH]; intros t; simpl; [by split|].
  destruct (checkInformationBoundary t q body) as [d|] eqn:E.
  - case_bool_decide as Hd.
    + rewrite IH. split.
      * intros Hall [|k] q' Hk; simplify_eq/=; [rewrite Nat.add_0_r; eauto|].
        rewrite <- Nat.add_succ_comm. by apply Hall.
      * intros Hall k q' Hk. rewrite Nat.add_succ_comm. by apply (Hall (S k)).
    + split; [done|]. intros Hall. destruct (Hall 0 q eq_refl) as (d' & E' & Hd').
      rewrite Nat.add_0_r in E'. congruence.
  - split; [done|]. intros Hall. destruct (Hall 0 q eq_refl) as (d' & E' & _).
    rewrite Nat.add_0_r in E'. congruence.
Qed.

Lemma verdict_all_allowed t body qs :
  allowed (verdict t body qs).1 = true → (verdict t body qs).2 = t + length qs.
Proof.
  revert t. induction qs as [|q qs IH]; intros t; simpl; [lia|].
  destruct (checkInformationBoundary t q body) as [d|]; [|done].
  case_bool_decide; [|done]. intros ->%IH. lia.
Qed.

(** The gate lets a message through exactly when the sender's connection is
    active and the evaluator answers [allow] to every question the manifest
    raises, asked in order: its information boundaries, if any, then each
    denied custom category.  It never throws and changes nothing; when a verdict
    is missing the message is refused for a human to look at. *)
Theorem check_allows_iff body addr w r w' :
  check body addr w = (r, w') →
  ∃ res, r = Ok res ∧
    (allowed res = true ↔
     ∃ c, getConnection addr (w_store w) = Some c ∧ cstate c = active ∧
       ∀ k q, questions (manifest_of c) !! k = Some q →
         ∃ d, checkInformationBoundary (w_tick w + k) q body = Some d ∧ d_action d = allow) ∧
    w_store w' = w_store w ∧ w_db w' = w_db w ∧ w_feed w' = w_feed w ∧ w_events w' = w_events w.
Proof.
  rewrite check_run. intros [= <- <-]. eexists. split; [done|]. split; [|done].
  unfold check_verdict. destruct (getConnection addr (w_store w)) as [c|]; simpl; [|naive_solver].
  case_bool_decide as Ha; [|naive_solver]. rewrite verdict_allowed. naive_solver.
Qed.

(** Only boundaries and denied categories are looked at: two manifests that
    agree on those get the same verdict, whatever calendar, file, action and
    spending tiers they hold. *)
Theorem structural_tiers_ignored m1 m2 c addr body w :
  informationBoundaries m1 = informationBoundaries m2 →
  customCategories m1 = customCategories m2 →
  let put_manifest m :=
    put_store (set_connections (Obj.set addr (assign c (with_manifest m) (lastActivity c)))
                 (w_store w)) w in
  (check body addr (put_manifest m1)).1 = (check body addr (put_manifest m2)).1.
Proof.
  intros Hb Hc put_manifest. rewrite !check_run. cbn [fst]. unfold check_verdict, put_manifest.
  cbn [w_store put_store w_tick]. rewrite !getConnection_set, !decide_True by done.
  unfold manifest_of, questions. simpl. by rewrite Hb, Hc.
Qed.
End enforcer.

(** ** Witnesses *)
Section witnesses.
Import Sample SampleEnv.
#[local] Instance gate_env : Env := env None None.

Lemma check_allows_iff_witness :
  ∃ res, (check (text_body "hi") "pinch:p@h" router_world).1 = Ok res ∧ allowed res = true.
Proof.
  destruct (check (text_body "hi") "pinch:p@h" router_world) as [r w'] eqn:E.
  destruct (check_allows_iff (text_body "hi") "pinch:p@h" router_world r w' E) as (res & -> & Hiff & _).
  exists res. split; [reflexivity|]. apply Hiff.
  exists (sample_connection active notify). split; [reflexivity|]. split; [reflexivity|].
  intros k q Hk. vm_compute in Hk. destruct k; discriminate Hk.
Defined.

Lemma structural_tiers_ignored_witness :
  let m1 := defaultPermissionsManifest in
  let m2 := mkManifest cal_propose_and_book files_everything None actions_full None
              (mkCaps num0 num0 num0) [] [] in
  let put_manifest m :=
    put_store (set_connections (Obj.set "pinch:p@h"
                 (assign (sample_connection active notify) (with_manifest m)
                    (lastActivity (sample_connection active notify))))
                 (w_store router_world)) router_world in
  (check (text_body "hi") "pinch:p@h" (put_manifest m1)).1 = (check (text_body "hi") "pinch:p@h" (put_manifest m2)).1.
Proof. intros m1 m2. exact (structural_tiers_ignored m1 m2 _ _ _ router_world eq_refl eq_refl). Defined.
End witnesses.
