(* ===== verification/EnforcementPipeline.v ===== *)
(** [autonomy/enforcement-pipeline.ts]: the one path of an inbound message, from
    the mute check over permissions, circuit breaker and routing to the
    auto-respond policy. *)
From S2P Require Import Prelude JsLib JsDate Platform PermissionsManifest ConnectionStore.
From S2P Require Import MessageStore ActivityFeed World CircuitBreaker InboundRouter.
From S2P Require Import PermissionsEnforcer.

Definition action_text (a : PolicyAction) : string :=
  match a with allow => "allow" | deny => "deny" | escalate => "escalate" end.
Definition confidence_text (c : Confidence) : string :=
  match c with conf_high => "high" | conf_medium => "medium" | conf_low => "low" end.

(** [{ ...routed, state }] and [{ ...routed, state, failureReason }] *)
Definition with_rm_state (st : string) (rm : RoutedMessage) : RoutedMessage :=
  mkRouted (rm_messageId rm) (rm_senderAddress rm) (rm_body rm) (rm_threadId rm) (rm_replyTo rm)
    (rm_priority rm) st (rm_failureReason rm).
Definition with_rm_failure (st reason : string) (rm : RoutedMessage) : RoutedMessage :=
  mkRouted (rm_messageId rm) (rm_senderAddress rm) (rm_body rm) (rm_threadId rm) (rm_replyTo rm)
    (rm_priority rm) st (Some reason).

Definition muted_event (addr i : string) : EventInput :=
  mkEventInput addr "message_received_muted" (Some i) (Some "muted") None None
    (Some "message_receive_muted") None.
Definition intervention_event (addr i : string) : EventInput :=
  mkEventInput addr "message_during_intervention" (Some i) (Some "intervention") None None
    (Some "message_receive_intervention") None.
Definition decision_event (addr i : string) (d : PolicyDecision) : EventInput :=
  mkEventInput addr "auto_respond_decision" (Some i) (Some "auto_respond")
    (Some (json_object [("action", json_string (action_text (d_action d)));
                        ("confidence", json_string (confidence_text (d_confidence d)));
                        ("reasoning", json_string (d_reasoning d))]))
    None None None.

Definition no_policy_decision : PolicyDecision :=
  mkDecision escalate conf_low "No auto-respond policy configured -- escalating to human".
Definition error_decision : PolicyDecision :=
  mkDecision escalate conf_low "Policy evaluation error -- escalating to human".

Section pipeline.
Context `{EN : Env, SH : Sha256, SQ : SqlEngine} (config : CircuitBreakerConfig).

Definition recordAutoRespondDecision (messageId connectionAddress : string)
    (decision : PolicyDecision) : M World unit :=
  _ ← w_record (decision_event connectionAddress messageId decision); mret tt.

Definition policy_request (message : MessageRecord) (connectionAddress : string)
    (connection : option Connection) : PolicyRequest :=
  mkPolicyRequest (default "" (connection ≫= autoRespondPolicy)) (body_value message)
    connectionAddress (default "" (nickname <$> connection)).

Definition evaluateAutoRespondPolicy (message : MessageRecord) (connectionAddress : string)
    (rm : RoutedMessage) : M World RoutedMessage :=
  connection ← w_getConnection connectionAddress;
  let policy := connection ≫= autoRespondPolicy in
  if negb (truthy_str policy) then
    w_updateState (m_id message) "escalated_to_human" None;;
    recordAutoRespondDecision (m_id message) connectionAddress no_policy_decision;;
    mret (with_rm_state "escalated_to_human" rm)
  else
    try_catch
      (decision ← await_policy (policy_request message connectionAddress connection);
       match d_action decision with
       | allow =>
           w_updateState (m_id message) "read_by_agent" None;;
           recordAutoRespondDecision (m_id message) connectionAddress decision;;
           mret (with_rm_state "read_by_agent" rm)
       | deny =>
           w_updateState (m_id message) "failed" (Some (d_reasoning decision));;
           recordAutoRespondDecision (m_id message) connectionAddress decision;;
           mret (with_rm_failure "failed" (d_reasoning decision) rm)
       | escalate =>
           w_updateState (m_id message) "escalated_to_human" None;;
           recordAutoRespondDecision (m_id message) connectionAddress decision;;
           mret (with_rm_state "escalated_to_human" rm)
       end)
      (w_updateState (m_id message) "escalated_to_human" None;;
       recordAutoRespondDecision (m_id message) connectionAddress error_decision;;
       mret (with_rm_state "escalated_to_human" rm)).

Definition process (message : MessageRecord) (connectionAddress : string)
    : M World RoutedMessage :=
  connection ← w_getConnection connectionAddress;
  if truthy_bool (connection ≫= muted) then
    _ ← w_record (muted_event connectionAddress (m_id message));
    w_updateState (m_id message) "delivered" None;;
    mret (routed message connectionAddress "delivered" None)
  else if truthy_bool (connection ≫= passthrough) then
    w_updateState (m_id message) "escalated_to_human" None;;
    _ ← w_record (intervention_event connectionAddress (m_id message));
    mret (routed message connectionAddress "escalated_to_human" None)
  else
    enforcement ← check (body_value message) connectionAddress;
    if negb (allowed enforcement) then
      if truthy_bool (escalateToHuman enforcement) then
        w_updateState (m_id message) "escalated_to_human" (e_reason enforcement);;
        mret (routed message connectionAddress "escalated_to_human" (e_reason enforcement))
      else
        (if truthy_str (violationType enforcement)
         then recordViolation config connectionAddress (default "" (violationType enforcement))
         else mret tt);;
        w_updateState (m_id message) "failed" (e_reason enforcement);;
        mret (routed message connectionAddress "failed" (e_reason enforcement))
    else
      recordMessage config connectionAddress;;
      rm ← route true message connectionAddress;
      if bool_decide (rm_state rm = "pending_policy_eval")
      then evaluateAutoRespondPolicy message connectionAddress rm
      else mret rm.

(** ** The specification: what becomes of a message, as a function of the world *)
Definition policy_verdict (conn : option Connection) (t : nat) (message : MessageRecord)
    (addr : string) : string * option string * PolicyDecision :=
  if negb (truthy_str (conn ≫= autoRespondPolicy))
  then ("escalated_to_human", None, no_policy_decision)
  else match evaluatePolicy t (policy_request message addr conn) with
       | Some d => match d_action d with
                   | allow => ("read_by_agent", None, d)
                   | deny => ("failed", Some (d_reasoning d), d)
                   | escalate => ("escalated_to_human", None, d)
                   end
       | None => ("escalated_to_human", None, error_decision)
       end.

(** A verdict: the message's state, the reason, and the log entries. *)
Record Verdict : Type := mkVerdict {
  v_state : string;
  v_reason : option string;
  v_events : list EventInput
}.

(** The connection's own switches come first. *)
Definition switch_verdict (conn : option Connection) (message : MessageRecord) (addr : string)
    : option Verdict :=
  if truthy_bool (conn ≫= muted)
  then Some (mkVerdict "delivered" None [muted_event addr (m_id message)])
  else if truthy_bool (conn ≫= passthrough)
  then Some (mkVerdict "escalated_to_human" None [intervention_event addr (m_id message)])
  else None.

(** The world in which the message is routed or refused: after the gate's
    questions and the breaker's accounting. *)
Definition accounted (w : World) (message : MessageRecord) (addr : string) : World :=
  match switch_verdict (getConnection addr (w_store w)) message addr with
  | Some _ => w
  | None =>
      let '(res, t) := check_verdict w (body_value message) addr in
      let w1 := put_tick t w in
      if allowed res then (recordMessage config addr w1).2
      else if truthy_bool (escalateToHuman res) then w1
      else match violationType res with
           | Some v => if truthy_str (Some v) then (recordViolation config addr v w1).2 else w1
           | None => w1
           end
  end.

Definition route_verdict (w : World) (message : MessageRecord) (addr : string) : Verdict :=
  let conn := getConnection addr (w_store w) in
  let '(st, reason) := decide_route conn in
  if bool_decide (st = "pending_policy_eval")
  then let '(st, reason, d) := policy_verdict conn (S (w_tick w)) message addr in
       mkVerdict st reason [decision_event addr (m_id message) d]
  else mkVerdict st reason (route_event true message addr conn).

Definition pipeline_verdict (w : World) (message : MessageRecord) (addr : string) : Verdict :=
  match switch_verdict (getConnection addr (w_store w)) message addr with
  | Some v => v
  | None =>
      let res := (check_verdict w (body_value message) addr).1 in
      if allowed res then route_verdict (accounted w message addr) message addr
      else mkVerdict (if truthy_bool (escalateToHuman res) then "escalated_to_human" else "failed")
             (e_reason res) []
  end.

(** ** The pipeline computes its verdict *)

(** One settled message, whatever the steps before and after. *)
Definition runs_to (m : M World RoutedMessage) (message : MessageRecord) (addr : string)
    (v : Verdict) (base w : World) : Prop :=
  ∃ w', m w = (Ok (routed message addr (v_state v) (v_reason v)), w') ∧ fresh_ids w' ∧
        settled (m_id message) (v_state v) (v_reason v) (v_events v) base w'.

Lemma update_then_log {A} (a : A) i st reason event w :
  fresh_ids w →
  ∃ w', (w_updateState i st reason;; _ ← w_record event; mret a) w = (Ok a, w') ∧
        fresh_ids w' ∧ settled i st reason [event] w w'.
Proof.
  intros Hf. pose proof (settled_update i st reason w) as Hs.
  unfold mbind, M_bind. rewrite w_updateState_run in *. cbn [snd] in Hs. set (w1 := mkWorld _ _ _ _ _) in *.
  assert (fresh_ids w1) as Hf1 by (eapply fresh_ids_tick; [exact Hf|done|simpl; lia]).
  destruct (settled_log _ _ _ _ event _ _ Hs Hf1) as (ev & w2 & Hr & Hf2 & Hs2).
  rewrite Hr. by exists w2.
Qed.

Lemma log_then_update {A} (a : A) i st reason event w :
  fresh_ids w →
  ∃ w', (_ ← w_record event; w_updateState i st reason;; mret a) w = (Ok a, w') ∧
        fresh_ids w' ∧ settled i st reason [event] w w'.
Proof.
  intros Hf. destruct (w_record_fresh event w Hf) as (ev & row & Hr & Hl & Hf1).
  unfold mbind, M_bind. rewrite Hr, w_updateState_run. eexists. split; [reflexivity|].
  split; [eapply fresh_ids_tick; [exact Hf1|done|simpl; lia]|].
  split_and!; cbn; try done; [lia|by eexists|]. exists [row]. split; [done|by constructor].
Qed.

Lemma update_only {A} (a : A) i st reason w :
  fresh_ids w →
  ∃ w', (w_updateState i st reason;; mret a) w = (Ok a, w') ∧
        fresh_ids w' ∧ settled i st reason [] w w'.
Proof.
  intros Hf. exists (w_updateState i st reason w).2. pose proof (settled_update i st reason w) as Hs.
  unfold mbind, M_bind. rewrite w_updateState_run in *. split; [done|]. split; [|done].
  eapply fresh_ids_tick; [exact Hf|done|simpl; lia].
Qed.

(** The three-step ending shared by every outcome of the policy evaluation. *)
Lemma decided_run message addr st reason d (rm : RoutedMessage) w :
  fresh_ids w →
  ∃ w', (w_updateState (m_id message) st reason;;
         recordAutoRespondDecision (m_id message) addr d;; mret rm) w = (Ok rm, w') ∧
        fresh_ids w' ∧
        settled (m_id message) st reason [decision_event addr (m_id message) d] w w'.
Proof.
  intros Hf.
  destruct (update_then_log tt (m_id message) st reason (decision_event addr (m_id message) d) w Hf)
    as (w' & Hr & Hf' & Hs).
  exists w'. split; [|by split]. unfold recordAutoRespondDecision, mbind, M_bind in *.
  rewrite w_updateState_run in *. destruct (w_record _ _) as [[ev|e] w2]; [|done].
  injection Hr as <-. done.
Qed.

Lemma settled_from i st reason events w w1 w' :
  settled i st reason events w1 w' →
  w_store w1 = w_store w → w_events w1 = w_events w → w_tick w ≤ w_tick w1 →
  w_db w1 = w_db w → w_feed w1 = w_feed w →
  settled i st reason events w w'.
Proof.
  intros (S1 & E1 & T1 & D1 & F1) HS HE HT HD HF. unfold settled.
  rewrite <- HS, <- HE, <- HD, <- HF. split_and!; try done. lia.
Qed.

Lemma evaluate_run message addr w :
  fresh_ids w →
  let '(st, reason, d) := policy_verdict (getConnection addr (w_store w)) (w_tick w) message addr in
  runs_to (evaluateAutoRespondPolicy message addr (routed message addr "pending_policy_eval" None))
    message addr (mkVerdict st reason [decision_event addr (m_id message) d]) w w.
Proof.
  intros Hf. unfold policy_verdict, evaluateAutoRespondPolicy, runs_to.
  set (conn := getConnection addr (w_store w)).
  change (w_getConnection addr ≫= ?k) with (λ w, k (getConnection addr (w_store w)) w).
  cbv beta. fold conn.
  destruct (negb (truthy_str (conn ≫= autoRespondPolicy))); [by apply decided_run|].
  set (w1 := put_tick (S (w_tick w)) w).
  assert (fresh_ids w1) as Hf1 by (eapply fresh_ids_tick; [exact Hf|done|simpl; lia]).
  assert (∀ st reason d (rm : RoutedMessage), ∃ w', (w_updateState (m_id message) st reason;;
         recordAutoRespondDecision (m_id message) addr d;; mret rm) w1 = (Ok rm, w') ∧
        fresh_ids w' ∧
        settled (m_id message) st reason [decision_event addr (m_id message) d] w w') as Hd.
  { intros st reason d rm. destruct (decided_run message addr st reason d rm w1 Hf1)
      as (w' & Hr & Hf' & Hs). exists w'. split; [done|]. split; [done|].
    eapply settled_from; [exact Hs|try done..]. simpl. lia. }
  rewrite try_catch_bind, await_policy_run. fold w1.
  destruct (evaluatePolicy (w_tick w) _) as [d|]; [|apply Hd].
  destruct d as [act conf reas]. destruct act; unfold try_catch; cbn [d_action d_reasoning].
  - edestruct Hd as (w' & Hr & Hs). exists w'. rewrite Hr. split; [reflexivity|exact Hs].
  - edestruct Hd as (w' & Hr & Hs). exists w'. rewrite Hr. split; [reflexivity|exact Hs].
  - edestruct Hd as (w' & Hr & Hs). exists w'. rewrite Hr. split; [reflexivity|exact Hs].
Qed.

Lemma runs_to_base m message addr v base base' w :
  runs_to m message addr v base w → base = base' → runs_to m message addr v base' w.
Proof. by intros ? <-. Qed.

Lemma fresh_put_tick n w : fresh_ids w → w_tick w ≤ n → fresh_ids (put_tick n w).
Proof. intros Hf Hn. by eapply fresh_ids_tick. Qed.

Lemma settled_put_tick i st reason events n w w' :
  w_tick w ≤ n → settled i st reason events (put_tick n w) w' →
  settled i st reason events w w'.
Proof. intros Hn Hs. by eapply settled_from. Qed.

Lemma decide_route_pending conn reason :
  decide_route conn = ("pending_policy_eval", reason) →
  ∃ c, conn = Some c ∧ cstate c = active ∧ autonomyLevel c = auto_respond ∧ reason = None.
Proof.
  unfold decide_route. destruct conn as [c|]; [|done]. case_bool_decide; [|done].
  intros [= Hl <-]. exists c. repeat split; try done. by destruct (autonomyLevel c).
Qed.

(** Routing, and the policy evaluation when the route asks for it. *)
Lemma routed_run message addr w :
  fresh_ids w →
  runs_to (rm ← route true message addr;
           if bool_decide (rm_state rm = "pending_policy_eval")
           then evaluateAutoRespondPolicy message addr rm else mret rm)
    message addr (route_verdict w message addr) w w.
Proof.
  intros Hf. unfold route_verdict, runs_to.
  destruct (route_run true message addr w Hf) as (w1 & Hr & Hf1 & Ht & Hs).
  unfold mbind, M_bind. rewrite Hr. clear Hr.
  destruct (decide_route (getConnection addr (w_store w))) as [st reason] eqn:Ed.
  cbn [rm_state routed].
  destruct (bool_decide_reflect (st = "pending_policy_eval")) as [->|Hne].
  2:{ exists w1. by split. }
  apply decide_route_pending in Ed as (c & Ec & Ha & Hl & ->).
  unfold route_event in Ht, Hs. rewrite Ec, Hl, andb_false_r in Ht, Hs. simpl in Ht.
  pose proof (evaluate_run message addr w1 Hf1) as He.
  rewrite (proj1 Hs), Ht, Nat.add_0_r in He.
  destruct (policy_verdict _ _ _ _) as [[st' reason'] d].
  destruct He as (w2 & Hr2 & Hf2 & Hs2). exists w2. split; [exact Hr2|]. split; [done|].
  apply (settled_trans _ _ _ _ _ _ _ _ _ _ Hs Hs2).
Qed.

(** [process] settles the message with the verdict of the specification, from
    the world the breaker left. *)
Lemma process_run message addr w :
  fresh_ids w →
  runs_to (process message addr) message addr (pipeline_verdict w message addr)
    (accounted w message addr) w ∧
  w_db (accounted w message addr) = w_db w.
Proof.
  intros Hf. unfold runs_to, process, pipeline_verdict, accounted, switch_verdict.
  change (w_getConnection addr ≫= ?k) with (λ w, k (getConnection addr (w_store w)) w).
  cbv beta. set (conn := getConnection addr (w_store w)).
  destruct (truthy_bool (conn ≫= muted)); [|destruct (truthy_bool (conn ≫= passthrough))].
  - split; [|done]. by apply log_then_update.
  - split; [|done]. by apply update_then_log.
  - bind1. rewrite check_run.
    pose proof (check_verdict_tick w (body_value message) addr) as Ht.
    pose proof (check_verdict_known w (body_value message) addr) as Hk.
    destruct (check_verdict w (body_value message) addr) as [res t] eqn:Ev. cbn [fst snd] in *.
    pose proof (fresh_put_tick t w Hf Ht) as Hf1.
    destruct (allowed res) eqn:Ea; cbn [negb].
    + destruct Hk as (c & Hc & _); [by left|].
      destruct (records_fresh config addr _ _ (put_tick t w) c (records_message config addr) Hf1 Hc)
        as (w2 & Hr & Hf2 & Edb).
      bind1. rewrite Hr. cbn [snd]. split; [|done].
      by apply routed_run.
    + destruct (truthy_bool (escalateToHuman res)).
      { split; [|done]. by apply update_only. }
      destruct (violationType res) as [v|] eqn:Evt; simpl.
      2:{ split; [|done]. by apply update_only. }
      destruct Hk as (c & Hc & _); [right; by eexists|].
      destruct (records_fresh config addr _ _ (put_tick t w) c (records_violation config addr v) Hf1 Hc)
        as (w2 & Hr & Hf2 & Edb).
      change (truthy_str (Some v)) with (negb (bool_decide (v = ""))).
      case_bool_decide; cbn [negb].
      { split; [|done]. by apply update_only. }
      cbn [default from_option]. bind1. rewrite Hr. cbn [snd]. split; [|done].
      by apply update_only.
Qed.

(** ** The breaker inside the pipeline *)
Lemma accounted_demotes message addr w : demotes w (accounted w message addr).
Proof.
  unfold accounted. destruct (switch_verdict _ _ _); [done|].
  destruct (check_verdict w (body_value message) addr) as [res t].
  trans (put_tick t w); [by apply demotes_same_store|].
  destruct (allowed res); [apply (demotes_records config addr _ _ (records_message config addr))|].
  destruct (truthy_bool _); [done|]. destruct (violationType res) as [v|]; [|done].
  destruct (truthy_str _); [|done]. apply (demotes_records config addr _ _ (records_violation config addr v)).
Qed.

Lemma demotes_recordMessage addr : moves demotes (recordMessage config addr).
Proof. apply (demotes_records config addr _ _ (records_message config addr)). Qed.
Lemma demotes_recordViolation addr type : moves demotes (recordViolation config addr type).
Proof. apply (demotes_records config addr _ _ (records_violation config addr type)). Qed.

Lemma demotes_check body addr : moves demotes (check body addr).
Proof. intros w. rewrite check_run. by apply demotes_same_store. Qed.

Lemma demotes_route feed message addr : moves demotes (route feed message addr).
Proof. unfold route. moves_calls. Qed.

Lemma demotes_evaluate message addr rm : moves demotes (evaluateAutoRespondPolicy message addr rm).
Proof.
  unfold evaluateAutoRespondPolicy, recordAutoRespondDecision. moves_calls.
  apply moves_try; [apply _|moves_calls..].
Qed.

(** The pipeline never raises an autonomy level and never changes a
    connection otherwise: whatever happens to a message, and even when a step
    throws, each connection stays as it is or is set to Full Manual with the
    breaker flag; none is added, removed, activated or recovered. *)
Theorem process_only_demotes message addr w :
  demotes w (process message addr w).2.
Proof.
  revert w. change (moves demotes (process message addr)). unfold process.
  pose proof demotes_recordMessage. pose proof demotes_recordViolation.
  pose proof demotes_check. pose proof demotes_route. pose proof demotes_evaluate. moves_calls.
Qed.

(** C7. The pipeline refines its specification: with the message stored and fresh
    identifiers it never throws, returns the verdict of [pipeline_verdict], and
    leaves that same state and reason in the message's row, every other row as
    it was, and exactly the verdict's entries in the log after the breaker's. *)
Theorem process_refines message addr w m r w' :
  fresh_ids w → getMessage (m_id message) (w_db w) = Some m →
  process message addr w = (r, w') →
  let v := pipeline_verdict w message addr in
  r = Ok (routed message addr (v_state v) (v_reason v)) ∧
  (∃ now, getMessage (m_id message) (w_db w') = Some (set_state (v_state v) (v_reason v) now m)) ∧
  (∀ j, j ≠ m_id message → getMessage j (w_db w') = getMessage j (w_db w)) ∧
  (∃ rows, w_feed w' = w_feed (accounted w message addr) ++ rows ∧
           Forall2 logs (v_events v) rows).
Proof.
  intros Hf Hm Hr v. destruct (process_run message addr w Hf) as ((w1 & Hr1 & _ & Hs) & Edb).
  rewrite Hr1 in Hr. injection Hr as <- <-. fold v in Hs |- *.
  split; [done|]. split.
  - destruct (settled_message _ _ _ _ _ _ (m_id message) Hs) as (now & E). exists now.
    rewrite E, Edb, Hm. simpl. by rewrite decide_True.
  - split; [|by destruct Hs as (_ & _ & _ & _ & ?)]. intros j Hj.
    destruct (settled_message _ _ _ _ _ _ j Hs) as (now & E). rewrite E, Edb.
    destruct (getMessage j (w_db w)); simpl; [by rewrite decide_False|done].
Qed.

(** The policy's own verdict, in a connection of the auto-respond tier. *)
Definition policy_allows (message : MessageRecord) (addr : string) (c : Connection) : Prop :=
  ∃ p t d, autoRespondPolicy c = Some p ∧ p ≠ "" ∧
    evaluatePolicy t (mkPolicyRequest p (body_value message) addr (nickname c)) = Some d ∧
    d_action d = allow.

Definition no_switch (c : Connection) : Prop :=
  truthy_bool (muted c) = false ∧ truthy_bool (passthrough c) = false.

Definition gate_open (w : World) (c : Connection) (body : BodyValue) : Prop :=
  ∀ k q, questions (manifest_of c) !! k = Some q →
    ∃ d, checkInformationBoundary (w_tick w + k) q body = Some d ∧ d_action d = allow.

Lemma policy_verdict_read conn t message addr reason d :
  policy_verdict conn t message addr = ("read_by_agent", reason, d) →
  ∃ c, conn = Some c ∧ policy_allows message addr c.
Proof.
  unfold policy_verdict. destruct conn as [c|]; [|done]. simpl.
  destruct (truthy_str (autoRespondPolicy c)) eqn:Ep; [|done].
  apply truthy_str_Some in Ep as (p & Ep & Hp). simpl.
  destruct (evaluatePolicy _ _) as [d'|] eqn:Ee; [|done].
  destruct (d_action d') eqn:Ea; [|done..]. intros [= _ _]. exists c. split; [done|].
  exists p, t, d'. unfold policy_request in Ee. simpl in Ee. rewrite Ep in Ee. done.
Qed.

Lemma route_verdict_read w message addr :
  v_state (route_verdict w message addr) = "read_by_agent" →
  ∃ c, getConnection addr (w_store w) = Some c ∧ cstate c = active ∧
    (autonomyLevel c = full_auto ∨ autonomyLevel c = notify ∨
     autonomyLevel c = auto_respond ∧ policy_allows message addr c).
Proof.
  unfold route_verdict. destruct (decide_route _) as [st reason] eqn:Ed.
  destruct (bool_decide_reflect (st = "pending_policy_eval")) as [->|Hne].
  - apply decide_route_pending in Ed as (c & -> & Ha & Hl & _).
    destruct (policy_verdict _ _ _ _) as [[st' reason'] d] eqn:Ep. simpl. intros ->.
    apply policy_verdict_read in Ep as (c' & [= <-] & Hp). exists c. auto 6.
  - simpl. intros ->. unfold decide_route in Ed.
    destruct (getConnection _ _) as [c|]; [|done]. case_bool_decide; [|done].
    injection Ed as Hl _. exists c. split; [done|]. split; [done|].
    destruct (autonomyLevel c); auto; done.
Qed.

Lemma pipeline_read message addr w :
  v_state (pipeline_verdict w message addr) = "read_by_agent" →
  ∃ c, getConnection addr (w_store w) = Some c ∧ cstate c = active ∧ no_switch c ∧
       gate_open w c (body_value message) ∧
       (autonomyLevel c = full_auto ∨ autonomyLevel c = notify ∨
        autonomyLevel c = auto_respond ∧ policy_allows message addr c) ∧
       autonomyLevel <$> getConnection addr (w_store (accounted w message addr)) =
         Some (autonomyLevel c).
Proof.
  pose proof (accounted_demotes message addr w addr) as Hd. revert Hd.
  unfold pipeline_verdict, switch_verdict.
  destruct (getConnection addr (w_store w)) as [c|] eqn:Ec; simpl.
  2:{ unfold check_verdict. by rewrite Ec. }
  destruct (truthy_bool (muted c)) eqn:Em; [done|].
  destruct (truthy_bool (passthrough c)) eqn:Ep; [done|].
  intros Hd. destruct (allowed (check_verdict w (body_value message) addr).1) eqn:Ea;
    [|simpl; by destruct (truthy_bool (escalateToHuman _))].
  intros (c2 & Ec2 & _ & Hl)%route_verdict_read. rewrite Ec2 in Hd |- *.
  inversion Hd as [? ? (lv & fl & la & -> & Hlv)|]; subst. simpl in Hl.
  assert (lv = autonomyLevel c) as ->.
  { destruct Hlv as [(? & _)|(-> & _)]; [done|]. naive_solver. }
  unfold check_verdict in Ea. rewrite Ec in Ea. case_bool_decide; [|done].
  exists c. split_and!; try done. intros k q. by apply verdict_allowed.
Qed.

(** An agent reads a message only with the human's consent: the sender's
    connection is active, neither muted nor under intervention, every boundary
    question of its manifest was answered [allow], and its level is Full Auto
    or Notify, or Auto-respond with a policy whose evaluation says [allow];
    and the level is still the same afterwards, so the message did not trip
    the breaker. *)
Theorem read_only_with_consent message addr w rm w' :
  fresh_ids w → process message addr w = (Ok rm, w') → rm_state rm = "read_by_agent" →
  ∃ c, getConnection addr (w_store w) = Some c ∧ cstate c = active ∧ no_switch c ∧
       gate_open w c (body_value message) ∧
       (autonomyLevel c = full_auto ∨ autonomyLevel c = notify ∨
        autonomyLevel c = auto_respond ∧ policy_allows message addr c) ∧
       autonomyLevel <$> getConnection addr (w_store w') = Some (autonomyLevel c).
Proof.
  intros Hf Hr. destruct (process_run message addr w Hf) as ((w1 & Hr1 & _ & Hs) & _).
  rewrite Hr1 in Hr. injection Hr as <- <-. simpl. rewrite (proj1 Hs). apply pipeline_read.
Qed.

(** A muted connection is silent: the message is delivered and noted in the log,
    the breaker's counters and every connection stay untouched, and nothing
    but the log's id and two clock readings is asked of the environment, so
    the evaluator never sees the content. *)
Theorem muted_is_silent message addr w c r w' :
  fresh_ids w → getConnection addr (w_store w) = Some c → truthy_bool (muted c) = true →
  process message addr w = (r, w') →
  r = Ok (routed message addr "delivered" None) ∧
  w_store w' = w_store w ∧ w_events w' = w_events w ∧ w_tick w' = 3 + w_tick w ∧
  ∃ row, w_feed w' = w_feed w ++ [row] ∧ logs (muted_event addr (m_id message)) row.
Proof.
  intros Hf Hc Hm. unfold process.
  change (w_getConnection addr ≫= ?k) with (λ w, k (getConnection addr (w_store w)) w).
  cbv beta. rewrite Hc. simpl. rewrite Hm. unfold mbind, M_bind.
  destruct (w_record_fresh (muted_event addr (m_id message)) w Hf) as (ev & row & Hr & Hl & _).
  rewrite Hr, w_updateState_run. intros [= <- <-]. cbn. repeat split; try done. by exists row.
Qed.

(** The message that trips the breaker is itself held for the human: if it
    passes the gate and its arrival completes a window of the connection's
    whole history, the connection is at Full Manual afterwards and the
    message is escalated, whatever tier it was sent under. *)
Theorem tripping_message_escalated message addr w hist c r w' :
  clock_monotone → fresh_ids w → breaker_history config addr w hist →
  getConnection addr (w_store w) = Some c → cstate c = active → no_switch c →
  isTripped addr w = false → gate_open w c (body_value message) →
  let t := w_tick w + length (questions (manifest_of c)) in
  is_Some (first_exceeded config (env_now (2 + t))
             (hist ++ [mkEventRecord (env_now t) "message_flood"])) →
  process message addr w = (r, w') →
  r = Ok (routed message addr "escalated_to_human" None) ∧
  autonomyLevel <$> getConnection addr (w_store w') = Some full_manual ∧
  isTripped addr w' = true.
Proof.
  intros Hm Hf Hh Hc Ha [Hmu Hpa] Hnt Hg t Hfire Hr.
  destruct (process_run message addr w Hf) as ((w1 & Hr1 & _ & Hs) & _).
  rewrite Hr1 in Hr. injection Hr as <- <-. unfold isTripped. rewrite (proj1 Hs). clear Hs Hr1.
  unfold pipeline_verdict, accounted, switch_verdict, check_verdict. rewrite Hc. simpl.
  rewrite Hmu, Hpa, bool_decide_eq_true_2 by done.
  assert (allowed (verdict (w_tick w) (body_value message) (questions (manifest_of c))).1 = true) as Hal
    by (by apply verdict_allowed).
  pose proof (verdict_all_allowed _ _ _ Hal) as Ht. fold t in Ht.
  destruct (verdict _ _ _) as [res t']. cbn [fst snd] in *. subst t'. rewrite Hal.
  assert (breaker_history config addr (put_tick t w) hist) as Hh1
    by (eapply history_other; [exact Hh|done|simpl; lia]).
  destruct (recordMessage config addr (put_tick t w)) as [r2 w2] eqn:Erec.
  pose proof (breaker_record_run config addr _ _ (put_tick t w) hist c r2 w2 Hm Hh1
    (records_message config addr) Hc Hnt Erec) as Hrun.
  cbv zeta in Hrun. cbn [w_tick put_tick] in Hrun.
  destruct Hfire as [chk Hfire]. cbn [Nat.add] in Hfire. rewrite Hfire in Hrun.
  destruct Hrun as [Es _]. cbn [snd]. unfold route_verdict. rewrite Es, saved_set_get.
  unfold decide_route. rewrite (bool_decide_eq_true_2 (cstate _ = active)) by done. done.
Qed.
End pipeline.

(** ** Without an evaluator *)
Section noop.
Context `{EN : Env, SH : Sha256, SQ : SqlEngine, !NoOpEvaluator} (config : CircuitBreakerConfig).

Lemma questions_gate_noop w c body : gate_open w c body → questions (manifest_of c) = [].
Proof.
  intros Hg. destruct (questions (manifest_of c)) as [|q qs] eqn:E; [done|].
  destruct (Hg 0 q) as (d & Hd & Ha); [by rewrite E|].
  rewrite noop_boundary in Hd. by injection Hd as <-.
Qed.

(** With the [NoOpPolicyEvaluator] the skill ships with, nothing that would need
    a verdict is ever read by the agent: only a Full Auto or Notify connection
    without boundaries and without denied categories has its messages read. *)
Theorem noop_reads_only_unconditional message addr w rm w' :
  fresh_ids w → process config message addr w = (Ok rm, w') → rm_state rm = "read_by_agent" →
  ∃ c, getConnection addr (w_store w) = Some c ∧
       (autonomyLevel c = full_auto ∨ autonomyLevel c = notify) ∧
       informationBoundaries (manifest_of c) = [] ∧
       Forall (λ cat, cat_allowed cat = true) (customCategories (manifest_of c)).
Proof.
  intros Hf Hr Hs. destruct (process_run config message addr w Hf) as ((w1 & Hr1 & _) & _).
  rewrite Hr1 in Hr. injection Hr as <- <-. simpl in Hs.
  apply pipeline_read in Hs as (c & Hc & _ & _ & Hg & Hl & _). exists c. split; [done|].
  apply questions_gate_noop in Hg. unfold questions in Hg. apply app_nil in Hg as [Hb Hcat].
  split_and!.
  - destruct Hl as [?|[?|(_ & p & t & d & _ & _ & Hd & Ha)]]; [auto..|].
    rewrite noop_policy in Hd. by injection Hd as <-.
  - destruct (decide (informationBoundaries (manifest_of c) = [])) as [|Hn]; [done|].
    by rewrite bool_decide_eq_true_2 in Hb.
  - apply fmap_nil_inv in Hcat. apply Forall_forall. intros cat Hin.
    destruct (cat_allowed cat) eqn:E; [done|].
    assert (cat ∈ filter (λ c0, cat_allowed c0 = false) (customCategories (manifest_of c))) as Hx
      by (by apply list_elem_of_filter).
    rewrite Hcat in Hx. by apply not_elem_of_nil in Hx.
Qed.
End noop.

(** ** Witnesses *)
Section witnesses.
Import Sample SampleEnv.

Definition yes : option PolicyDecision := Some (mkDecision allow conf_high "fine").
#[local] Instance pipe_env : Env := env yes yes.

Definition pipe_conn : Connection :=
  assign (sample_connection active auto_respond) (with_policy "answer questions") "".
Definition pipe_world : World := world pipe_conn (one_message_db router_message).
Definition pipe_config : CircuitBreakerConfig := mkConfig 1 60000 5 300000 3 600000.

Lemma process_refines_witness :
  ∃ rm, (process DEFAULT_CIRCUIT_BREAKER_CONFIG router_message "pinch:p@h" pipe_world).1 = Ok rm ∧
        rm_state rm = "read_by_agent".
Proof.
  destruct (process DEFAULT_CIRCUIT_BREAKER_CONFIG router_message "pinch:p@h" pipe_world)
    as [r w'] eqn:E.
  pose proof (process_refines DEFAULT_CIRCUIT_BREAKER_CONFIG router_message "pinch:p@h" pipe_world
    router_message r w' (world_fresh yes yes _ _) eq_refl E) as [-> _].
  eexists. split; [reflexivity|]. vm_compute. reflexivity.
Defined.

Lemma read_only_with_consent_witness :
  ∃ c, getConnection "pinch:p@h" (w_store pipe_world) = Some c ∧
       policy_allows router_message "pinch:p@h" c.
Proof.
  destruct (process DEFAULT_CIRCUIT_BREAKER_CONFIG router_message "pinch:p@h" pipe_world)
    as [r w'] eqn:E.
  assert (∃ rm, r = Ok rm ∧ rm_state rm = "read_by_agent") as (rm & -> & Hs).
  { apply (f_equal fst) in E. vm_compute in E. rewrite <- E. eexists. split; reflexivity. }
  destruct (read_only_with_consent DEFAULT_CIRCUIT_BREAKER_CONFIG router_message "pinch:p@h"
    pipe_world rm w' (world_fresh yes yes _ _) E Hs) as (c & Hc & _ & _ & _ & Hl & _).
  exists c. split; [exact Hc|]. injection Hc as <-.
  destruct Hl as [Hl|[Hl|[_ Hl]]]; [discriminate Hl..|exact Hl].
Defined.

Definition muted_world : World :=
  world (assign (sample_connection active full_auto) (with_muted true) "")
    (one_message_db router_message).

Lemma muted_is_silent_witness :
  w_events (process DEFAULT_CIRCUIT_BREAKER_CONFIG router_message "pinch:p@h" muted_world).2 = ∅.
Proof.
  destruct (process DEFAULT_CIRCUIT_BREAKER_CONFIG router_message "pinch:p@h" muted_world)
    as [r w'] eqn:E.
  destruct (muted_is_silent DEFAULT_CIRCUIT_BREAKER_CONFIG router_message "pinch:p@h" muted_world
    _ r w' (world_fresh yes yes _ _) eq_refl eq_refl E) as (_ & _ & H & _). exact H.
Defined.

Lemma tripping_message_escalated_witness :
  ∃ rm, (process pipe_config router_message "pinch:p@h" pipe_world).1 = Ok rm ∧
        rm_state rm = "escalated_to_human".
Proof.
  destruct (process pipe_config router_message "pinch:p@h" pipe_world) as [r w'] eqn:E.
  assert (Hm : @clock_monotone pipe_env) by exact (env_monotone yes yes).
  assert (Hg : gate_open pipe_world pipe_conn (body_value router_message)).
  { intros k q Hk. vm_compute in Hk. destruct k; discriminate Hk. }
  destruct (tripping_message_escalated pipe_config router_message "pinch:p@h" pipe_world []
    pipe_conn r w' Hm (world_fresh yes yes _ _) (history_start _ _ pipe_world eq_refl) eq_refl
    eq_refl (conj eq_refl eq_refl) eq_refl Hg) as [-> _].
  - vm_compute. by eexists.
  - exact E.
  - eexists. split; reflexivity.
Defined.
End witnesses.

Section noop_witness.
Import Sample SampleEnv.
#[local] Instance noop_env : Env := env (Some noop_decision) (Some noop_decision).

Lemma noop_reads_only_unconditional_witness :
  ∃ c, getConnection "pinch:p@h" (w_store router_world) = Some c ∧
       informationBoundaries (manifest_of c) = [].
Proof.
  assert (NoOpEvaluator) as Hno by (split; reflexivity).
  destruct (process DEFAULT_CIRCUIT_BREAKER_CONFIG router_message "pinch:p@h" router_world)
    as [r w'] eqn:E.
  assert (∃ rm, r = Ok rm ∧ rm_state rm = "read_by_agent") as (rm & -> & Hs).
  { apply (f_equal fst) in E. vm_compute in E. rewrite <- E. eexists. split; reflexivity. }
  destruct (noop_reads_only_unconditional DEFAULT_CIRCUIT_BREAKER_CONFIG router_message
    "pinch:p@h" router_world rm w' (world_fresh _ _ _ _) E Hs) as (c & Hc & _ & Hb & _).
  exists c. split; [exact Hc|exact Hb].
Defined.
End noop_witness.
