(* ===== verification/Interleaving.v ===== *)
(** The enforcement pipeline with other handlers running at its suspension points.
    [process] awaits the permissions check and, inside it and in the policy
    evaluation, the evaluator; while it is suspended other envelopes, tools and
    timers run.  What they do is an arbitrary change of the world at each
    [await]. *)
From S2P Require Import Prelude JsLib JsDate Platform PermissionsManifest ConnectionStore.
From S2P Require Import MessageStore ActivityFeed World CircuitBreaker InboundRouter.
From S2P Require Import PermissionsEnforcer EnforcementPipeline.

Section interleaved.
Context `{EN : Env, SH : Sha256, SQ : SqlEngine} (config : CircuitBreakerConfig).
(** What the others do when the clock stands at [n]. *)
Context (interfere : nat → World → World).

(** [await m]: the others run before the continuation, whether [m] returned or threw. *)
Definition await {A} (m : M World A) : M World A := λ w,
  let '(r, w') := m w in (r, interfere (w_tick w') w').

(** ** The code, with its suspension points *)
Definition ask_boundary_i (boundaries : list string) (content : BodyValue)
    : M World (option EnforcementResult) :=
  try_catch
    (decision ← await (await_boundary boundaries content);
     if bool_decide (d_action decision = deny) || bool_decide (d_action decision = escalate)
     then mret (Some (boundary_denied decision)) else mret None)
    (mret (Some evaluation_unavailable)).

Fixpoint check_categories_i (deniedCategories : list CustomCategory) (messageBody : BodyValue)
    : M World EnforcementResult :=
  match deniedCategories with
  | [] => mret (mkEnforcement true None None None)
  | category :: rest =>
      early ← ask_boundary_i [cat_description category] messageBody;
      match early with
      | Some result => mret result
      | None => check_categories_i rest messageBody
      end
  end.

Definition check_i (messageBody : BodyValue) (connectionAddress : string) : M World EnforcementResult :=
  connection ← w_getConnection connectionAddress;
  match connection with
  | Some connection =>
      if bool_decide (cstate connection ≠ active)
      then mret (mkEnforcement false (Some "unknown sender") None None)
      else
        let manifest := default defaultPermissionsManifest (permissionsManifest connection) in
        early ← (if bool_decide (informationBoundaries manifest ≠ [])
                 then ask_boundary_i (informationBoundaries manifest) messageBody
                 else mret None);
        match early with
        | Some result => mret result
        | None =>
            check_categories_i
              (filter (λ c, cat_allowed c = false) (customCategories manifest)) messageBody
        end
  | None => mret (mkEnforcement false (Some "unknown sender") None None)
  end.

Definition evaluateAutoRespondPolicy_i (message : MessageRecord) (connectionAddress : string)
    (rm : RoutedMessage) : M World RoutedMessage :=
  connection ← w_getConnection connectionAddress;
  let policy := connection ≫= autoRespondPolicy in
  if negb (truthy_str policy) then
    w_updateState (m_id message) "escalated_to_human" None;;
    recordAutoRespondDecision (m_id message) connectionAddress no_policy_decision;;
    mret (with_rm_state "escalated_to_human" rm)
  else
    try_catch
      (decision ← await (await_policy (policy_request message connectionAddress connection));
       match d_action decision with
       | allow =>
           w_updateState (m_id message) "read_by_agent" None;;
           recordAutoRespondDecision (m_id message) connectionAddress decision;;
           mret (with_rm_state "read_by_agent" rm)
       | deny =>
           w_updateState (m_id message) "failed" (Some (d_reasoning decision));;
           recordAutoRespondDecision (m_id message) connectionAddress decision;;
           mret (with_rm_failure "failed" (d_reasoning decision) rm)
       | escalate =>
           w_updateState (m_id message) "escalated_to_human" None;;
           recordAutoRespondDecision (m_id message) connectionAddress decision;;
           mret (with_rm_state "escalated_to_human" rm)
       end)
      (w_updateState (m_id message) "escalated_to_human" None;;
       recordAutoRespondDecision (m_id message) connectionAddress error_decision;;
       mret (with_rm_state "escalated_to_human" rm)).

Definition process_i (message : MessageRecord) (connectionAddress : string)
    : M World RoutedMessage :=
  connection ← w_getConnection connectionAddress;
  if truthy_bool (connection ≫= muted) then
    _ ← w_record (muted_event connectionAddress (m_id message));
    w_updateState (m_id message) "delivered" None;;
    mret (routed message connectionAddress "delivered" None)
  else if truthy_bool (connection ≫= passthrough) then
    w_updateState (m_id message) "escalated_to_human" None;;
    _ ← w_record (intervention_event connectionAddress (m_id message));
    mret (routed message connectionAddress "escalated_to_human" None)
  else
    enforcement ← await (check_i (body_value message) connectionAddress);
    if negb (allowed enforcement) then
      if truthy_bool (escalateToHuman enforcement) then
        w_updateState (m_id message) "escalated_to_human" (e_reason enforcement);;
        mret (routed message connectionAddress "escalated_to_human" (e_reason enforcement))
      else
        (if truthy_str (violationType enforcement)
         then recordViolation config connectionAddress (default "" (violationType enforcement))
         else mret tt);;
        w_updateState (m_id message) "failed" (e_reason enforcement);;
        mret (routed message connectionAddress "failed" (e_reason enforcement))
    else
      recordMessage config connectionAddress;;
      rm ← route true message connectionAddress;
      if bool_decide (rm_state rm = "pending_policy_eval")
      then evaluateAutoRespondPolicy_i message connectionAddress rm
      else mret rm.

(** ** Without interference: the sequential pipeline *)
Lemma bind_ext {A B} (m m' : M World A) (f f' : A → M World B) w :
  m w = m' w → (∀ a w, f a w = f' a w) → (m ≫= f) w = (m' ≫= f') w.
Proof. unfold mbind, M_bind. intros -> Hf. destruct (m' w) as [[a|e] w']; auto. Qed.

Lemma try_ext {A} (m m' h h' : M World A) w :
  m w = m' w → (∀ w, h w = h' w) → try_catch m h w = try_catch m' h' w.
Proof. unfold try_catch. intros -> Hh. destruct (m' w) as [[a|e] w']; auto. Qed.

Section quiet.
Hypothesis quiet : ∀ n w, interfere n w = w.

Lemma await_quiet {A} (m : M World A) w : await m w = m w.
Proof. unfold await. destruct (m w) as [r w']. by rewrite quiet. Qed.

Lemma ask_boundary_quiet bs body w : ask_boundary_i bs body w = ask_boundary bs body w.
Proof. apply try_ext; [|done]. apply bind_ext; [apply await_quiet|done]. Qed.

Lemma check_quiet body addr w : check_i body addr w = check body addr w.
Proof.
  apply bind_ext; [done|]. intros [c|] w1; [|done]. case_bool_decide; [done|].
  apply bind_ext.
  - case_bool_decide; [apply ask_boundary_quiet|done].
  - intros [r|] w2; [done|]. revert w2. generalize (filter (λ c, cat_allowed c = false)
      (customCategories (default defaultPermissionsManifest (permissionsManifest c)))).
    intros cats. induction cats as [|cat cats IH]; intros w2; [done|].
    apply bind_ext; [apply ask_boundary_quiet|]. by intros [r|] w3.
Qed.

Lemma evaluate_quiet message addr rm w :
  evaluateAutoRespondPolicy_i message addr rm w = evaluateAutoRespondPolicy message addr rm w.
Proof.
  apply bind_ext; [done|]. intros conn w1. cbv zeta. case_match; [done|].
  apply try_ext; [|done]. apply bind_ext; [apply await_quiet|done].
Qed.

(** When nothing else runs at its awaits the pipeline is the sequential one, so
    every theorem about [process] holds of it. *)
Theorem process_quiet message addr w : process_i message addr w = process config message addr w.
Proof.
  apply bind_ext; [done|]. intros conn w1. case_match; [done|]. case_match; [done|].
  apply bind_ext; [rewrite await_quiet; apply check_quiet|]. intros res w2. case_match; [done|].
  apply bind_ext; [done|]. intros [] w3. apply bind_ext; [done|]. intros rm w4.
  case_bool_decide; [apply evaluate_quiet|done].
Qed.
End quiet.

(** ** What interleaving cannot take away: consent *)
Definition answered_allow (body : BodyValue) (q : list string) : Prop :=
  ∃ t d, checkInformationBoundary t q body = Some d ∧ d_action d = allow.

Lemma bind_ok {A B} (m : M World A) (k : A → M World B) w b w' :
  (m ≫= k) w = (Ok b, w') → ∃ a w1, m w = (Ok a, w1) ∧ k a w1 = (Ok b, w').
Proof. unfold mbind, M_bind. destruct (m w) as [[a|e] w1]; [|done]. intros E. by exists a, w1. Qed.

Lemma try_ok {A} (m h : M World A) w b w' :
  try_catch m h w = (Ok b, w') → m w = (Ok b, w') ∨ ∃ w1, h w1 = (Ok b, w').
Proof. unfold try_catch. destruct (m w) as [[a|e] w1]; eauto. Qed.

Lemma await_policy_ok q w d w' :
  await (await_policy q) w = (Ok d, w') → evaluatePolicy (w_tick w) q = Some d.
Proof.
  unfold await, await_policy, ask, mret, M_ret, mbind, M_bind.
  by destruct (evaluatePolicy (w_tick w) q) as [d'|]; intros [= <- _].
Qed.

Lemma ask_boundary_i_ok q body w r w' :
  ask_boundary_i q body w = (Ok r, w') →
  match r with Some res => allowed res = false | None => answered_allow body q end.
Proof.
  unfold ask_boundary_i, await, await_boundary, ask, try_catch, mret, M_ret, mbind, M_bind.
  destruct (checkInformationBoundary (w_tick w) q body) as [d|] eqn:E; simpl.
  2:{ by intros [= <- _]. }
  destruct (d_action d) eqn:Ea; simpl; intros [= <- _]; try done. by exists (w_tick w), d.
Qed.

Lemma check_categories_i_ok cats body w r w' :
  check_categories_i cats body w = (Ok r, w') → allowed r = true →
  Forall (λ cat, answered_allow body [cat_description cat]) cats.
Proof.
  revert w. induction cats as [|cat cats IH]; intros w; [by constructor|].
  cbn [check_categories_i]. intros (early & w1 & Hq & Hk)%bind_ok Ha.
  apply ask_boundary_i_ok in Hq.
  destruct early as [res|]; [injection Hk as <- _; congruence|]. constructor; [done|by eapply IH].
Qed.

Lemma check_i_ok body addr w r w' :
  check_i body addr w = (Ok r, w') → allowed r = true →
  ∃ c, getConnection addr (w_store w) = Some c ∧ cstate c = active ∧
       Forall (answered_allow body) (questions (manifest_of c)).
Proof.
  unfold check_i. change (w_getConnection addr ≫= ?k) with (λ w, k (getConnection addr (w_store w)) w).
  cbv beta. destruct (getConnection addr (w_store w)) as [c|]; [|by intros [= <- _]].
  case_bool_decide as Hs; [by intros [= <- _]|]. fold (manifest_of c). intros Hr Ha.
  exists c. split; [done|]. split; [by destruct (decide (cstate c = active))|].
  apply bind_ok in Hr as (early & w1 & Hq & Hk).
  destruct early as [res|].
  { injection Hk as <- _. case_bool_decide; [|done].
    apply ask_boundary_i_ok in Hq. congruence. }
  apply check_categories_i_ok in Hk; [|done]. unfold questions. apply Forall_app. split.
  - case_bool_decide as Hb; [|done]. apply ask_boundary_i_ok in Hq. by repeat constructor.
  - by apply Forall_fmap.
Qed.

Definition same_store (w w' : World) : Prop := w_store w' = w_store w.
#[local] Instance same_store_preorder : PreOrder same_store.
Proof. split; [done|]. intros x y z H1 H2. unfold same_store in *. congruence. Qed.
Lemma same_store_ask {A} (f : nat → A) : moves same_store (ask f).
Proof. by apply moves_ask. Qed.
Lemma same_store_db {A} (m : M MessageDb A) : moves same_store (zoom dbL m).
Proof. by apply (moves_zoom _ (λ _ _, True)). Qed.
Lemma same_store_feed {A} (m : M (list ActivityRow) A) : moves same_store (zoom feedL m).
Proof. by apply (moves_zoom _ (λ _ _, True)). Qed.
#[local] Hint Resolve same_store_ask same_store_db same_store_feed : moves.

Lemma route_store feed message addr : moves same_store (route feed message addr).
Proof. unfold route. moves_calls. Qed.

Lemma route_ok feed message addr w rm w' :
  route feed message addr w = (Ok rm, w') →
  rm_state rm = (decide_route (getConnection addr (w_store w))).1 ∧ w_store w' = w_store w.
Proof.
  intros Hr. split; [|by pose proof (route_store feed message addr w) as H; rewrite Hr in H].
  revert Hr. unfold route, decide_route.
  change (w_getConnection addr ≫= ?k) with (λ w, k (getConnection addr (w_store w)) w). cbv beta.
  destruct (getConnection addr (w_store w)) as [c|].
  2:{ intros (? & w1 & _ & [= <- _])%bind_ok. done. }
  rewrite bool_decide_not. case_bool_decide; cbn [negb].
  2:{ intros (? & w1 & _ & [= <- _])%bind_ok. done. }
  intros (st & w1 & Hst & (? & w2 & _ & [= <- _])%bind_ok)%bind_ok. simpl.
  destruct (autonomyLevel c); try (by injection Hst as <- _).
  by apply bind_ok in Hst as (? & w3 & _ & [= <- _]).
Qed.

Lemma evaluate_i_read message addr rm w rm' w' :
  evaluateAutoRespondPolicy_i message addr rm w = (Ok rm', w') → rm_state rm' = "read_by_agent" →
  ∃ c, getConnection addr (w_store w) = Some c ∧ policy_allows message addr c.
Proof.
  unfold evaluateAutoRespondPolicy_i.
  change (w_getConnection addr ≫= ?k) with (λ w, k (getConnection addr (w_store w)) w). cbv beta zeta.
  set (conn := getConnection addr (w_store w)).
  destruct (truthy_str (conn ≫= autoRespondPolicy)) eqn:Ep; cbn [negb].
  2:{ by intros (? & w1 & _ & (? & w2 & _ & [= <- _])%bind_ok)%bind_ok. }
  intros [(d & w1 & Hd & Hk)%bind_ok|
          (w1 & (? & w2 & _ & (? & w3 & _ & [= <- _])%bind_ok)%bind_ok)]%try_ok; [|done].
  apply await_policy_ok in Hd. destruct (d_action d) eqn:Ea;
    apply bind_ok in Hk as (? & w2 & _ & (? & w3 & _ & [= <- _])%bind_ok); [|done..]. intros _.
  apply truthy_str_Some in Ep as (p & Ep & Hp).
  unfold conn in *. destruct (getConnection addr (w_store w)) as [c|]; [|done]. simpl in Ep.
  exists c. split; [done|]. exists p, (w_tick w), d. unfold policy_request in Hd. simpl in Hd.
  by rewrite Ep in Hd.
Qed.

(** C10. An agent reads a message only with the human's consent even when other
    handlers run while the pipeline waits for its evaluator: on arrival the
    sender was active, neither muted nor under intervention, and every
    question of the manifest it had then was answered [allow]; and when the
    message is routed, after the breaker has counted it in the world the
    others left, the sender is active at Full Auto or Notify, or at
    Auto-respond with a policy that said [allow]. *)
Theorem read_consent_interleaved message addr w rm w' :
  process_i message addr w = (Ok rm, w') → rm_state rm = "read_by_agent" →
  let gate := await (check_i (body_value message) addr) w in
  let w1 := (recordMessage config addr gate.2).2 in
  (∃ c, getConnection addr (w_store w) = Some c ∧ cstate c = active ∧ no_switch c ∧
        Forall (answered_allow (body_value message)) (questions (manifest_of c))) ∧
  (∃ c, getConnection addr (w_store w1) = Some c ∧ cstate c = active ∧
        (autonomyLevel c = full_auto ∨ autonomyLevel c = notify ∨
         autonomyLevel c = auto_respond ∧ policy_allows message addr c)).
Proof.
  intros Hr Hs gate w1. revert Hr. unfold process_i.
  change (w_getConnection addr ≫= ?k) with (λ w, k (getConnection addr (w_store w)) w). cbv beta.
  set (conn := getConnection addr (w_store w)).
  destruct (truthy_bool (conn ≫= muted)) eqn:Em.
  { intros (? & w2 & _ & (? & w3 & _ & [= <- _])%bind_ok)%bind_ok. done. }
  destruct (truthy_bool (conn ≫= passthrough)) eqn:Ep.
  { intros (? & w2 & _ & (? & w3 & _ & [= <- _])%bind_ok)%bind_ok. done. }
  intros (res & w2 & Hg & Hk)%bind_ok. destruct (allowed res) eqn:Ea; cbn [negb] in Hk.
  2:{ destruct (truthy_bool (escalateToHuman res)).
      - by apply bind_ok in Hk as (? & w3 & _ & [= <- _]).
      - by apply bind_ok in Hk as (? & w3 & _ & (? & w4 & _ & [= <- _])%bind_ok). }
  assert (w1 = (recordMessage config addr w2).2) as -> by (unfold w1, gate; by rewrite Hg).
  unfold await in Hg. destruct (check_i (body_value message) addr w) as [r w2'] eqn:Hg'.
  injection Hg as -> <-. apply check_i_ok in Hg' as (c & Hc & Ha & Hq); [|done].
  split. { exists c. unfold conn in *. rewrite Hc in Em, Ep. by split_and!. }
  apply bind_ok in Hk as ([] & w3 & Hm & (rm1 & w4 & Hrt & Hk)%bind_ok).
  rewrite Hm. cbn [snd]. apply route_ok in Hrt as [Hst Hsame].
  case_bool_decide as Hpend.
  - apply evaluate_i_read in Hk as (c1 & Hc1 & Hp); [|done]. rewrite Hsame in Hc1.
    exists c1. rewrite Hpend in Hst. destruct (decide_route _) as [st reason] eqn:Ed.
    simpl in Hst. subst st. apply decide_route_pending in Ed as (c2 & Hc2 & Ha2 & Hl2 & _).
    rewrite Hc1 in Hc2. injection Hc2 as <-. auto 6.
  - injection Hk as -> _. rewrite Hs in Hst. clear -Hst. unfold decide_route in Hst.
    destruct (getConnection addr (w_store w3)) as [c1|]; [|done].
    case_bool_decide; [|done]. exists c1. split; [done|]. split; [done|]. simpl in Hst.
    destruct (autonomyLevel c1); auto; done.
Qed.

(** ** What it can: the human's change of mind *)

(** A policy's verdict is carried out as of the time of routing: the message is
    settled with the verdict on the policy the connection had when the
    evaluator was asked, over whatever store the others left meanwhile, be the
    connection muted, blocked or demoted in it by then. *)
Theorem policy_of_routing_time message addr w :
  let conn := getConnection addr (w_store w) in
  let w1 := if truthy_str (conn ≫= autoRespondPolicy)
            then interfere (S (w_tick w)) (put_tick (S (w_tick w)) w) else w in
  let '(st, reason, d) := policy_verdict conn (w_tick w) message addr in
  fresh_ids w1 →
  runs_to (evaluateAutoRespondPolicy_i message addr (routed message addr "pending_policy_eval" None))
    message addr (mkVerdict st reason [decision_event addr (m_id message) d]) w1 w.
Proof.
  intros conn w1. unfold policy_verdict, evaluateAutoRespondPolicy_i, runs_to.
  change (w_getConnection addr ≫= ?k) with (λ w, k (getConnection addr (w_store w)) w).
  cbv beta. fold conn. unfold w1.
  destruct (truthy_str (conn ≫= autoRespondPolicy)); cbn [negb]; [|by apply decided_run].
  clear w1. set (w1 := interfere (S (w_tick w)) _).
  assert (await (await_policy (policy_request message addr conn)) w =
          (match evaluatePolicy (w_tick w) (policy_request message addr conn) with
           | Some d => Ok d | None => Throw "policy evaluation failed" end, w1)) as Hp.
  { unfold await. rewrite await_policy_run. by destruct (evaluatePolicy _ _). }
  rewrite try_catch_bind, Hp.
  destruct (evaluatePolicy (w_tick w) _) as [[act conf reas]|]; [|intros Hf; by apply decided_run].
  destruct act; unfold try_catch; cbn [d_action d_reasoning]; intros Hf;
    (edestruct (decided_run message addr) as (w' & Hr & Hs); [exact Hf|exists w';
     rewrite Hr; split; [reflexivity|exact Hs]]).
Qed.
End interleaved.

(** ** Witnesses *)
Section witnesses.
Import Sample SampleEnv.
#[local] Existing Instance pipe_env.

(** At every suspension point someone mutes the sender. *)
Definition mute_meanwhile (_ : nat) (w : World) : World :=
  (w_updateConnection "pinch:p@h" (with_muted true) w).2.

Definition muted_at_end (w : World) : bool :=
  truthy_bool (getConnection "pinch:p@h" (w_store w) ≫= muted).

Lemma read_consent_interleaved_witness :
  ∃ c, getConnection "pinch:p@h" (w_store pipe_world) = Some c ∧ no_switch c.
Proof.
  destruct (process_i DEFAULT_CIRCUIT_BREAKER_CONFIG mute_meanwhile router_message "pinch:p@h"
    pipe_world) as [r w'] eqn:E.
  assert (∃ rm, r = Ok rm ∧ rm_state rm = "read_by_agent") as (rm & -> & Hs).
  { apply (f_equal fst) in E. vm_compute in E. rewrite <- E. eexists. split; reflexivity. }
  destruct (read_consent_interleaved DEFAULT_CIRCUIT_BREAKER_CONFIG mute_meanwhile router_message
    "pinch:p@h" pipe_world rm w' E Hs) as [(c & Hc & _ & Hn & _) _].
  exists c. split; [exact Hc|exact Hn].
Defined.

Lemma policy_of_routing_time_witness :
  ∃ rm w', evaluateAutoRespondPolicy_i mute_meanwhile router_message "pinch:p@h"
             (routed router_message "pinch:p@h" "pending_policy_eval" None) pipe_world = (Ok rm, w') ∧
           rm_state rm = "read_by_agent" ∧ muted_at_end w' = true.
Proof.
  pose proof (policy_of_routing_time mute_meanwhile router_message "pinch:p@h" pipe_world) as H.
  destruct H as (w' & Hr & _ & Hs).
  - by apply (fresh_ids_tick pipe_world); [apply world_fresh|vm_compute; reflexivity|simpl; lia].
  - do 2 eexists. split; [exact Hr|]. split; [reflexivity|].
    unfold muted_at_end. rewrite (proj1 Hs). vm_compute. reflexivity.
Defined.

Lemma process_quiet_witness :
  process_i DEFAULT_CIRCUIT_BREAKER_CONFIG (λ _ w, w) router_message "pinch:p@h" pipe_world =
  process DEFAULT_CIRCUIT_BREAKER_CONFIG router_message "pinch:p@h" pipe_world.
Proof.
  apply (process_quiet DEFAULT_CIRCUIT_BREAKER_CONFIG (λ _ w, w) (λ _ _, eq_refl)).
Defined.
End witnesses.
