(* ===== verification/Text.v ===== *)
(** Text as the skill writes and reads it: [TextEncoder] and [TextDecoder], and
    [JSON.parse] as an automaton that takes one code unit at a time. *)
From S2P Require Import Prelude JsLib.
From Stdlib Require Import Ascii.

(** ** [new TextEncoder().encode(s)]: UTF-8; a code unit below 256 takes one or two bytes *)
Definition utf8_char (c : ascii) : list Byte.byte :=
  let n := Z.of_N (N_of_ascii c) in
  if (n <? 128)%Z then [byte_of_Z n]
  else [byte_of_Z (Z.lor 192 (Z.shiftr n 6)); byte_of_Z (Z.lor 128 (Z.land n 63))].

Fixpoint utf8_encode (s : string) : list Byte.byte :=
  match s with EmptyString => [] | String c s' => utf8_char c ++ utf8_encode s' end.

(** Reading one character back. *)
Definition utf8_decode_char (bs : list Byte.byte)
    : option (ascii * list Byte.byte) :=
  match bs with
  | [] => None
  | b :: bs =>
      if (Z_of_byte b <? 128)%Z then Some (ascii_of_N (Byte.to_N b), bs)
      else match bs with
           | [] => None
           | b' :: bs => Some (ascii_of_N (Z.to_N (Z.lor (Z.shiftl (Z.land (Z_of_byte b) 3) 6)
                                                     (Z.land (Z_of_byte b') 63))), bs)
           end
  end.

Lemma utf8_decode_encode_char c bs : utf8_decode_char (utf8_char c ++ bs) = Some (c, bs).
Proof. by destruct c as [[] [] [] [] [] [] [] []]. Qed.

Lemma utf8_encode_inj s t : utf8_encode s = utf8_encode t → s = t.
Proof.
  revert t. induction s as [|c s IH]; intros [|d t] E; simpl in E; [done|..].
  - pose proof (utf8_decode_encode_char d (utf8_encode t)) as Hd. by rewrite <- E in Hd.
  - pose proof (utf8_decode_encode_char c (utf8_encode s)) as Hc. by rewrite E in Hc.
  - pose proof (utf8_decode_encode_char c (utf8_encode s)) as Hc.
    rewrite E, utf8_decode_encode_char in Hc. injection Hc as -> Ht. f_equal. by apply IH.
Qed.

(** [TextDecoder], and how a code unit above 255, which only an escape or a
    decoder can produce, is written in the model's strings. *)
Class Unicode : Type := {
  text_decode : list Byte.byte → string;
  wide_unit : Z → string
}.
Class UnicodeLaws `{Unicode} : Prop := { text_decode_encode s : text_decode (utf8_encode s) = s }.

(** ** JSON values; a number is kept as it is written *)
#[warnings="-register-all"]
Inductive JsonValue : Type :=
| jnull
| jbool (b : bool)
| jnumber (token : string)
| jstring (s : string)
| jarray (l : list JsonValue)
| jobject (fields : list (string * JsonValue)).

(** [v.k] where [v] came from [JSON.parse]: [None] is the [TypeError] of [null.k],
    [Some None] is [undefined]. *)
Definition property (k : string) (v : JsonValue) : option (option JsonValue) :=
  match v with
  | jnull => None
  | jobject fields => Some (Obj.get k fields)
  | _ => Some None
  end.

(** ** The automaton *)
Inductive Escape : Type := plain | backslash | hexes (more : nat) (code : Z).
Inductive NumState : Type :=
| n_minus | n_zero | n_int | n_point | n_frac | n_e | n_sign | n_exp.

(** What encloses the value being read: an array, an object before a key, and an
    object after a key. *)
Inductive Frame : Type :=
| in_array (acc : list JsonValue)
| in_object (acc : list (string * JsonValue))
| in_field (acc : list (string * JsonValue)) (key : string).

Inductive Mode : Type :=
| want_value | want_value_or_close | want_key | want_key_or_close | want_colon | want_comma
| in_string (is_key : bool) (e : Escape) (acc : string)
| in_number (st : NumState) (token : string)
| in_literal (rest : string) (v : JsonValue)
| finished (v : JsonValue).

Definition PState : Type := Mode * list Frame.

Definition unit_of (c : ascii) : Z := Z.of_N (N_of_ascii c).
Definition is_ws (c : ascii) : bool :=
  bool_decide (unit_of c ∈ [32; 9; 10; 13]%Z).
Definition is_digit (c : ascii) : bool := (48 <=? unit_of c)%Z && (unit_of c <=? 57)%Z.

(** A value is complete. *)
Definition complete (v : JsonValue) (stk : list Frame) : option PState :=
  match stk with
  | [] => Some (finished v, [])
  | in_array acc :: stk => Some (want_comma, in_array (acc ++ [v]) :: stk)
  | in_field acc k :: stk => Some (want_comma, in_object (Obj.set k v acc) :: stk)
  | in_object _ :: _ => None
  end.

Definition close_array (stk : list Frame) : option PState :=
  match stk with in_array acc :: stk => complete (jarray acc) stk | _ => None end.
Definition close_object (stk : list Frame) : option PState :=
  match stk with in_object acc :: stk => complete (jobject acc) stk | _ => None end.

Definition begin_value (c : ascii) (stk : list Frame) : option PState :=
  let n := unit_of c in
  if (n =? 34)%Z then Some (in_string false plain "", stk)
  else if (n =? 123)%Z then Some (want_key_or_close, in_object [] :: stk)
  else if (n =? 91)%Z then Some (want_value_or_close, in_array [] :: stk)
  else if (n =? 45)%Z then Some (in_number n_minus (String c ""), stk)
  else if (n =? 48)%Z then Some (in_number n_zero (String c ""), stk)
  else if is_digit c then Some (in_number n_int (String c ""), stk)
  else if (n =? 116)%Z then Some (in_literal "rue" (jbool true), stk)
  else if (n =? 102)%Z then Some (in_literal "alse" (jbool false), stk)
  else if (n =? 110)%Z then Some (in_literal "ull" jnull, stk)
  else None.

(** The grammar of numbers: an optional minus, an integer without leading zeros,
    an optional fraction and exponent.  The next state, or none when the number
    ends before [c]. *)
Definition num_next (st : NumState) (c : ascii) : option NumState :=
  let n := unit_of c in
  let point := (n =? 46)%Z in
  let e := (n =? 101)%Z || (n =? 69)%Z in
  match st with
  | n_minus => if (n =? 48)%Z then Some n_zero else if is_digit c then Some n_int else None
  | n_zero => if point then Some n_point else if e then Some n_e else None
  | n_int => if is_digit c then Some n_int else if point then Some n_point
             else if e then Some n_e else None
  | n_point => if is_digit c then Some n_frac else None
  | n_frac => if is_digit c then Some n_frac else if e then Some n_e else None
  | n_e => if (n =? 43)%Z || (n =? 45)%Z then Some n_sign
           else if is_digit c then Some n_exp else None
  | n_sign | n_exp => if is_digit c then Some n_exp else None
  end.
Definition num_accepts (st : NumState) : bool :=
  match st with n_zero | n_int | n_frac | n_exp => true | _ => false end.

Definition hex_value (c : ascii) : option Z :=
  let n := unit_of c in
  if is_digit c then Some (n - 48)%Z
  else if (97 <=? n)%Z && (n <=? 102)%Z then Some (n - 87)%Z
  else if (65 <=? n)%Z && (n <=? 70)%Z then Some (n - 55)%Z
  else None.

(** The character after a backslash, but for [u]. *)
Definition unescape (c : ascii) : option ascii :=
  let n := unit_of c in
  if bool_decide (n ∈ [34; 92; 47]%Z) then Some c
  else if (n =? 98)%Z then Some (ascii_of_nat 8)
  else if (n =? 102)%Z then Some (ascii_of_nat 12)
  else if (n =? 110)%Z then Some (ascii_of_nat 10)
  else if (n =? 114)%Z then Some (ascii_of_nat 13)
  else if (n =? 116)%Z then Some (ascii_of_nat 9)
  else None.

Section parse.
Context `{Unicode}.

Definition code_unit (code : Z) : string :=
  if (code <? 256)%Z then String (ascii_of_N (Z.to_N code)) "" else wide_unit code.

Definition end_string (is_key : bool) (s : string) (stk : list Frame) : option PState :=
  if is_key then
    match stk with
    | in_object acc :: stk => Some (want_colon, in_field acc s :: stk)
    | _ => None
    end
  else complete (jstring s) stk.

Definition step_string (is_key : bool) (e : Escape) (acc : string) (c : ascii)
    (stk : list Frame) : option PState :=
  match e with
  | plain =>
      if (unit_of c =? 34)%Z then end_string is_key acc stk
      else if (unit_of c =? 92)%Z then Some (in_string is_key backslash acc, stk)
      else if (unit_of c <? 32)%Z then None
      else Some (in_string is_key plain (acc +:+ String c ""), stk)
  | backslash =>
      if (unit_of c =? 117)%Z then Some (in_string is_key (hexes 3 0) acc, stk)
      else d ← unescape c; Some (in_string is_key plain (acc +:+ String d ""), stk)
  | hexes more code =>
      h ← hex_value c;
      let code := (code * 16 + h)%Z in
      match more with
      | O => Some (in_string is_key plain (acc +:+ code_unit code), stk)
      | S more => Some (in_string is_key (hexes more code) acc, stk)
      end
  end.

(** One code unit outside a number. *)
Definition step_plain (c : ascii) (m : Mode) (stk : list Frame) : option PState :=
  let n := unit_of c in
  match m with
  | in_string is_key e acc => step_string is_key e acc c stk
  | in_literal (String d rest) v =>
      if bool_decide (c = d) then
        match rest with EmptyString => complete v stk | _ => Some (in_literal rest v, stk) end
      else None
  | in_literal EmptyString _ | in_number _ _ => None
  | _ =>
      if is_ws c then Some (m, stk) else
      match m with
      | want_value => begin_value c stk
      | want_value_or_close => if (n =? 93)%Z then close_array stk else begin_value c stk
      | want_key => if (n =? 34)%Z then Some (in_string true plain "", stk) else None
      | want_key_or_close =>
          if (n =? 125)%Z then close_object stk
          else if (n =? 34)%Z then Some (in_string true plain "", stk) else None
      | want_colon => if (n =? 58)%Z then Some (want_value, stk) else None
      | want_comma =>
          if (n =? 93)%Z then close_array stk
          else if (n =? 125)%Z then close_object stk
          else if (n =? 44)%Z then
            match stk with
            | in_array _ :: _ => Some (want_value, stk)
            | in_object _ :: _ => Some (want_key, stk)
            | _ => None
            end
          else None
      | _ => None
      end
  end.

Definition step (c : ascii) (st : PState) : option PState :=
  match st.1 with
  | in_number ns token =>
      match num_next ns c with
      | Some ns => Some (in_number ns (token +:+ String c ""), st.2)
      | None =>
          if num_accepts ns
          then st' ← complete (jnumber token) st.2; step_plain c st'.1 st'.2
          else None
      end
  | m => step_plain c m st.2
  end.

Fixpoint run (s : string) (st : PState) : option PState :=
  match s with
  | EmptyString => Some st
  | String c s => st ← step c st; run s st
  end.

(** [JSON.parse(s)]: [None] is the [SyntaxError]. *)
Definition JSON_parse (s : string) : option JsonValue :=
  st ← run s (want_value, []);
  match st with
  | (finished v, _) => Some v
  | (in_number ns token, []) => if num_accepts ns then Some (jnumber token) else None
  | _ => None
  end.

(** ** Reading back what [JSON.stringify] printed *)
Lemma run_app s t st : run (s +:+ t) st = run s st ≫= run t.
Proof.
  revert st. induction s as [|c s IH]; intros st; [done|].
  change (run (String c s +:+ t) st) with (st ← step c st; run (s +:+ t) st). simpl.
  destruct (step c st) as [st'|]; [apply IH|done].
Qed.

Lemma run_json_char k acc stk c :
  run (json_char c) (in_string k plain acc, stk) =
  Some (in_string k plain (acc +:+ String c ""), stk).
Proof. by destruct c as [[] [] [] [] [] [] [] []]. Qed.

Lemma run_json_chars k acc stk s :
  run (json_chars s) (in_string k plain acc, stk) = Some (in_string k plain (acc +:+ s), stk).
Proof.
  revert acc. induction s as [|c s IH]; intros acc; cbn [json_chars].
  - simpl. by rewrite str_app_nil_r.
  - rewrite run_app, run_json_char. cbn [mbind option_bind]. rewrite IH. by rewrite str_app_assoc.
Qed.

Lemma run_json_string k m stk s :
  run dquote (m, stk) = Some (in_string k plain "", stk) →
  run (json_string s) (m, stk) = end_string k s stk.
Proof.
  intros Hm. unfold json_string. rewrite run_app, Hm. cbn [mbind option_bind].
  rewrite run_app, run_json_chars. cbn [mbind option_bind]. change ("" +:+ s) with s.
  change (run dquote (in_string k plain s, stk)) with (st ← end_string k s stk; Some st).
  by destruct (end_string k s stk).
Qed.

(** One printed field, and then all of them. *)
Definition string_field (kv : string * string) : string * string := (kv.1, json_string kv.2).
Definition read_field (acc : list (string * JsonValue)) (kv : string * string) : list (string * JsonValue) :=
  Obj.set kv.1 (jstring kv.2) acc.

Lemma run_field m acc stk kv :
  m = want_key ∨ m = want_key_or_close →
  run (json_string kv.1 +:+ ":" +:+ json_string kv.2) (m, in_object acc :: stk) =
  Some (want_comma, in_object (read_field acc kv) :: stk).
Proof.
  intros Hm. rewrite run_app, (run_json_string true) by by destruct Hm as [-> | ->].
  cbn [end_string mbind option_bind]. rewrite run_app.
  change (run ":" (want_colon, in_field acc kv.1 :: stk))
    with (Some (want_value, in_field acc kv.1 :: stk)).
  cbn [mbind option_bind]. by rewrite (run_json_string false).
Qed.

Lemma run_fields m acc stk kv fs :
  m = want_key ∨ m = want_key_or_close →
  run (join "," ((λ kv, json_string kv.1 +:+ ":" +:+ kv.2) <$> (string_field <$> kv :: fs)))
    (m, in_object acc :: stk) =
  Some (want_comma, in_object (fold_left read_field (kv :: fs) acc) :: stk).
Proof.
  revert m acc kv. induction fs as [|kv' fs IH]; intros m acc kv Hm.
  - apply (run_field m acc stk kv Hm).
  - change (join "," _) with
      ((json_string kv.1 +:+ ":" +:+ json_string kv.2) +:+ "," +:+
       join "," ((λ kv, json_string kv.1 +:+ ":" +:+ kv.2) <$> (string_field <$> kv' :: fs))).
    rewrite run_app, (run_field m acc stk kv Hm). cbn [mbind option_bind]. rewrite run_app.
    change (run "," (want_comma, ?f :: stk)) with (Some (want_key, f :: stk)).
    cbn [mbind option_bind]. apply IH. by left.
Qed.

(** [JSON.parse(JSON.stringify(o))] for an object of strings. *)
Lemma json_object_roundtrip fs :
  JSON_parse (json_object (string_field <$> fs)) = Some (jobject (fold_left read_field fs [])).
Proof.
  unfold JSON_parse, json_object. rewrite run_app.
  change (run "{" (want_value, [])) with (Some (want_key_or_close, [in_object []])).
  cbn [mbind option_bind]. destruct fs as [|kv fs]; [done|].
  rewrite run_app, run_fields by by right. cbn [mbind option_bind].
  change (run "}" (want_comma, [in_object ?l])) with (Some (finished (jobject l), [] : list Frame)).
  done.
Qed.
End parse.

(** ** Concrete instances, and the parser on some inputs *)
Module SampleText.
Fixpoint decode (n : nat) (bs : list Byte.byte) : string :=
  match n with
  | O => ""
  | S n => match utf8_decode_char bs with
           | Some (c, bs) => String c (decode n bs)
           | None => ""
           end
  end.

#[export] Instance unicode : Unicode :=
  {| text_decode := λ bs, decode (length bs) bs; wide_unit := λ _, "?" |}.

Lemma decode_utf8 n s : length (utf8_encode s) ≤ n → decode n (utf8_encode s) = s.
Proof.
  revert n. induction s as [|c s IH]; intros n Hn; [by destruct n|]. simpl in *.
  rewrite length_app in Hn.
  assert (1 ≤ length (utf8_char c)) by by destruct c as [[] [] [] [] [] [] [] []]; simpl; lia.
  destruct n as [|n]; [lia|]. simpl. rewrite utf8_decode_encode_char, IH; [done|lia].
Qed.

#[export] Instance unicode_laws : UnicodeLaws.
Proof. split. intros s. by apply decode_utf8. Qed.

(** Quotes in the inputs are written as [']. *)
Fixpoint quoted (s : string) : string :=
  match s with
  | EmptyString => ""
  | String c s => String (if decide (c = "'"%char) then ascii_of_nat 34 else c) (quoted s)
  end.

Example parse_nested :
  JSON_parse (quoted " {'a' : [1, -2.5e+3 , true,null, {}], 'b':'x\u0041\n', 'a':[]}") =
  Some (jobject [("a", jarray []); ("b", jstring ("xA" +:+ chr 10))]).
Proof. vm_compute. reflexivity. Qed.

Example parse_errors :
  omap (JSON_parse ∘ quoted)
    ["{'a':1,}"; "[1,]"; "01"; "1."; "'a"; "{a:1}"; "[1}"; "1 2"; ""; "tru"; "-"; "{'a' 1}"] = [].
Proof. vm_compute. reflexivity. Qed.

Example parse_scalars :
  omap (JSON_parse ∘ quoted) ["12e5"; " null "; "'a\/b'"; "[[],[-0]]"] =
  [jnumber "12e5"; jnull; jstring "a/b"; jarray [jarray []; jarray [jnumber "-0"]]].
Proof. vm_compute. reflexivity. Qed.
End SampleText.
