(* ===== verification/JsonPrint.v ===== *)
(** [JSON.stringify(value, null, gap)] of JSON values, and the fact that
    [JSON.parse] reads back exactly the value, whatever the indentation. *)
From stdpp Require Import pretty.
From S2P Require Import Prelude JsLib Text.
From Stdlib Require Import Ascii.

(** ** Induction on values nested in arrays and objects *)
Section json_ind.
Context (P : JsonValue → Prop).
Context (P_null : P jnull) (P_bool : ∀ b, P (jbool b)) (P_number : ∀ t, P (jnumber t)).
Context (P_string : ∀ s, P (jstring s)).
Context (P_array : ∀ l, Forall P l → P (jarray l)).
Context (P_object : ∀ fs, Forall (λ kv, P kv.2) fs → P (jobject fs)).

Fixpoint json_ind (v : JsonValue) : P v :=
  match v with
  | jnull => P_null
  | jbool b => P_bool b
  | jnumber t => P_number t
  | jstring s => P_string s
  | jarray l =>
      P_array l ((fix go l : Forall P l :=
        match l with
        | [] => Forall_nil_2 P
        | v :: l => Forall_cons_2 P v l (json_ind v) (go l)
        end) l)
  | jobject fs =>
      P_object fs ((fix go fs : Forall (λ kv, P kv.2) fs :=
        match fs with
        | [] => Forall_nil_2 _
        | kv :: fs => Forall_cons_2 (λ kv, P kv.2) kv fs (json_ind kv.2) (go fs)
        end) fs)
  end.
End json_ind.

(** ** The printer *)
Section stringify.
(** The string of blanks [JSON.stringify]'s third argument stands for. *)
Context (gap : string).

(** Between pieces at one indentation: a new line, or nothing without a gap. *)
Definition line_break (indent : string) : string :=
  if bool_decide (gap = "") then "" else chr 10 +:+ indent.
Definition colon : string := if bool_decide (gap = "") then ":" else ": ".

Definition enclose (opening closing indent : string) (pieces : list string) : string :=
  match pieces with
  | [] => opening +:+ closing
  | _ => opening +:+ line_break (indent +:+ gap) +:+
         join ("," +:+ line_break (indent +:+ gap)) pieces +:+ line_break indent +:+ closing
  end.

Fixpoint stringify (indent : string) (v : JsonValue) : string :=
  match v with
  | jnull => "null"
  | jbool b => if b then "true" else "false"
  | jnumber token => token
  | jstring s => json_string s
  | jarray l => enclose "[" "]" indent (map (stringify (indent +:+ gap)) l)
  | jobject fs =>
      enclose "{" "}" indent
        (map (λ kv, json_string kv.1 +:+ colon +:+ stringify (indent +:+ gap) kv.2) fs)
  end.
End stringify.

Definition JSON_stringify (gap : string) (v : JsonValue) : string := stringify gap "" v.

(** ** Values that can be printed *)
Section facts.
Context `{Unicode}.

(** The text of a JSON number. *)
Definition number_ok (token : string) : Prop :=
  ∃ ns, num_accepts ns = true ∧
    ∀ m stk, m = want_value ∨ m = want_value_or_close →
      run token (m, stk) = Some (in_number ns token, stk).

(** Numbers are numbers, and no object has a key twice. *)
Fixpoint json_ok (v : JsonValue) : Prop :=
  match v with
  | jnumber token => number_ok token
  | jarray l => foldr (λ v P, json_ok v ∧ P) True l
  | jobject fs => NoDup fs.*1 ∧ foldr (λ kv P, json_ok kv.2 ∧ P) True fs
  | _ => True
  end.

Lemma foldr_and {A} (Q : A → Prop) l : foldr (λ v P, Q v ∧ P) True l ↔ Forall Q l.
Proof. induction l as [|x l IH]; simpl; [by split|]. by rewrite IH, Forall_cons. Qed.

(** ** Reading blanks and numbers *)
Definition blank (s : string) : Prop := str_forall is_ws s = true.
Definition between (m : Mode) : Prop :=
  match m with in_string _ _ _ | in_number _ _ | in_literal _ _ => False | _ => True end.

Lemma run_blank s m stk : blank s → between m → run s (m, stk) = Some (m, stk).
Proof.
  unfold blank. intros Hs Hm. induction s as [|c s IH]; simpl in *; [done|].
  apply andb_prop in Hs as [Hc Hs].
  assert (step c (m, stk) = Some (m, stk)) as -> by by (destruct m; try done; unfold step, step_plain; simpl; rewrite Hc).
  by apply IH.
Qed.

(** What may follow a value: it ends a number. *)
Definition follows (c : ascii) : bool := is_ws c || (bool_decide (c ∈ [","; "]"; "}"]%char)).

Lemma follows_number ns c : follows c = true → num_next ns c = None.
Proof. by destruct c as [[] [] [] [] [] [] [] []], ns. Qed.

Lemma run_number token ns stk c rest :
  num_accepts ns = true → follows c = true →
  run (String c rest) (in_number ns token, stk) = (complete (jnumber token) stk ≫= run (String c rest)).
Proof.
  intros Ha Hc. simpl. unfold step at 1. simpl. rewrite (follows_number _ _ Hc), Ha.
  destruct (complete (jnumber token) stk) as [[m stk']|] eqn:E; [|done]. simpl.
  assert (step c (m, stk') = step_plain c m stk') as ->; [|done].
  unfold step. simpl. destruct stk as [|[] ?]; simpl in E; by simplify_eq.
Qed.

(** ** What it means that a text reads as a value *)
Definition opens (m : Mode) : Prop := m = want_value ∨ m = want_value_or_close.

(** Wherever a value is wanted, and whatever follows it. *)
Definition reads (s : string) (v : JsonValue) : Prop :=
  ∀ m stk c rest, opens m → follows c = true →
    run (s +:+ String c rest) (m, stk) = (complete v stk ≫= run (String c rest)).

Lemma reads_run s v :
  (∀ m stk, opens m → run s (m, stk) = complete v stk) → reads s v.
Proof. intros Hr m stk c rest Hm _. by rewrite run_app, Hr. Qed.

Lemma reads_literals : reads "null" jnull ∧ reads "true" (jbool true) ∧ reads "false" (jbool false).
Proof.
  split_and!; apply reads_run; intros m stk [-> | ->];
    match goal with |- _ = complete ?v ?stk =>
      transitivity (complete v stk ≫= run ""); [reflexivity|by destruct (complete v stk)] end.
Qed.

Lemma reads_string s : reads (json_string s) (jstring s).
Proof.
  apply reads_run. intros m stk Hm. rewrite (run_json_string false); [done|].
  by destruct Hm as [-> | ->].
Qed.

Lemma reads_number token : number_ok token → reads token (jnumber token).
Proof.
  intros (ns & Ha & Hr) m stk c rest Hm Hc. rewrite run_app, Hr by done. cbn [mbind option_bind].
  by apply run_number.
Qed.

Lemma run_cons c s st : run (String c s) st = step c st ≫= run s.
Proof. done. Qed.

Lemma reads_list {A} (f : A → string) (g : A → JsonValue) brk x xs :
  blank brk → Forall (λ x, reads (f x) (g x)) (x :: xs) →
  ∀ m acc stk c rest, opens m → follows c = true →
  run (join ("," +:+ brk) (map f (x :: xs)) +:+ String c rest) (m, in_array acc :: stk) =
  run (String c rest) (want_comma, in_array (acc ++ map g (x :: xs)) :: stk).
Proof.
  intros Hb. revert x. induction xs as [|y xs IH]; intros x Hx m acc stk c rest Hm Hc;
    apply Forall_cons in Hx as [Hx Hxs].
  - simpl. by rewrite (Hx m _ c rest Hm Hc).
  - change (join ("," +:+ brk) (map f (x :: y :: xs))) with
      (f x +:+ ("," +:+ brk) +:+ join ("," +:+ brk) (map f (y :: xs))).
    rewrite !str_app_assoc. change ("," +:+ ?r) with (String "," r).
    rewrite (Hx m _ _ _ Hm) by done. cbn [complete mbind option_bind]. rewrite run_cons.
    change (step "," (want_comma, in_array ?a :: stk)) with (Some (want_value, in_array a :: stk)).
    cbn [mbind option_bind]. rewrite run_app, run_blank by done. cbn [mbind option_bind].
    rewrite (IH y Hxs) by (done || by left). by rewrite <- app_assoc.
Qed.

(** A field, and the fields of an object as [Obj.set]s. *)
Definition set_field {A} (g : A → string * JsonValue) (acc : list (string * JsonValue)) (x : A) :=
  Obj.set (g x).1 (g x).2 acc.

Lemma reads_fields {A} (f : A → string) (g : A → string * JsonValue) col brk x xs :
  blank brk → (∀ acc k stk, run col (want_colon, in_field acc k :: stk) = Some (want_value, in_field acc k :: stk)) →
  Forall (λ x, reads (f x) (g x).2) (x :: xs) →
  ∀ m acc stk c rest, m = want_key ∨ m = want_key_or_close → follows c = true →
  run (join ("," +:+ brk) (map (λ x, json_string (g x).1 +:+ col +:+ f x) (x :: xs)) +:+ String c rest)
    (m, in_object acc :: stk) =
  run (String c rest) (want_comma, in_object (fold_left (set_field g) (x :: xs) acc) :: stk).
Proof.
  intros Hb Hcol. revert x. induction xs as [|y xs IH]; intros x Hx m acc stk c rest Hm Hc;
    apply Forall_cons in Hx as [Hx Hxs];
    assert (∀ c rest, follows c = true →
      run ((json_string (g x).1 +:+ col +:+ f x) +:+ String c rest) (m, in_object acc :: stk) =
      run (String c rest) (want_comma, in_object (set_field g acc x) :: stk)) as Hfield.
  1,3: intros c' rest' Hc'; rewrite !str_app_assoc, run_app, (run_json_string true) by (by destruct Hm as [-> | ->]);
    change (end_string true ?k (in_object ?a :: ?r)) with (Some (want_colon, in_field a k :: r));
    cbn [mbind option_bind]; rewrite run_app, Hcol; cbn [mbind option_bind];
    rewrite (Hx _ _ _ _ (or_introl eq_refl) Hc'); done.
  - simpl. by apply Hfield.
  - change (join ("," +:+ brk) (map ?h (x :: y :: xs))) with
      (h x +:+ ("," +:+ brk) +:+ join ("," +:+ brk) (map h (y :: xs))).
    cbv beta. rewrite (str_app_assoc _ (_ +:+ _)), (str_app_assoc ("," +:+ brk)).
    change (("," +:+ brk) +:+ ?r) with (String "," (brk +:+ r)). rewrite Hfield by done. rewrite run_cons.
    change (step "," (want_comma, in_object ?a :: stk)) with (Some (want_key, in_object a :: stk)).
    cbn [mbind option_bind]. rewrite run_app, run_blank by done. cbn [mbind option_bind].
    by rewrite (IH y Hxs) by (done || by left).
Qed.

Lemma set_fields {A} (g : A → string * JsonValue) xs acc :
  NoDup (Obj.keys acc ++ map (λ x, (g x).1) xs) →
  fold_left (set_field g) xs acc = acc ++ map g xs.
Proof.
  revert acc. induction xs as [|x xs IH]; intros acc Hnd; simpl; [by rewrite app_nil_r|].
  assert (Obj.set (g x).1 (g x).2 acc = acc ++ [g x]) as E.
  { assert ((g x).1 ∉ Obj.keys acc) as Hk.
    { simpl in Hnd. intros Hin. apply NoDup_app in Hnd as (_ & Hd & _).
      by apply (Hd _ Hin), list_elem_of_here. }
    clear Hnd. destruct (g x) as [k v]. simpl in *.
    induction acc as [|[k' v'] acc IHa]; [done|]. simpl in *.
    apply not_elem_of_cons in Hk as [Hne Hk]. rewrite decide_False by done. by rewrite IHa. }
  unfold set_field at 2. rewrite E, IH, <- app_assoc; [done|].
  unfold Obj.keys in *. rewrite fmap_app. simpl. by rewrite <- app_assoc.
Qed.

(** ** The printer is read back *)
Context (gap : string) (gap_blank : blank gap).

Lemma blank_app s t : blank s → blank t → blank (s +:+ t).
Proof.
  unfold blank. intros Hs Ht. induction s as [|c s IH]; [done|].
  change (String c s +:+ t) with (String c (s +:+ t)). simpl in *.
  apply andb_prop in Hs as [-> Hs]. by apply IH.
Qed.

Lemma blank_break indent : blank indent → blank (line_break gap indent).
Proof. unfold line_break. intros Hi. case_bool_decide; [done|]. by apply blank_app. Qed.

Lemma break_head indent d r :
  follows d = true → ∃ c r', line_break gap indent +:+ String d r = String c r' ∧ follows c = true.
Proof.
  unfold line_break. intros Hd. case_bool_decide; [by exists d, r|].
  exists (ascii_of_nat 10), (indent +:+ String d r). done.
Qed.

Lemma enclose_cons o c indent p ps rest :
  enclose gap o c indent (p :: ps) +:+ rest =
  o +:+ line_break gap (indent +:+ gap) +:+
  join ("," +:+ line_break gap (indent +:+ gap)) (p :: ps) +:+ line_break gap indent +:+ c +:+ rest.
Proof. unfold enclose. generalize (join ("," +:+ line_break gap (indent +:+ gap)) (p :: ps)). intros J. by rewrite !str_app_assoc. Qed.

Lemma run_colon acc k stk :
  run (colon gap) (want_colon, in_field acc k :: stk) = Some (want_value, in_field acc k :: stk).
Proof. unfold colon. by case_bool_decide. Qed.

Lemma reads_array f indent l :
  blank indent → Forall (λ v, reads (f v) v) l →
  reads (enclose gap "[" "]" indent (map f l)) (jarray l).
Proof.
  intros Hi Hl m stk c rest Hm Hc. destruct l as [|x xs].
  - rewrite run_app. cbn [map enclose].
    assert (run ("[" +:+ "]") (m, stk) = complete (jarray []) stk ≫= run "") as -> by by destruct Hm as [-> | ->].
    by destruct (complete _ _).
  - destruct (break_head indent "]" (String c rest) eq_refl) as (d & r & Hd & Hf).
    assert (blank (line_break gap (indent +:+ gap))) as Hb by by apply blank_break, blank_app.
    rewrite (enclose_cons _ _ _ (f x) (map f xs)).
    change ("]" +:+ String c rest) with (String "]" (String c rest)). rewrite Hd.
    rewrite run_app. assert (run "[" (m, stk) = Some (want_value_or_close, in_array [] :: stk)) as ->
      by by destruct Hm as [-> | ->].
    cbn [mbind option_bind]. rewrite run_app, run_blank by done. cbn [mbind option_bind].
    rewrite (reads_list f (λ v, v) _ x xs Hb Hl) by (done || by right). rewrite map_id, <- Hd.
    by rewrite run_app, run_blank by (done || by apply blank_break).
Qed.

Lemma reads_object f indent fs :
  blank indent → NoDup fs.*1 → Forall (λ kv, reads (f kv) kv.2) fs →
  reads (enclose gap "{" "}" indent (map (λ kv, json_string kv.1 +:+ colon gap +:+ f kv) fs)) (jobject fs).
Proof.
  intros Hi Hnd Hl m stk c rest Hm Hc. destruct fs as [|x xs].
  - rewrite run_app. cbn [map enclose].
    assert (run ("{" +:+ "}") (m, stk) = complete (jobject []) stk ≫= run "") as -> by by destruct Hm as [-> | ->].
    by destruct (complete _ _).
  - destruct (break_head indent "}" (String c rest) eq_refl) as (d & r & Hd & Hf).
    assert (blank (line_break gap (indent +:+ gap))) as Hb by by apply blank_break, blank_app.
    set (F := λ kv, _). rewrite (enclose_cons _ _ _ (F x) (map F xs)).
    change ("}" +:+ String c rest) with (String "}" (String c rest)). rewrite Hd.
    rewrite run_app. assert (run "{" (m, stk) = Some (want_key_or_close, in_object [] :: stk)) as ->
      by by destruct Hm as [-> | ->].
    cbn [mbind option_bind]. rewrite run_app, run_blank by done. cbn [mbind option_bind].
    rewrite (reads_fields f (λ kv, kv) _ _ x xs Hb run_colon Hl) by (done || by right).
    rewrite set_fields by done. rewrite map_id, <- Hd.
    by rewrite run_app, run_blank by (done || by apply blank_break).
Qed.

Lemma stringify_reads v : json_ok v → ∀ indent, blank indent → reads (stringify gap indent v) v.
Proof.
  induction v as [|b|t|s|l IH|fs IH] using json_ind; simpl; intros Hok indent Hi.
  - apply reads_literals.
  - destruct b; apply reads_literals.
  - by apply reads_number.
  - apply reads_string.
  - apply foldr_and in Hok. apply reads_array; [done|]. apply Forall_forall. intros v Hv.
    rewrite Forall_forall in IH, Hok. apply IH; [done|by apply Hok|by apply blank_app].
  - destruct Hok as [Hnd Hok]. apply (foldr_and (λ kv, json_ok kv.2)) in Hok.
    apply reads_object; [done..|]. apply Forall_forall. intros kv Hv.
    rewrite Forall_forall in IH, Hok. apply IH; [done|by apply Hok|by apply blank_app].
Qed.

Lemma complete_finished v w stk : complete w stk = Some (finished v, []) → w = v ∧ stk = [].
Proof. destruct stk as [|[] ?]; simpl; intros; by simplify_eq. Qed.

(** What reads both a space and a new line as the end of a value was at its end. *)
Lemma step_blank_finished m stk v :
  step " " (m, stk) = Some (finished v, []) → step (ascii_of_nat 10) (m, stk) = Some (finished v, []) →
  stk = [] ∧ (m = finished v ∨
              ∃ ns token, m = in_number ns token ∧ num_accepts ns = true ∧ v = jnumber token).
Proof.
  intros H1 H2. destruct m as [| | | | | |k e acc|ns token|lit w|w]; try discriminate H1.
  - destruct e as [| |more code]; discriminate H1.
  - revert H1. unfold step. simpl. rewrite (follows_number ns " ") by done.
    destruct (num_accepts ns) eqn:Ea; [|done].
    destruct (complete _ _) as [[m stk']|] eqn:E; [|done]. cbn [mbind option_bind fst snd].
    destruct stk as [|[] ?]; simpl in E; simplify_eq; simpl; intros; simplify_eq. eauto 7.
  - destruct lit as [|d lit]; [discriminate H1|]. revert H1 H2. unfold step, step_plain. simpl.
    case_bool_decide as Hd; [subst d|done]. by rewrite bool_decide_eq_false_2.
  - injection H1 as -> ->. auto.
Qed.

Lemma reads_parse s v : reads s v → JSON_parse s = Some v.
Proof.
  intros Hr. unfold JSON_parse.
  assert (∀ c, is_ws c = true → run s (want_value, []) ≫= step c = Some (finished v, [])) as Hc.
  { intros c Hws. pose proof (Hr want_value [] c "" (or_introl eq_refl)) as E.
    rewrite run_app in E. unfold follows in E. rewrite Hws in E. specialize (E eq_refl).
    simpl in E. unfold step at 2, step_plain in E. simpl in E. rewrite Hws in E. simpl in E.
    destruct (run s (want_value, [])) as [st|]; [|done]. simpl in *. by destruct (step c st). }
  pose proof (Hc " "%char eq_refl) as H1. pose proof (Hc (ascii_of_nat 10) eq_refl) as H2.
  destruct (run s (want_value, [])) as [[m stk]|]; [|done].
  destruct (step_blank_finished m stk v H1 H2) as (-> & [-> |(ns & token & -> & Ha & ->)]); simpl; [done|].
  by rewrite Ha.
Qed.

(** [JSON.parse] inverts [JSON.stringify] with any indentation: every value whose
    numbers are JSON numbers and whose objects repeat no key is read back as it
    was, at any depth. *)
Lemma stringify_parses v : json_ok v → JSON_parse (JSON_stringify gap v) = Some v.
Proof. intros Hok. by apply reads_parse, stringify_reads. Qed.

End facts.

(** ** The numbers the tools print: [String(n)] of a count *)
Definition nat_text (n : nat) : string := pretty n.

Section numbers.
Context `{Unicode}.

Lemma pretty_digits x s :
  (0 < x)%N → ∃ c t, pretty_N_go x s = String c t +:+ s ∧
    is_digit c = true ∧ c ≠ "0"%char ∧ str_forall is_digit t = true.
Proof.
  revert s. induction (N.lt_wf_0 x) as [x _ IH]. intros s Hx. rewrite pretty_N_go_step by done.
  destruct (decide (x < 10)%N) as [Hlt|Hge].
  - rewrite N.div_small, pretty_N_go_0, N.mod_small by done.
    exists (pretty_N_char x), "". split; [done|].
    assert (x ∈ [1; 2; 3; 4; 5; 6; 7; 8; 9]%N) as Hin
      by (rewrite !elem_of_cons; lia).
    repeat (apply elem_of_cons in Hin as [->|Hin]; [done|]). by apply not_elem_of_nil in Hin.
  - destruct (IH (x / 10)%N ltac:(apply N.div_lt; lia) (String (pretty_N_char (x mod 10)) s)
      ltac:(apply N.div_str_pos; lia)) as (c & t & -> & Hc & H0 & Ht).
    exists c, (t +:+ String (pretty_N_char (x mod 10)) ""). split; [|split_and!; try done].
    + change (String c t +:+ String ?d s) with (String c (t +:+ String d "" +:+ s)).
      by rewrite <- str_app_assoc.
    + assert (x mod 10 < 10)%N as Hm by (apply N.mod_lt; lia). generalize dependent (x mod 10)%N.
      intros d Hd. induction t as [|e t IHt]; simpl in *.
      * assert (d ∈ [0; 1; 2; 3; 4; 5; 6; 7; 8; 9]%N) as Hin by (rewrite !elem_of_cons; lia).
        repeat (apply elem_of_cons in Hin as [->|Hin]; [done|]). by apply not_elem_of_nil in Hin.
      * apply andb_prop in Ht as [-> Ht]. by apply IHt.
Qed.
Lemma run_digits t tok stk :
  str_forall is_digit t = true → run t (in_number n_int tok, stk) = Some (in_number n_int (tok +:+ t), stk).
Proof.
  revert tok. induction t as [|c t IH]; intros tok Ht; simpl in *; [by rewrite str_app_nil_r|].
  apply andb_prop in Ht as [Hc Ht]. unfold step. simpl. rewrite Hc. simpl.
  rewrite IH by done. by rewrite str_app_assoc.
Qed.

Lemma nat_text_ok n : number_ok (nat_text n).
Proof.
  unfold nat_text, pretty, pretty_nat, pretty, pretty_N. case_decide as Hn.
  - exists n_zero. split; [done|]. by intros m stk [-> | ->].
  - destruct (pretty_digits (N.of_nat n) "" ltac:(lia)) as (c & t & -> & Hc & H0 & Ht).
    rewrite str_app_nil_r. exists n_int. split; [done|]. intros m stk Hm. rewrite run_cons.
    assert (step c (m, stk) = Some (in_number n_int (String c ""), stk)) as ->.
    { clear -Hc H0 Hm. destruct Hm as [-> | ->]; by destruct c as [[] [] [] [] [] [] [] []]. }
    simpl. by rewrite run_digits.
Qed.
End numbers.
