(* ===== verification/AuditExport.v ===== *)
(** pinch-audit-export (tools/pinch-audit-export.ts): the JSON file it writes, and
    that the file holds the log: whoever reads it back can verify the chain as
    pinch-audit-verify does. *)
From S2P Require Import Prelude JsLib JsDate Platform ActivityFeed AuditVerify Text JsonPrint Args.

(** ** The file *)

(** [x ?? null] for a nullable text column. *)
Definition text_or_null (o : option string) : JsonValue :=
  match o with Some s => jstring s | None => jnull end.

(** One element of [entries]. *)
Definition entry_json (row : ActivityRow) : JsonValue := jobject
  [("id", jstring (id row));
   ("connection_address", jstring (connection_address row));
   ("event_type", jstring (event_type row));
   ("message_id", text_or_null (message_id row));
   ("badge", text_or_null (badge row));
   ("details", text_or_null (details row));
   ("created_at", jstring (created_at row));
   ("actor_pubkey", text_or_null (actor_pubkey row));
   ("action_type", text_or_null (action_type row));
   ("message_hash", text_or_null (message_hash row));
   ("prev_hash", jstring (prev_hash row));
   ("entry_hash", jstring (entry_hash row))].

(** [WHERE created_at >= @since AND created_at <= @until], each when given. *)
Definition export_where (parsed : AuditExportArgs) (row : ActivityRow) : bool :=
  (if truthy_str (xa_since parsed)
   then String.leb (default "" (xa_since parsed)) (created_at row) else true)
  && (if truthy_str (xa_until parsed)
      then String.leb (created_at row) (default "" (xa_until parsed)) else true).

Section export.
Context `{SqlEngine}.

Definition export_rows (parsed : AuditExportArgs) (rows : list ActivityRow) : list ActivityRow :=
  order_by key_asc (filter (λ row, export_where parsed row = true) rows).

Definition exportData (now : Z) (entries : list ActivityRow) : JsonValue := jobject
  [("exported_at", jstring (isoString now));
   ("total_entries", jnumber (nat_text (length entries)));
   ("entries", jarray (map entry_json entries))].

(** The text written to [--output], and the number printed. *)
Definition audit_export (parsed : AuditExportArgs) (now : Z) (rows : list ActivityRow) : string * nat :=
  let entries := export_rows parsed rows in
  (JSON_stringify "  " (exportData now entries), length entries).
End export.

(** ** A reader of the file *)
Definition field_text (k : string) (fs : list (string * JsonValue)) : option string :=
  match Obj.get k fs with Some (jstring s) => Some s | _ => None end.
Definition field_nullable (k : string) (fs : list (string * JsonValue)) : option (option string) :=
  match Obj.get k fs with
  | Some (jstring s) => Some (Some s)
  | Some jnull => Some None
  | _ => None
  end.

Definition read_entry (v : JsonValue) : option ActivityRow :=
  match v with
  | jobject fs =>
      i ← field_text "id" fs; addr ← field_text "connection_address" fs;
      ty ← field_text "event_type" fs; mid ← field_nullable "message_id" fs;
      bd ← field_nullable "badge" fs; dt ← field_nullable "details" fs;
      ts ← field_text "created_at" fs; pk ← field_nullable "actor_pubkey" fs;
      act ← field_nullable "action_type" fs; mh ← field_nullable "message_hash" fs;
      prev ← field_text "prev_hash" fs; eh ← field_text "entry_hash" fs;
      Some (mkActivityRow i addr ty mid bd dt ts pk act mh prev eh)
  | _ => None
  end.

Definition read_export (v : JsonValue) : option (list ActivityRow) :=
  match v with
  | jobject fs => match Obj.get "entries" fs with Some (jarray l) => mapM read_entry l | _ => None end
  | _ => None
  end.

Lemma read_entry_json row : read_entry (entry_json row) = Some row.
Proof. by destruct row as [? ? ? [] [] [] ? [] [] [] ? ?]. Qed.

Lemma read_entries rows : mapM read_entry (map entry_json rows) = Some rows.
Proof. apply mapM_fmap_Some. apply read_entry_json. Qed.

Section facts.
Context `{UN : Unicode, SH : Sha256, SL : SqlLaws}.

Lemma text_or_null_ok o : json_ok (text_or_null o).
Proof. by destruct o. Qed.

Lemma entry_json_ok row : json_ok (entry_json row).
Proof.
  split; [by apply (bool_decide_unpack _)|]. simpl. pose proof text_or_null_ok. naive_solver.
Qed.

Lemma exportData_ok now entries : json_ok (exportData now entries).
Proof.
  split; [by apply (bool_decide_unpack _)|]. split; [done|]. split; [apply nat_text_ok|].
  split; [|done]. apply foldr_and, Forall_fmap, Forall_true. intros row. apply entry_json_ok.
Qed.

Lemma order_sorted rows :
  order_by key_asc rows ≡ₚ rows ∧ StronglySorted (λ a b, key_asc a b = true) (order_by key_asc rows).
Proof.
  split; [apply order_by_perm|]. apply order_by_sorted; [apply key_asc_total|apply key_asc_trans].
Qed.

Lemma export_all_rows parsed rows :
  xa_since parsed = None → xa_until parsed = None → export_rows parsed rows = order_by key_asc rows.
Proof.
  intros Hs Hu. unfold export_rows. f_equal. apply filter_id, Forall_true. intros row.
  unfold export_where. by rewrite Hs, Hu.
Qed.

(** Ordering the log first changes nothing for the verifier. *)
Lemma verify_ordered rows :
  feed_unique rows → audit_verify None (order_by key_asc rows) = audit_verify None rows.
Proof.
  intros Hu. destruct (order_sorted rows) as [Hp Hs].
  assert (chained (order_by key_asc rows) ≡ₚ chained rows) as Hc by (unfold chained; by rewrite Hp).
  assert (order_by key_asc (chained (order_by key_asc rows)) = order_by key_asc (chained rows)) as Ho.
  { destruct (order_sorted (chained (order_by key_asc rows))) as [Hp' Hs'].
    symmetry. apply order_asc_unique; [by apply feed_unique_chained|by rewrite Hp', Hc|done]. }
  unfold audit_verify, select_entries. by rewrite Ho, (Permutation_length Hc).
Qed.

(** C37. The export is faithful: parsing the file that pinch-audit-export writes gives
    exactly the logged events in the range asked for, with all twelve columns,
    in the order of the chain, and their number; and for an export of the whole
    log, verifying the parsed entries gives the same report as
    pinch-audit-verify gives on the database, first broken entry included. *)
Theorem audit_export_faithful parsed now rows :
  feed_unique rows →
  let '(text, n) := audit_export parsed now rows in
  ∃ v entries, JSON_parse text = Some v ∧ read_export v = Some entries ∧ n = length entries ∧
    StronglySorted (λ a b, key_asc a b = true) entries ∧
    (∀ row, row ∈ entries ↔ row ∈ rows ∧ export_where parsed row = true) ∧
    (xa_since parsed = None → xa_until parsed = None →
     audit_verify None entries = audit_verify None rows).
Proof.
  intros Hu. unfold audit_export.
  exists (exportData now (export_rows parsed rows)), (export_rows parsed rows).
  destruct (order_sorted (filter (λ row, export_where parsed row = true) rows)) as [Hp Hs].
  split_and!.
  - apply stringify_parses; [done|]. apply exportData_ok.
  - apply read_entries.
  - done.
  - exact Hs.
  - intros row. unfold export_rows. rewrite Hp, list_elem_of_filter. naive_solver.
  - intros Hsince Huntil. rewrite export_all_rows by done. by apply verify_ordered.
Qed.
End facts.

(** ** Witness *)
Section witness.
Import Sample SampleText.

Definition whole_log : AuditExportArgs := mkAuditExportArgs (Some "/tmp/log.json") None None.

Lemma audit_export_faithful_witness :
  ∃ v entries, JSON_parse (audit_export whole_log 0 sample_rows).1 = Some v ∧
    read_export v = Some entries ∧ audit_verify None entries = audit_verify None sample_rows.
Proof.
  pose proof (audit_export_faithful whole_log 0 sample_rows sample_rows_unique) as H.
  destruct (audit_export whole_log 0 sample_rows) as [text n].
  destruct H as (v & entries & Hp & Hr & _ & _ & _ & Hv). exists v, entries.
  split; [exact Hp|]. split; [exact Hr|]. apply Hv; reflexivity.
Defined.
End witness.
