(* ===== verification/Envelope.v ===== *)
(** The wire messages of [gen/ts/pinch/v1/envelope_pb.ts] (proto3): every field has
    its value or its default, and the [payload] is a tagged union that may be
    unset.  Integers are kept as [Z]; the byte format of [toBinary] and
    [fromBinary] is the protobuf library's. *)
From S2P Require Import Prelude.

Inductive MessageType : Type :=
| UNSPECIFIED | HANDSHAKE | AUTH_CHALLENGE | AUTH_RESPONSE | MESSAGE | DELIVERY_CONFIRM
| CONNECTION_REQUEST | CONNECTION_RESPONSE | HEARTBEAT | AUTH_RESULT | CONNECTION_REVOKE
| BLOCK_NOTIFICATION | UNBLOCK_NOTIFICATION | QUEUE_STATUS | QUEUE_FULL | RATE_LIMITED.

#[export] Instance MessageType_eq_dec : EqDecision MessageType.
Proof. solve_decision. Defined.

Definition bytes : Type := list Byte.byte.

Record EncryptedPayload : Type := mkEncrypted {
  enc_nonce : bytes; enc_ciphertext : bytes; enc_senderPublicKey : bytes
}.
Record PlaintextPayload : Type := mkPlaintext {
  pt_version : Z; pt_sequence : Z; pt_timestamp : Z; pt_content : bytes; pt_contentType : string
}.
Record Handshake : Type := mkHandshake {
  hs_version : Z; hs_signingKey : bytes; hs_encryptionKey : bytes
}.
Record Heartbeat : Type := mkHeartbeat { hb_timestamp : Z }.
Record AuthChallenge : Type := mkAuthChallenge {
  ch_version : Z; ch_nonce : bytes; ch_issuedAtMs : Z; ch_expiresAtMs : Z; ch_relayHost : string
}.
Record AuthResponse : Type := mkAuthResponse {
  ar_version : Z; ar_publicKey : bytes; ar_signature : bytes; ar_nonce : bytes
}.
Record AuthResult : Type := mkAuthResult {
  res_success : bool; res_errorMessage : string; res_assignedAddress : string
}.
Record ConnectionRequest : Type := mkRequest {
  req_fromAddress : string; req_toAddress : string; req_message : string;
  req_senderPublicKey : bytes; req_expiresAt : Z
}.
Record ConnectionResponse : Type := mkResponse {
  rsp_fromAddress : string; rsp_toAddress : string; rsp_accepted : bool;
  rsp_responderPublicKey : bytes
}.
Record ConnectionRevoke : Type := mkRevoke {
  rvk_fromAddress : string; rvk_toAddress : string
}.
Record BlockNotification : Type := mkBlock {
  blk_blockerAddress : string; blk_blockedAddress : string
}.
Record UnblockNotification : Type := mkUnblock {
  ubl_unblockerAddress : string; ubl_unblockedAddress : string
}.
Record DeliveryConfirm : Type := mkConfirm {
  dc_messageId : bytes; dc_signature : bytes; dc_timestamp : Z; dc_state : string;
  dc_wasStored : bool
}.
Record QueueStatus : Type := mkQueueStatus { qs_pendingCount : Z }.
Record QueueFull : Type := mkQueueFull { qf_recipientAddress : string; qf_reason : string }.
Record RateLimited : Type := mkRateLimited { rl_retryAfterMs : Z; rl_reason : string }.

(** [envelope.payload]: [no_payload] is the unset case. *)
Inductive Payload : Type :=
| encrypted (v : EncryptedPayload)
| handshake (v : Handshake)
| heartbeat (v : Heartbeat)
| authChallenge (v : AuthChallenge)
| authResponse (v : AuthResponse)
| authResult (v : AuthResult)
| connectionRequest (v : ConnectionRequest)
| connectionResponse (v : ConnectionResponse)
| connectionRevoke (v : ConnectionRevoke)
| blockNotification (v : BlockNotification)
| unblockNotification (v : UnblockNotification)
| deliveryConfirm (v : DeliveryConfirm)
| queueStatus (v : QueueStatus)
| queueFull (v : QueueFull)
| rateLimited (v : RateLimited)
| no_payload.

Record Envelope : Type := mkEnvelope {
  env_version : Z;
  env_fromAddress : string;
  env_toAddress : string;
  env_type : MessageType;
  env_messageId : bytes;
  env_timestamp : Z;
  env_payload : Payload
}.

(** [create(EnvelopeSchema, { version: 1, fromAddress, toAddress, type, payload })] *)
Definition envelope (fromAddress toAddress : string) (t : MessageType) (p : Payload) : Envelope :=
  mkEnvelope 1 fromAddress toAddress t [] 0 p.
