(* ===== verification/StoreText.v ===== *)
(** The text of connections.json: what [JSON.stringify(this.data, null, 2)] prints
    of the store's data and what [load] gets back from it. *)
From S2P Require Import Prelude JsLib JsNumber JsDate Platform PermissionsManifest ConnectionStore.
From S2P Require Import Text JsonPrint Args.
From Stdlib Require Import Ascii.

(** ** Objects with undefined properties, which are not printed *)
Definition defined (fs : list (string * option JsonValue)) : list (string * JsonValue) :=
  omap (λ kv, pair kv.1 <$> kv.2) fs.
Definition object (fs : list (string * option JsonValue)) : JsonValue := jobject (defined fs).

Lemma defined_keys k v fs : (k, v) ∈ defined fs → (k, Some v) ∈ fs.
Proof.
  unfold defined. rewrite list_elem_of_omap. intros ([k' [v'|]] & Hin & [= -> ->]). exact Hin.
Qed.
Lemma defined_NoDup fs : NoDup fs.*1 → NoDup (defined fs).*1.
Proof.
  induction fs as [|[k [v|]] fs IH]; cbn; [constructor| |]; intros [Hk Hnd]%NoDup_cons; [|auto].
  constructor; [|auto]. intros ([k' v'] & -> & Hin)%list_elem_of_fmap. apply Hk.
  apply list_elem_of_fmap. exists (k', Some v'). split; [done|by apply defined_keys].
Qed.
Lemma get_defined k fs : NoDup fs.*1 → Obj.get k (defined fs) = mjoin (Obj.get k fs).
Proof.
  induction fs as [|[k' [v|]] fs IH]; cbn; [done| |]; intros [Hk Hnd]%NoDup_cons.
  - case_decide; [done|auto].
  - case_decide as Hkk; [|auto]. subst k'. destruct (Obj.get k (defined fs)) as [v|] eqn:E; [|done].
    exfalso. apply Hk. apply Obj.get_elem, defined_keys in E. apply list_elem_of_fmap. by exists (k, Some v).
Qed.

(** ** The printer *)

(** [Number.prototype.toString] of a finite number. *)
Class NumberText : Type := { num_text : number → string }.

Section text.
Context `{NumberText}.

Definition number_json (n : number) : JsonValue :=
  match n with S754_nan | S754_infinity _ => jnull | _ => jnumber (num_text n) end.
Definition strings_json (l : list string) : JsonValue := jarray (jstring <$> l).

Definition category_json (c : CustomCategory) : JsonValue := object
  [("name", Some (jstring (cat_name c))); ("description", Some (jstring (cat_description c)));
   ("allowed", Some (jbool (cat_allowed c)))].

Definition spending_json (s : SpendingCaps) : JsonValue := object
  [("perTransaction", Some (number_json (perTransaction s))); ("perDay", Some (number_json (perDay s)));
   ("perConnection", Some (number_json (perConnection s)))].

Definition manifest_json (m : PermissionsManifest) : JsonValue := object
  [("calendar", Some (jstring (calendar_name (calendar m))));
   ("files", Some (jstring (files_name (files m))));
   ("allowedFolders", strings_json <$> allowedFolders m);
   ("actions", Some (jstring (actions_name (actions m))));
   ("actionScopes", strings_json <$> actionScopes m);
   ("spending", Some (spending_json (spending m)));
   ("informationBoundaries", Some (strings_json (informationBoundaries m)));
   ("customCategories", Some (jarray (category_json <$> customCategories m)))].

Definition connection_json (c : Connection) : JsonValue := object
  [("peerAddress", Some (jstring (peerAddress c)));
   ("peerPublicKey", jstring <$> peerPublicKey c);
   ("state", Some (jstring (state_text (cstate c))));
   ("nickname", Some (jstring (nickname c)));
   ("autonomyLevel", Some (jstring (level_name (autonomyLevel c))));
   ("autoRespondPolicy", jstring <$> autoRespondPolicy c);
   ("circuitBreakerTripped", jbool <$> circuitBreakerTripped c);
   ("permissionsManifest", manifest_json <$> permissionsManifest c);
   ("muted", jbool <$> muted c);
   ("passthrough", jbool <$> passthrough c);
   ("shortMessage", jstring <$> shortMessage c);
   ("createdAt", Some (jstring (createdAt c)));
   ("lastActivity", Some (jstring (lastActivity c)));
   ("expiresAt", jstring <$> expiresAt c)].

Definition store_json (d : StoreData) : JsonValue := object
  [("version", Some (number_json (num_of_Z (version d))));
   ("connections", Some (jobject ((λ kc, (kc.1, connection_json kc.2)) <$> connections d)))].

(** What [save] writes. *)
Definition store_text (d : StoreData) : string := JSON_stringify "  " (store_json d).
End text.

(** ** The reader: the value [JSON.parse] gives, as the type it is cast to *)
Definition read_string (v : JsonValue) : option string :=
  match v with jstring s => Some s | _ => None end.
Definition read_bool (v : JsonValue) : option bool :=
  match v with jbool b => Some b | _ => None end.
Definition read_number (v : JsonValue) : option number :=
  match v with jnumber token => Some (Number (Some token)) | _ => None end.
Definition read_list {A} (read : JsonValue → option A) (v : JsonValue) : option (list A) :=
  match v with jarray l => mapM read l | _ => None end.
Definition read_member {A} (name : A → string) (VALID : list A) (v : JsonValue) : option A :=
  read_string v ≫= member name VALID.
Definition read_object {A} (read : list (string * JsonValue) → option A) (v : JsonValue) : option A :=
  match v with jobject fs => read fs | _ => None end.

Definition field {A} (k : string) (read : JsonValue → option A) (fs : list (string * JsonValue)) : option A :=
  Obj.get k fs ≫= read.
(** A property that may be missing. *)
Definition optional {A} (k : string) (read : JsonValue → option A) (fs : list (string * JsonValue))
    : option (option A) :=
  match Obj.get k fs with Some v => Some <$> read v | None => Some None end.

Definition STATES : list ConnectionState := [active; pending_outbound; pending_inbound; blocked; revoked].
Definition read_level (v : JsonValue) : option AutonomyLevel :=
  s ← read_string v; Some (default (level_other s) (member level_name VALID_LEVELS s)).

Definition read_category : JsonValue → option CustomCategory := read_object (λ fs,
  n ← field "name" read_string fs; d ← field "description" read_string fs;
  a ← field "allowed" read_bool fs; Some (mkCategory n d a)).

Definition read_spending : JsonValue → option SpendingCaps := read_object (λ fs,
  t ← field "perTransaction" read_number fs; d ← field "perDay" read_number fs;
  c ← field "perConnection" read_number fs; Some (mkCaps t d c)).

Definition read_manifest : JsonValue → option PermissionsManifest := read_object (λ fs,
  cal ← field "calendar" (read_member calendar_name VALID_CALENDAR) fs;
  fl ← field "files" (read_member files_name VALID_FILES) fs;
  folders ← optional "allowedFolders" (read_list read_string) fs;
  act ← field "actions" (read_member actions_name VALID_ACTIONS) fs;
  scopes ← optional "actionScopes" (read_list read_string) fs;
  sp ← field "spending" read_spending fs;
  bs ← field "informationBoundaries" (read_list read_string) fs;
  cats ← field "customCategories" (read_list read_category) fs;
  Some (mkManifest cal fl folders act scopes sp bs cats)).

Definition read_connection : JsonValue → option Connection := read_object (λ fs,
  addr ← field "peerAddress" read_string fs;
  key ← optional "peerPublicKey" read_string fs;
  st ← field "state" (read_member state_text STATES) fs;
  nick ← field "nickname" read_string fs;
  level ← field "autonomyLevel" read_level fs;
  policy ← optional "autoRespondPolicy" read_string fs;
  tripped ← optional "circuitBreakerTripped" read_bool fs;
  manifest ← optional "permissionsManifest" read_manifest fs;
  mute ← optional "muted" read_bool fs;
  pass ← optional "passthrough" read_bool fs;
  short ← optional "shortMessage" read_string fs;
  created ← field "createdAt" read_string fs;
  last ← field "lastActivity" read_string fs;
  expires ← optional "expiresAt" read_string fs;
  Some (mkConnection addr key st nick level policy tripped manifest mute pass short created last expires)).

Definition read_entry_of (kv : string * JsonValue) : option (string * Connection) :=
  pair kv.1 <$> read_connection kv.2.
Definition read_store : JsonValue → option StoreData := read_object (λ fs,
  v ← field "version" read_number fs; v ← num_trunc v;
  cs ← field "connections" (read_object (mapM read_entry_of)) fs;
  Some (mkStoreData v cs)).

(** [load] of a text: what does not parse is an empty store. *)
Definition load_text `{Unicode} (text : string) : option StoreData :=
  match JSON_parse text with Some v => read_store v | None => Some emptyData end.

(** ** What can be stored: doubles that print and read back (no NaN, no negative
    zero), levels that are not a declared one in another form, one entry per address *)
Section storable.
Context `{NumberText, Unicode}.

Definition num_storable (n : number) : Prop :=
  match n with
  | S754_nan | S754_infinity _ => False
  | _ => number_ok (num_text n) ∧ Number (Some (num_text n)) = n
  end.
Definition spending_storable (s : SpendingCaps) : Prop :=
  num_storable (perTransaction s) ∧ num_storable (perDay s) ∧ num_storable (perConnection s).
Definition level_storable (l : AutonomyLevel) : Prop :=
  match l with level_other s => member level_name VALID_LEVELS s = None | _ => True end.
Definition connection_storable (c : Connection) : Prop :=
  level_storable (autonomyLevel c) ∧
  match permissionsManifest c with Some m => spending_storable (spending m) | None => True end.
Record storable (d : StoreData) : Prop := {
  st_version : num_storable (num_of_Z (version d)) ∧ num_trunc (num_of_Z (version d)) = Some (version d);
  st_keys : NoDup (connections d).*1;
  st_connections : Forall (λ kc, connection_storable kc.2) (connections d)
}.

(** *** The printed value is JSON *)
Lemma object_ok fs :
  NoDup fs.*1 → Forall (λ kv, match kv.2 with Some v => json_ok v | None => True end) fs → json_ok (object fs).
Proof.
  intros Hnd Hf. split; [by apply defined_NoDup|]. apply (foldr_and (λ kv, json_ok kv.2)), Forall_forall.
  intros [k v] Hin%defined_keys. rewrite Forall_forall in Hf. exact (Hf _ Hin).
Qed.
Lemma array_ok {A} (f : A → JsonValue) l : (∀ x, json_ok (f x)) → json_ok (jarray (f <$> l)).
Proof. intros Hf. apply foldr_and, Forall_fmap, Forall_true. exact Hf. Qed.
Lemma number_json_ok n : num_storable n → json_ok (number_json n).
Proof. destruct n; [intros [Hn _]; exact Hn|intros []|intros []|intros [Hn _]; exact Hn]. Qed.

Ltac fields_ok :=
  apply object_ok; [by apply (bool_decide_unpack _)|];
  repeat (apply Forall_cons; split; [cbn [snd]; try done|]); [..|by constructor].

Lemma spending_json_ok s : spending_storable s → json_ok (spending_json s).
Proof. intros (? & ? & ?). fields_ok; by apply number_json_ok. Qed.
Lemma strings_json_ok l : json_ok (strings_json l).
Proof. by apply array_ok. Qed.
Lemma manifest_json_ok m : spending_storable (spending m) → json_ok (manifest_json m).
Proof.
  intros Hs. fields_ok; try apply strings_json_ok.
  - destruct (allowedFolders m); [apply strings_json_ok|done].
  - destruct (actionScopes m); [apply strings_json_ok|done].
  - by apply spending_json_ok.
  - apply array_ok. intros c. by fields_ok.
Qed.
Lemma connection_json_ok c : connection_storable c → json_ok (connection_json c).
Proof.
  intros [_ Hm]. fields_ok.
  all: try (match goal with |- match _ <$> ?o with _ => _ end => by destruct o end).
  destruct (permissionsManifest c) as [m|]; [by apply manifest_json_ok|done].
Qed.
Lemma store_json_ok d : storable d → json_ok (store_json d).
Proof.
  intros [[Hv _] Hk Hc]. fields_ok; [by apply number_json_ok|]. split.
  - rewrite <- list_fmap_compose. exact Hk.
  - apply (foldr_and (λ kv, json_ok kv.2)), Forall_fmap. eapply Forall_impl; [exact Hc|].
    intros kc. apply connection_json_ok.
Qed.

(** *** and reads back *)
Lemma mapM_inverse {A B} (f : A → B) (g : B → option A) l :
  Forall (λ x, g (f x) = Some x) l → mapM g (f <$> l) = Some l.
Proof. induction 1 as [|x l Hx _ IH]; [done|]. cbn. by rewrite Hx, IH. Qed.

Lemma field_of {A} k (read : JsonValue → option A) fs v x :
  NoDup fs.*1 → Obj.get k fs = Some (Some v) → read v = Some x → field k read (defined fs) = Some x.
Proof. intros Hnd Hk Hr. unfold field. by rewrite get_defined, Hk. Qed.
Lemma optional_of {A} k (read : JsonValue → option A) fs (f : A → JsonValue) (o : option A) :
  NoDup fs.*1 → Obj.get k fs = Some (f <$> o) → (∀ x, o = Some x → read (f x) = Some x) →
  optional k read (defined fs) = Some o.
Proof.
  intros Hnd Hk Hr. unfold optional. rewrite get_defined, Hk by done. cbn.
  destruct o as [x|]; cbn; [by rewrite (Hr x eq_refl)|done].
Qed.

Lemma read_calendar c : read_member calendar_name VALID_CALENDAR (jstring (calendar_name c)) = Some c.
Proof. by destruct c. Qed.
Lemma read_files f : read_member files_name VALID_FILES (jstring (files_name f)) = Some f.
Proof. by destruct f. Qed.
Lemma read_actions a : read_member actions_name VALID_ACTIONS (jstring (actions_name a)) = Some a.
Proof. by destruct a. Qed.
Lemma read_state c : read_member state_text STATES (jstring (state_text c)) = Some c.
Proof. by destruct c. Qed.
Lemma read_strings l : read_list read_string (strings_json l) = Some l.
Proof. cbn. apply mapM_inverse, Forall_true. done. Qed.
Lemma read_number_json n : num_storable n → read_number (number_json n) = Some n.
Proof. destruct n; intros Hn; [|destruct Hn|destruct Hn|]; exact (f_equal Some (proj2 Hn)). Qed.
Lemma read_level_name l : level_storable l → read_level (jstring (level_name l)) = Some l.
Proof. destruct l as [| | | |s]; try done. cbn. intros ->. done. Qed.

(** Through a reader, field by field. *)
Ltac read_fields :=
  unfold object, read_object; cbv beta;
  repeat (first [ erewrite field_of; [|by apply (bool_decide_unpack _)|reflexivity|
                    solve [eassumption|reflexivity|eauto using read_calendar, read_files, read_actions,
                      read_state, read_strings, read_number_json, read_level_name]]
                | erewrite optional_of; [|by apply (bool_decide_unpack _)|reflexivity|
                    solve [reflexivity|done|eassumption|eauto using read_strings]] ];
          cbn [mbind option_bind]).

Lemma read_category_json c : read_category (category_json c) = Some c.
Proof. unfold read_category, category_json. read_fields. by destruct c.
Qed.
Lemma read_categories l : read_list read_category (jarray (category_json <$> l)) = Some l.
Proof. apply mapM_inverse, Forall_true, read_category_json. Qed.
Lemma read_spending_json s : spending_storable s → read_spending (spending_json s) = Some s.
Proof. intros (H1 & H2 & H3). unfold read_spending, spending_json. read_fields. by destruct s. Qed.

Lemma read_manifest_json m : spending_storable (spending m) → read_manifest (manifest_json m) = Some m.
Proof.
  intros Hs%read_spending_json. pose proof (read_categories (customCategories m)) as Hc.
  unfold read_manifest, manifest_json. read_fields. by destruct m.
Qed.

Lemma read_connection_json c : connection_storable c → read_connection (connection_json c) = Some c.
Proof.
  intros [Hl%read_level_name Hm].
  assert (∀ m, permissionsManifest c = Some m → read_manifest (manifest_json m) = Some m) as Hm'.
  { intros m E. rewrite E in Hm. by apply read_manifest_json. }
  unfold read_connection, connection_json. read_fields.
  by destruct c.
Qed.

Lemma read_store_json d : storable d → read_store (store_json d) = Some d.
Proof.
  intros [[Hv%read_number_json Ht] _ Hc].
  assert (mapM read_entry_of ((λ kc, (kc.1, connection_json kc.2)) <$> connections d) = Some (connections d)) as Hcs.
  { apply mapM_inverse. eapply Forall_impl; [exact Hc|]. intros [k c] H1. unfold read_entry_of. cbn [fst snd] in *.
    by rewrite read_connection_json. }
  unfold read_store, store_json. read_fields. rewrite Ht. cbn [mbind option_bind].
  by destruct d.
Qed.

(** *** Anything after the text of a value, or too little of it, is no JSON *)

(** Where reading may stop at the end of the text. *)
Definition settled_at (st : PState) : Prop :=
  (∃ v, st.1 = finished v) ∨ ∃ ns token, st = (in_number ns token, []).

Definition has_brace (s : string) : bool := negb (str_forall (λ c, bool_decide (c ≠ "}"%char)) s).

Lemma parse_settled s v :
  JSON_parse s = Some v → ∃ st, run s (want_value, []) = Some st ∧ settled_at st.
Proof.
  unfold JSON_parse. destruct (run s (want_value, [])) as [[m stk]|]; [|done]. intros Hv. exists (m, stk).
  split; [done|]. destruct m; try done; [right|left; by eexists]. destruct stk; [by eexists _, _|done].
Qed.

Lemma finished_step c v stk st : step c (finished v, stk) = Some st → c ≠ "}"%char ∧ settled_at st.
Proof.
  unfold step, step_plain. cbn. destruct (is_ws c) eqn:E; [|done]. intros [= <-]. split; [|by left; eexists].
  by intros ->.
Qed.
Lemma settled_step c st st' : settled_at st → step c st = Some st' → c ≠ "}"%char ∧ settled_at st'.
Proof.
  destruct st as [m stk]. intros [[v [= ->]]|(ns & token & [= -> ->])]; [apply finished_step|].
  unfold step. cbn. destruct (num_next ns c) as [ns'|] eqn:En.
  - intros [= <-]. split; [|right; by eexists _, _]. intros ->. by destruct ns.
  - destruct (num_accepts ns); [|done]. cbn. apply (finished_step c (jnumber token) []).
Qed.
Lemma settled_then r st : settled_at st → has_brace r = true → run r st = None.
Proof.
  unfold has_brace. revert st. induction r as [|c r IH]; intros st Hs Hb; [done|]. cbn in Hb |- *.
  destruct (step c st) as [st'|] eqn:E; [|done]. destruct (settled_step c st st' Hs E) as [Hc Hs'].
  rewrite bool_decide_eq_true_2 in Hb by done. by apply IH.
Qed.

(** A text that ends where an object ends. *)
Lemma brace_suffix a b t : a +:+ b = t +:+ "}" → b ≠ "" → has_brace b = true.
Proof.
  revert t. induction a as [|c a IH]; intros t E Hb.
  - change ("" +:+ b) with b in E. subst b. clear Hb. unfold has_brace.
    induction t as [|d t IHt]; [done|]. change (String d t +:+ "}") with (String d (t +:+ "}")).
    cbn. apply negb_true_iff. apply negb_true_iff in IHt. rewrite IHt. by rewrite andb_false_r.
  - destruct t as [|d t].
    + change (String c (a +:+ b) = String "}" "") in E. injection E as _ E. destruct a; [by simplify_eq/=|done].
    + change (String c (a +:+ b) = String d (t +:+ "}")) in E. injection E as _ E. by apply (IH t).
Qed.
Lemma store_text_end d : ∃ t, store_text d = t +:+ "}".
Proof.
  unfold store_text, JSON_stringify, store_json, object. cbn [stringify].
  assert (∀ o ind ps, ∃ t, enclose "  " o "}" ind ps = t +:+ "}") as He.
  { intros o ind [|q qs]; [by exists o|]. cbn [enclose]. eexists. rewrite <- !str_app_assoc. reflexivity. }
  apply He.
Qed.

Lemma nothing_follows s v r : JSON_parse s = Some v → has_brace r = true → JSON_parse (s +:+ r) = None.
Proof.
  intros (st & Hr & Hs)%parse_settled Hb. unfold JSON_parse. rewrite run_app, Hr. cbn [mbind option_bind].
  by rewrite (settled_then r st Hs Hb).
Qed.

(** C40. The file is read back: what [save] writes [load] reads, every connection with
    every setting, for any store whose numbers have a text; but if a write is
    cut short, or the end of an older text follows it, what is left is no JSON
    at all, and [load] makes an empty store of it. *)
Theorem saved_text_loads d :
  storable d →
  load_text (store_text d) = Some d ∧
  (∀ a b, store_text d = a +:+ b → b ≠ "" → load_text a = Some emptyData) ∧
  ∀ rest, has_brace rest = true → load_text (store_text d +:+ rest) = Some emptyData.
Proof.
  intros Hd. assert (JSON_parse (store_text d) = Some (store_json d)) as Hp
    by (apply stringify_parses; [done|by apply store_json_ok]).
  unfold load_text. split_and!.
  - rewrite Hp. by apply read_store_json.
  - intros a b E Hb. destruct (JSON_parse a) as [v|] eqn:Ea; [exfalso|done].
    destruct (store_text_end d) as [t Et].
    pose proof (nothing_follows a v b Ea (brace_suffix a b t ltac:(congruence) Hb)) as Hn. congruence.
  - intros rest Hb. by rewrite (nothing_follows _ _ _ Hp Hb).
Qed.
End storable.

(** ** Witness: the store of a fresh peer *)
Module SampleNumbers.
(** The two numbers that a store without spending caps holds. *)
#[export] Instance number_text : NumberText := {
  num_text n := if decide (n = num_of_Z 1) then "1" else "0"
}.
End SampleNumbers.

Section witnesses.
Import SampleText SampleNumbers.

Definition stored_peer : Connection :=
  mkConnection "pinch:a@h" (Some "QQ==") blocked "Ann" (level_other "custom") None (Some true)
    (Some defaultPermissionsManifest) None None (Some "hi") "2026-01-01T00:00:00.000Z"
    "2026-01-01T00:00:00.000Z" None.
Definition stored_data : StoreData := mkStoreData 1 [("pinch:a@h", stored_peer)].

Lemma stored_storable : storable stored_data.
Proof.
  assert (num_storable num0) as H0 by (split; [exact (nat_text_ok 0)|vm_compute; reflexivity]).
  split.
  - split; [|vm_compute; reflexivity]. split; [exact (nat_text_ok 1)|vm_compute; reflexivity].
  - by apply (bool_decide_unpack _).
  - constructor; [|constructor]. split; [vm_compute; reflexivity|]. by split_and!.
Qed.

Lemma saved_text_loads_witness :
  load_text (store_text stored_data) = Some stored_data ∧
  load_text (store_text stored_data +:+ "}") = Some emptyData.
Proof.
  destruct (saved_text_loads stored_data stored_storable) as (H1 & _ & H2). split; [exact H1|].
  apply H2. reflexivity.
Defined.
End witnesses.
