(* ===== verification/Saving.v ===== *)
(** [ConnectionStore.save] (connection-store.ts) as the asynchronous function it is:
    the directory, then the text of the data as it is at that moment, then the
    file, which is opened and cut off before it is written. *)
From S2P Require Import Prelude Threads JsLib PermissionsManifest ConnectionStore StoreText.

Section saving.
Context `{NumberText}.

Definition file_text (f : StoreFile) : string :=
  match f with NoFile => "" | NotJson text => text | Json d => store_text d end.

Fixpoint str_drop (n : nat) (s : string) : string :=
  match n, s with S n, String _ s => str_drop n s | _, _ => s end.

(** Writing the text of [d] from the start of what is in the file. *)
Definition overwritten (d : StoreData) (f : StoreFile) : StoreFile :=
  let rest := str_drop (String.length (store_text d)) (file_text f) in
  if decide (rest = "") then Json d else NotJson (store_text d +:+ rest).

Definition put_file (f : StoreFile) (st : ConnectionStore) : ConnectionStore := mkStore (data st) f.

(** [mkdir(dirname(path), { recursive: true })] *)
Definition mkdir : Async ConnectionStore unit := later (λ st, st).
(** [writeFile(path, text, "utf-8")]: open with truncation, then the write. *)
Definition writeFile (d : StoreData) : Async ConnectionStore unit :=
  later (put_file (NotJson ""));; later (λ st, put_file (overwritten d (file st)) st).

Definition save_async : Async ConnectionStore unit :=
  await mkdir;;
  d ← sync (gets data);
  await (writeFile d).

(** What is left of the call when it has returned its promise. *)
Definition started_save : thread ConnectionStore unit := (save_async (newStore NoFile)).1.
Lemma save_starts st : save_async st = (started_save, st).
Proof. reflexivity. Qed.

Lemma overwritten_cut d : overwritten d (NotJson "") = Json d.
Proof.
  unfold overwritten. cbn [file_text]. destruct (String.length (store_text d)); cbn [str_drop];
    by rewrite decide_True.
Qed.
Lemma overwritten_cases d f :
  overwritten d f = Json d ∨ ∃ rest, rest ≠ "" ∧ overwritten d f = NotJson (store_text d +:+ rest).
Proof. unfold overwritten. case_decide; [by left|right; by eexists]. Qed.

(** With nobody else at the file a save is the [save] of ConnectionStore. *)
Lemma save_alone st : alone id save_async st = save st.
Proof.
  destruct st as [d f]. transitivity (Ok tt, mkStore d (overwritten d (NotJson ""))); [reflexivity|].
  by rewrite overwritten_cut.
Qed.

(** *** Turn by turn *)
Section turns.
Context (I : ConnectionStore → Prop) (R : relation ConnectionStore) (good : StoreData → Prop).
Context `{!PreOrder R} (stable : ∀ s s', R s s' → I s → I s').
Context (I_good : ∀ st, I st → good (data st)).
Context (R_cut : ∀ st, I st → R st (put_file (NotJson "") st)).
Context (R_write : ∀ d st, good d → I st → R st (put_file (overwritten d (file st)) st)).

Lemma save_async_keeps : async_keeps I R save_async.
Proof using All.
  unfold save_async. apply keeps_bind; [apply _|exact stable|..].
  - apply keeps_await; [apply _|]. apply keeps_later; [apply _|]. intros s _. reflexivity.
  - intros _. apply (keeps_gets I R data good); [exact I_good|]. intros d Hd.
    apply keeps_await; [apply _|]. unfold writeFile.
    apply keeps_bind; [apply _|exact stable|..]; [|intros _]; apply keeps_later; auto; apply _.
Qed.
End turns.
End saving.
