(* ===== verification/ConnectionManager.v ===== *)
(** [connection.ts]: the connection lifecycle between peers.  The manager sends
    through the relay client, of which it uses the assigned address and
    [sendEnvelope], and keeps the connection store. *)
From S2P Require Import Prelude JsLib JsDate Platform PermissionsManifest ConnectionStore.
From S2P Require Import MessageStore ActivityFeed World Envelope.

(** ** State *)

(** What the manager sees of [RelayClient]: [connected] is the guard of [send]
    (authenticated, with an open socket), [sent] the envelopes handed to it. *)
Record Relay : Type := mkRelay {
  assignedAddress : option string;
  connected : bool;
  sent : list Envelope
}.

Record Agent : Type := mkAgent {
  ag_world : World;
  ag_relay : Relay
}.

Definition put_world (w : World) (s : Agent) : Agent := mkAgent w (ag_relay s).
Definition put_relay (r : Relay) (s : Agent) : Agent := mkAgent (ag_world s) r.

Program Definition worldL : lens Agent World := Lens ag_world put_world _ _ _.
Solve All Obligations with (by intros; try destruct t).
Program Definition relayL : lens Agent Relay := Lens ag_relay put_relay _ _ _.
Solve All Obligations with (by intros; try destruct t).

Definition ag_store (s : Agent) : ConnectionStore := w_store (ag_world s).
Definition ag_conn (a : string) (s : Agent) : option Connection := getConnection a (ag_store s).

(** [RelayClient.sendEnvelope] *)
Definition sendEnvelope (e : Envelope) : M Relay unit := λ r,
  if connected r then (Ok tt, mkRelay (assignedAddress r) (connected r) (sent r ++ [e]))
  else (Throw "not connected", r).

Definition MAX_MESSAGE_LENGTH : nat := 280.
Definition REQUEST_TTL_SECONDS : Z := 604800.

Section manager.
Context `{EN : Env, SH : Sha256, B64 : Base64}.

(** [this.keypair?.publicKey ?? new Uint8Array(0)] *)
Context (keypair : option bytes).
Definition own_key : bytes := default [] keypair.

(** ** Calls *)
Definition now_ : M Agent Z := zoom worldL date_now.
Definition conn_ (a : string) : M Agent (option Connection) := zoom worldL (w_getConnection a).
Definition update_ (a : string) (u : ConnectionUpdates) : M Agent Connection :=
  zoom worldL (w_updateConnection a u).
Definition save_ : M Agent unit := zoom worldL w_save.
Definition send_ (e : Envelope) : M Agent unit := zoom relayL (sendEnvelope e).
Definition add_ (c : ConnectionInput) : M Agent Connection :=
  zoom worldL (now ← date_now; zoom storeL (addConnection now c)).

(** [const ownAddress = ...; if (!ownAddress) throw ...] *)
Definition own_address : M Agent string :=
  own ← gets (λ s, assignedAddress (ag_relay s));
  if truthy_str own then mret (default "" own) else throw "Not connected to relay".

(** [new Date(ms).toISOString()] *)
Definition iso_ (ms : Z) : M Agent string :=
  match toISOString ms with Some s => mret s | None => throw "Invalid time value" end.

(** ** Operations *)
Definition sendRequest (toAddress message : string) : M Agent unit :=
  if (MAX_MESSAGE_LENGTH <? String.length message)%nat
  then throw "Message exceeds 280 character limit"
  else
    ownAddress ← own_address;
    now ← now_;
    let expiresAt := (now / 1000 + REQUEST_TTL_SECONDS)%Z in
    send_ (envelope ownAddress toAddress CONNECTION_REQUEST
             (connectionRequest (mkRequest ownAddress toAddress message own_key expiresAt)));;
    now ← now_;
    expires ← iso_ ((now / 1000 + REQUEST_TTL_SECONDS) * 1000)%Z;
    _ ← add_ (mkInput toAddress "" pending_outbound "" (Some full_manual) None (Some message)
                (Some expires));
    save_.

Definition handleIncomingRequest (e : Envelope) : M Agent unit :=
  match env_payload e with
  | connectionRequest request =>
      let senderPubKeyBase64 :=
        match req_senderPublicKey request with
        | [] => ""
        | key => base64_encode key
        end in
      expires ← (if bool_decide (req_expiresAt request ≠ 0%Z)
                 then s ← iso_ (req_expiresAt request * 1000)%Z; mret (Some s)
                 else mret None);
      _ ← add_ (mkInput (req_fromAddress request) senderPubKeyBase64 pending_inbound ""
                  (Some full_manual) None (Some (req_message request)) expires);
      save_
  | _ => mret tt
  end.

Definition approveRequest (peerAddress : string) : M Agent unit :=
  conn ← conn_ peerAddress;
  match conn with
  | None => throw ("No connection found for " +:+ peerAddress)
  | Some conn =>
      if bool_decide (cstate conn ≠ pending_inbound)
      then throw ("Cannot approve connection in state: " +:+ state_text (cstate conn))
      else
        ownAddress ← own_address;
        send_ (envelope ownAddress peerAddress CONNECTION_RESPONSE
                 (connectionResponse (mkResponse ownAddress peerAddress true own_key)));;
        _ ← update_ peerAddress (with_state active);
        save_
  end.

Definition rejectRequest (peerAddress : string) : M Agent unit :=
  conn ← conn_ peerAddress;
  match conn with
  | None => throw ("No connection found for " +:+ peerAddress)
  | Some conn =>
      if bool_decide (cstate conn ≠ pending_inbound)
      then throw ("Cannot reject connection in state: " +:+ state_text (cstate conn))
      else
        _ ← update_ peerAddress (with_state revoked);
        save_
  end.

Definition handleIncomingResponse (e : Envelope) : M Agent unit :=
  match env_payload e with
  | connectionResponse response =>
      _ ← (if rsp_accepted response then
             let responderPubKeyBase64 :=
               match rsp_responderPublicKey response with
               | [] => ""
               | key => base64_encode key
               end in
             update_ (rsp_fromAddress response)
               (with_state_and_key active
                  (if bool_decide (responderPubKeyBase64 = "") then None
                   else Some responderPubKeyBase64))
           else update_ (rsp_fromAddress response) (with_state revoked));
      save_
  | _ => mret tt
  end.

Definition blockConnection (peerAddress : string) : M Agent unit :=
  ownAddress ← own_address;
  _ ← update_ peerAddress (with_state blocked);
  send_ (envelope ownAddress "" BLOCK_NOTIFICATION
           (blockNotification (mkBlock ownAddress peerAddress)));;
  save_.

Definition unblockConnection (peerAddress : string) : M Agent unit :=
  ownAddress ← own_address;
  _ ← update_ peerAddress (with_state active);
  send_ (envelope ownAddress "" UNBLOCK_NOTIFICATION
           (unblockNotification (mkUnblock ownAddress peerAddress)));;
  save_.

Definition revokeConnection (peerAddress : string) : M Agent unit :=
  ownAddress ← own_address;
  send_ (envelope ownAddress peerAddress CONNECTION_REVOKE
           (connectionRevoke (mkRevoke ownAddress peerAddress)));;
  _ ← update_ peerAddress (with_state revoked);
  save_.

Definition handleIncomingRevoke (e : Envelope) : M Agent unit :=
  match env_payload e with
  | connectionRevoke revoke =>
      conn ← conn_ (rvk_fromAddress revoke);
      match conn with
      | Some _ => _ ← update_ (rvk_fromAddress revoke) (with_state revoked); save_
      | None => mret tt
      end
  | _ => mret tt
  end.

(** The handler [setupHandlers] registers; a throw is a rejection nobody awaits. *)
Definition handleEnvelope (e : Envelope) : M Agent unit :=
  match env_type e with
  | CONNECTION_REQUEST => handleIncomingRequest e
  | CONNECTION_RESPONSE => handleIncomingResponse e
  | CONNECTION_REVOKE => handleIncomingRevoke e
  | _ => mret tt
  end.

(** ** The operations as one alphabet *)
Inductive Op : Type :=
| op_send (toAddress message : string)
| op_approve (peerAddress : string)
| op_reject (peerAddress : string)
| op_block (peerAddress : string)
| op_unblock (peerAddress : string)
| op_revoke (peerAddress : string)
| op_receive (e : Envelope).

Definition run (op : Op) : M Agent unit :=
  match op with
  | op_send a m => sendRequest a m
  | op_approve a => approveRequest a
  | op_reject a => rejectRequest a
  | op_block a => blockConnection a
  | op_unblock a => unblockConnection a
  | op_revoke a => revokeConnection a
  | op_receive e => handleEnvelope e
  end.

(** The connection an operation is about. *)
Definition target (op : Op) : option string :=
  match op with
  | op_send a _ | op_approve a | op_reject a | op_block a | op_unblock a | op_revoke a => Some a
  | op_receive e =>
      match env_type e, env_payload e with
      | CONNECTION_REQUEST, connectionRequest q => Some (req_fromAddress q)
      | CONNECTION_RESPONSE, connectionResponse p => Some (rsp_fromAddress p)
      | CONNECTION_REVOKE, connectionRevoke v => Some (rvk_fromAddress v)
      | _, _ => None
      end
  end.

(** The lifecycle, as the code has it: what an operation may turn a connection's
    state into, from which state ([None] is an unknown peer). *)
Inductive transition : Op → option ConnectionState → ConnectionState → Prop :=
| t_send a m o : transition (op_send a m) o pending_outbound
| t_request e q o : env_payload e = connectionRequest q → transition (op_receive e) o pending_inbound
| t_approve a : transition (op_approve a) (Some pending_inbound) active
| t_reject a : transition (op_reject a) (Some pending_inbound) revoked
| t_accepted e p st : env_payload e = connectionResponse p → rsp_accepted p = true →
    transition (op_receive e) (Some st) active
| t_refused e p st : env_payload e = connectionResponse p → rsp_accepted p = false →
    transition (op_receive e) (Some st) revoked
| t_block a st : transition (op_block a) (Some st) blocked
| t_unblock a st : transition (op_unblock a) (Some st) active
| t_revoke a st : transition (op_revoke a) (Some st) revoked
| t_revoked e v st : env_payload e = connectionRevoke v → transition (op_receive e) (Some st) revoked.
End manager.

(** ** Symbolic execution of the operations *)

(** Writing one connection, as [updateConnection] and [addConnection] do. *)
Definition wrote (a : string) (c : Connection) (s s' : Agent) : Prop :=
  ∀ b, ag_conn b s' = if decide (a = b) then Some c else ag_conn b s.

Definition unwritten (s s' : Agent) : Prop := ∀ b, ag_conn b s' = ag_conn b s.

Section running.
Context `{EN : Env, SH : Sha256, B64 : Base64}.

Lemma update_ok a u s c :
  ag_conn a s = Some c →
  ∃ s', update_ a u s = (Ok (assign c u (isoString (env_now (w_tick (ag_world s))))), s') ∧
        wrote a (assign c u (isoString (env_now (w_tick (ag_world s))))) s s' ∧
        ag_relay s' = ag_relay s ∧ file (ag_store s') = file (ag_store s).
Proof.
  intros Hc. destruct s as [[t st d f ev] r].
  unfold update_, w_updateConnection, date_now, zoom, mbind, M_bind, ask. cbn.
  rewrite (updateConnection_run _ _ _ _ _ Hc). cbn. eexists. split; [reflexivity|].
  split; [|done]. intros b. apply getConnection_set.
Qed.

Lemma update_missing a u s :
  ag_conn a s = None →
  ∃ s', update_ a u s = (Throw ("connection not found: " +:+ a), s') ∧
        ag_store s' = ag_store s ∧ ag_relay s' = ag_relay s.
Proof.
  intros Hc. destruct s as [[t st d f ev] r].
  unfold update_, w_updateConnection, date_now, zoom, mbind, M_bind, ask. cbn.
  rewrite (updateConnection_missing _ _ _ _ Hc). cbn. by eexists.
Qed.

(** The connection [addConnection] stores. *)
Definition new_connection (i : ConnectionInput) (now : string) : Connection :=
  mkConnection (in_peerAddress i) (Some (in_peerPublicKey i)) (in_state i) (in_nickname i)
    (default full_manual (in_autonomyLevel i)) None None
    (Some (default defaultPermissionsManifest (in_permissionsManifest i))) None None
    (in_shortMessage i) now now (in_expiresAt i).

Definition too_long (i : ConnectionInput) : bool :=
  truthy_str (in_shortMessage i) &&
  (MAX_SHORT_MESSAGE_LENGTH <? String.length (default "" (in_shortMessage i)))%nat.

Lemma add_run i s :
  ∃ s', ag_relay s' = ag_relay s ∧ file (ag_store s') = file (ag_store s) ∧
  if too_long i
  then add_ i s = (Throw "shortMessage exceeds 280 character limit", s') ∧ ag_store s' = ag_store s
  else ∃ now, add_ i s = (Ok (new_connection i now), s') ∧
              wrote (in_peerAddress i) (new_connection i now) s s'.
Proof.
  destruct s as [[t st d f ev] r]. unfold add_, too_long.
  unfold zoom, date_now, mbind, M_bind, ask, addConnection. cbn.
  destruct (truthy_str _ && _); cbn.
  - refine (ex_intro _ _ (conj _ (conj _ (conj eq_refl _)))); done.
  - refine (ex_intro _ _ (conj _ (conj _ (ex_intro _ (isoString (env_now t)) (conj eq_refl _)))));
      [done..|]. intros b. apply getConnection_set.
Qed.

Lemma save_run s :
  ∃ s', save_ s = (Ok tt, s') ∧ unwritten s s' ∧ ag_relay s' = ag_relay s ∧
        file (ag_store s') = Json (data (ag_store s)) ∧ data (ag_store s') = data (ag_store s).
Proof. by destruct s as [[t st d f ev] r]; eexists. Qed.

Lemma send_run e s :
  send_ e s =
  if connected (ag_relay s)
  then (Ok tt, put_relay (mkRelay (assignedAddress (ag_relay s)) true (sent (ag_relay s) ++ [e])) s)
  else (Throw "not connected", s).
Proof. destruct s as [w [a [] l]]; done. Qed.

Lemma own_address_run s :
  own_address s =
  if truthy_str (assignedAddress (ag_relay s))
  then (Ok (default "" (assignedAddress (ag_relay s))), s)
  else (Throw "Not connected to relay", s).
Proof. unfold own_address, mbind, M_bind, gets. by destruct (truthy_str _). Qed.

Lemma now_eq s :
  now_ s = (Ok (env_now (w_tick (ag_world s))),
            put_world (put_tick (S (w_tick (ag_world s))) (ag_world s)) s).
Proof. by destruct s as [[] ]. Qed.

Lemma conn_run a s : conn_ a s = (Ok (ag_conn a s), s).
Proof. by destruct s as [[] ]. Qed.

Lemma now_run s :
  ∃ s', now_ s = (Ok (env_now (w_tick (ag_world s))), s') ∧ ag_store s' = ag_store s ∧
        ag_relay s' = ag_relay s.
Proof. destruct s as [[t st d f ev] r]. by eexists. Qed.
End running.

Lemma unwritten_store s s' : ag_store s' = ag_store s → unwritten s s'.
Proof. intros E b. unfold ag_conn. by rewrite E. Qed.
Lemma wrote_then a c s s1 s2 : wrote a c s s1 → unwritten s1 s2 → wrote a c s s2.
Proof. intros Hw Hu b. by rewrite Hu. Qed.
Lemma then_wrote a c s s1 s2 : unwritten s s1 → wrote a c s1 s2 → wrote a c s s2.
Proof. intros Hu Hw b. by rewrite Hw, Hu. Qed.
Lemma unwritten_trans s s1 s2 : unwritten s s1 → unwritten s1 s2 → unwritten s s2.
Proof. intros H1 H2 b. by rewrite H2. Qed.
Lemma unwritten_refl s : unwritten s s.
Proof. done. Qed.
#[export] Hint Resolve unwritten_store unwritten_refl wrote_then then_wrote unwritten_trans : store.

(** What [Object.assign] of a state (and a key) leaves alone. *)
Definition keeps_settings (c c' : Connection) : Prop :=
  autonomyLevel c' = autonomyLevel c ∧ autoRespondPolicy c' = autoRespondPolicy c ∧
  circuitBreakerTripped c' = circuitBreakerTripped c ∧
  permissionsManifest c' = permissionsManifest c ∧ muted c' = muted c ∧
  passthrough c' = passthrough c ∧ nickname c' = nickname c.

(** The settings of a connection nobody has configured. *)
Definition fresh_settings (c : Connection) : Prop :=
  autonomyLevel c = full_manual ∧ autoRespondPolicy c = None ∧ circuitBreakerTripped c = None ∧
  permissionsManifest c = Some defaultPermissionsManifest ∧ muted c = None ∧
  passthrough c = None ∧ nickname c = "".

Section footprints.
Context `{EN : Env, SH : Sha256, B64 : Base64} (keypair : option bytes).

(** An operation writes nothing, or one connection: its target, along the
    lifecycle, with the settings kept or those of a new connection. *)
Definition footprint (op : Op) (s s' : Agent) : Prop :=
  unwritten s s' ∨
  ∃ a c', target op = Some a ∧ wrote a c' s s' ∧
    transition op (cstate <$> ag_conn a s) (cstate c') ∧
    (fresh_settings c' ∨ ∃ c, ag_conn a s = Some c ∧ keeps_settings c c').

Lemma assign_state_settings c st now : keeps_settings c (assign c (with_state st) now).
Proof. by destruct c. Qed.
Lemma assign_key_settings c st k now : keeps_settings c (assign c (with_state_and_key st k) now).
Proof. by destruct c. Qed.
Lemma new_settings i now :
  in_autonomyLevel i = Some full_manual → in_permissionsManifest i = None → in_nickname i = "" →
  fresh_settings (new_connection i now).
Proof. destruct i; simpl; intros; by simplify_eq/=. Qed.

(** [updateConnection] followed by [save]. *)
Lemma update_save a u s :
  ∃ s', ag_relay s' = ag_relay s ∧
  match ag_conn a s with
  | Some c => ∃ now, (_ ← update_ a u; save_) s = (Ok tt, s') ∧ wrote a (assign c u now) s s' ∧
                     file (ag_store s') = Json (data (ag_store s'))
  | None => (_ ← update_ a u; save_) s = (Throw ("connection not found: " +:+ a), s') ∧
            ag_store s' = ag_store s
  end.
Proof.
  unfold mbind, M_bind. destruct (ag_conn a s) as [c|] eqn:E.
  - destruct (update_ok a u s c E) as (s1 & -> & Hw & Er & _).
    destruct (save_run s1) as (s2 & -> & Hu & Er2 & Ef & Ed). exists s2. split; [congruence|].
    eexists. split; [done|]. split; [eauto with store|]. by rewrite Ef, Ed.
  - destruct (update_missing a u s E) as (s1 & -> & Es & Er). by exists s1.
Qed.

Lemma footprint_update_save op a u s :
  target op = Some a →
  (∀ c now, ag_conn a s = Some c →
     transition op (Some (cstate c)) (cstate (assign c u now)) ∧ keeps_settings c (assign c u now)) →
  footprint op s ((_ ← update_ a u; save_) s).2.
Proof.
  intros Ht Hk. destruct (update_save a u s) as (s' & _ & H).
  destruct (ag_conn a s) as [c|] eqn:E.
  - destruct H as (now & -> & Hw & _). right. exists a, (assign c u now). rewrite E.
    destruct (Hk c now eq_refl). split; [done|]. split; [done|]. split; [done|]. right. by exists c.
  - destruct H as [-> Es]. left. by apply unwritten_store.
Qed.

Lemma footprint_before op s s1 s2 :
  ag_store s1 = ag_store s → footprint op s1 s2 → footprint op s s2.
Proof.
  intros E Hf. assert (∀ b, ag_conn b s1 = ag_conn b s) as Eb by (intros b; unfold ag_conn; by rewrite E).
  destruct Hf as [Hu|(a & c & Ht & Hw & Htr & Hs)]; [left; intros b; by rewrite Hu|].
  right. exists a, c. rewrite Eb in Htr, Hs. split; [done|]. split; [|done].
  intros b. by rewrite Hw, Eb.
Qed.

Lemma footprint_none op s : footprint op s s.
Proof. by left. Qed.

Lemma footprint_add_save op i s :
  target op = Some (in_peerAddress i) → (∀ o, transition op o (in_state i)) →
  in_autonomyLevel i = Some full_manual → in_permissionsManifest i = None → in_nickname i = "" →
  footprint op s ((_ ← add_ i; save_) s).2.
Proof.
  intros Ht Htr Hl Hm Hn. unfold mbind, M_bind.
  destruct (add_run i s) as (s1 & Er & _ & H). destruct (too_long i).
  - destruct H as [-> Es]. left. by apply unwritten_store.
  - destruct H as (now & -> & Hw). destruct (save_run s1) as (s2 & -> & Hu & _). right.
    exists (in_peerAddress i), (new_connection i now). split; [done|].
    split; [eauto with store|]. split; [apply Htr|]. left. by apply new_settings.
Qed.

Lemma footprint_block op a u e s :
  target op = Some a →
  (∀ c now, ag_conn a s = Some c →
     transition op (Some (cstate c)) (cstate (assign c u now)) ∧ keeps_settings c (assign c u now)) →
  footprint op s ((_ ← update_ a u; send_ e;; save_) s).2.
Proof.
  intros Ht Hk. unfold mbind, M_bind. destruct (ag_conn a s) as [c|] eqn:E.
  - destruct (update_ok a u s c E) as (s1 & -> & Hw & _). right. eexists a, _.
    split; [done|]. rewrite E. destruct (Hk c (isoString (env_now (w_tick (ag_world s)))) eq_refl).
    split; [|split; [done|right; by exists c]].
    rewrite send_run. destruct (connected _); [|done]. cbv beta iota.
    match goal with |- context [save_ ?x] => destruct (save_run x) as (s2 & -> & Hu & _) end.
    cbn. eapply wrote_then; [exact Hw|]. exact Hu.
  - destruct (update_missing a u s E) as (s1 & -> & Es & _). left. by apply unwritten_store.
Qed.

(** Statements that may end the operation before anything is written. *)
Ltac past_own := bind1; rewrite own_address_run; destruct (truthy_str _); [|apply footprint_none].
Ltac past_send := bind1; rewrite send_run; destruct (connected _); [|apply footprint_none].
Ltac past_pending a s :=
  bind1; rewrite conn_run; destruct (ag_conn a s) as [c|] eqn:E; [|apply footprint_none];
  destruct (decide (cstate c = pending_inbound)) as [Hp|Hp];
  [rewrite bool_decide_eq_false_2 by naive_solver
  |rewrite bool_decide_eq_true_2 by done; apply footprint_none].

Lemma sendRequest_footprint a m s : footprint (op_send a m) s (run keypair (op_send a m) s).2.
Proof.
  cbn [run]. unfold sendRequest. destruct (_ <? _)%nat; [apply footprint_none|]. past_own.
  bind1. destruct (now_run s) as (s1 & -> & E1 & _). apply (footprint_before _ _ _ _ E1). past_send.
  bind1. match goal with |- context [now_ ?x] => destruct (now_run x) as (s2 & -> & E2 & _) end.
  apply (footprint_before _ _ _ _ E2). bind1. unfold iso_ at 1.
  destruct (toISOString _); [|apply footprint_none]. by apply footprint_add_save; [|constructor|..].
Qed.

Lemma handleEnvelope_footprint e s : footprint (op_receive e) s (run keypair (op_receive e) s).2.
Proof.
  cbn [run]. unfold handleEnvelope, handleIncomingRequest, handleIncomingResponse, handleIncomingRevoke.
  destruct (env_type e) eqn:Et; try apply footprint_none;
    destruct (env_payload e) as [| | | | | |q|p|v| | | | | | |] eqn:Ep; try apply footprint_none.
  - bind1. destruct (bool_decide _); [bind1; unfold iso_; destruct (toISOString _); [|apply footprint_none]|];
      cbn; (apply footprint_add_save; try done; [by simpl; rewrite Et, Ep|];
      intros o; by apply (t_request _ q)).
  - destruct (rsp_accepted p) eqn:Ea; apply footprint_update_save; try (by simpl; rewrite Et, Ep).
    + intros c now _. split; [by apply (t_accepted _ p)|apply assign_key_settings].
    + intros c now _. split; [by apply (t_refused _ p)|apply assign_state_settings].
  - bind1. rewrite conn_run. destruct (ag_conn _ s) eqn:E; [|apply footprint_none].
    apply footprint_update_save; [by simpl; rewrite Et, Ep|].
    intros c0 now _. split; [by apply (t_revoked _ v)|apply assign_state_settings].
Qed.

Lemma run_footprint op s : footprint op s (run keypair op s).2.
Proof.
  destruct op as [a m|a|a|a|a|a|e];
    [apply sendRequest_footprint|cbn [run]..|apply handleEnvelope_footprint].
  - unfold approveRequest. past_pending a s. past_own. past_send.
    eapply footprint_before; [|apply (footprint_update_save (op_approve a) a)]; [done..|].
    intros c' now E'. change (ag_conn a s = Some c') in E'. simplify_eq. rewrite Hp.
    split; [constructor|apply assign_state_settings].
  - unfold rejectRequest. past_pending a s.
    apply (footprint_update_save (op_reject a) a); [done|].
    intros c' now E'. simplify_eq. rewrite Hp. split; [constructor|apply assign_state_settings].
  - unfold blockConnection. past_own.
    apply footprint_block; [done|]. split; [constructor|apply assign_state_settings].
  - unfold unblockConnection. past_own.
    apply footprint_block; [done|]. split; [constructor|apply assign_state_settings].
  - unfold revokeConnection. past_own. past_send.
    eapply footprint_before; [|apply (footprint_update_save (op_revoke a) a)]; [done..|].
    split; [constructor|apply assign_state_settings].
Qed.
End footprints.

Section theorems.
Context `{EN : Env, SH : Sha256, B64 : Base64} (keypair : option bytes).

(** C22. The lifecycle: whatever an operation or an incoming envelope does, and also
    when it throws half-way, it touches at most the one connection it is about;
    that connection's state moves along [transition], from the state the table
    asks for, and its settings are either kept or those of a new connection
    (Full Manual, deny-all, no policy). *)
Theorem lifecycle_transitions op s r s' :
  run keypair op s = (r, s') →
  ∀ a, ag_conn a s' = ag_conn a s ∨
    (target op = Some a ∧ ∃ c', ag_conn a s' = Some c' ∧
       transition op (cstate <$> ag_conn a s) (cstate c') ∧
       (fresh_settings c' ∨ ∃ c, ag_conn a s = Some c ∧ keeps_settings c c')).
Proof.
  intros Hr a. pose proof (run_footprint keypair op s) as Hf. rewrite Hr in Hf.
  destruct Hf as [Hu|(b & c' & Ht & Hw & Htr)]; [by left|].
  pose proof (Hw a) as Ha. cbn [snd] in Ha. destruct (decide (b = a)) as [<-|]; [right|by left].
  split; [done|]. by exists c'.
Qed.

Definition relay_ready (own : string) (s : Agent) : Prop :=
  assignedAddress (ag_relay s) = Some own ∧ own ≠ "" ∧ connected (ag_relay s) = true.

Lemma own_address_ready own s : relay_ready own s → own_address s = (Ok own, s).
Proof.
  intros (Ha & Hne & _). rewrite own_address_run, Ha. simpl. by rewrite bool_decide_eq_false_2.
Qed.

Definition sends (e : Envelope) (s s' : Agent) : Prop :=
  ag_relay s' = mkRelay (assignedAddress (ag_relay s)) (connected (ag_relay s))
                  (sent (ag_relay s) ++ [e]).

Lemma send_ready e own s : relay_ready own s →
  ∃ s', send_ e s = (Ok tt, s') ∧ sends e s s' ∧ ag_world s' = ag_world s.
Proof.
  intros (_ & _ & Hc). rewrite send_run, Hc. eexists. split; [done|]. split; [|done].
  unfold sends. by rewrite Hc.
Qed.

(** Approval: only a pending inbound request can be approved; it becomes active
    with its stored key, the acceptance carrying the own key goes out, and the
    store is saved.  In any other state, for an unknown peer, or without the
    relay, the call throws and neither store nor wire changes. *)
Theorem approveRequest_spec a s r s' :
  approveRequest keypair a s = (r, s') →
  match ag_conn a s with
  | Some c =>
      (∀ own, cstate c = pending_inbound → relay_ready own s →
         r = Ok tt ∧
         (∃ now, ag_conn a s' = Some (assign c (with_state active) now)) ∧
         (∀ b, b ≠ a → ag_conn b s' = ag_conn b s) ∧
         file (ag_store s') = Json (data (ag_store s')) ∧
         sends (envelope own a CONNECTION_RESPONSE
                  (connectionResponse (mkResponse own a true (own_key keypair)))) s s') ∧
      (cstate c ≠ pending_inbound ∨ truthy_str (assignedAddress (ag_relay s)) = false ∨
       connected (ag_relay s) = false → (∃ e, r = Throw e) ∧ s' = s)
  | None => r = Throw ("No connection found for " +:+ a) ∧ s' = s
  end.
Proof.
  intros Hr. revert Hr. unfold approveRequest. bind1. rewrite conn_run.
  destruct (ag_conn a s) as [c|] eqn:E; [|by intros [= <- <-]].
  destruct (decide (cstate c = pending_inbound)) as [Hp|Hp].
  2:{ rewrite bool_decide_eq_true_2 by done. intros [= <- <-]. split; [done|]. eauto. }
  rewrite bool_decide_eq_false_2 by naive_solver. intros Hr. split.
  - intros own _ Hready. revert Hr. bind1. rewrite (own_address_ready own) by done.
    bind1. destruct (send_ready (envelope own a CONNECTION_RESPONSE
      (connectionResponse (mkResponse own a true (own_key keypair)))) own s Hready)
      as (s1 & -> & Hs & Ew).
    destruct (update_save a (with_state active) s1) as (s2 & Er & H).
    assert (ag_conn a s1 = Some c) as E1 by (unfold ag_conn, ag_store; by rewrite Ew).
    rewrite E1 in H. destruct H as (now & -> & Hw & Hf). intros [= <- <-].
    assert (∀ b, ag_conn b s1 = ag_conn b s) as Eb by (intros b; unfold ag_conn, ag_store; by rewrite Ew).
    split; [done|]. split; [exists now; rewrite Hw; by rewrite decide_True|].
    split; [intros b Hb; rewrite Hw, decide_False by done; apply Eb|].
    split; [done|]. unfold sends in *. congruence.
  - intros [?|Hno]; [done|]. revert Hr. bind1. rewrite own_address_run.
    destruct (truthy_str _) eqn:Et; [|intros [= <- <-]; by eauto].
    destruct Hno as [|Hno]; [done|]. bind1. rewrite send_run, Hno. intros [= <- <-]. eauto.
Qed.

(** Rejection is silent: whatever comes of it, nothing is sent and the relay is
    not touched; a pending inbound request becomes revoked and is saved, and
    any other connection is refused with the store as it was. *)
Theorem rejectRequest_silent a s r s' :
  rejectRequest a s = (r, s') →
  ag_relay s' = ag_relay s ∧
  match ag_conn a s with
  | Some c =>
      if decide (cstate c = pending_inbound)
      then r = Ok tt ∧ (∃ now, ag_conn a s' = Some (assign c (with_state revoked) now)) ∧
           (∀ b, b ≠ a → ag_conn b s' = ag_conn b s) ∧
           file (ag_store s') = Json (data (ag_store s'))
      else r = Throw ("Cannot reject connection in state: " +:+ state_text (cstate c)) ∧ s' = s
  | None => r = Throw ("No connection found for " +:+ a) ∧ s' = s
  end.
Proof.
  unfold rejectRequest. bind1. rewrite conn_run.
  destruct (ag_conn a s) as [c|] eqn:E; [|by intros [= <- <-]].
  destruct (decide (cstate c = pending_inbound)) as [Hp|Hp].
  2:{ rewrite bool_decide_eq_true_2 by done. by intros [= <- <-]. }
  rewrite bool_decide_eq_false_2 by naive_solver.
  destruct (update_save a (with_state revoked) s) as (s1 & Er & H). rewrite E in H.
  destruct H as (now & -> & Hw & Hf). intros [= <- <-]. split; [done|]. split; [done|].
  split; [exists now; rewrite Hw; by rewrite decide_True|]. split; [|done].
  intros b Hb. by rewrite Hw, decide_False.
Qed.

(** An accepted response activates whatever it names: no check that a request
    was sent, so a peer that is blocked, revoked or still waiting for approval
    becomes active by saying so, keeping its autonomy level and manifest; only
    an unknown sender is refused. *)
Theorem accepted_response_activates e p s r s' :
  env_type e = CONNECTION_RESPONSE → env_payload e = connectionResponse p →
  rsp_accepted p = true →
  handleEnvelope e s = (r, s') →
  match ag_conn (rsp_fromAddress p) s with
  | Some c => r = Ok tt ∧ ∃ c', ag_conn (rsp_fromAddress p) s' = Some c' ∧
                cstate c' = active ∧ keeps_settings c c'
  | None => r = Throw ("connection not found: " +:+ rsp_fromAddress p) ∧ unwritten s s'
  end.
Proof.
  intros Et Ep Ea. unfold handleEnvelope, handleIncomingResponse. rewrite Et, Ep, Ea.
  destruct (update_save (rsp_fromAddress p)
    (with_state_and_key active
       (if bool_decide (match rsp_responderPublicKey p with [] => "" | key => base64_encode key end = "")
        then None
        else Some (match rsp_responderPublicKey p with [] => "" | key => base64_encode key end))) s)
    as (s1 & _ & H).
  destruct (ag_conn (rsp_fromAddress p) s) as [c|].
  - destruct H as (now & Hr & Hw & _). cbv zeta. rewrite Hr. intros [= <- <-]. split; [done|].
    eexists. split; [rewrite Hw; by rewrite decide_True|]. split; [done|apply assign_key_settings].
  - destruct H as [Hr Es]. cbv zeta. rewrite Hr. intros [= <- <-]. split; [done|].
    by apply unwritten_store.
Qed.

(** An incoming request replaces whatever connection its sender had, a blocked or
    an active one included: afterwards that connection is a new pending inbound
    one at Full Manual with the deny-all manifest, and nothing was sent. *)
Theorem incoming_request_replaces e q s r s' :
  env_type e = CONNECTION_REQUEST → env_payload e = connectionRequest q →
  String.length (req_message q) ≤ 280 → req_expiresAt q = 0%Z →
  handleEnvelope e s = (r, s') →
  r = Ok tt ∧ ag_relay s' = ag_relay s ∧
  ∃ c', ag_conn (req_fromAddress q) s' = Some c' ∧ cstate c' = pending_inbound ∧
        fresh_settings c' ∧ expiresAt c' = None ∧
        ∀ b, b ≠ req_fromAddress q → ag_conn b s' = ag_conn b s.
Proof.
  intros Et Ep Hl He. unfold handleEnvelope, handleIncomingRequest. rewrite Et, Ep, He.
  rewrite bool_decide_eq_false_2 by naive_solver.
  bind1. unfold mret at 1, M_ret at 1. bind1.
  match goal with |- context [add_ ?x] => set (i := x) end.
  destruct (add_run i s) as (s1 & Er & _ & H).
  assert (too_long i = false) as Hno.
  { unfold too_long. simpl. apply andb_false_intro2, Nat.ltb_ge. exact Hl. }
  rewrite Hno in H. destruct H as (now & Hr & Hw). rewrite Hr. destruct (save_run s1) as (s2 & -> & Hu & Er2 & _).
  intros [= <- <-]. split; [done|]. split; [congruence|].
  exists (new_connection i now). split; [rewrite Hu, Hw; by rewrite decide_True|].
  split; [done|]. split; [by apply new_settings|]. split; [done|].
  intros b Hb. rewrite Hu, Hw, decide_False; done.
Qed.

(** Blocking while the socket is down but an address is still assigned throws
    after the change: the connection is blocked in memory, but the relay is
    not told and the file on disk still holds the old state. *)
Theorem block_offline_is_local own a s c r s' :
  assignedAddress (ag_relay s) = Some own → own ≠ "" → connected (ag_relay s) = false →
  ag_conn a s = Some c →
  blockConnection a s = (r, s') →
  r = Throw "not connected" ∧ (cstate <$> ag_conn a s') = Some blocked ∧
  ag_relay s' = ag_relay s ∧ file (ag_store s') = file (ag_store s).
Proof.
  intros Ha Hne Hno Hc. unfold blockConnection. bind1. rewrite own_address_run, Ha. simpl.
  rewrite bool_decide_eq_false_2 by done. simpl. bind1.
  destruct (update_ok a (with_state blocked) s c Hc) as (s1 & -> & Hw & Er & Ef).
  bind1. rewrite send_run, Er, Hno. intros [= <- <-]. split; [done|]. split; [|done].
  rewrite Hw, decide_True by done. done.
Qed.

(** A request lives seven days: with the relay ready and a short enough message
    the peer becomes a new pending outbound connection whose stored expiry is
    the clock plus seven days, to the second below, and exactly one request,
    with the expiry in seconds, goes out; too long a message, or no relay,
    throws and changes neither store nor wire. *)
Theorem sendRequest_spec a m s r s' :
  sendRequest keypair a m s = (r, s') →
  let n1 := env_now (w_tick (ag_world s)) in
  let n2 := env_now (S (w_tick (ag_world s))) in
  let e := ((n2 / 1000 + 604800) * 1000)%Z in
  (∀ own, relay_ready own s → String.length m ≤ 280 → (0 ≤ n2 ≤ 8000000000000000)%Z →
     r = Ok tt ∧
     (∃ c', ag_conn a s' = Some c' ∧ cstate c' = pending_outbound ∧ fresh_settings c' ∧
            expiresAt c' = Some (isoString e) ∧
            (n2 + 604800000 - 1000 < e ≤ n2 + 604800000)%Z) ∧
     (∀ b, b ≠ a → ag_conn b s' = ag_conn b s) ∧
     sends (envelope own a CONNECTION_REQUEST
              (connectionRequest (mkRequest own a m (own_key keypair) (n1 / 1000 + 604800)%Z))) s s') ∧
  (280 < String.length m ∨ truthy_str (assignedAddress (ag_relay s)) = false →
     (∃ err, r = Throw err) ∧ s' = s).
Proof.
  intros Hr n1 n2 e. revert Hr. unfold sendRequest.
  destruct (decide (280 < String.length m)) as [Hl|Hl].
  { rewrite (proj2 (Nat.ltb_lt _ _)) by exact Hl. intros [= <- <-].
    split; [intros; lia|intros _; eauto]. }
  rewrite (proj2 (Nat.ltb_ge _ _)) by (unfold MAX_MESSAGE_LENGTH; lia). intros Hr. split.
  2:{ intros [?|Ht]; [done|]. revert Hr. bind1. rewrite own_address_run, Ht.
      intros [= <- <-]. eauto. }
  intros own Hready _ Hn. revert Hr. bind1. rewrite (own_address_ready own) by done.
  destruct Hready as (_ & _ & Hc).
  bind1. rewrite now_eq. bind1. rewrite send_run. cbn [ag_relay put_world]. rewrite Hc.
  bind1. rewrite now_eq. cbn [ag_world put_world put_relay w_tick put_tick].
  fold n1 n2. bind1. unfold iso_ at 1, toISOString. fold REQUEST_TTL_SECONDS.
  change ((n2 / 1000 + REQUEST_TTL_SECONDS) * 1000)%Z with e.
  assert (n2 + 604800000 - 1000 < e ≤ n2 + 604800000)%Z as He
    by (unfold e; Z.to_euclidean_division_equations; lia).
  rewrite (proj2 (andb_true_iff _ _)) by (rewrite !Z.leb_le; lia).
  unfold mret at 1, M_ret at 1. bind1.
  match goal with |- context [add_ ?x ?y] => set (i := x); set (s1 := y) end.
  destruct (add_run i s1) as (s2 & Er & _ & H).
  assert (too_long i = false) as Hno
    by (unfold too_long; simpl; apply andb_false_intro2, Nat.ltb_ge;
        unfold MAX_SHORT_MESSAGE_LENGTH; lia).
  rewrite Hno in H.
  destruct H as (now & -> & Hw). destruct (save_run s2) as (s3 & -> & Hu & Er3 & _).
  intros [= <- <-]. split; [done|]. split; [|split].
  - exists (new_connection i now). split; [rewrite Hu, Hw; by rewrite decide_True|].
    split; [done|]. split; [by apply new_settings|]. done.
  - intros b Hb. rewrite Hu, Hw, decide_False by done. done.
  - unfold sends. rewrite Er3, Er. cbn. by rewrite Hc.
Qed.
End theorems.

(** ** Witnesses *)
Section witnesses.
Import Sample SampleEnv.
#[local] Instance cm_env : Env := env None None.

Definition online : Relay := mkRelay (Some "pinch:me@h") true [].
Definition offline : Relay := mkRelay (Some "pinch:me@h") false [].
Definition peer (st : ConnectionState) (r : Relay) : Agent :=
  mkAgent (world (sample_connection st full_auto) emptyDb) r.
Definition peer_addr : string := "pinch:p@h".
Definition yes_response : Envelope :=
  envelope peer_addr "pinch:me@h" CONNECTION_RESPONSE
    (connectionResponse (mkResponse peer_addr "pinch:me@h" true [Byte.x41])).
Definition a_request : Envelope :=
  envelope peer_addr "pinch:me@h" CONNECTION_REQUEST
    (connectionRequest (mkRequest peer_addr "pinch:me@h" "hello" [Byte.x41] 0)).

Lemma online_ready st : relay_ready "pinch:me@h" (peer st online).
Proof. split; [reflexivity|split; [discriminate|reflexivity]]. Qed.

Lemma lifecycle_transitions_witness :
  ∃ c, ag_conn peer_addr (run None (op_receive a_request) (peer active online)).2 = Some c ∧
       cstate c = pending_inbound.
Proof.
  destruct (run None (op_receive a_request) (peer active online)) as [r s'] eqn:E.
  destruct (lifecycle_transitions None _ _ r s' E peer_addr) as [H|(_ & c' & Hc & Ht & _)].
  - exfalso. apply (f_equal (λ x, cstate <$> ag_conn peer_addr x.2)) in E. simpl in E.
    rewrite H in E. vm_compute in E. discriminate E.
  - exists c'. split; [exact Hc|]. inversion Ht; simplify_eq/=; reflexivity.
Defined.

Lemma approveRequest_spec_witness :
  (approveRequest None peer_addr (peer pending_inbound online)).1 = Ok tt.
Proof.
  destruct (approveRequest None peer_addr (peer pending_inbound online)) as [r s'] eqn:E.
  exact (proj1 (proj1 (approveRequest_spec None peer_addr _ r s' E) "pinch:me@h" eq_refl
    (online_ready _))).
Defined.

Lemma rejectRequest_silent_witness :
  ag_relay (rejectRequest peer_addr (peer pending_inbound online)).2 = online.
Proof.
  destruct (rejectRequest peer_addr (peer pending_inbound online)) as [r s'] eqn:E.
  exact (proj1 (rejectRequest_silent peer_addr _ r s' E)).
Defined.

Lemma accepted_response_activates_witness :
  ∃ c, ag_conn peer_addr (handleEnvelope yes_response (peer blocked online)).2 = Some c ∧
       cstate c = active ∧ autonomyLevel c = full_auto.
Proof.
  destruct (handleEnvelope yes_response (peer blocked online)) as [r s'] eqn:E.
  destruct (accepted_response_activates yes_response _ _ r s' eq_refl eq_refl eq_refl E)
    as (_ & c' & Hc & Ha & Hl & _).
  exists c'. split; [exact Hc|]. split; [exact Ha|exact Hl].
Defined.

Lemma incoming_request_replaces_witness :
  ∃ c, ag_conn peer_addr (handleEnvelope a_request (peer blocked online)).2 = Some c ∧
       cstate c = pending_inbound.
Proof.
  destruct (handleEnvelope a_request (peer blocked online)) as [r s'] eqn:E.
  destruct (incoming_request_replaces a_request _ _ r s' eq_refl eq_refl ltac:(simpl; lia) eq_refl E)
    as (_ & _ & c' & Hc & Hs & _).
  exists c'. split; [exact Hc|exact Hs].
Defined.

Lemma block_offline_is_local_witness :
  (blockConnection peer_addr (peer active offline)).1 = Throw "not connected".
Proof.
  destruct (blockConnection peer_addr (peer active offline)) as [r s'] eqn:E.
  exact (proj1 (block_offline_is_local "pinch:me@h" peer_addr (peer active offline) (sample_connection active full_auto)
    r s' eq_refl ltac:(discriminate) eq_refl eq_refl E)).
Defined.

Lemma sendRequest_spec_witness :
  (sendRequest None "pinch:q@h" "hello" (peer active online)).1 = Ok tt.
Proof.
  destruct (sendRequest None "pinch:q@h" "hello" (peer active online)) as [r s'] eqn:E.
  refine (proj1 (proj1 (sendRequest_spec None "pinch:q@h" "hello" _ r s' E) "pinch:me@h"
    (online_ready _) _ _)); simpl; lia.
Defined.
End witnesses.
