(* ===== verification/PermissionsTool.v ===== *)
(** pinch-permissions (tools/pinch-permissions.ts): editing the manifest of a
    connection, and when the edit is kept. *)
From S2P Require Import Prelude JsLib JsDate JsNumber Platform PermissionsManifest ConnectionStore.
From S2P Require Import MessageStore Args ArgsSpec ActivityFeed World InboundRouter PermissionsEnforcer.
From S2P Require Import Envelope ConnectionManager.
From stdpp Require Import gmap.
#[local] Open Scope Z_scope.

(** ** The edit *)
Definition put_calendar (v : CalendarPermission) (m : PermissionsManifest) : PermissionsManifest :=
  let 'mkManifest _ x1 x2 x3 x4 x5 x6 x7 := m in mkManifest v x1 x2 x3 x4 x5 x6 x7.
Definition put_files (v : FilePermission) (m : PermissionsManifest) : PermissionsManifest :=
  let 'mkManifest x0 _ x2 x3 x4 x5 x6 x7 := m in mkManifest x0 v x2 x3 x4 x5 x6 x7.
Definition put_allowedFolders (v : option (list string)) (m : PermissionsManifest) : PermissionsManifest :=
  let 'mkManifest x0 x1 _ x3 x4 x5 x6 x7 := m in mkManifest x0 x1 v x3 x4 x5 x6 x7.
Definition put_actions (v : ActionPermission) (m : PermissionsManifest) : PermissionsManifest :=
  let 'mkManifest x0 x1 x2 _ x4 x5 x6 x7 := m in mkManifest x0 x1 x2 v x4 x5 x6 x7.
Definition put_actionScopes (v : option (list string)) (m : PermissionsManifest) : PermissionsManifest :=
  let 'mkManifest x0 x1 x2 x3 _ x5 x6 x7 := m in mkManifest x0 x1 x2 x3 v x5 x6 x7.
Definition put_spending (v : SpendingCaps) (m : PermissionsManifest) : PermissionsManifest :=
  let 'mkManifest x0 x1 x2 x3 x4 _ x6 x7 := m in mkManifest x0 x1 x2 x3 x4 v x6 x7.
Definition put_informationBoundaries (v : list string) (m : PermissionsManifest) : PermissionsManifest :=
  let 'mkManifest x0 x1 x2 x3 x4 x5 _ x7 := m in mkManifest x0 x1 x2 x3 x4 x5 v x7.
Definition put_customCategories (v : list CustomCategory) (m : PermissionsManifest) : PermissionsManifest :=
  let 'mkManifest x0 x1 x2 x3 x4 x5 x6 _ := m in mkManifest x0 x1 x2 x3 x4 x5 x6 v.

(** [if (x !== undefined) m.f = x] *)
Definition when {V A} (o : option V) (f : V → A → A) (a : A) : A :=
  match o with Some v => f v a | None => a end.

Definition map_spending (f : SpendingCaps → SpendingCaps) (m : PermissionsManifest)
    : PermissionsManifest := put_spending (f (spending m)) m.
Definition put_perTransaction (v : number) : PermissionsManifest → PermissionsManifest :=
  map_spending (λ s, mkCaps v (perDay s) (perConnection s)).
Definition put_perDay (v : number) : PermissionsManifest → PermissionsManifest :=
  map_spending (λ s, mkCaps (perTransaction s) v (perConnection s)).
Definition put_perConnection (v : number) : PermissionsManifest → PermissionsManifest :=
  map_spending (λ s, mkCaps (perTransaction s) (perDay s) v).

(** [informationBoundaries.push(b)] *)
Definition add_boundary (b : string) (m : PermissionsManifest) : PermissionsManifest :=
  put_informationBoundaries (informationBoundaries m ++ [b]) m.

(** [splice(i, 1)] when [i >= 0 && i < length]; the index is truncated. *)
Definition remove_boundary (i : number) (m : PermissionsManifest) : PermissionsManifest :=
  let bs := informationBoundaries m in
  if num_geb i 0 && num_ltb i (Z.of_nat (length bs))
  then put_informationBoundaries (delete (Z.to_nat (default 0 (num_trunc i))) bs) m
  else m.

Definition add_category (name : string) (description : option string) (allowed : option bool)
    (m : PermissionsManifest) : PermissionsManifest :=
  match description with
  | Some description =>
      put_customCategories
        (customCategories m ++ [mkCategory name description (default false allowed)]) m
  | None => m
  end.

Definition remove_category (name : string) (m : PermissionsManifest) : PermissionsManifest :=
  put_customCategories (filter (λ c, cat_name c ≠ name) (customCategories m)) m.

(** The modifications, in the order of the code. *)
Definition edit_manifest (parsed : ParsedArgs) (m : PermissionsManifest) : PermissionsManifest :=
  let m := when (pa_calendar parsed) put_calendar m in
  let m := when (pa_files parsed) put_files m in
  let m := when (pa_folders parsed) (put_allowedFolders ∘ Some) m in
  let m := when (pa_actions parsed) put_actions m in
  let m := when (pa_scopes parsed) (put_actionScopes ∘ Some) m in
  let m := when (pa_spendingPerTx parsed) put_perTransaction m in
  let m := when (pa_spendingPerDay parsed) put_perDay m in
  let m := when (pa_spendingPerConnection parsed) put_perConnection m in
  let m := when (pa_addBoundary parsed) add_boundary m in
  let m := when (pa_removeBoundary parsed) remove_boundary m in
  let m := when (pa_addCategory parsed)
             (λ n, add_category n (pa_categoryDescription parsed) (pa_categoryAllowed parsed)) m in
  when (pa_removeCategory parsed) remove_category m.

(** ** The tool *)

(** The edits of [connection.permissionsManifest] are made in place: they are in
    the store's object before it is validated.  The default manifest of a
    connection without one is a fresh object. *)
Definition with_live_manifest (m : PermissionsManifest) (c : Connection) : Connection :=
  match permissionsManifest c with
  | Some _ =>
      mkConnection (peerAddress c) (peerPublicKey c) (cstate c) (nickname c) (autonomyLevel c)
        (autoRespondPolicy c) (circuitBreakerTripped c) (Some m) (muted c) (passthrough c)
        (shortMessage c) (createdAt c) (lastActivity c) (expiresAt c)
  | None => c
  end.

Definition edit_in_place (addr : string) (m : PermissionsManifest) : M ConnectionStore unit := λ st,
  match getConnection addr st with
  | Some c => (Ok tt, set_connections (Obj.set addr (with_live_manifest m c)) st)
  | None => (Ok tt, st)
  end.

(** What a tool prints about a manifest. *)
Inductive PermissionsOutput : Type :=
| perm_error (msg : string)
| perm_shown (address : string) (manifest : PermissionsManifest)
| perm_updated (address : string) (manifest : PermissionsManifest).

Section tool.
Context `{EN : Env, SH : Sha256, B64 : Base64}.

(** [run], after [parseArgs] and [bootstrapLocal]. *)
Definition tool_permissions (parsed : ParsedArgs) : M Agent PermissionsOutput :=
  let address := pa_address parsed in
  connection ← conn_ address;
  match connection with
  | None => mret (perm_error ("Connection not found: " +:+ address))
  | Some connection =>
      let manifest := default defaultPermissionsManifest (permissionsManifest connection) in
      if pa_show parsed then mret (perm_shown address manifest)
      else
        let manifest := edit_manifest parsed manifest in
        zoom worldL (zoom storeL (edit_in_place address manifest));;
        try_catch_with
          (_ ← zoom worldL (now ← date_now; zoom storeL (setPermissions now address manifest));
           save_;;
           mret (perm_updated address manifest))
          (λ msg, mret (perm_error msg))
  end.
End tool.

(** ** What an edit does *)
Lemma when_keep {V A B} (π : A → B) (o : option V) (f : V → A → A) a :
  (∀ v a, π (f v a) = π a) → π (when o f a) = π a.
Proof. intros H. by destruct o; simpl. Qed.

(** Skip the modifications that do not touch the field [π]. *)
Ltac skip π :=
  repeat (rewrite (when_keep π);
    [|solve [intros ? []; unfold remove_boundary, add_category; repeat case_match; reflexivity]]).

Lemma when_set {V A B} (π : A → B) (g : V → B) (o : option V) (f : V → A → A) a :
  (∀ v a, π (f v a) = g v) → π (when o f a) = default (π a) (g <$> o).
Proof. intros H. by destruct o; simpl. Qed.

(** The modification that sets the field [π], to [g] of its option. *)
Ltac set_by π g := unfold edit_manifest; skip π; rewrite (when_set π g) by (by intros ? []); skip π.

(** The three caps of a manifest. *)
Definition cap_tx (m : PermissionsManifest) : number := perTransaction (spending m).
Definition cap_day (m : PermissionsManifest) : number := perDay (spending m).
Definition cap_conn (m : PermissionsManifest) : number := perConnection (spending m).

Section edit.
Context (p : ParsedArgs) (m : PermissionsManifest).

Lemma edit_calendar : calendar (edit_manifest p m) = default (calendar m) (pa_calendar p).
Proof. set_by calendar (λ v : CalendarPermission, v). by rewrite option_fmap_id. Qed.
Lemma edit_files : files (edit_manifest p m) = default (files m) (pa_files p).
Proof. set_by files (λ v : FilePermission, v). by rewrite option_fmap_id. Qed.
Lemma edit_folders :
  allowedFolders (edit_manifest p m) = assigned (pa_folders p) (allowedFolders m).
Proof. set_by allowedFolders (@Some (list string)). by destruct (pa_folders p). Qed.
Lemma edit_actions : actions (edit_manifest p m) = default (actions m) (pa_actions p).
Proof. set_by actions (λ v : ActionPermission, v). by rewrite option_fmap_id. Qed.
Lemma edit_scopes : actionScopes (edit_manifest p m) = assigned (pa_scopes p) (actionScopes m).
Proof. set_by actionScopes (@Some (list string)). by destruct (pa_scopes p). Qed.

Lemma edit_spending :
  spending (edit_manifest p m) =
  mkCaps (default (perTransaction (spending m)) (pa_spendingPerTx p))
    (default (perDay (spending m)) (pa_spendingPerDay p))
    (default (perConnection (spending m)) (pa_spendingPerConnection p)).
Proof.
  assert (∀ c : SpendingCaps, c = mkCaps (perTransaction c) (perDay c) (perConnection c)) as Hc by by intros [].
  rewrite (Hc (spending _)). f_equal.
  - change (cap_tx (edit_manifest p m) = default (cap_tx m) (pa_spendingPerTx p)).
    set_by cap_tx (λ v : number, v). by rewrite option_fmap_id.
  - change (cap_day (edit_manifest p m) = default (cap_day m) (pa_spendingPerDay p)).
    set_by cap_day (λ v : number, v). by rewrite option_fmap_id.
  - change (cap_conn (edit_manifest p m) = default (cap_conn m) (pa_spendingPerConnection p)).
    set_by cap_conn (λ v : number, v). by rewrite option_fmap_id.
Qed.

(** The boundary added comes last; then the one at the index is removed. *)
Definition drop_boundary (i : option number) (bs : list string) : list string :=
  match i with
  | Some i => if num_geb i 0 && num_ltb i (Z.of_nat (length bs))
              then delete (Z.to_nat (default 0 (num_trunc i))) bs else bs
  | None => bs
  end.

Lemma edit_boundaries :
  informationBoundaries (edit_manifest p m) =
  drop_boundary (pa_removeBoundary p) (informationBoundaries m ++ option_list (pa_addBoundary p)).
Proof.
  unfold edit_manifest. skip informationBoundaries.
  assert (∀ i m', informationBoundaries (when i remove_boundary m') =
                  drop_boundary i (informationBoundaries m')) as ->.
  { intros [i|] []; simpl; [|done]. unfold remove_boundary. simpl. by case_match. }
  f_equal. assert (∀ b m', informationBoundaries (when b add_boundary m') =
                  informationBoundaries m' ++ option_list b) as ->.
  { intros [b|] []; simpl; [done|by rewrite app_nil_r]. }
  f_equal. skip informationBoundaries. done.
Qed.

Lemma edit_categories :
  customCategories (edit_manifest p m) =
  filter (λ c, Some (cat_name c) ≠ pa_removeCategory p)
    (customCategories m ++
     match pa_addCategory p, pa_categoryDescription p with
     | Some n, Some d => [mkCategory n d (default false (pa_categoryAllowed p))]
     | _, _ => []
     end).
Proof.
  unfold edit_manifest.
  assert (∀ n m', customCategories (when n remove_category m') =
                  filter (λ c, Some (cat_name c) ≠ n) (customCategories m')) as ->.
  { intros [n|] []; simpl.
    - apply list_filter_iff. intros c. naive_solver.
    - symmetry. apply filter_id. by apply Forall_true. }
  f_equal.
  assert (∀ n d al m', customCategories (when n (λ n, add_category n d al) m') =
    customCategories m' ++ match n, d with
                           | Some n, Some d => [mkCategory n d (default false al)] | _, _ => [] end) as ->.
  { intros [n|] [d|] al []; simpl; by rewrite ?app_nil_r. }
  f_equal. skip customCategories. done.
Qed.
End edit.

(** A boundary that is added without removing one is in the edited manifest. *)
Lemma added_boundary p m b :
  pa_addBoundary p = Some b → pa_removeBoundary p = None →
  b ∈ informationBoundaries (edit_manifest p m).
Proof. intros Ha Hr. rewrite edit_boundaries, Ha, Hr. simpl. set_solver. Qed.

(** ** The tool *)

(** Two records of a connection that differ at most in manifest and activity. *)
Definition same_standing (c c' : Connection) : Prop :=
  peerAddress c' = peerAddress c ∧ peerPublicKey c' = peerPublicKey c ∧ cstate c' = cstate c ∧
  autonomyLevel c' = autonomyLevel c ∧ autoRespondPolicy c' = autoRespondPolicy c ∧
  circuitBreakerTripped c' = circuitBreakerTripped c ∧ muted c' = muted c ∧
  passthrough c' = passthrough c ∧ nickname c' = nickname c.

Section tool_theorems.
Context `{EN : Env, SH : Sha256, B64 : Base64}.

(** What the tool leaves: [c'] in place of [c], the rest of the store as it was. *)
Definition only_changes (addr : string) (c' : Connection) (s s' : Agent) : Prop :=
  ag_conn addr s' = Some c' ∧ (∀ a, a ≠ addr → ag_conn a s' = ag_conn a s) ∧
  w_db (ag_world s') = w_db (ag_world s) ∧ w_feed (ag_world s') = w_feed (ag_world s) ∧
  ag_relay s' = ag_relay s.

Lemma setPermissions_run now addr m st c :
  getConnection addr st = Some c →
  setPermissions now addr m st =
  if bool_decide (validateManifest m = [])
  then (Ok (assign c (with_manifest m) (isoString now)),
        set_connections (Obj.set addr (assign c (with_manifest m) (isoString now))) st)
  else (Throw ("Invalid permissions manifest: " +:+ JsLib.join "; " (validateManifest m)), st).
Proof.
  intros Hc. unfold setPermissions. case_bool_decide as H; case_bool_decide; try done.
  by apply updateConnection_run.
Qed.

Lemma saved_run {A} (x : A) t st db fd ev rl :
  (save_;; mret x) (mkAgent (mkWorld t st db fd ev) rl) =
  (Ok x, mkAgent (mkWorld t (mkStore (data st) (Json (data st))) db fd ev) rl).
Proof. reflexivity. Qed.

Lemma live_standing m c : same_standing c (with_live_manifest m c).
Proof. unfold with_live_manifest. by case_match. Qed.

(** What pinch-permissions promises about its printed result and the state. *)
Definition permissions_outcome (parsed : ParsedArgs) (s : Agent) (r : res PermissionsOutput)
    (s' : Agent) : Prop :=
  let addr := pa_address parsed in
  match ag_conn addr s with
  | None => r = Ok (perm_error ("Connection not found: " +:+ addr)) ∧ s' = s
  | Some c =>
      let m := edit_manifest parsed (manifest_of c) in
      if pa_show parsed then r = Ok (perm_shown addr (manifest_of c)) ∧ s' = s
      else
        ∃ c', only_changes addr c' s s' ∧ same_standing c c' ∧
          if bool_decide (validateManifest m = [])
          then r = Ok (perm_updated addr m) ∧ permissionsManifest c' = Some m ∧
               file (ag_store s') = Json (data (ag_store s'))
          else r = Ok (perm_error ("Invalid permissions manifest: " +:+
                                   JsLib.join "; " (validateManifest m))) ∧
               file (ag_store s') = file (ag_store s) ∧
               permissionsManifest c' = ((λ _, m) <$> permissionsManifest c)
  end.

Lemma tool_permissions_outcome parsed s r s' :
  tool_permissions parsed s = (r, s') → permissions_outcome parsed s r s'.
Proof.
  intros Hr. unfold permissions_outcome. set (addr := pa_address parsed).
  unfold tool_permissions in Hr. rewrite (bind_run _ _ _ _ _ (conn_run _ s)) in Hr. fold addr in Hr.
  destruct (ag_conn addr s) as [c|] eqn:Hc; [|by injection Hr as <- <-].
  fold (manifest_of c) in Hr. set (m := edit_manifest parsed (manifest_of c)) in *.
  destruct (pa_show parsed); [by injection Hr as <- <-|].
  destruct s as [[t st db fd ev] rl]. unfold ag_conn, ag_store in Hc. simpl in Hc.
  set (st1 := set_connections (Obj.set addr (with_live_manifest m c)) st).
  assert (zoom worldL (zoom storeL (edit_in_place addr m)) (mkAgent (mkWorld t st db fd ev) rl) =
          (Ok tt, mkAgent (mkWorld t st1 db fd ev) rl)) as H1.
  { unfold zoom, edit_in_place. simpl. by rewrite Hc. }
  rewrite (bind_run _ _ _ _ _ H1) in Hr. unfold try_catch_with in Hr.
  assert (zoom worldL (now ← date_now; zoom storeL (setPermissions now addr m))
            (mkAgent (mkWorld t st1 db fd ev) rl) =
          let '(r, st2) := setPermissions (env_now t) addr m st1 in
          (r, mkAgent (mkWorld (S t) st2 db fd ev) rl)) as H2.
  { unfold zoom at 1. simpl. unfold date_now, ask, mbind, M_bind, zoom. simpl.
    by destruct (setPermissions _ _ _ _). }
  rewrite (setPermissions_run _ addr m st1 (with_live_manifest m c)) in H2
    by (unfold st1; rewrite getConnection_set; by rewrite decide_True).
  pose proof (live_standing m c) as Hs1.
  case_bool_decide as Hv; rewrite (bind_run _ _ _ _ _ H2) in Hr;
    rewrite ?saved_run in Hr; injection Hr as <- <-.
  - exists (assign (with_live_manifest m c) (with_manifest m) (isoString (env_now t))).
    split; [|split; [exact Hs1|by split_and!]].
    split; [apply Obj.get_set_eq|split; [|done]].
    intros a Ha. unfold st1, ag_conn, ag_store, getConnection. simpl. by rewrite !Obj.get_set_ne by done.
  - exists (with_live_manifest m c). split; [|split; [exact Hs1|split_and!; try done]].
    + split; [apply Obj.get_set_eq|split; [|done]]. intros a Ha. by apply Obj.get_set_ne.
    + unfold with_live_manifest. by destruct (permissionsManifest c) eqn:E; simpl; rewrite ?E.
Qed.

(** C34. pinch-permissions on any state: an unknown address and [--show] change
    nothing; otherwise the edited manifest is kept, in memory and in the file,
    exactly when it passes validation, and what is printed is what was kept; a
    refused edit prints every error and leaves the file as it was (in memory
    the live manifest stays edited until the process ends).  Autonomy level,
    state, key, policy, mute and the other connections, the messages and the
    log are never touched. *)
Theorem tool_permissions_spec parsed s :
  permissions_outcome parsed s (tool_permissions parsed s).1 (tool_permissions parsed s).2.
Proof. apply tool_permissions_outcome. by destruct (tool_permissions parsed s). Qed.
End tool_theorems.

(** ** A cap that is not a number *)

(** A spending cap that is not a number is accepted and saved: for any text
    that [Number] does not read (or a missing value), the edit replaces the cap
    by NaN and still passes validation, because no comparison with NaN holds. *)
Theorem nan_cap_passes a text m :
  a ≠ "" → Number (Some text) = S754_nan → validateManifest m = [] →
  ∃ p, permissions_parseArgs ["--address"; a; "--spending-per-tx"; text] = Ok p ∧
       perTransaction (spending (edit_manifest p m)) = S754_nan ∧
       validateManifest (edit_manifest p m) = [].
Proof.
  intros Ha Ht [Hf Hs _ Hd Hc]%validateManifest_nil_iff.
  exists (set_spendingPerTx (Some (Number (Some text))) (set_address a no_args)). split; [|split].
  - change (required a "--address is required"
      (Ok (set_spendingPerTx (Some (Number (Some text))) (set_address a no_args))) = Ok
      (set_spendingPerTx (Some (Number (Some text))) (set_address a no_args))).
    unfold required. by rewrite bool_decide_false.
  - rewrite edit_spending. exact Ht.
  - apply validateManifest_nil_iff. split.
    + rewrite edit_files, edit_folders. exact Hf.
    + rewrite edit_actions, edit_scopes. exact Hs.
    + rewrite edit_spending. cbn [perTransaction pa_spendingPerTx set_spendingPerTx default from_option].
      rewrite Ht. constructor.
    + by rewrite edit_spending.
    + by rewrite edit_spending.
Qed.

Lemma nan_cap_passes_witness :
  ∃ p, permissions_parseArgs ["--address"; "pinch:p@h"; "--spending-per-tx"; "ten"] = Ok p ∧
       perTransaction (spending (edit_manifest p defaultPermissionsManifest)) = S754_nan ∧
       validateManifest (edit_manifest p defaultPermissionsManifest) = [].
Proof.
  apply (nan_cap_passes "pinch:p@h" "ten" defaultPermissionsManifest);
    [discriminate|vm_compute; reflexivity|reflexivity].
Defined.
