(* ===== verification/Delivery.v ===== *)
(** [delivery.ts]: the signed delivery confirmation, and the bytes it signs. *)
From S2P Require Import Prelude JsLib Envelope.
Local Open Scope Z_scope.

(** ** libsodium's detached Ed25519 signatures: a throw on keys or signatures of the
    wrong length *)
Class Ed25519 : Type := {
  crypto_sign_detached : bytes → bytes → res bytes;                 (* payload, private key *)
  crypto_sign_verify_detached : bytes → bytes → bytes → res bool;   (* signature, payload, public key *)
  ed_pair : bytes → bytes → Prop                                    (* public, private key *)
}.
Class Ed25519Laws `{Ed25519} : Prop := {
  ed_sign pk sk payload : ed_pair pk sk → ∃ sg, crypto_sign_detached payload sk = Ok sg;
  ed_verify pk sk payload sg :
    ed_pair pk sk → crypto_sign_detached payload sk = Ok sg →
    crypto_sign_verify_detached sg payload pk = Ok true
}.

(** ** [new DataView(new ArrayBuffer(8)).setBigInt64(0, t)]: big-endian, modulo 2^64 *)
Definition setBigInt64 (t : Z) : bytes :=
  let u := t mod 2 ^ 64 in
  (λ k, byte_of_Z (Z.land (Z.shiftr u k) 255)) <$> [56; 48; 40; 32; 24; 16; 8; 0].

(** [payload] has room for both parts, so no [set] throws. *)
Definition buildPayload (messageId : bytes) (timestamp : Z) : option bytes :=
  u8_set messageId 0 (replicate (length messageId + 8) Byte.x00)
    ≫= u8_set (setBigInt64 timestamp) (length messageId).

Section sign.
Context `{Ed25519}.

Definition signDeliveryConfirmation (messageId : bytes) (timestamp : Z) (privateKey : bytes)
    : res bytes :=
  match buildPayload messageId timestamp with
  | Some payload => crypto_sign_detached payload privateKey
  | None => Throw "offset is out of bounds"
  end.

Definition verifyDeliveryConfirmation (signature messageId : bytes) (timestamp : Z)
    (senderPublicKey : bytes) : res bool :=
  match buildPayload messageId timestamp with
  | Some payload => crypto_sign_verify_detached signature payload senderPublicKey
  | None => Throw "offset is out of bounds"
  end.
End sign.

(** ** Lemmas *)
(** The inverse of [setBigInt64] on unsigned values. *)
Definition be_value (bs : bytes) : Z := fold_left (λ acc b, acc * 256 + Z_of_byte b) bs 0.

Lemma byte_at u k : 0 ≤ k → Z_of_byte (byte_of_Z (Z.land (Z.shiftr u k) 255)) = (u / 2 ^ k) mod 256.
Proof.
  intros Hk. change 255 with (Z.ones 8). rewrite Z.land_ones, Z.shiftr_div_pow2 by lia.
  apply Z_of_byte_of_Z, Z.mod_pos_bound. lia.
Qed.

Lemma be_value_setBigInt64 t : be_value (setBigInt64 t) = t mod 2 ^ 64.
Proof.
  unfold be_value, setBigInt64. cbn [fmap list_fmap fold_left]. rewrite !byte_at by lia.
  pose proof (Z.mod_pos_bound t (2 ^ 64) ltac:(lia)) as Hu. set (u := t mod 2 ^ 64) in *.
  change (2 ^ 64) with 18446744073709551616 in Hu. clearbody u. clear t.
  cbn -[Z.mul Z.add Z.div Z.modulo]. Z.to_euclidean_division_equations; lia.
Qed.

Lemma setBigInt64_be_value bs : length bs = 8%nat → setBigInt64 (be_value bs) = bs.
Proof.
  intros Hl. do 8 (destruct bs as [|? bs]; [done|]). destruct bs; [|done]. clear Hl.
  repeat match goal with b : Byte.byte |- _ =>
    pose proof (Z_of_byte_range b); rewrite <- (byte_of_Z_of_byte b);
    generalize dependent (Z_of_byte b); clear b; intros ? ? end.
  unfold setBigInt64, be_value. cbn [fold_left]. rewrite !Z_of_byte_of_Z by done.
  set (u := (_ * 256 + _)). rewrite (Z.mod_small u) by (unfold u; lia).
  cbn [fmap list_fmap]. change 255 with (Z.ones 8). rewrite !Z.land_ones, !Z.shiftr_div_pow2 by lia.
  assert (∀ n x, n = x → byte_of_Z n = byte_of_Z x) as Hb by (by intros ? ? ->).
  repeat (apply (f_equal2 cons);
    [apply Hb; unfold u; Z.to_euclidean_division_equations; lia|]). done.
Qed.

Lemma setBigInt64_length t : length (setBigInt64 t) = 8%nat.
Proof. done. Qed.

Lemma buildPayload_eq m t : buildPayload m t = Some (m ++ setBigInt64 t).
Proof.
  unfold buildPayload. rewrite u8_set_fill_0 by lia.
  change (u8_set (setBigInt64 t) (length m) (m ++ replicate (length m + 8 - length m) Byte.x00)
          = Some (m ++ setBigInt64 t)).
  rewrite u8_set_fill by (rewrite ?setBigInt64_length; done || lia).
  rewrite setBigInt64_length. replace (length m + 8 - length m - 8)%nat with 0%nat by lia.
  by rewrite app_nil_r.
Qed.

Lemma setBigInt64_mod t t' : setBigInt64 t = setBigInt64 t' ↔ t mod 2 ^ 64 = t' mod 2 ^ 64.
Proof.
  split; intros E.
  - by rewrite <- !be_value_setBigInt64, E.
  - unfold setBigInt64. by rewrite E.
Qed.

(** What a confirmation signs determines what it confirms: the bytes for two
    confirmations agree exactly when the message ids are the same bytes and
    the timestamps the same 64-bit integers, and building them never throws. *)
Theorem buildPayload_injective m t m' t' :
  ∃ p p', buildPayload m t = Some p ∧ buildPayload m' t' = Some p' ∧
    length p = (length m + 8)%nat ∧
    (p = p' ↔ m = m' ∧ t mod 2 ^ 64 = t' mod 2 ^ 64).
Proof.
  exists (m ++ setBigInt64 t), (m' ++ setBigInt64 t'). rewrite !buildPayload_eq.
  split; [done|]. split; [done|]. split; [by rewrite length_app, setBigInt64_length|].
  rewrite <- setBigInt64_mod. split; [|by intros [-> ->]].
  intros E. apply app_inj_2 in E as [-> E]; [done|]. done.
Qed.

(** Sign and verify agree: a confirmation signed with a key is accepted under
    the matching public key, for the same id and any timestamp with the same
    64-bit value. *)
Lemma sign_verify_roundtrip `{Ed25519Laws} pk sk m t t' :
  ed_pair pk sk → t mod 2 ^ 64 = t' mod 2 ^ 64 →
  ∃ sg, signDeliveryConfirmation m t sk = Ok sg ∧ verifyDeliveryConfirmation sg m t' pk = Ok true.
Proof.
  intros Hp Ht. unfold signDeliveryConfirmation, verifyDeliveryConfirmation.
  rewrite !buildPayload_eq. apply setBigInt64_mod in Ht as <-.
  destruct (ed_sign pk sk (m ++ setBigInt64 t) Hp) as [sg Hs]. exists sg.
  split; [done|]. by eapply ed_verify.
Qed.

(** For the sample codecs: byte strings that end by themselves, and int64. *)
Module SampleBytes.
Fixpoint esc (bs : bytes) : bytes :=
  match bs with [] => [Byte.x00] | b :: bs => Byte.x01 :: b :: esc bs end.
Fixpoint unesc (bs : bytes) : option (bytes * bytes) :=
  match bs with
  | Byte.x00 :: rest => Some ([], rest)
  | Byte.x01 :: b :: rest => '(c, rest) ← unesc rest; Some (b :: c, rest)
  | _ => None
  end.
Lemma unesc_esc c rest : unesc (esc c ++ rest) = Some (c, rest).
Proof. induction c as [|b c IH]; [done|]. simpl. by rewrite IH. Qed.

Definition signed64 (u : Z) : Z := if u <? 2 ^ 63 then u else u - 2 ^ 64.
Lemma signed64_mod t : - 2 ^ 63 ≤ t < 2 ^ 63 → signed64 (t mod 2 ^ 64) = t.
Proof.
  intros Ht. unfold signed64. destruct (decide (0 ≤ t)).
  - rewrite Z.mod_small by lia. by rewrite (proj2 (Z.ltb_lt _ _)) by lia.
  - rewrite <- (Z.mod_add t 1), Z.mod_small by lia. rewrite (proj2 (Z.ltb_ge _ _)) by lia. lia.
Qed.
Lemma read_int64 t rest :
  - 2 ^ 63 ≤ t < 2 ^ 63 → signed64 (be_value (take 8 (setBigInt64 t ++ rest))) = t.
Proof.
  intros Ht. rewrite take_app_length' by done. by rewrite be_value_setBigInt64, signed64_mod.
Qed.
End SampleBytes.

(** A toy signature, for the witness: the payload with the key in front. *)
Module SampleEd.
#[export] Instance ed : Ed25519 := {|
  crypto_sign_detached payload sk := Ok (sk ++ payload);
  crypto_sign_verify_detached sg payload pk := Ok (bool_decide (sg = pk ++ payload));
  ed_pair pk sk := pk = sk
|}.
#[export] Instance ed_laws : Ed25519Laws.
Proof.
  split; simpl; [by eauto|]. intros pk sk payload sg -> [= <-]. by rewrite bool_decide_eq_true_2.
Qed.
End SampleEd.

Lemma sign_verify_roundtrip_witness :
  ∃ sg, @signDeliveryConfirmation SampleEd.ed [Byte.x41] 1 [Byte.x42] = Ok sg ∧
        @verifyDeliveryConfirmation SampleEd.ed sg [Byte.x41] (1 + 2 ^ 64) [Byte.x42] = Ok true.
Proof.
  exact (@sign_verify_roundtrip SampleEd.ed SampleEd.ed_laws [Byte.x42] [Byte.x42] [Byte.x41] 1
    (1 + 2 ^ 64) eq_refl eq_refl).
Defined.
