(* ===== verification/RelayClient.v ===== *)
(** [relay-client.ts]: the WebSocket connection to the relay, as the events of one
    [connect()]: the Ed25519 challenge-response handshake, the heartbeat, and
    the dispatch of envelopes once authenticated.  The socket and the timers are
    the runtime's: each event is one callback. *)
From S2P Require Import Prelude JsLib JsNumber Text Envelope Delivery.
From Stdlib Require Import Ascii.

(** ** The libraries: protobuf decoding throws on bytes that are no envelope *)
Class Protobuf : Type := { fromBinary : bytes → res Envelope }.
Class Lower : Type := { toLowerCase : string → string }.

(** ** The URL of the socket: no trailing slashes, and the path [/ws] *)
Definition is_slash (c : ascii) : bool := bool_decide (c = "/"%char).
Definition socketUrl (relayUrl : string) : string :=
  let normalizedRelayUrl := drop_end is_slash relayUrl in
  if ends_with "/ws" normalizedRelayUrl then normalizedRelayUrl else normalizedRelayUrl +:+ "/ws".

(** [tools/relay-url.ts]: the HTTP base for the same relay. *)
Definition relayBaseUrl (relayUrl : string) : string :=
  remove_suffix "/ws" (replace_prefix "ws://" "http://" (replace_prefix "wss://" "https://" relayUrl)).

(** ** What the socket hands over: a buffer, another byte view, or fragments *)
Inductive RawData : Type :=
| raw_Buffer (b : bytes)
| raw_Uint8Array (b : bytes)
| raw_ArrayBuffer (b : bytes)
| raw_fragments (bs : list bytes).

Definition normalizeRawData (rawData : RawData) : bytes :=
  match rawData with
  | raw_Buffer b => b
  | raw_Uint8Array b => b
  | raw_ArrayBuffer b => b
  | raw_fragments bs => concat bs
  end.

(** ** State *)
Inductive AuthState : Type := awaiting_challenge | awaiting_result | auth_done.

#[export] Instance AuthState_eq_dec : EqDecision AuthState.
Proof. solve_decision. Defined.

(** [settled]: the promise of [connect]: pending, resolved, or rejected with a message.
    [wsOpen] is [ws.readyState === OPEN]; [handled] what the envelope handlers
    were given; [lost] that [attemptReconnect] was started. *)
Record Client : Type := mkClient {
  authState : AuthState;
  settled : option (option string);
  authTimer : bool;
  wsOpen : bool;
  authenticated : bool;
  c_assignedAddress : option string;
  lastPongTime : Z;
  heartbeat_on : bool;
  c_sent : list Envelope;
  handled : list Envelope;
  lost : bool
}.

(** The client once [connect] has created the socket and the socket is open. *)
Definition connecting : Client :=
  mkClient awaiting_challenge None true true false None 0 false [] [] false.

Section client.
Context `{Protobuf, Lower, Ed25519}.

(** The constructor's arguments and options. *)
Context (publicKey privateKey : bytes) (relayHost : string).
Context (heartbeatInterval pongTimeout : Z) (autoReconnect : bool).

Definition set_authState (a : AuthState) : M Client unit := modify (λ c,
  mkClient a (settled c) (authTimer c) (wsOpen c) (authenticated c) (c_assignedAddress c)
    (lastPongTime c) (heartbeat_on c) (c_sent c) (handled c) (lost c)).
Definition clearAuthTimer : M Client unit := modify (λ c,
  mkClient (authState c) (settled c) false (wsOpen c) (authenticated c) (c_assignedAddress c)
    (lastPongTime c) (heartbeat_on c) (c_sent c) (handled c) (lost c)).
(** [ws.close()] and [ws.terminate()]: the socket leaves the open state. *)
Definition ws_close : M Client unit := modify (λ c,
  mkClient (authState c) (settled c) (authTimer c) false (authenticated c) (c_assignedAddress c)
    (lastPongTime c) (heartbeat_on c) (c_sent c) (handled c) (lost c)).
(** [resolveOnce] and [rejectOnce]. *)
Definition settle (o : option string) : M Client unit := modify (λ c,
  mkClient (authState c) (match settled c with Some r => Some r | None => Some o end)
    (authTimer c) (wsOpen c) (authenticated c) (c_assignedAddress c)
    (lastPongTime c) (heartbeat_on c) (c_sent c) (handled c) (lost c)).
Definition rejectOnce (err : string) : M Client unit := settle (Some err).
Definition resolveOnce : M Client unit := settle None.
(** [cleanup]: forget the authentication and stop the heartbeat. *)
Definition cleanup : M Client unit := modify (λ c,
  mkClient (authState c) (settled c) (authTimer c) (wsOpen c) false (c_assignedAddress c)
    (lastPongTime c) false (c_sent c) (handled c) (lost c)).
(** [ws.send(data)]: dropped unless the socket is open. *)
Definition ws_send (e : Envelope) : M Client unit := modify (λ c,
  mkClient (authState c) (settled c) (authTimer c) (wsOpen c) (authenticated c)
    (c_assignedAddress c) (lastPongTime c) (heartbeat_on c)
    (if wsOpen c then c_sent c ++ [e] else c_sent c) (handled c) (lost c)).
(** The fields the accepted result sets, and [startHeartbeat]. *)
Definition accept (assigned : string) (now : Z) : M Client unit := modify (λ c,
  mkClient auth_done (settled c) false (wsOpen c) true (Some assigned) now true
    (c_sent c) (handled c) (lost c)).
Definition handle_envelope (e : Envelope) : M Client unit := modify (λ c,
  mkClient (authState c) (settled c) (authTimer c) (wsOpen c) (authenticated c)
    (c_assignedAddress c) (lastPongTime c) (heartbeat_on c) (c_sent c) (handled c ++ [e]) (lost c)).
Definition attemptReconnect : M Client unit := modify (λ c,
  mkClient (authState c) (settled c) (authTimer c) (wsOpen c) (authenticated c)
    (c_assignedAddress c) (lastPongTime c) (heartbeat_on c) (c_sent c) (handled c) true).

(** [auth.ts]: a signature over the bare nonce.  Nothing calls it: the handshake
    below signs [buildSignPayload]. *)
Definition signChallenge (nonce privateKey : bytes) : res bytes := crypto_sign_detached nonce privateKey.

(** [pinch-auth-v1\0<relay_host>\0<nonce>]; the array is made of the right size. *)
Definition buildSignPayload (host : string) (nonce : bytes) : option bytes :=
  let prefix := utf8_encode "pinch-auth-v1" in
  let host := utf8_encode host in
  let n := length prefix in
  let payload := replicate (n + 1 + length host + 1 + length nonce) Byte.x00 in
  payload ← u8_set prefix 0 payload;
  payload ← u8_set [Byte.x00] n payload;
  payload ← u8_set host (n + 1) payload;
  payload ← u8_set [Byte.x00] (n + 1 + length host) payload;
  u8_set nonce (n + 1 + length host + 1) payload.

Definition auth_response (signature nonce : bytes) : Envelope :=
  envelope "" "" AUTH_RESPONSE (authResponse (mkAuthResponse 1 publicKey signature nonce)).

Definition respondToAuthChallenge (data : bytes) : M Client unit :=
  env ← lift (fromBinary data);
  match env_type env, env_payload env with
  | AUTH_CHALLENGE, authChallenge challenge =>
      if bool_decide (length (ch_nonce challenge) ≠ 32)
      then throw "invalid auth challenge nonce length"
      else if bool_decide (ch_relayHost challenge = "")
      then throw "auth challenge missing relay host"
      else if bool_decide (relayHost ≠ "")
              && bool_decide (toLowerCase (ch_relayHost challenge) ≠ toLowerCase relayHost)
      then throw ("auth challenge relay host mismatch: expected " +:+ relayHost +:+ ", got "
                  +:+ ch_relayHost challenge)
      else
        match buildSignPayload (ch_relayHost challenge) (ch_nonce challenge) with
        | None => throw "offset is out of bounds"
        | Some signPayload =>
            signature ← lift (crypto_sign_detached signPayload privateKey);
            ws_send (auth_response signature (ch_nonce challenge))
        end
  | _, _ => throw "expected auth challenge message"
  end.

(** Clear the timer, close the socket and reject, as every failure of the handshake does. *)
Definition fail (err : string) : M Client unit := clearAuthTimer;; ws_close;; rejectOnce err.

(** [try { m } catch (err) { fail }] *)
Definition or_fail (m : M Client unit) : M Client unit := λ c,
  match m c with
  | (Ok tt, c') => (Ok tt, c')
  | (Throw err, c') => fail err c'
  end.

(** The name of the case, as the error message has it. *)
Context (case_name : Payload → string).

Definition on_message (now : Z) (data : bytes) (isBinary : bool) : M Client unit :=
  st ← gets authState;
  match st with
  | awaiting_challenge =>
      if negb isBinary then fail "expected binary auth challenge"
      else or_fail (respondToAuthChallenge data;; set_authState awaiting_result)
  | awaiting_result =>
      if negb isBinary then fail "expected binary auth result"
      else or_fail
        (env ← lift (fromBinary data);
         match env_payload env with
         | authResult result =>
             if negb (res_success result)
             then fail ("auth failed: " +:+ str_or (Some (res_errorMessage result)) "unknown error")
             else accept (res_assignedAddress result) now;; resolveOnce
         | p => fail ("expected AuthResult, got " +:+ case_name p)
         end)
  | auth_done =>
      match fromBinary data with
      | Ok env => handle_envelope env
      | Throw _ => mret tt
      end
  end.

Definition on_pong (now : Z) : M Client unit := modify (λ c,
  mkClient (authState c) (settled c) (authTimer c) (wsOpen c) (authenticated c)
    (c_assignedAddress c) now (heartbeat_on c) (c_sent c) (handled c) (lost c)).

Definition on_close : M Client unit :=
  clearAuthTimer;; ws_close;;
  wasAuthenticated ← gets authenticated;
  cleanup;;
  st ← gets authState;
  if bool_decide (st ≠ auth_done) then rejectOnce "connection closed during auth handshake"
  else if wasAuthenticated && autoReconnect then attemptReconnect
  else mret tt.

Definition on_error (err : string) : M Client unit :=
  clearAuthTimer;;
  s ← gets settled;
  match s with None => rejectOnce err | Some _ => mret tt end.

(** The [setTimeout] of the handshake; it runs only while the timer is armed. *)
Definition on_auth_timeout : M Client unit :=
  armed ← gets authTimer;
  if armed : bool then ws_close;; rejectOnce "auth handshake timed out" else mret tt.

(** One tick of the heartbeat interval, if it is running. *)
Definition on_heartbeat (now : Z) : M Client unit :=
  c ← gets (λ c, c);
  if negb (heartbeat_on c) then mret tt
  else if negb (wsOpen c) then cleanup
  else if bool_decide (heartbeatInterval + pongTimeout < now - lastPongTime c)%Z
  then ws_close;; cleanup
  else mret tt.

(** [send]: only on an authenticated, open connection. *)
Definition send (e : Envelope) : M Client unit :=
  c ← gets (λ c, c);
  if negb (authenticated c) || negb (wsOpen c) then throw "not connected" else ws_send e.

Inductive Event : Type :=
| ev_message (now : Z) (rawData : RawData) (isBinary : bool)
| ev_pong (now : Z)
| ev_close
| ev_error (err : string)
| ev_auth_timeout
| ev_heartbeat (now : Z)
| ev_send (e : Envelope).

Definition on_event (ev : Event) : M Client unit :=
  match ev with
  | ev_message now rawData isBinary => on_message now (normalizeRawData rawData) isBinary
  | ev_pong now => on_pong now
  | ev_close => on_close
  | ev_error err => on_error err
  | ev_auth_timeout => on_auth_timeout
  | ev_heartbeat now => on_heartbeat now
  | ev_send e => send e
  end.

Definition run_events (evs : list Event) (c : Client) : Client :=
  fold_left (λ c ev, (on_event ev c).2) evs c.
End client.

(** ** The signed bytes *)
Definition auth_prefix : bytes := utf8_encode "pinch-auth-v1".

Lemma buildSignPayload_eq host nonce :
  buildSignPayload host nonce =
  Some (auth_prefix ++ [Byte.x00] ++ utf8_encode host ++ [Byte.x00] ++ nonce).
Proof.
  unfold buildSignPayload. fold auth_prefix. set (h := utf8_encode host).
  rewrite u8_set_fill_0 by lia. cbn [mbind option_bind app].
  rewrite u8_set_fill by (simpl; done || lia). cbn [mbind option_bind].
  rewrite u8_set_fill by (rewrite ?length_app; simpl; done || lia). cbn [mbind option_bind].
  rewrite u8_set_fill by (rewrite ?length_app; simpl; done || lia). cbn [mbind option_bind].
  rewrite u8_set_fill by (rewrite ?length_app; simpl; done || lia).
  match goal with |- context [replicate ?k _] => replace k with 0 by (simpl; lia) end.
  by rewrite app_nil_r, <- !app_assoc.
Qed.

(** An authentication signature is for one relay and one challenge: with nonces
    of the checked length, the signed bytes agree only for the same relay host
    and the same nonce, and building them never throws. *)
Theorem buildSignPayload_injective h n h' n' :
  length n = 32 → length n' = 32 →
  (∃ p, buildSignPayload h n = Some p) ∧
  (buildSignPayload h n = buildSignPayload h' n' ↔ h = h' ∧ n = n').
Proof.
  intros Hn Hn'. rewrite !buildSignPayload_eq. split; [by eexists|].
  split; [|by intros [-> ->]]. intros [= E].
  rewrite !(cons_middle Byte.x00), !app_assoc in E.
  apply app_inj_2 in E as [E ->]; [|congruence]. apply app_inj_2 in E as [E _]; [|done].
  by apply utf8_encode_inj in E as ->.
Qed.

(** ** The handshake *)
Section handshake.
Context `{PB : Protobuf, LO : Lower, ED : Ed25519}.
Context (publicKey privateKey : bytes) (relayHost : string).
Context (heartbeatInterval pongTimeout : Z) (autoReconnect : bool).
Context (case_name : Payload → string).

Abbreviation event := (on_event publicKey privateKey relayHost heartbeatInterval pongTimeout
                     autoReconnect case_name).
Abbreviation run := (run_events publicKey privateKey relayHost heartbeatInterval pongTimeout
                   autoReconnect case_name).

(** A challenge the client answers, and the answer. *)
Definition answers (challenge : AuthChallenge) (r : Envelope) : Prop :=
  length (ch_nonce challenge) = 32 ∧ ch_relayHost challenge ≠ "" ∧
  (relayHost ≠ "" → toLowerCase (ch_relayHost challenge) = toLowerCase relayHost) ∧
  ∃ p sg, buildSignPayload (ch_relayHost challenge) (ch_nonce challenge) = Some p ∧
          crypto_sign_detached p privateKey = Ok sg ∧
          r = auth_response publicKey sg (ch_nonce challenge).

(** [challenged tr r]: some message of [tr] was a valid challenge answered by [r]. *)
Definition challenged (tr : list Event) (r : Envelope) : Prop :=
  ∃ pre now data post e challenge,
    tr = pre ++ ev_message now data true :: post ∧ fromBinary (normalizeRawData data) = Ok e ∧
    env_type e = AUTH_CHALLENGE ∧ env_payload e = authChallenge challenge ∧ answers challenge r.

(** [accepted tr addr]: after a challenge, a message of [tr] accepted the client as [addr]. *)
Definition accepted (tr : list Event) (addr : string) : Prop :=
  ∃ pre now data post e result,
    tr = pre ++ ev_message now data true :: post ∧ fromBinary (normalizeRawData data) = Ok e ∧
    env_payload e = authResult result ∧ res_success result = true ∧
    res_assignedAddress result = addr ∧ ∃ r, challenged pre r.

Lemma challenged_app tr ev r : challenged tr r → challenged (tr ++ [ev]) r.
Proof.
  intros (pre & now & data & post & e & ch & -> & H). exists pre, now, data, (post ++ [ev]), e, ch.
  split; [by rewrite <- app_assoc|done].
Qed.
Lemma accepted_app tr ev addr : accepted tr addr → accepted (tr ++ [ev]) addr.
Proof.
  intros (pre & now & data & post & e & res & -> & H).
  exists pre, now, data, (post ++ [ev]), e, res. split; [by rewrite <- app_assoc|done].
Qed.

(** What a state of the handshake says about the past. *)
Definition shook (tr : list Event) (c : Client) : Prop :=
  match authState c with
  | awaiting_challenge =>
      c_sent c = [] ∧ authenticated c = false ∧ handled c = [] ∧ c_assignedAddress c = None
  | awaiting_result =>
      (∃ r, challenged tr r ∧ (c_sent c = [r] ∨ c_sent c = [])) ∧
      authenticated c = false ∧ handled c = [] ∧ c_assignedAddress c = None
  | auth_done => ∃ addr, accepted tr addr ∧ c_assignedAddress c = Some addr
  end.

Lemma shook_app tr ev c : shook tr c → shook (tr ++ [ev]) c.
Proof.
  unfold shook. destruct (authState c); [done|..].
  - intros ((r & Hr & Hs) & H). split; [|done]. exists r. split; [by apply challenged_app|done].
  - intros (addr & Ha & H). exists addr. split; [by apply accepted_app|done].
Qed.

(** Events that leave the handshake's part of the state alone, or only forget. *)
Definition same_shake (c c' : Client) : Prop :=
  authState c' = authState c ∧ c_assignedAddress c' = c_assignedAddress c ∧
  (authState c ≠ auth_done → c_sent c' = c_sent c ∧ handled c' = handled c ∧
     (authenticated c = false → authenticated c' = false)).

Lemma shook_same tr c c' : same_shake c c' → shook tr c → shook tr c'.
Proof.
  unfold shook. intros (Ea & Eb & Hd). rewrite Ea, Eb. destruct (authState c); [..|done].
  - destruct (Hd ltac:(done)) as (-> & -> & Hf). naive_solver.
  - destruct (Hd ltac:(done)) as (-> & -> & Hf). naive_solver.
Qed.

Lemma respond_run data c :
  (∃ err, respondToAuthChallenge publicKey privateKey relayHost data c = (Throw err, c)) ∨
  (∃ e challenge r, fromBinary data = Ok e ∧ env_type e = AUTH_CHALLENGE ∧
     env_payload e = authChallenge challenge ∧ answers challenge r ∧
     respondToAuthChallenge publicKey privateKey relayHost data c = (Ok tt, (ws_send r c).2)).
Proof.
  destruct (respondToAuthChallenge _ _ _ data c) as [out c'] eqn:E. revert E.
  unfold respondToAuthChallenge. bind1. unfold lift at 1.
  destruct (fromBinary data) as [e|err]; [|intros [= <- <-]; left; by eexists].
  destruct (env_type e) eqn:Et; try (intros [= <- <-]; left; by eexists).
  destruct (env_payload e) as [| | |ch| | | | | | | | | | | |] eqn:Ep;
    try (intros [= <- <-]; left; by eexists).
  case_bool_decide as Hlen; [intros [= <- <-]; left; by eexists|].
  case_bool_decide as Hh; [intros [= <- <-]; left; by eexists|].
  destruct (_ && _) eqn:Em; [intros [= <- <-]; left; by eexists|].
  rewrite buildSignPayload_eq. bind1. unfold lift.
  destruct (crypto_sign_detached _ privateKey) as [sg|err] eqn:Es;
    [|intros [= <- <-]; left; by eexists].
  intros [= <- <-]. right. exists e, ch, (auth_response publicKey sg (ch_nonce ch)).
  split; [done|]. split; [done|]. split; [done|]. split; [|done].
  split; [done|]. split; [done|]. split.
  - intros Hr. rewrite bool_decide_eq_true_2 in Em by done. simpl in Em.
    by apply bool_decide_eq_false, dec_stable in Em.
  - eexists _, sg. split; [apply buildSignPayload_eq|by split].
Qed.

Lemma fail_same err c : same_shake c (fail err c).2.
Proof. done. Qed.

Lemma shook_message tr c now data isBinary :
  shook tr c → shook (tr ++ [ev_message now data isBinary]) (event (ev_message now data isBinary) c).2.
Proof.
  intros Hs. cbn [on_event]. unfold on_message. bind1. unfold gets at 1.
  destruct (authState c) eqn:Ea.
  - destruct isBinary; cbn [negb]; [|eapply shook_same; [apply fail_same|by apply shook_app]].
    unfold or_fail. bind1.
    destruct (respond_run (normalizeRawData data) c) as [[err ->]|(e & ch & r & Hd & Ht & Hp & Hans & ->)].
    { eapply shook_same; [apply fail_same|by apply shook_app]. }
    unfold shook in Hs |- *. rewrite Ea in Hs. destruct Hs as (Hsent & Hauth & Hh & Has).
    simpl. split; [|done]. exists r. split.
    + exists tr, now, data, [], e, ch. done.
    + rewrite Hsent. destruct (wsOpen c); [by left|by right].
  - destruct isBinary; cbn [negb]; [|eapply shook_same; [apply fail_same|by apply shook_app]].
    unfold or_fail. bind1. unfold lift.
    destruct (fromBinary (normalizeRawData data)) as [e|err] eqn:Hd;
      [|eapply shook_same; [apply fail_same|by apply shook_app]].
    destruct (env_payload e) as [| | | | |res| | | | | | | | | |] eqn:Hp;
      try (eapply shook_same; [apply fail_same|by apply shook_app]).
    destruct (res_success res) eqn:Hsuc;
      [|eapply shook_same; [apply fail_same|by apply shook_app]].
    unfold shook in Hs. rewrite Ea in Hs. destruct Hs as ((r & Hr & _) & _).
    unfold shook. simpl. exists (res_assignedAddress res). split; [|done].
    exists tr, now, data, [], e, res. split_and!; try done. by exists r.
  - apply (shook_app _ (ev_message now data isBinary)) in Hs. unfold shook in *. rewrite Ea in Hs.
    destruct (fromBinary (normalizeRawData data)); simpl; by rewrite Ea.
Qed.

Lemma other_same ev c :
  (∀ now data b, ev ≠ ev_message now data b) →
  (authenticated c = true → authState c = auth_done) → same_shake c (event ev c).2.
Proof.
  intros Hev Hauth. destruct ev as [now data b|now| |err| |now|e]; [by destruct (Hev now data b)|..];
    cbn [on_event].
  - done.
  - unfold on_close. unfold mbind, M_bind. simpl. case_bool_decide; [done|].
    by destruct (authenticated c && autoReconnect).
  - unfold on_error, mbind, M_bind, gets. simpl. by destruct (settled c).
  - unfold on_auth_timeout, mbind, M_bind, gets. simpl. by destruct (authTimer c).
  - unfold on_heartbeat, mbind, M_bind, gets. simpl. repeat case_match; simplify_eq; try done.
  - unfold send, mbind, M_bind, gets. simpl. destruct (authenticated c) eqn:E; [|done].
    destruct (wsOpen c) eqn:Ew; [|done]. simpl. rewrite Ew. split; [done|]. split; [done|].
    intros Hn. by destruct Hn; apply Hauth.
Qed.

Lemma run_snoc tr ev c : run (tr ++ [ev]) c = (event ev (run tr c)).2.
Proof. unfold run_events. by rewrite fold_left_app. Qed.

Lemma shook_auth tr c : shook tr c → authenticated c = true → authState c = auth_done.
Proof. unfold shook. destruct (authState c); [intros (_ & E & _)|intros (_ & E & _)|]; congruence. Qed.

Lemma run_shook tr : shook tr (run tr connecting).
Proof.
  induction tr as [|ev tr IH] using rev_ind; [done|]. rewrite run_snoc.
  destruct ev as [now data b|now| |err| |now|e]; [by apply shook_message|..];
    (eapply shook_same; [|apply shook_app, IH]; apply other_same; [done|by eapply shook_auth]).
Qed.

(** C32. The handshake comes first: whatever the socket delivers in whatever order,
    the client counts as authenticated, has an address or hands an envelope to
    a handler only after the relay accepted it, which in turn came after a
    challenge it answered; and before that it has sent nothing but that one
    answer, signed over the challenge's own host and 32-byte nonce, for the
    relay host it was configured for. *)
Theorem handshake_order tr :
  let c := run tr connecting in
  (authenticated c = true ∨ handled c ≠ [] ∨ is_Some (c_assignedAddress c) →
   ∃ addr, accepted tr addr ∧ c_assignedAddress c = Some addr) ∧
  (authState c ≠ auth_done → c_sent c = [] ∨ ∃ r, challenged tr r ∧ c_sent c = [r]).
Proof.
  intros c. pose proof (run_shook tr) as Hs. fold c in Hs. unfold shook in Hs.
  destruct (authState c).
  - destruct Hs as (Hsent & -> & -> & ->). split; [|by left].
    intros [?|[?|[? ?]]]; done.
  - destruct Hs as ((r & Hr & Hsent) & -> & -> & ->). split; [intros [?|[?|[? ?]]]; done|].
    intros _. destruct Hsent as [->| ->]; [right|by left]. by exists r.
  - split; [by intros _|done].
Qed.

(** ** When the connection is usable *)
Definition no_socket_error (tr : list Event) : Prop :=
  Forall (λ ev, ∀ err, ev ≠ ev_error err) tr.

Definition promise_kept (c : Client) : Prop :=
  wsOpen c = true →
  settled c = if decide (authState c = auth_done) then Some None else None.

Lemma promise_event ev c :
  (∀ err, ev ≠ ev_error err) → promise_kept c → promise_kept (event ev c).2.
Proof.
  intros Hev Hp. destruct ev as [now data b|now| |err| |now|e]; cbn [on_event].
  - unfold on_message. bind1. unfold gets at 1. destruct (authState c) eqn:Ea.
    + destruct b; cbn [negb]; [|done]. unfold or_fail. bind1.
      destruct (respond_run (normalizeRawData data) c) as [[err ->]|(e & ch & r & _ & _ & _ & _ & ->)]; [done|].
      unfold promise_kept in *. rewrite Ea in Hp. simpl. intros Hw. by apply Hp.
    + destruct b; cbn [negb]; [|done]. unfold or_fail. bind1. unfold lift.
      destruct (fromBinary (normalizeRawData data)) as [e|err]; [|done].
      destruct (env_payload e) as [| | | | |res| | | | | | | | | |]; try done.
      destruct (res_success res); [|done]. unfold promise_kept in *. rewrite Ea in Hp. simpl.
      intros Hw. by rewrite Hp.
    + unfold promise_kept in *. rewrite Ea in Hp. destruct (fromBinary (normalizeRawData data)); simpl; by rewrite Ea.
  - done.
  - unfold on_close, promise_kept, mbind, M_bind. simpl. case_bool_decide; [done|].
    by destruct (authenticated c && autoReconnect).
  - by destruct (Hev err).
  - unfold on_auth_timeout, mbind, M_bind, gets. simpl. by destruct (authTimer c).
  - unfold on_heartbeat, mbind, M_bind, gets. simpl.
    destruct (heartbeat_on c); [|done]. simpl. destruct (wsOpen c) eqn:Ew; simpl.
    + by case_bool_decide.
    + unfold promise_kept. simpl. by rewrite Ew.
  - unfold send, mbind, M_bind, gets. simpl. by destruct (negb _ || negb _).
Qed.

Lemma promise_run tr : no_socket_error tr → promise_kept (run tr connecting).
Proof.
  induction tr as [|ev tr IH] using rev_ind; [done|].
  intros [Htr Hev]%Forall_app. rewrite run_snoc. apply promise_event; [|by apply IH].
  by apply Forall_cons in Hev as [? _].
Qed.

(** Sending: an envelope goes out exactly when the connection is authenticated and
    the socket open, and otherwise the call throws and nothing changes.  When
    it goes out the relay had accepted the client, and, unless the socket
    reported an error, the promise of [connect] had been resolved. *)
Theorem send_spec tr e r c' :
  let c := run tr connecting in
  send e c = (r, c') →
  (r = Ok tt ∧ c_sent c' = c_sent c ++ [e] ∧
     (∃ addr, accepted tr addr ∧ c_assignedAddress c = Some addr) ∧
     (no_socket_error tr → settled c = Some None)) ∨
  (r = Throw "not connected" ∧ c' = c ∧ (authenticated c = false ∨ wsOpen c = false)).
Proof.
  intros c. unfold send. bind1. unfold gets at 1.
  destruct (authenticated c) eqn:Ea; [|intros [= <- <-]; right; auto].
  destruct (wsOpen c) eqn:Ew; [|intros [= <- <-]; right; auto].
  intros [= <- <-]. left. split; [done|]. split; [simpl; by rewrite Ew|].
  pose proof (run_shook tr) as Hs. fold c in Hs. pose proof (shook_auth _ _ Hs Ea) as Hd.
  unfold shook in Hs. rewrite Hd in Hs. split; [done|].
  intros Hne. pose proof (promise_run tr Hne Ew) as Hp. fold c in Hp.
  by rewrite decide_True in Hp.
Qed.

(** A silent relay is dropped: at a heartbeat more than the interval plus the
    pong timeout after the last pong, a running connection is closed and no
    longer authenticated; before that it is left alone. *)
Theorem heartbeat_drops_silent now c :
  heartbeat_on c = true → wsOpen c = true →
  let c' := (on_heartbeat heartbeatInterval pongTimeout now c).2 in
  if decide (heartbeatInterval + pongTimeout < now - lastPongTime c)%Z
  then wsOpen c' = false ∧ authenticated c' = false ∧ heartbeat_on c' = false
  else c' = c.
Proof.
  intros Hh Hw c'. unfold c', on_heartbeat, mbind, M_bind, gets.
  rewrite Hh, Hw. cbn [negb].
  destruct (decide (heartbeatInterval + pongTimeout < now - lastPongTime c)%Z) as [Hd|Hd];
    [by rewrite (bool_decide_eq_true_2 _ Hd)|].
  by rewrite (bool_decide_eq_false_2 _ Hd).
Qed.
(** Past the handshake and not authenticated: no event starts a reconnection. *)
Lemma dropped_stays ev c :
  authState c = auth_done → authenticated c = false →
  authState (event ev c).2 = auth_done ∧ authenticated (event ev c).2 = false ∧
  lost (event ev c).2 = lost c.
Proof.
  destruct c as [st se ti op au ad lp hb sn hd lo]. simpl. intros -> ->.
  destruct ev as [now data isb|now| |err| |now|e]; simpl.
  - unfold on_message, mbind, M_bind, gets. simpl. by destruct (fromBinary _).
  - done.
  - done.
  - unfold on_error, mbind, M_bind, gets, clearAuthTimer, modify. simpl. by destruct se.
  - unfold on_auth_timeout, mbind, M_bind, gets. simpl. by destruct ti.
  - unfold on_heartbeat, mbind, M_bind, gets. simpl. repeat case_match; done.
  - done.
Qed.

(** A relay that falls silent is never reconnected to: a [close] event on an
    established connection starts the reconnection loop when it is enabled, but
    when the heartbeat drops the connection it clears the authentication before
    the socket's [close] event, so neither that event nor any other starts the
    loop, and the client stays disconnected for good. *)
Theorem heartbeat_loss_is_final now c evs :
  autoReconnect = true → authState c = auth_done → authenticated c = true → lost c = false →
  lost (event ev_close c).2 = true ∧
  (heartbeat_on c = true → wsOpen c = true →
   (heartbeatInterval + pongTimeout < now - lastPongTime c)%Z →
   let c' := run evs (event (ev_heartbeat now) c).2 in
   lost c' = false ∧ authenticated c' = false).
Proof.
  intros Ha Hst Hau Hl. split.
  - destruct c as [st se ti op au ad lp hb sn hd lo]. simpl in *. subst. done.
  - intros Hh Hw Hlate. cbv zeta.
    assert (∀ c', authState c' = auth_done → authenticated c' = false →
              lost (run evs c') = lost c' ∧ authenticated (run evs c') = false) as Hstay.
    { induction evs as [|ev evs IH]; intros c' H1 H2; [done|].
      destruct (dropped_stays ev c' H1 H2) as (H3 & H4 & <-). by apply IH. }
    set (c1 := (event (ev_heartbeat now) c).2).
    assert (authState c1 = auth_done ∧ authenticated c1 = false ∧ lost c1 = false) as (H1 & H2 & H3).
    { unfold c1. simpl. unfold on_heartbeat, mbind, M_bind, gets. rewrite Hh, Hw. simpl.
      by rewrite (bool_decide_eq_true_2 _ Hlate). }
    destruct (Hstay c1 H1 H2) as [-> ->]. done.
Qed.
End handshake.

(** The two kinds of signed bytes are not kept apart: for every host and every
    32-byte nonce there is a delivery confirmation (a message id and a 64-bit
    timestamp) whose signed bytes are those of the authentication challenge. *)
Theorem confirmation_can_be_challenge host nonce :
  length nonce = 32 →
  ∃ messageId timestamp, buildPayload messageId timestamp = buildSignPayload host nonce.
Proof.
  intros Hn. rewrite buildSignPayload_eq.
  set (pre := auth_prefix ++ [Byte.x00] ++ utf8_encode host ++ [Byte.x00]).
  exists (pre ++ take 24 nonce), (be_value (drop 24 nonce)). rewrite buildPayload_eq.
  rewrite setBigInt64_be_value by (rewrite length_drop; lia).
  rewrite <- app_assoc, take_drop. unfold pre. by rewrite <- !app_assoc.
Qed.

(** ** Witnesses *)
Section witnesses.
#[local] Instance lower_id : Lower := {| toLowerCase s := s |}.
#[local] Existing Instance SampleEd.ed.

Definition result_env : Envelope :=
  envelope "" "" AUTH_RESULT (authResult (mkAuthResult true "" "pinch:me@h")).
Definition a_challenge : Envelope :=
  envelope "" "" AUTH_CHALLENGE (authChallenge (mkAuthChallenge 1 (replicate 32 Byte.x41) 0 0 "h")).

(** A codec for the witness: one byte tells the challenge from the result. *)
#[local] Instance two_messages_codec : Protobuf :=
  {| fromBinary bs := match bs with [] => Ok a_challenge | _ => Ok result_env end |}.

Definition shake : list Event :=
  [ev_message 1000 (raw_Buffer []) true; ev_message 2000 (raw_fragments [[Byte.x01]]) true].
Definition client_after (tr : list Event) : Client :=
  run_events [Byte.x42] [Byte.x42] "h" 25000 7000 false (λ _, "other") tr connecting.

Lemma buildSignPayload_injective_witness :
  ∃ p, buildSignPayload "h" (replicate 32 Byte.x41) = Some p.
Proof.
  exact (proj1 (buildSignPayload_injective "h" (replicate 32 Byte.x41) "h" (replicate 32 Byte.x42)
    eq_refl eq_refl)).
Defined.

Lemma handshake_order_witness :
  ∃ addr, accepted [Byte.x42] [Byte.x42] "h" shake addr.
Proof.
  destruct (handshake_order [Byte.x42] [Byte.x42] "h" 25000 7000 false (λ _, "other") shake)
    as [H _].
  destruct H as (addr & Ha & _); [left; vm_compute; reflexivity|].
  exists addr. exact Ha.
Defined.

Lemma send_spec_witness :
  settled (client_after shake) = Some None.
Proof.
  destruct (send a_challenge (client_after shake)) as [r c'] eqn:E.
  pose proof (send_spec [Byte.x42] [Byte.x42] "h" 25000 7000 false (λ _, "other") shake a_challenge
    r c' E) as [(_ & _ & _ & Hs)|(_ & _ & [H|H])].
  - apply Hs. repeat constructor; discriminate.
  - vm_compute in H. discriminate H.
  - vm_compute in H. discriminate H.
Defined.

Lemma heartbeat_drops_silent_witness :
  authenticated (on_heartbeat 25000 7000 40000 (client_after shake)).2 = false.
Proof.
  pose proof (heartbeat_drops_silent 25000 7000 40000 (client_after shake) eq_refl eq_refl) as H.
  cbv zeta in H. destruct (decide _) as [_|Hn] in H; [exact (proj1 (proj2 H))|].
  exfalso. apply Hn. vm_compute. reflexivity.
Defined.

Lemma heartbeat_loss_is_final_witness :
  lost (run_events [Byte.x42] [Byte.x42] "h" 25000 7000 true (λ _, "other") [ev_close]
    (on_event [Byte.x42] [Byte.x42] "h" 25000 7000 true (λ _, "other") (ev_heartbeat 40000)
       (client_after shake)).2) = false.
Proof.
  apply (heartbeat_loss_is_final [Byte.x42] [Byte.x42] "h" 25000 7000 true (λ _, "other") 40000
    (client_after shake) [ev_close]); reflexivity.
Defined.

Lemma confirmation_can_be_challenge_witness :
  ∃ messageId timestamp,
    buildPayload messageId timestamp = buildSignPayload "h" (replicate 32 Byte.x41).
Proof. exact (confirmation_can_be_challenge "h" (replicate 32 Byte.x41) eq_refl). Defined.
End witnesses.
