(* ===== verification/Heartbeat.v ===== *)
(** [relay-client.ts]: the options of the client, and what the heartbeat makes of
    them: how long a link can be dead before the client notices, and that a live
    one is never cut. *)
From S2P Require Import Prelude JsLib Text Envelope Delivery RelayClient.
Local Open Scope Z_scope.

(** ** [RelayClientOptions], and the constructor's [??] *)
Record RelayClientOptions : Type := mkOptions {
  o_heartbeatInterval : option Z;
  o_pongTimeout : option Z;
  o_authTimeout : option Z;
  o_autoReconnect : option bool
}.
Definition heartbeatInterval_of (options : option RelayClientOptions) : Z :=
  default 25000 (options ≫= o_heartbeatInterval).
Definition pongTimeout_of (options : option RelayClientOptions) : Z :=
  default 7000 (options ≫= o_pongTimeout).
Definition authTimeout_of (options : option RelayClientOptions) : Z :=
  default 10000 (options ≫= o_authTimeout).
Definition autoReconnect_of (options : option RelayClientOptions) : bool :=
  default false (options ≫= o_autoReconnect).

Definition isConnected (c : Client) : bool := authenticated c && wsOpen c.

Section heartbeat.
Context `{PB : Protobuf, LO : Lower, ED : Ed25519}.
Context (publicKey privateKey : bytes) (relayHost : string) (case_name : Payload → string).
Context (options : option RelayClientOptions).

Definition interval : Z := heartbeatInterval_of options.
Definition patience : Z := interval + pongTimeout_of options.
#[local] Abbreviation event := (on_event publicKey privateKey relayHost interval (pongTimeout_of options)
  (autoReconnect_of options) case_name).
#[local] Abbreviation run := (run_events publicKey privateKey relayHost interval (pongTimeout_of options)
  (autoReconnect_of options) case_name).

(** An authenticated client on an open socket, its heartbeat running. *)
Definition link_up (c : Client) : Prop :=
  authState c = auth_done ∧ authenticated c = true ∧ wsOpen c = true ∧ heartbeat_on c = true.

(** Traffic, sends and ticks: everything but a pong and what the socket and the
    timers report of their own. *)
Definition pongless (ev : Event) : bool :=
  match ev with ev_message _ _ _ | ev_send _ | ev_heartbeat _ => true | _ => false end.
Definition tick_late (last : Z) (ev : Event) : Prop :=
  match ev with ev_heartbeat t => patience < t - last | _ => False end.

#[local] Instance tick_late_dec last ev : Decision (tick_late last ev).
Proof. destruct ev; simpl; apply _. Defined.

Lemma pongless_up ev c :
  link_up c → pongless ev = true → ¬ tick_late (lastPongTime c) ev →
  link_up (event ev c).2 ∧ lastPongTime (event ev c).2 = lastPongTime c.
Proof.
  intros (H1 & H2 & H3 & H4) Hp Hl. destruct c as [st se ti op au ad lp hb sn hd lo]. simpl in *. subst.
  unfold link_up. destruct ev; try done; simpl in *.
  - unfold on_message, mbind, M_bind, gets. simpl. by destruct (fromBinary _).
  - unfold on_heartbeat, mbind, M_bind, gets. simpl. by rewrite bool_decide_eq_false_2.
Qed.

Lemma late_cut ev c :
  link_up c → tick_late (lastPongTime c) ev →
  authState (event ev c).2 = auth_done ∧ authenticated (event ev c).2 = false.
Proof.
  intros (H1 & H2 & H3 & H4) Hl. destruct c as [st se ti op au ad lp hb sn hd lo]. simpl in *. subst.
  destruct ev; try done. simpl in *. unfold on_heartbeat, mbind, M_bind, gets. simpl.
  by rewrite bool_decide_eq_true_2.
Qed.

Lemma cut_stays evs c :
  authState c = auth_done → authenticated c = false → isConnected (run evs c) = false.
Proof.
  revert c. induction evs as [|ev evs IH]; intros c H1 H2; [unfold isConnected; cbn; by rewrite H2|].
  destruct (dropped_stays publicKey privateKey relayHost interval (pongTimeout_of options)
    (autoReconnect_of options) case_name ev c H1 H2) as (H3 & H4 & _). by apply IH.
Qed.

(** While no pong arrives, whatever is received and sent meanwhile, the client stays
    connected until a tick finds the last pong more than the interval and the
    timeout ago, and is disconnected from then on. *)
Lemma cut_iff evs c :
  link_up c → Forall (λ ev, pongless ev = true) evs →
  isConnected (run evs c) = false ↔ Exists (tick_late (lastPongTime c)) evs.
Proof.
  intros Hup Hp. revert c Hup. induction Hp as [|ev evs Hev _ IH]; intros c Hup.
  - split; [|by intros ?%Exists_nil]. destruct Hup as (_ & H2 & H3 & _). unfold isConnected. cbn.
    rewrite H2, H3. by intros [=].
  - change (run (ev :: evs) c) with (run evs (event ev c).2). rewrite Exists_cons.
    destruct (decide (tick_late (lastPongTime c) ev)) as [Hl|Hl].
    + destruct (late_cut ev c Hup Hl) as [H1 H2]. split; [by left|]. intros _. by apply cut_stays.
    + destruct (pongless_up ev c Hup Hev Hl) as [Hup' Ht]. rewrite (IH _ Hup'), Ht. naive_solver.
Qed.

(** How long a link can be dead: when no pong arrives any more, the client is cut
    only by a tick later than the interval plus the timeout after the last pong,
    and, with a tick in every interval, it is cut by the last tick that comes no
    later than two intervals plus the timeout after that pong. *)
Theorem dead_link_bounds evs c t0 :
  link_up c → Forall (λ ev, pongless ev = true) evs → 0 < interval → 0 ≤ pongTimeout_of options →
  lastPongTime c ≤ t0 ≤ lastPongTime c + interval →
  (isConnected (run evs c) = false →
     ∃ t, ev_heartbeat t ∈ evs ∧ lastPongTime c + interval + pongTimeout_of options < t) ∧
  ((∀ k : nat, t0 + Z.of_nat k * interval ≤ lastPongTime c + 2 * interval + pongTimeout_of options →
      ev_heartbeat (t0 + Z.of_nat k * interval) ∈ evs) →
   isConnected (run evs c) = false).
Proof.
  intros Hup Hp Hi Hpt Ht0. rewrite (cut_iff evs c Hup Hp), Exists_exists. split.
  - intros (ev & Hin & Hl). destruct ev; try done. exists now. split; [done|].
    unfold tick_late, patience in Hl. lia.
  - intros Hall. set (d := lastPongTime c + interval + pongTimeout_of options - t0).
    assert (0 ≤ d / interval) as Hk by (apply Z.div_pos; lia).
    exists (ev_heartbeat (t0 + Z.of_nat (Z.to_nat (d / interval + 1)) * interval)).
    pose proof (Z.mod_pos_bound d interval Hi). pose proof (Z.div_mod d interval ltac:(lia)).
    rewrite Z2Nat.id by lia. unfold tick_late, patience.
    assert (0 ≤ d / interval + 1) by lia.
    split; [|lia]. specialize (Hall (Z.to_nat (d / interval + 1))). rewrite Z2Nat.id in Hall by lia. apply Hall. lia.
Qed.
End heartbeat.

(** ** Witness: the defaults notice between 32 and 57 seconds *)
Section witness.
#[local] Existing Instances lower_id two_messages_codec SampleEd.ed.

Definition quiet_line : list Event := [ev_heartbeat 27000; ev_heartbeat 52000].

Lemma dead_link_bounds_witness :
  isConnected (run_events [Byte.x42] [Byte.x42] "h" 25000 7000 false (λ _, "other") quiet_line
                 (client_after shake)) = false ∧
  (patience None, 2 * interval None + pongTimeout_of None) = (32000, 57000).
Proof.
  split; [|reflexivity].
  refine (proj2 (dead_link_bounds [Byte.x42] [Byte.x42] "h" (λ _, "other") None quiet_line (client_after shake)
    27000 _ _ _ _ _) _).
  - vm_compute. repeat split.
  - repeat constructor.
  - reflexivity.
  - discriminate.
  - vm_compute. split; discriminate.
  - intros k Hk. destruct k as [|[|k]]; [left|right; left|exfalso].
    change (lastPongTime (client_after shake)) with 2000 in Hk. unfold interval in Hk. cbn in Hk. lia.
Defined.
End witness.
