(* ===== verification/Reconnect.v ===== *)
(** The reconnection loop of the relay client (relay-client.ts: [attemptReconnect],
    [disconnect], [disconnectAsync] and the [close] handler of an established
    connection), as a state machine over the events that resume it. *)
From S2P Require Import Prelude.
#[local] Open Scope Z_scope.

(** ** Fields *)
Definition baseDelay : Z := 500.
Definition maxDelay : Z := 30000.
Definition maxAttempts : nat := 20.

(** Where the client is: an authenticated connection, the loop at its
    [setTimeout], the loop in [connect()] (its socket perhaps closed by
    [disconnect]), or neither. *)
Inductive Phase : Type :=
| up
| waiting (delay : Z)
| dialing (closed : bool)
| idle.

Record Loop : Type := mkLoop {
  phase : Phase;
  reconnectAttempt : nat;
  autoReconnect : bool;
  dials : nat;        (* calls of [connect] by the loop *)
  notified : nat      (* calls of [disconnectHandler] *)
}.

Section loop.
Context (has_handler : bool).

(** The delay in whole milliseconds, as the timer counts it; [jitter] is
    [Math.random() * 1000] rounded down. *)
Definition backoff (attempt : nat) (jitter : Z) : Z :=
  Z.min (baseDelay * 2 ^ Z.of_nat attempt + jitter) maxDelay.

(** The head of the [while], to the [await] of the timer or past the loop. *)
Definition loop_head (jitter : Z) (s : Loop) : Loop :=
  if (reconnectAttempt s <? maxAttempts)%nat
  then mkLoop (waiting (backoff (reconnectAttempt s) jitter)) (reconnectAttempt s) (autoReconnect s)
         (dials s) (notified s)
  else mkLoop idle (reconnectAttempt s) (autoReconnect s) (dials s)
         (if has_handler then S (notified s) else notified s).

(** The [close] event of an authenticated connection. *)
Definition on_lost (jitter : Z) (s : Loop) : Loop :=
  match phase s with
  | up => if autoReconnect s then loop_head jitter s
          else mkLoop idle (reconnectAttempt s) (autoReconnect s) (dials s) (notified s)
  | _ => s
  end.

(** The timer fires: [connect()] makes a socket. *)
Definition on_timer (s : Loop) : Loop :=
  match phase s with
  | waiting _ => mkLoop (dialing false) (reconnectAttempt s) (autoReconnect s) (S (dials s)) (notified s)
  | _ => s
  end.

(** [connect()] resolves, or rejects. *)
Definition on_connected (s : Loop) : Loop :=
  match phase s with
  | dialing false => mkLoop up 0 (autoReconnect s) (dials s) (notified s)
  | _ => s
  end.
Definition on_refused (jitter : Z) (s : Loop) : Loop :=
  match phase s with
  | dialing _ => loop_head jitter
      (mkLoop (phase s) (S (reconnectAttempt s)) (autoReconnect s) (dials s) (notified s))
  | _ => s
  end.

(** [disconnect()] and [disconnectAsync()]: the current socket is closed; the loop
    is not told. *)
Definition disconnect (s : Loop) : Loop :=
  mkLoop (match phase s with
          | up => idle | dialing _ => dialing true | p => p end)
    (reconnectAttempt s) false (dials s) (notified s).

Inductive LoopEvent : Type :=
| lp_lost (jitter : Z) | lp_timer | lp_connected | lp_refused (jitter : Z) | lp_disconnect.

Definition on_loop_event (e : LoopEvent) (s : Loop) : Loop :=
  match e with
  | lp_lost j => on_lost j s
  | lp_timer => on_timer s
  | lp_connected => on_connected s
  | lp_refused j => on_refused j s
  | lp_disconnect => disconnect s
  end.
Definition run_loop (es : list LoopEvent) (s : Loop) : Loop := fold_left (λ s e, on_loop_event e s) es s.




(** The delays back off: each is at least the base delay, never above 30 s, at
    least doubles the base for every failure until the cap, and the jitter adds
    less than a second. *)
Theorem backoff_bounds attempt jitter :
  0 ≤ jitter < 1000 →
  baseDelay ≤ backoff attempt jitter ≤ maxDelay ∧
  (6 ≤ attempt → backoff attempt jitter = maxDelay)%nat ∧
  ((attempt < 6)%nat → baseDelay * 2 ^ Z.of_nat attempt ≤ backoff attempt jitter
                         < baseDelay * 2 ^ Z.of_nat attempt + 1000).
Proof.
  intros Hj. unfold backoff, baseDelay, maxDelay.
  pose proof (Z.pow_pos_nonneg 2 (Z.of_nat attempt)) as Hp.
  split; [lia|]. split; intros Ha.
  - pose proof (Z.pow_le_mono_r 2 6 (Z.of_nat attempt)). lia.
  - pose proof (Z.pow_le_mono_r 2 (Z.of_nat attempt) 5). lia.
Qed.





(** [disconnect()] does not stop a reconnection in progress: it clears
    [autoReconnect], which only the [close] handler reads, so when the timer
    fires the loop dials again and the client ends up connected although it was
    disconnected on purpose; without a loop running it does stay down. *)
Theorem disconnect_leaves_loop s d :
  (phase s = waiting d →
   phase (run_loop [lp_disconnect; lp_timer; lp_connected] s) = up ∧
   autoReconnect (run_loop [lp_disconnect; lp_timer; lp_connected] s) = false) ∧
  (phase s = up → ∀ es, phase (run_loop es (disconnect s)) = idle).
Proof.
  split.
  - intros Hw. unfold run_loop. simpl. unfold disconnect. by rewrite Hw.
  - intros Hu es. assert (∀ s', phase s' = idle → phase (run_loop es s') = idle) as Hi.
    { induction es as [|e es IH]; intros s' Hs'; [done|]. apply IH.
      destruct e; simpl; unfold on_lost, on_timer, on_connected, on_refused, disconnect; simpl; by rewrite Hs'. }
    apply Hi. unfold disconnect. simpl. by rewrite Hu.
Qed.
End loop.

(** ** Witnesses *)
Definition just_lost : Loop := on_lost true 250 (mkLoop up 0 true 1 0).

Lemma backoff_bounds_witness : backoff 7 3 = maxDelay.
Proof. apply (backoff_bounds 7 3 ltac:(lia)). lia. Defined.


Lemma disconnect_leaves_loop_witness :
  phase (run_loop true [lp_disconnect; lp_timer; lp_connected] just_lost) = up.
Proof. exact (proj1 (proj1 (disconnect_leaves_loop true just_lost 750) eq_refl)). Defined.
