(* ===== verification/Closing.v ===== *)
(** The promises of relay-client.ts that a socket settles: [disconnectAsync], which
    waits for the close event and gives up after three seconds, and
    [waitForConnection]; with [shutdown] and [shutdownLocal] of tools/cli.ts. *)
From S2P Require Import Prelude.
#[local] Open Scope Z_scope.

(** ** One socket, and the calls made on its client *)
Inductive ReadyState : Type := CONNECTING | OPEN | CLOSING | CLOSED.

(** A call of [disconnectAsync]: when its timer is due, whether it listens for the
    close event, and when its promise was resolved. *)
Record Closer : Type := mkCloser {
  cl_timer : option Z;
  cl_listening : bool;
  cl_resolved : option Z
}.
(** A call of [waitForConnection]. *)
Inductive Opener : Type := op_listening | op_settled (r : res unit).

Record Link : Type := mkLink {
  ws : option ReadyState;
  lk_authenticated : bool;
  lk_heartbeat : bool;
  lk_autoReconnect : bool;
  closers : list Closer;
  openers : list Opener
}.

Definition set_ws (st : ReadyState) (l : Link) : Link :=
  mkLink (Some st) (lk_authenticated l) (lk_heartbeat l) (lk_autoReconnect l) (closers l) (openers l).
Definition cleanup_link (l : Link) : Link :=
  mkLink (ws l) false false (lk_autoReconnect l) (closers l) (openers l).
Definition put_closers (cs : list Closer) (l : Link) : Link :=
  mkLink (ws l) (lk_authenticated l) (lk_heartbeat l) (lk_autoReconnect l) cs (openers l).
Definition put_openers (os : list Opener) (l : Link) : Link :=
  mkLink (ws l) (lk_authenticated l) (lk_heartbeat l) (lk_autoReconnect l) (closers l) os.
Definition no_reconnect (l : Link) : Link :=
  mkLink (ws l) (lk_authenticated l) (lk_heartbeat l) false (closers l) (openers l).

(** [ws.close()] and [ws.terminate()]: nothing more happens to a closed socket. *)
Definition close_socket (l : Link) : Link :=
  match ws l with Some CONNECTING | Some OPEN => set_ws CLOSING l | _ => l end.

Definition CLOSE_TIMEOUT : Z := 3000.

(** [resolve()]: only the first has an effect. *)
Definition resolve_closer (now : Z) (c : Closer) : Closer :=
  mkCloser None (cl_listening c) (match cl_resolved c with Some t => Some t | None => Some now end).

Definition disconnectAsync (now : Z) (l : Link) : Link :=
  let l := no_reconnect l in
  match ws l with
  | None => put_closers (closers l ++ [mkCloser None false (Some now)]) l
  | Some _ => close_socket (put_closers (closers l ++ [mkCloser (Some (now + CLOSE_TIMEOUT)) true None]) l)
  end.

(** The timer of the call [i]: [ws.terminate()], [cleanup], [resolve]. *)
Definition close_timeout_event (i : nat) (now : Z) (l : Link) : Link :=
  match closers l !! i with
  | Some (mkCloser (Some due) listening r) =>
      cleanup_link (close_socket (put_closers (<[i := resolve_closer now (mkCloser (Some due) listening r)]> (closers l)) l))
  | _ => l
  end.

(** The close event: every call that listens clears its timer, cleans up and resolves. *)
Definition heard_close (now : Z) (c : Closer) : Closer :=
  if cl_listening c then mkCloser None false (cl_resolved (resolve_closer now c)) else c.
Definition close_event (now : Z) (l : Link) : Link :=
  match ws l with
  | Some CLOSED | None => l
  | Some _ => cleanup_link (put_closers (heard_close now <$> closers l) (set_ws CLOSED l))
  end.

Definition waitForConnection (l : Link) : Link :=
  put_openers (openers l ++
    [match ws l with
     | None => op_settled (Throw "not connected")
     | Some OPEN => op_settled (Ok tt)
     | Some _ => op_listening
     end]) l.

Definition settle_opener (r : res unit) (o : Opener) : Opener :=
  match o with op_listening => op_settled r | _ => o end.
(** The open event, and an error. *)
Definition open_event (l : Link) : Link :=
  match ws l with
  | Some CONNECTING => put_openers (settle_opener (Ok tt) <$> openers l) (set_ws OPEN l)
  | _ => l
  end.
Definition error_event (err : string) (l : Link) : Link :=
  match ws l with
  | Some CLOSED | None => l
  | Some _ => put_openers (settle_opener (Throw err) <$> openers l) l
  end.

Inductive LinkEvent : Type :=
| lk_open | lk_error (err : string) | lk_close (now : Z) | lk_timeout (i : nat) (now : Z)
| lk_disconnectAsync (now : Z) | lk_waitForConnection.
Definition on_link_event (l : Link) (e : LinkEvent) : Link :=
  match e with
  | lk_open => open_event l
  | lk_error err => error_event err l
  | lk_close now => close_event now l
  | lk_timeout i now => close_timeout_event i now l
  | lk_disconnectAsync now => disconnectAsync now l
  | lk_waitForConnection => waitForConnection l
  end.
Definition run_link (es : list LinkEvent) (l : Link) : Link := foldl on_link_event l es.

(** ** [disconnectAsync] is over at the close event or at its timer *)

(** Every call is resolved, or its timer still runs. *)
Definition closer_ok (c : Closer) : Prop :=
  is_Some (cl_resolved c) ∨ (is_Some (cl_timer c) ∧ cl_listening c = true).
Definition closers_ok (l : Link) : Prop := Forall closer_ok (closers l).

Lemma heard_close_ok now c : closer_ok c → closer_ok (heard_close now c).
Proof.
  unfold heard_close, resolve_closer, closer_ok. destruct (cl_listening c) eqn:E; [|by rewrite E].
  intros _. left. cbn. by destruct (cl_resolved c).
Qed.
Lemma close_socket_closers l : closers (close_socket l) = closers l.
Proof. unfold close_socket. by destruct (ws l) as [[]|]. Qed.

Lemma link_event_ok e l : closers_ok l → closers_ok (on_link_event l e).
Proof.
  unfold closers_ok. intros Ho. destruct e; cbn.
  - unfold open_event. by destruct (ws l) as [[]|].
  - unfold error_event. by destruct (ws l) as [[]|].
  - unfold close_event. destruct (ws l) as [[]|]; cbn; try done;
      apply Forall_fmap; (eapply Forall_impl; [exact Ho|]); intros c; apply heard_close_ok.
  - unfold close_timeout_event. destruct (closers l !! i) as [[[due|] li r]|]; try done.
    cbn. rewrite close_socket_closers. cbn. apply Forall_insert; [done|]. left. cbn. by destruct r.
  - unfold disconnectAsync. cbn. destruct (ws l); [rewrite close_socket_closers|]; cbn;
      apply Forall_app; (split; [done|]); apply Forall_singleton; [by right; eauto|by left; eauto].
  - done.
Qed.

Lemma run_link_ok es l : closers_ok l → closers_ok (run_link es l).
Proof. revert l. induction es as [|e es IH]; intros l Hl; [done|]. apply IH. by apply link_event_ok. Qed.

(** However the socket behaves, a call of [disconnectAsync] is over when the socket
    closes or when the timer of the call fires, three seconds after it, whichever
    is first; the client is then neither authenticated nor beating. *)
Lemma disconnectAsync_settles es s0 i c now :
  let l := run_link es s0 in
  closers_ok s0 → closers l !! i = Some c → cl_resolved c = None →
  (∀ st, ws l = Some st → st ≠ CLOSED →
    let l' := close_event now l in
    closers l' !! i = Some (mkCloser None false (Some now)) ∧ lk_authenticated l' = false ∧ lk_heartbeat l' = false) ∧
  let l' := close_timeout_event i now l in
  closers l' !! i = Some (mkCloser None true (Some now)) ∧ lk_authenticated l' = false ∧ lk_heartbeat l' = false.
Proof.
  intros l Hok Hc Hr. pose proof (Forall_lookup_1 _ _ _ _ (run_link_ok es s0 Hok) Hc) as Hcl.
  destruct c as [tm li r]. cbn in Hr. subst r. destruct Hcl as [[? H]|[[due H] Hli]]; cbn in *; [done|]. subst tm li.
  split.
  - intros st Hws Hne. unfold close_event. fold l. rewrite Hws. destruct st; try done; cbn; by rewrite list_lookup_fmap, Hc.
  - unfold close_timeout_event. fold l. rewrite Hc. cbn. rewrite close_socket_closers. cbn. split; [|done].
    apply list_lookup_insert_eq. by apply lookup_lt_is_Some; eexists.
Qed.

(** ** [waitForConnection] on a socket that is gone *)

(** The client keeps its closed socket until it dials again; a call made in that
    time is never settled, whatever happens to that socket. *)
Lemma waitForConnection_hangs es l i :
  ws l = Some CLOSED → i = length (openers l) →
  openers (run_link (lk_waitForConnection :: es) l) !! i = Some op_listening.
Proof.
  intros Hws ->. unfold run_link. cbn [foldl on_link_event].
  assert (∀ l', ws l' = Some CLOSED → openers l' !! length (openers l) = Some op_listening →
    openers (foldl on_link_event l' es) !! length (openers l) = Some op_listening) as H.
  { induction es as [|e es IH]; intros l' Hw Ho; [done|]. cbn [foldl]. apply IH.
    - destruct e; cbn; unfold open_event, error_event, close_event, close_timeout_event, disconnectAsync, close_socket; cbn;
        rewrite ?Hw; try done. repeat case_match; cbn; unfold close_socket; cbn; by rewrite ?Hw.
    - destruct e; cbn; unfold open_event, error_event, close_event, close_timeout_event, disconnectAsync, close_socket; cbn;
        rewrite ?Hw; try done.
      + repeat case_match; cbn; unfold close_socket; cbn; by rewrite ?Hw.
      + by apply lookup_app_l_Some. }
  apply H; [done|]. unfold waitForConnection. cbn. rewrite Hws.
  rewrite lookup_app_r, Nat.sub_diag by lia. done.
Qed.

(** ** tools/cli.ts: what a process has bootstrapped, and its end *)

(** [bootstrapped] and [localBootstrapped], the second only with its open database. *)
Record Session : Type := mkSession {
  bootstrapped : option Link;
  localBootstrapped : bool;
  databases_open : nat
}.

(** Up to the [await] of [disconnectAsync], and after it. *)
Definition shutdown_start (now : Z) (s : Session) : Session :=
  mkSession (disconnectAsync now <$> bootstrapped s) (localBootstrapped s) (databases_open s).
Definition shutdown_end (s : Session) : Session :=
  match bootstrapped s with
  | None => s
  | Some _ => mkSession None (localBootstrapped s) (pred (databases_open s))
  end.
Definition shutdownLocal (s : Session) : Session :=
  if localBootstrapped s then mkSession (bootstrapped s) false (pred (databases_open s)) else s.

(** Shutting down twice closes nothing twice. *)
Lemma shutdown_idempotent s :
  shutdownLocal (shutdownLocal s) = shutdownLocal s ∧ shutdown_end (shutdown_end s) = shutdown_end s.
Proof. destruct s as [[l|] [] n]; by split. Qed.
