(* ===== verification/KeyFile.v ===== *)
(** The identity on disk: saving and loading the keypair (identity.ts), what the
    bootstrap does when loading fails (tools/cli.ts), and pinch-whoami
    (tools/pinch-whoami.ts).  The file is its bytes, or nothing. *)
From S2P Require Import Prelude JsLib JsDate JsNumber Platform Identity.
From S2P Require Import Text JsonPrint Envelope Delivery RelayClient.

(** ** The libraries: libsodium's base64, which throws on text that is not base64,
    and the text of a JSON value in a template literal *)
Class SodiumBase64 : Type := { to_base64 : bytes → string; from_base64 : string → res bytes }.
Class SodiumBase64Laws `{SodiumBase64} : Prop := {
  from_to_base64 bs : from_base64 (to_base64 bs) = Ok bs
}.
Class Template : Type := { template : option JsonValue → string }.

Section keyfile.
Context `{UN : Unicode, SB : SodiumBase64, TP : Template}.

(** ** Saving and loading *)
Definition keypair_json (keypair : Keypair) (now : Z) : JsonValue := jobject
  [("version", jnumber "1");
   ("public_key", jstring (to_base64 (publicKey keypair)));
   ("private_key", jstring (to_base64 (privateKey keypair)));
   ("created_at", jstring (isoString now))].

(** The bytes written to the path. *)
Definition saveKeypair (keypair : Keypair) (now : Z) : bytes :=
  utf8_encode (JSON_stringify "  " (keypair_json keypair now)).

(** [data.version !== 1] *)
Definition is_version_1 (v : option JsonValue) : bool :=
  match v with Some (jnumber token) => bool_decide (Number (Some token) = num_of_Z 1) | _ => false end.

(** [sodium.from_base64(data.k)]: only a string is decoded. *)
Definition base64_property (v : option JsonValue) : res bytes :=
  match v with Some (jstring s) => from_base64 s | _ => Throw "unsupported input type" end.

Definition loadKeypair (content : option bytes) : res Keypair :=
  match content with
  | None => Throw "ENOENT: no such file or directory"
  | Some content =>
      match JSON_parse (text_decode content) with
      | None => Throw "Unexpected token in JSON"
      | Some data =>
          match property "version" data with
          | None => Throw "Cannot read properties of null"
          | Some version =>
              if negb (is_version_1 version)
              then Throw ("Unsupported keypair file version: " +:+ template version)
              else
                match base64_property (default None (property "public_key" data)),
                      base64_property (default None (property "private_key" data)) with
                | Ok pk, Ok sk => Ok (mkKeypair pk sk)
                | Throw e, _ => Throw e
                | _, Throw e => Throw e
                end
          end
      end
  end.

(** ** Starting up: [generated] is what [generateKeypair()] would return *)
Definition load_or_generate (generated : Keypair) (now : Z) (content : option bytes)
    : Keypair * option bytes :=
  match loadKeypair content with
  | Ok keypair => (keypair, content)
  | Throw _ => (generated, Some (saveKeypair generated now))
  end.

(** ** Theorems *)
Context `{!UnicodeLaws, !SodiumBase64Laws}.

Lemma keypair_json_ok keypair now : json_ok (keypair_json keypair now).
Proof.
  split; [by apply (bool_decide_unpack _)|]. split; [|done]. exists n_int. split; [done|].
  by intros m stk [-> | ->].
Qed.

Lemma load_saved keypair now : loadKeypair (Some (saveKeypair keypair now)) = Ok keypair.
Proof.
  unfold loadKeypair, saveKeypair. rewrite text_decode_encode, stringify_parses; [|done|apply keypair_json_ok].
  assert (is_version_1 (Some (jnumber "1")) = true) as Hv by (vm_compute; reflexivity).
  assert (property "version" (keypair_json keypair now) = Some (Some (jnumber "1"))) as -> by done.
  assert (property "public_key" (keypair_json keypair now) =
          Some (Some (jstring (to_base64 (publicKey keypair))))) as -> by done.
  assert (property "private_key" (keypair_json keypair now) =
          Some (Some (jstring (to_base64 (privateKey keypair))))) as -> by done.
  rewrite Hv. cbn [negb default from_option base64_property id]. rewrite !from_to_base64. by destruct keypair.
Qed.

(** C39. The identity survives: a keypair that is saved is loaded with the same two
    keys, and whatever the file held at a start of the skill, every later start
    uses the keypair of that start and leaves the file alone. *)
Theorem identity_survives generated now content keypair content' generated' now' :
  load_or_generate generated now content = (keypair, content') →
  loadKeypair (Some (saveKeypair keypair now)) = Ok keypair ∧
  load_or_generate generated' now' content' = (keypair, content').
Proof.
  intros Hl. split; [apply load_saved|]. unfold load_or_generate in *.
  destruct (loadKeypair content) as [k|e] eqn:E; injection Hl as <- <-; [by rewrite E|].
  by rewrite load_saved.
Qed.

(** Any failure to load destroys the identity on disk: when the file is there but
    is not JSON, has another version, or holds a key that is not base64, the
    start does not stop but generates a new keypair and overwrites the file, so
    that what it held is gone and every later start has the new identity. *)
Theorem unreadable_key_replaced generated now content e :
  loadKeypair (Some content) = Throw e →
  load_or_generate generated now (Some content) = (generated, Some (saveKeypair generated now)) ∧
  (loadKeypair (Some (saveKeypair generated now)) = Ok generated ∧
   saveKeypair generated now ≠ content).
Proof.
  intros He. unfold load_or_generate. rewrite He. split; [done|]. split; [apply load_saved|].
  intros E. rewrite <- E, load_saved in He. done.
Qed.

(** ** pinch-whoami *)
Context `{SH : Sha256, B58 : Base58}.

(** The environment: the variables of the tool, [None] when unset. *)
Record WhoamiEnv : Type := mkWhoamiEnv {
  PINCH_KEYPAIR_PATH : option string;
  PINCH_RELAY_HOST : option string;
  PINCH_RELAY_URL : option string;
  home_keypair : string
}.

(** The answer to the registration request. *)
Record FetchResponse : Type := mkResponse {
  fr_ok : bool;
  fr_status : string;
  fr_text : string;
  fr_claim_code : string
}.

(** The request: the URL and the JSON body. *)
Record FetchRequest : Type := mkFetch { fq_url : string; fq_body : string }.

(** What was printed, what was sent, and whether the exit code is 0. *)
Record WhoamiResult : Type := mkWhoami {
  wr_stdout : list string;
  wr_request : option FetchRequest;
  wr_stderr : option string
}.

Definition whoami_request (relayUrl : string) (keypair : Keypair) : FetchRequest :=
  mkFetch (relayBaseUrl relayUrl +:+ "/agents/register")
    (json_object [("public_key", json_string (to_base64 (publicKey keypair)))]).

(** The tool once it has its keypair and address. *)
Definition whoami_report (args : list string) (env : WhoamiEnv) (keypair : Keypair) (address : string)
    (fetch : FetchRequest → FetchResponse) : WhoamiResult :=
  let keypairPath := default (home_keypair env) (PINCH_KEYPAIR_PATH env) in
  let relayUrl := default "" (PINCH_RELAY_URL env) in
  let lines := ["Address:  " +:+ address; "Keypair:  " +:+ keypairPath;
                "Relay:    " +:+ str_or (Some relayUrl) "(not set)"] in
  if negb (bool_decide ("--register" ∈ args)) then mkWhoami lines None None
  else if bool_decide (relayUrl = "")
  then mkWhoami lines None (Some "Error: PINCH_RELAY_URL is required for --register")
  else
    let request := whoami_request relayUrl keypair in
    let response := fetch request in
    if negb (fr_ok response)
    then mkWhoami lines (Some request)
           (Some ("Error: registration failed (" +:+ fr_status response +:+ "): " +:+
                  trim (fr_text response)))
    else mkWhoami (lines ++ [""; "Claim code:  " +:+ fr_claim_code response;
                             "To approve:  Visit " +:+ relayBaseUrl relayUrl +:+
                               "/claim and enter the code"])
           (Some request) None.

(** [run(args)] with the file of the keypair: the result and the file left. *)
Definition whoami (args : list string) (env : WhoamiEnv) (generated : Keypair) (now : Z)
    (fetch : FetchRequest → FetchResponse) (content : option bytes) : res WhoamiResult * option bytes :=
  let '(keypair, content) := load_or_generate generated now content in
  match generateAddress (publicKey keypair) (default "localhost" (PINCH_RELAY_HOST env)) with
  | Throw e => (Throw e, content)
  | Ok address => (Ok (whoami_report args env keypair address fetch), content)
  end.

Lemma whoami_address args env keypair address fetch :
  head (wr_stdout (whoami_report args env keypair address fetch)) = Some ("Address:  " +:+ address).
Proof. unfold whoami_report. by repeat case_match. Qed.

Lemma whoami_sends args env keypair address fetch q :
  wr_request (whoami_report args env keypair address fetch) = Some q →
  "--register" ∈ args ∧ q = whoami_request (default "" (PINCH_RELAY_URL env)) keypair.
Proof.
  unfold whoami_report. case_bool_decide; simpl; [|done]. case_bool_decide; [done|].
  destruct (negb _); by intros [= <-].
Qed.

(** Asking twice: pinch-whoami prints the same address on every call, the address
    of the key it registers, and nothing is sent without [--register] and a
    relay URL. *)
Theorem whoami_stable args args' env g g' now now' fetch fetch' content r content' :
  whoami args env g now fetch content = (Ok r, content') →
  ∃ keypair address r',
    loadKeypair content' = Ok keypair ∧
    generateAddress (publicKey keypair) (default "localhost" (PINCH_RELAY_HOST env)) = Ok address ∧
    head (wr_stdout r) = Some ("Address:  " +:+ address) ∧
    (∀ q, wr_request r = Some q →
       "--register" ∈ args ∧ q = whoami_request (default "" (PINCH_RELAY_URL env)) keypair) ∧
    whoami args' env g' now' fetch' content' = (Ok r', content') ∧
    head (wr_stdout r') = Some ("Address:  " +:+ address).
Proof.
  unfold whoami. destruct (load_or_generate g now content) as [k c] eqn:El.
  assert (load_or_generate g' now' c = (k, c) ∧ loadKeypair c = Ok k) as [E2 Ek].
  { unfold load_or_generate in El |- *.
    destruct (loadKeypair content) eqn:E; injection El as <- <-; [by rewrite E|by rewrite load_saved]. }
  destruct (generateAddress _ _) as [a|e] eqn:Ea; [|done]. intros [= <- <-].
  exists k, a, (whoami_report args' env k a fetch'). rewrite E2, Ea.
  split_and!; try done; [apply whoami_address|intros q; apply whoami_sends|apply whoami_address].
Qed.
End keyfile.

(** ** Witnesses *)
Section witnesses.
Import Sample SampleText.

#[local] Instance sample_base64 : SodiumBase64 :=
  {| to_base64 := encode;
     from_base64 := λ s, match Sample.decode s with Some bs => Ok bs | None => Throw "incomplete input" end |}.
#[local] Instance sample_base64_laws : SodiumBase64Laws.
Proof. split. intros bs. simpl. by rewrite decode_encode. Qed.
#[local] Instance sample_template : Template := {| template := λ _, "undefined" |}.

Definition key_a : Keypair := mkKeypair (replicate 32 Byte.x41) (replicate 64 Byte.x42).
Definition key_b : Keypair := mkKeypair (replicate 32 Byte.x43) (replicate 64 Byte.x44).
Definition version_2 : bytes := utf8_encode (JSON_stringify "" (jobject [("version", jnumber "2")])).

Lemma identity_survives_witness :
  load_or_generate key_b 7 (Some (saveKeypair key_a 5)) = (key_a, Some (saveKeypair key_a 5)).
Proof.
  exact (proj2 (identity_survives key_a 5 None key_a (Some (saveKeypair key_a 5)) key_b 7 eq_refl)).
Defined.

Lemma unreadable_key_replaced_witness :
  (load_or_generate key_b 7 (Some version_2)).1 = key_b.
Proof.
  assert (loadKeypair (Some version_2) = Throw "Unsupported keypair file version: undefined") as He
    by (vm_compute; reflexivity).
  rewrite (proj1 (unreadable_key_replaced key_b 7 version_2 _ He)). reflexivity.
Defined.

Definition at_home : WhoamiEnv := mkWhoamiEnv None None (Some "wss://relay.example.com/ws") "/home/a/.pinch/keypair.json".
Definition refuses : FetchRequest → FetchResponse := λ _, mkResponse false "409" "taken" "".

Lemma whoami_stable_witness :
  ∃ r', whoami [] at_home key_b 9 refuses (whoami ["--register"] at_home key_a 5 refuses None).2 =
        (Ok r', (whoami ["--register"] at_home key_a 5 refuses None).2).
Proof.
  assert (∃ r c, whoami ["--register"] at_home key_a 5 refuses None = (Ok r, c)) as (r & c & Hr)
    by (do 2 eexists; vm_compute; reflexivity).
  destruct (whoami_stable ["--register"] [] at_home key_a key_b 5 9 refuses refuses None r c Hr)
    as (_ & _ & r' & _ & _ & _ & _ & H & _).
  exists r'. rewrite Hr. exact H.
Defined.
End witnesses.
