(* ===== verification/Crypto.v ===== *)
(** [crypto.ts]: NaCl boxes between Ed25519 identities, and the layout of a sealed
    message: the 24-byte nonce, then the ciphertext. *)
From S2P Require Import Prelude JsLib Envelope Delivery World.

(** ** libsodium: conversion of keys, boxes (they throw on bad keys and forged
    boxes) and random bytes, new at every call *)
Class NaclBox : Type := {
  crypto_sign_ed25519_pk_to_curve25519 : bytes → res bytes;
  crypto_sign_ed25519_sk_to_curve25519 : bytes → res bytes;
  crypto_box_easy : bytes → bytes → bytes → bytes → res bytes;       (* plaintext, nonce, public, private *)
  crypto_box_open_easy : bytes → bytes → bytes → bytes → res bytes;  (* ciphertext, nonce, public, private *)
  randombytes_buf : nat → nat → bytes                                (* the call, the size *)
}.
Definition crypto_box_NONCEBYTES : nat := 24.

Class NaclLaws `{NaclBox, Ed25519} : Prop := {
  random_length k n : length (randombytes_buf k n) = n;
  nacl_keys pk sk : ed_pair pk sk →
    ∃ xpk xsk, crypto_sign_ed25519_pk_to_curve25519 pk = Ok xpk ∧
               crypto_sign_ed25519_sk_to_curve25519 sk = Ok xsk;
  nacl_open pk sk pk' sk' xpk xsk xpk' xsk' nonce m :
    ed_pair pk sk → ed_pair pk' sk' →
    crypto_sign_ed25519_pk_to_curve25519 pk = Ok xpk →
    crypto_sign_ed25519_sk_to_curve25519 sk = Ok xsk →
    crypto_sign_ed25519_pk_to_curve25519 pk' = Ok xpk' →
    crypto_sign_ed25519_sk_to_curve25519 sk' = Ok xsk' →
    length nonce = crypto_box_NONCEBYTES →
    ∃ c, crypto_box_easy m nonce xpk' xsk = Ok c ∧ crypto_box_open_easy c nonce xpk xsk' = Ok m
}.

Section crypto.
Context `{NaclBox}.

Definition ed25519PubToX25519 (pubKey : bytes) : res bytes :=
  crypto_sign_ed25519_pk_to_curve25519 pubKey.
Definition ed25519PrivToX25519 (privKey : bytes) : res bytes :=
  crypto_sign_ed25519_sk_to_curve25519 privKey.

(** [result.set(nonce); result.set(ciphertext, nonce.length)] *)
Definition u8_concat (nonce ciphertext : bytes) : res bytes :=
  match u8_set nonce 0 (replicate (length nonce + length ciphertext) Byte.x00)
          ≫= u8_set ciphertext (length nonce) with
  | Some result => Ok result
  | None => Throw "offset is out of bounds"
  end.

Definition encryptWithNonce (plaintext recipientX25519Pub senderX25519Priv nonce : bytes)
    : res bytes :=
  match crypto_box_easy plaintext nonce recipientX25519Pub senderX25519Priv with
  | Ok ciphertext => u8_concat nonce ciphertext
  | Throw e => Throw e
  end.

Definition encrypt (plaintext recipientX25519Pub senderX25519Priv : bytes) : M World bytes :=
  nonce ← ask (λ k, randombytes_buf k crypto_box_NONCEBYTES);
  lift (encryptWithNonce plaintext recipientX25519Pub senderX25519Priv nonce).

Definition decrypt (sealed senderX25519Pub recipientX25519Priv : bytes) : res bytes :=
  let nonce := take crypto_box_NONCEBYTES sealed in
  let ciphertext := drop crypto_box_NONCEBYTES sealed in
  crypto_box_open_easy ciphertext nonce senderX25519Pub recipientX25519Priv.
End crypto.

Lemma u8_concat_eq nonce ciphertext : u8_concat nonce ciphertext = Ok (nonce ++ ciphertext).
Proof.
  unfold u8_concat. rewrite u8_set_fill_0 by lia. cbn [mbind option_bind].
  rewrite u8_set_fill by (done || lia).
  replace (length nonce + length ciphertext - length nonce - length ciphertext) with 0 by lia.
  by rewrite app_nil_r.
Qed.

Section laws.
Context `{NaclLaws}.

(** What one key pair seals for another, the other opens. *)
Lemma decrypt_encrypt pk sk pk' sk' nonce m :
  ed_pair pk sk → ed_pair pk' sk' → length nonce = crypto_box_NONCEBYTES →
  ∃ xpk xsk xpk' xsk' sealed,
    ed25519PubToX25519 pk = Ok xpk ∧ ed25519PrivToX25519 sk = Ok xsk ∧
    ed25519PubToX25519 pk' = Ok xpk' ∧ ed25519PrivToX25519 sk' = Ok xsk' ∧
    encryptWithNonce m xpk' xsk nonce = Ok sealed ∧ decrypt sealed xpk xsk' = Ok m.
Proof.
  intros Hp Hp' Hn. destruct (nacl_keys pk sk Hp) as (xpk & xsk & E1 & E2).
  destruct (nacl_keys pk' sk' Hp') as (xpk' & xsk' & E3 & E4).
  destruct (nacl_open pk sk pk' sk' xpk xsk xpk' xsk' nonce m) as (c & Hc & Ho); [done..|].
  exists xpk, xsk, xpk', xsk', (nonce ++ c). unfold encryptWithNonce, decrypt.
  rewrite Hc, u8_concat_eq, take_app_length', drop_app_length' by done. done.
Qed.
End laws.

(** ** A concrete box, for the witnesses: a key pair is a byte string and itself,
    and a box names the two ends *)
Module SampleBox.
Definition good (k : bytes) : bool := bool_decide (k ≠ []).
Definition key (k : bytes) : res bytes := if good k then Ok k else Throw "invalid key".

#[export] Instance ed : Ed25519 := {|
  crypto_sign_detached p sk := Ok (sk ++ p);
  crypto_sign_verify_detached sg p pk := Ok (bool_decide (sg = pk ++ p));
  ed_pair pk sk := pk = sk ∧ pk ≠ []
|}.
#[export] Instance ed_laws : Ed25519Laws.
Proof.
  split; simpl.
  - intros pk sk p _. by eexists.
  - intros pk sk p sg [-> _] [= <-]. by rewrite bool_decide_eq_true_2.
Qed.

#[export] Instance box : NaclBox := {|
  crypto_sign_ed25519_pk_to_curve25519 := key;
  crypto_sign_ed25519_sk_to_curve25519 := key;
  crypto_box_easy m n pk sk := Ok (sk ++ pk ++ m);
  crypto_box_open_easy c n pk sk :=
    if bool_decide (take (length (pk ++ sk)) c = pk ++ sk) then Ok (drop (length (pk ++ sk)) c)
    else Throw "incorrect key pair for the given ciphertext";
  randombytes_buf k n := replicate n Byte.x07
|}.
#[export] Instance box_laws : NaclLaws.
Proof.
  split; simpl.
  - intros k n. by rewrite length_replicate.
  - intros pk sk [-> Hl]. exists sk, sk. unfold key, good. by rewrite bool_decide_eq_true_2.
  - intros pk sk pk' sk' xpk xsk xpk' xsk' n m [-> Hl] [-> Hl']. unfold key, good.
    rewrite !bool_decide_eq_true_2 by done. intros [= <-] [= <-] [= <-] [= <-] _.
    eexists. split; [reflexivity|]. rewrite (app_assoc sk), take_app_length, drop_app_length.
    by rewrite bool_decide_eq_true_2.
Qed.
End SampleBox.
