(* ===== verification/MessageManager.v ===== *)
(** [message-manager.ts]: sending and receiving encrypted messages, and the signed
    delivery confirmations.  A received message is stored before the pipeline
    decides about it; every stored message is confirmed to its sender. *)
From S2P Require Import Prelude JsLib JsDate Platform Identity Identity PermissionsManifest ConnectionStore.
From S2P Require Import MessageStore ActivityFeed World CircuitBreaker InboundRouter.
From S2P Require Import PermissionsEnforcer EnforcementPipeline Text Envelope ConnectionManager.
From S2P Require Import Delivery Crypto.
From stdpp Require Import gmap pretty.
Local Open Scope Z_scope.

(** ** The libraries: protobuf's byte format, which throws on integers that do not
    fit their field and on bytes that do not parse, and SQLite's text of a
    number bound to a TEXT column *)
Class Wire : Type := {
  env_toBinary : Envelope → res bytes;
  pt_toBinary : PlaintextPayload → res bytes;
  pt_fromBinary : bytes → res PlaintextPayload;
  sqlite_number_text : string → string
}.

(** uint32, uint64 and int64. *)
Definition pt_in_range (p : PlaintextPayload) : Prop :=
  0 ≤ pt_version p < 2 ^ 32 ∧ 0 ≤ pt_sequence p < 2 ^ 64 ∧
  - 2 ^ 63 ≤ pt_timestamp p < 2 ^ 63.

Class WireLaws `{Wire} : Prop := {
  pt_roundtrip p : pt_in_range p → ∃ bs, pt_toBinary p = Ok bs ∧ pt_fromBinary bs = Ok p
}.

(** The encoder takes a confirmation whose integers have their width. *)
Class ConfirmEncodes `{Wire} : Prop := {
  confirm_encodes e d :
    env_payload e = deliveryConfirm d → 0 ≤ env_version e < 2 ^ 32 →
    - 2 ^ 63 ≤ env_timestamp e < 2 ^ 63 → - 2 ^ 63 ≤ dc_timestamp d < 2 ^ 63 →
    ∃ bs, env_toBinary e = Ok bs
}.

(** ** Data *)
Definition MAX_ENVELOPE_SIZE : nat := 60 * 1024.

Record SendMessageParams : Type := mkSendParams {
  recipient : string;
  p_body : string;
  p_threadId : option string;
  p_replyTo : option string;
  p_priority : option Priority;
  p_attribution : option Attribution
}.

Definition attribution_text (a : Attribution) : string :=
  match a with agent => "agent" | human => "human" end.

Definition CONTENT_TYPE : string := "application/x-pinch+json".

(** [JSON.stringify({ text, attribution, threadId, replyTo })]: an undefined property
    is left out. *)
Definition content_fields (body : string) (a : Attribution) (threadId : string)
    (replyTo : option string) : list (string * string) :=
  [("text", body); ("attribution", attribution_text a); ("threadId", threadId)]
  ++ match replyTo with Some r => [("replyTo", r)] | None => [] end.
Definition wrappedContent (body : string) (a : Attribution) (threadId : string)
    (replyTo : option string) : string :=
  json_object (string_field <$> content_fields body a threadId replyTo).

(** Step 4 of [sendMessage]. *)
Definition resolve_thread (params : SendMessageParams) (messageId : string) (db : MessageDb)
    : string :=
  let threadId :=
    if negb (truthy_str (p_threadId params)) && truthy_str (p_replyTo params) then
      let replied := getMessage (default "" (p_replyTo params)) db ≫= m_threadId in
      if truthy_str replied then replied else p_threadId params
    else p_threadId params in
  str_or threadId messageId.

(** [Number(n)] for a non-negative bigint: the nearest double, ties to even. *)
Definition Number_of_bigint (n : Z) : Z :=
  if n <? 2 ^ 53 then n
  else
    let k := Z.log2 n - 52 in
    let q := n / 2 ^ k in
    let r := n mod 2 ^ k in
    let half := 2 ^ (k - 1) in
    (if r <? half then q else if half <? r then q + 1 else if Z.even q then q else q + 1) * 2 ^ k.

Record Content : Type := mkContent {
  ct_body : BodyValue;
  ct_attribution : Attribution;
  ct_threadId : option string;
  ct_replyTo : option string
}.

(** Steps 2 to 9 of [handleIncomingMessage]. *)
Record Incoming : Type := mkIncoming {
  in_content : Content;
  in_sequence : Z;
  in_messageId : string
}.

Section content.
Context `{Unicode, Wire}.

(** Step 8. *)
Definition parsed_content (rawBody : string) (parsed : JsonValue) : option Content :=
  text ← property "text" parsed;
  attribution ← property "attribution" parsed;
  threadId ← property "threadId" parsed;
  replyTo ← property "replyTo" parsed;
  let as_string (v : option JsonValue) := match v with Some (jstring s) => Some s | _ => None end in
  Some {|
    ct_body := match text with
               | None | Some jnull => text_body rawBody
               | Some (jstring s) => text_body s
               | Some (jnumber token) => number_body token
               | Some _ => unbindable_body
               end;
    ct_attribution := if bool_decide (as_string attribution = Some "human") then human else agent;
    ct_threadId := as_string threadId;
    ct_replyTo := as_string replyTo
  |}.

(** What the column [body] gets; a value that SQLite cannot bind makes the insert throw. *)
Definition column_text (body : BodyValue) : option string :=
  match body with
  | text_body s => Some s
  | number_body token => Some (sqlite_number_text token)
  | unbindable_body => None
  end.

Definition raw_content (rawBody : string) : Content := mkContent (text_body rawBody) agent None None.

Definition read_content (contentType rawBody : string) : Content :=
  if bool_decide (contentType = CONTENT_TYPE)
  then default (raw_content rawBody) (JSON_parse rawBody ≫= parsed_content rawBody)
  else raw_content rawBody.
End content.

Section manager.
Context `{EN : Env, SH : Sha256, SQ : SqlEngine, B58 : Base58, B64 : Base64}.
Context `{UN : Unicode, WI : Wire, ED : Ed25519, NB : NaclBox}.
Context (config : CircuitBreakerConfig) (keypair : Keypair).

Definition in_db {A} (m : M MessageDb A) : M Agent A := zoom worldL (zoom dbL m).

(** ** Sending *)
Definition outbound_record (params : SendMessageParams) (messageId threadId : string)
    (sequence : Z) (now : string) : MessageRecord := {|
  m_id := messageId;
  m_connectionAddress := recipient params;
  m_direction := outbound;
  m_body := p_body params;
  m_threadId := Some threadId;
  m_replyTo := p_replyTo params;
  m_priority := default normal (p_priority params);
  m_sequence := sequence;
  m_state := "sent";
  m_failureReason := None;
  m_attribution := Some (default agent (p_attribution params));
  m_createdAt := now;
  m_updatedAt := now;
  m_numberBody := None
|}.

Definition message_envelope (fromAddress toAddress messageId : string) (now : Z) (sealed : bytes)
    : Envelope :=
  mkEnvelope 1 fromAddress toAddress MESSAGE (utf8_encode messageId) now
    (encrypted (mkEncrypted (take 24 sealed) (drop 24 sealed) (publicKey keypair))).

Definition sendMessage (params : SendMessageParams) : M Agent string :=
  connection ← conn_ (recipient params);
  if bool_decide (cstate <$> connection ≠ Some active) then throw "Connection is not active"
  else
    peerEd25519Pub ← gets (λ s, getPeerPublicKey (recipient params) (ag_store s));
    match peerEd25519Pub with
    | None => throw "Peer public key not available"
    | Some peerEd25519Pub =>
        messageId ← zoom worldL uuidv7;
        threadId ← gets (λ s, resolve_thread params messageId (w_db (ag_world s)));
        sequence ← in_db (nextSequence (recipient params));
        now ← now_;
        plaintextBytes ← lift (pt_toBinary (mkPlaintext 1 sequence now
          (utf8_encode (wrappedContent (p_body params) (default agent (p_attribution params))
                          threadId (p_replyTo params)))
          CONTENT_TYPE));
        senderX25519Priv ← lift (ed25519PrivToX25519 (privateKey keypair));
        recipientX25519Pub ← lift (ed25519PubToX25519 peerEd25519Pub);
        sealed ← zoom worldL (encrypt plaintextBytes recipientX25519Pub senderX25519Priv);
        fromAddress ← own_address;
        now ← now_;
        let e := message_envelope fromAddress (recipient params) messageId now sealed in
        envelopeBytes ← lift (env_toBinary e);
        if (MAX_ENVELOPE_SIZE <? length envelopeBytes)%nat then throw "message too large"
        else
          now ← now_;
          in_db (saveMessage (outbound_record params messageId threadId sequence (isoString now)));;
          send_ e;;
          mret messageId
    end.

(** ** Receiving *)
Definition open_message (e : Envelope) : res Incoming :=
  match env_payload e with
  | encrypted p =>
      match ed25519PubToX25519 (enc_senderPublicKey p) with
      | Throw err => Throw err
      | Ok senderX25519Pub =>
      match ed25519PrivToX25519 (privateKey keypair) with
      | Throw err => Throw err
      | Ok recipientX25519Priv =>
      match u8_concat (enc_nonce p) (enc_ciphertext p) with
      | Throw err => Throw err
      | Ok sealed =>
      match decrypt sealed senderX25519Pub recipientX25519Priv with
      | Throw err => Throw err
      | Ok decryptedBytes =>
      match pt_fromBinary decryptedBytes with
      | Throw err => Throw err
      | Ok pt =>
          Ok (mkIncoming (read_content (pt_contentType pt) (text_decode (pt_content pt)))
                (Number_of_bigint (pt_sequence pt)) (text_decode (env_messageId e)))
      end end end end end
  | _ => Throw "Expected encrypted payload"
  end.

Definition inbound_record (senderAddress body : string) (i : Incoming) (now : string)
    : MessageRecord := {|
  m_id := in_messageId i;
  m_connectionAddress := senderAddress;
  m_direction := inbound;
  m_body := body;
  m_threadId := ct_threadId (in_content i);
  m_replyTo := ct_replyTo (in_content i);
  m_priority := normal;
  m_sequence := in_sequence i;
  m_state := "delivered";
  m_failureReason := None;
  m_attribution := Some (ct_attribution (in_content i));
  m_createdAt := now;
  m_updatedAt := now;
  m_numberBody := match ct_body (in_content i) with number_body token => Some token | _ => None end
|}.

Definition confirm_envelope (fromAddress toAddress messageId : string) (timestamp : Z)
    (signature : bytes) : Envelope :=
  mkEnvelope 1 fromAddress toAddress DELIVERY_CONFIRM [] timestamp
    (deliveryConfirm (mkConfirm (utf8_encode messageId) signature timestamp "delivered" false)).

Definition sendDeliveryConfirmation (messageId senderAddress : string) : M Agent unit :=
  timestamp ← now_;
  signature ← lift (signDeliveryConfirmation (utf8_encode messageId) timestamp (privateKey keypair));
  fromAddress ← gets (λ s, assignedAddress (ag_relay s));
  if negb (truthy_str fromAddress) then mret tt
  else
    let e := confirm_envelope (default "" fromAddress) senderAddress messageId timestamp signature in
    _ ← lift (env_toBinary e);
    send_ e.

Definition handleIncomingMessage (e : Envelope) : M Agent unit :=
  i ← lift (open_message e);
  let senderAddress := env_fromAddress e in
  now ← now_;
  match column_text (ct_body (in_content i)) with
  | None => throw "SQLite3 can only bind numbers, strings, bigints, buffers, and null"
  | Some body =>
      let messageRecord := inbound_record senderAddress body i (isoString now) in
      in_db (saveMessage messageRecord);;
      _ ← zoom worldL (process config messageRecord senderAddress);
      sendDeliveryConfirmation (in_messageId i) senderAddress
  end.

(** A confirmation of a message we sent; the console output is left out. *)
Definition handleDeliveryConfirmation (e : Envelope) : M Agent unit :=
  match env_payload e with
  | deliveryConfirm confirm =>
      let messageId := text_decode (dc_messageId confirm) in
      message ← gets (λ s, getMessage messageId (w_db (ag_world s)));
      match message with
      | None => mret tt
      | Some _ =>
          peerPubKey ← gets (λ s, getPeerPublicKey (env_fromAddress e) (ag_store s));
          match peerPubKey with
          | None => mret tt
          | Some peerPubKey =>
              valid ← lift (verifyDeliveryConfirmation (dc_signature confirm)
                              (dc_messageId confirm) (dc_timestamp confirm) peerPubKey);
              if valid : bool then zoom worldL (w_updateState messageId (dc_state confirm) None)
              else mret tt
          end
      end
  | _ => throw "Expected deliveryConfirm payload"
  end.

(** The part of the envelope handler that works on the agent. *)
Definition dispatch (e : Envelope) : M Agent unit :=
  match env_type e with
  | MESSAGE => handleIncomingMessage e
  | DELIVERY_CONFIRM => handleDeliveryConfirmation e
  | _ => mret tt
  end.
End manager.

(** ** Running the calls *)
Section running.
Context `{EN : Env, SH : Sha256, SQ : SqlEngine, B58 : Base58, B64 : Base64}.
Context `{UN : Unicode, WI : Wire, ED : Ed25519, NB : NaclBox}.

Definition tick (s : Agent) : nat := w_tick (ag_world s).
Definition ag_db (s : Agent) : MessageDb := w_db (ag_world s).
Definition ticked (s : Agent) : Agent := put_world (put_tick (S (tick s)) (ag_world s)) s.
Definition with_db (d : MessageDb) (s : Agent) : Agent := put_world (put_db d (ag_world s)) s.

Lemma now_ticked s : now_ s = (Ok (env_now (tick s)), ticked s).
Proof. by destruct s as [[] ]. Qed.
Lemma uuid_ticked s : zoom worldL uuidv7 s = (Ok (env_uuid (tick s)), ticked s).
Proof. by destruct s as [[] ]. Qed.
Lemma encrypt_ticked p pk sk s :
  zoom worldL (encrypt p pk sk) s =
  (encryptWithNonce p pk sk (randombytes_buf (tick s) crypto_box_NONCEBYTES), ticked s).
Proof. by destruct s as [[] ]. Qed.
Lemma in_db_run {A} (m : M MessageDb A) s : in_db m s = ((m (ag_db s)).1, with_db (m (ag_db s)).2 s).
Proof. destruct s as [[] ]. unfold in_db, zoom. cbn. by destruct (m _). Qed.

(** Nothing but the clock and the sequence numbers has moved. *)
Definition drafted (s s' : Agent) : Prop :=
  ag_store s' = ag_store s ∧ ag_relay s' = ag_relay s ∧ w_feed (ag_world s') = w_feed (ag_world s) ∧
  w_events (ag_world s') = w_events (ag_world s) ∧ messages (ag_db s') = messages (ag_db s).

#[export] Instance drafted_preorder : PreOrder drafted.
Proof. split; [by intros s|]. unfold drafted. intros x y z. naive_solver congruence. Qed.
Lemma drafted_ticked s : drafted s (ticked s).
Proof. by destruct s as [[] ]. Qed.
Lemma drafted_nextSequence a s : drafted s (with_db (nextSequence a (ag_db s)).2 s).
Proof. by destruct s as [[] ]. Qed.

Lemma ready_relay s :
  truthy_str (assignedAddress (ag_relay s)) = true →
  own_address s = (Ok (default "" (assignedAddress (ag_relay s))), s).
Proof. intros H. by rewrite own_address_run, H. Qed.
End running.

(** ** Sending *)
Section sending.
Context `{EN : Env, SH : Sha256, SQ : SqlEngine, B58 : Base58, B64 : Base64}.
Context `{UN : Unicode, WI : Wire, ED : Ed25519, NB : NaclBox}.
Context (keypair : Keypair).

(** [m] is the row and [e] the envelope of the message sent from [s]: to an active
    peer, sealed for the key the store has for it. *)
Definition composed (params : SendMessageParams) (s : Agent) (m : MessageRecord) (e : Envelope)
    : Prop :=
  ∃ c peerKey own n now created timestamp k plaintext xsk xpk sealed bs,
    let i := env_uuid (tick s) in
    let threadId := resolve_thread params i (ag_db s) in
    ag_conn (recipient params) s = Some c ∧ cstate c = active ∧
    getPeerPublicKey (recipient params) (ag_store s) = Some peerKey ∧
    assignedAddress (ag_relay s) = Some own ∧ own ≠ "" ∧
    (nextSequence (recipient params) (ag_db s)).1 = Ok n ∧
    pt_toBinary (mkPlaintext 1 n (env_now now)
      (utf8_encode (wrappedContent (p_body params) (default agent (p_attribution params))
                      threadId (p_replyTo params))) CONTENT_TYPE) = Ok plaintext ∧
    ed25519PrivToX25519 (privateKey keypair) = Ok xsk ∧
    ed25519PubToX25519 peerKey = Ok xpk ∧
    encryptWithNonce plaintext xpk xsk (randombytes_buf k crypto_box_NONCEBYTES) = Ok sealed ∧
    m = outbound_record params i threadId n created ∧
    e = message_envelope keypair own (recipient params) i timestamp sealed ∧
    env_toBinary e = Ok bs ∧ (length bs ≤ MAX_ENVELOPE_SIZE)%nat.

(** What is composed here is text, so the column keeps it as it is. *)
Lemma composed_text params s m e : composed params s m e → as_text m = m.
Proof.
  intros (? & ? & ? & ? & ? & ? & ? & ? & ? & ? & ? & ? & ? & H).
  by destruct H as (_ & _ & _ & _ & _ & _ & _ & _ & _ & _ & -> & _).
Qed.

(** The call ends here, with nothing but a draft. *)
Ltac stops := intros [= <- <-]; left; by eexists.
Tactic Notation "lifted" ident(v) ident(E) :=
  bind1; match goal with |- context [lift ?x _] => unfold lift at 1; destruct x as [v|?] eqn:E; [|stops] end.

Lemma sendMessage_run params s r s' :
  sendMessage keypair params s = (r, s') →
  (∃ err, r = Throw err ∧ drafted s s') ∨
  ∃ m e s1, composed params s m e ∧ drafted s s1 ∧
    (in_db (saveMessage m);; send_ e;; mret (m_id m)) s1 = (r, s').
Proof.
  unfold sendMessage. run1 (conn_run (recipient params) s).
  case_bool_decide as Hst; [stops|].
  apply fmap_Some in Hst as (c & Hc & Ha).
  bind1. unfold gets at 1.
  destruct (getPeerPublicKey _ _) as [peer|] eqn:Hp; [|stops].
  run1 (uuid_ticked s). bind1. unfold gets at 1.
  change (w_db (ag_world (ticked s))) with (ag_db s).
  set (i := env_uuid (tick s)). set (th := resolve_thread _ _ _).
  pose proof (drafted_ticked s) as D1. set (s1 := ticked s) in *.
  run1 (in_db_run (nextSequence (recipient params)) s1).
  destruct (nextSequence (recipient params) (ag_db s1)).1 as [n|] eqn:Hn; [|done].
  assert (D2 : drafted s (with_db (nextSequence (recipient params) (ag_db s1)).2 s1))
    by (etrans; [exact D1|apply drafted_nextSequence]).
  set (s2 := with_db _ s1) in *.
  run1 (now_ticked s2). assert (D3 : drafted s (ticked s2)) by (etrans; [exact D2|apply drafted_ticked]).
  set (s3 := ticked s2) in *.
  lifted plain Hpt. lifted xsk Hsk. lifted xpk Hpk.
  run1 (encrypt_ticked plain xpk xsk s3).
  assert (D4 : drafted s (ticked s3)) by (etrans; [exact D3|apply drafted_ticked]).
  set (s4 := ticked s3) in *.
  destruct (encryptWithNonce _ _ _ _) as [sealed|err] eqn:Hen; [|stops].
  bind1. rewrite own_address_run. assert (Er : ag_relay s4 = ag_relay s) by apply D4. rewrite Er.
  destruct (truthy_str _) eqn:Ht; [|stops].
  apply truthy_str_Some in Ht as (own & Hown & Hne). rewrite Hown. cbn [default from_option id].
  run1 (now_ticked s4). assert (D5 : drafted s (ticked s4)) by (etrans; [exact D4|apply drafted_ticked]).
  set (s5 := ticked s4) in *. set (e := message_envelope _ _ _ _ _ _).
  lifted bs Hbs.
  destruct (Nat.ltb_spec MAX_ENVELOPE_SIZE (length bs)) as [Hl|Hl]; [stops|].
  run1 (now_ticked s5). intros Hr. right.
  exists (outbound_record params i th n (isoString (env_now (tick s5)))), e, (ticked s5).
  split; [|split; [|exact Hr]].
  - exists c, peer, own, n, (tick s2), (isoString (env_now (tick s5))), (env_now (tick s4)), (tick s3).
    exists plain, xsk, xpk, sealed, bs. by repeat split.
  - etrans; [exact D5|apply drafted_ticked].
Qed.

Lemma save_send_run m e s1 :
  (in_db (saveMessage m);; send_ e;; mret (m_id m)) s1 =
  if bool_decide (m_id m ∈ MessageStore.id <$> messages (ag_db s1))
  then (Throw "UNIQUE constraint failed: messages.id", s1)
  else let s2 := with_db (set_messages (λ rows, rows ++ [recordToRow m]) (ag_db s1)) s1 in
       if connected (ag_relay s1)
       then (Ok (m_id m), put_relay (mkRelay (assignedAddress (ag_relay s1)) true
                                       (sent (ag_relay s1) ++ [e])) s2)
       else (Throw "not connected", s2).
Proof.
  destruct s1 as [[t st db f ev] [a c l]].
  unfold in_db, zoom, saveMessage, mbind, M_bind, gets. cbn. case_bool_decide; cbn; [done|].
  by destruct c.
Qed.

(** C29. Sending, on every outcome: a message that is returned went out as one sealed
    envelope to an active peer and is stored as sent; a throw hands nothing to
    the relay and stores nothing, except that with the socket down the message
    stays stored as sent although it was not.  Connections and log are never
    touched. *)
Theorem sendMessage_spec params s r s' :
  sendMessage keypair params s = (r, s') →
  ag_store s' = ag_store s ∧ w_feed (ag_world s') = w_feed (ag_world s) ∧
  match r with
  | Ok i =>
      connected (ag_relay s) = true ∧
      ∃ m e, composed params s m e ∧ m_id m = i ∧
        sent (ag_relay s') = sent (ag_relay s) ++ [e] ∧
        messages (ag_db s') = messages (ag_db s) ++ [recordToRow m]
  | Throw err =>
      sent (ag_relay s') = sent (ag_relay s) ∧
      (messages (ag_db s') = messages (ag_db s) ∨
       err = "not connected" ∧ connected (ag_relay s) = false ∧
       ∃ m e, composed params s m e ∧
         messages (ag_db s') = messages (ag_db s) ++ [recordToRow m])
  end.
Proof.
  intros [(err & -> & D)|(m & e & s1 & Hc & D & Hr)]%sendMessage_run.
  - destruct D as (E1 & E2 & E3 & _ & E5). rewrite E2. auto.
  - destruct D as (E1 & E2 & E3 & _ & E5). rewrite save_send_run in Hr.
    rewrite <- E1, <- E2, <- E3, <- E5. clear E1 E2 E3 E5.
    destruct s1 as [[t st db f ev] [a [] l]]; case_bool_decide; simplify_eq/=; eauto 15.
Qed.
End sending.

(** ** Receiving *)
Section receiving.
Context `{EN : Env, SH : Sha256, SQ : SqlEngine, B58 : Base58, B64 : Base64}.
Context `{UN : Unicode, WI : Wire, ED : Ed25519, NB : NaclBox}.
Context (config : CircuitBreakerConfig) (keypair : Keypair).

Lemma save_run_new m s :
  getMessage (m_id m) (ag_db s) = None →
  in_db (saveMessage m) s =
  (Ok tt, with_db (set_messages (λ rows, rows ++ [recordToRow m]) (ag_db s)) s).
Proof.
  intros Hn%getMessage_None. rewrite in_db_run.
  unfold saveMessage, mbind, M_bind, gets, modify. by rewrite bool_decide_eq_false_2.
Qed.

Lemma save_run_clash m s :
  getMessage (m_id m) (ag_db s) ≠ None →
  in_db (saveMessage m) s = (Throw "UNIQUE constraint failed: messages.id", s).
Proof.
  intros Hn. rewrite in_db_run. unfold saveMessage, mbind, M_bind, gets.
  rewrite bool_decide_eq_true_2; [by destruct s as [[] ]|].
  apply dec_stable. by rewrite <- getMessage_None.
Qed.

(** The world in which the pipeline meets a new message: the clock was read and the
    message is stored. *)
Definition stored (m : MessageRecord) (s : Agent) : Agent :=
  with_db (set_messages (λ rows, rows ++ [recordToRow m]) (ag_db s)) (ticked s).

Lemma getMessage_stored m s :
  getMessage (m_id m) (ag_db s) = None →
  getMessage (m_id m) (ag_db (stored m s)) = Some (as_text m) ∧
  ∀ j, j ≠ m_id m → getMessage j (ag_db (stored m s)) = getMessage j (ag_db s).
Proof.
  intros Hn%getMessage_None. destruct s as [[t st [rows sq] f ev] r]. unfold getMessage. cbn in *.
  induction rows as [|row rows IH]; cbn in *.
  - rewrite bool_decide_eq_true_2 by done. cbn. rewrite rowToRecord_recordToRow. split; [done|].
    intros j Hj. by rewrite bool_decide_eq_false_2.
  - apply not_elem_of_cons in Hn as [Hne Hn]. destruct (IH Hn) as [E1 E2].
    split; [by rewrite bool_decide_eq_false_2|]. intros j Hj. case_bool_decide; [done|]. by apply E2.
Qed.

(** The confirmation touches the relay only. *)
Definition same_world (w : World) (s : Agent) : Prop :=
  w_store (ag_world s) = w_store w ∧ w_db (ag_world s) = w_db w ∧ w_feed (ag_world s) = w_feed w ∧
  w_events (ag_world s) = w_events w.

Lemma sendDeliveryConfirmation_run i from s r s' :
  sendDeliveryConfirmation keypair i from s = (r, s') →
  same_world (ag_world s) s' ∧
  (ag_relay s' = ag_relay s ∧
   (r = Ok tt → truthy_str (assignedAddress (ag_relay s)) = false) ∨
   r = Ok tt ∧ connected (ag_relay s) = true ∧
   ∃ own t sg, assignedAddress (ag_relay s) = Some own ∧ own ≠ "" ∧
     signDeliveryConfirmation (utf8_encode i) t (privateKey keypair) = Ok sg ∧
     sent (ag_relay s') = sent (ag_relay s) ++ [confirm_envelope own from i t sg]).
Proof.
  unfold sendDeliveryConfirmation. rewrite (bind_run _ _ _ _ _ (now_ticked s)).
  assert (same_world (ag_world s) (ticked s)) as W by by destruct s as [[] ].
  assert (ag_relay (ticked s) = ag_relay s) as R by by destruct s.
  bind1. unfold lift at 1. destruct (signDeliveryConfirmation _ _ _) as [sg|err] eqn:Es.
  2:{ intros [= <- <-]. split; [exact W|]. left. by split. }
  bind1. unfold gets at 1. rewrite R.
  destruct (truthy_str (assignedAddress (ag_relay s))) eqn:Ht; cbn [negb].
  2:{ intros [= <- <-]. split; [exact W|]. left. by split. }
  bind1. unfold lift at 1. destruct (env_toBinary _) as [bs|err].
  2:{ intros [= <- <-]. split; [exact W|]. left. by split. }
  rewrite send_run, R. destruct (connected (ag_relay s)) eqn:Ec; intros [= <- <-].
  - split; [exact W|]. right. apply truthy_str_Some in Ht as (own & Hown & Hne).
    split; [done|]. split; [done|]. exists own, (env_now (tick s)), sg. by rewrite Hown.
  - split; [exact W|]. left. by split.
Qed.

Definition verdict_on (m : MessageRecord) (s : Agent) : Verdict :=
  pipeline_verdict config (ag_world (stored m s)) m (m_connectionAddress m).

Lemma fresh_ids_stored m s : fresh_ids (ag_world s) → fresh_ids (ag_world (stored m s)).
Proof.
  intros Hf. eapply fresh_ids_tick; [exact Hf|by destruct s as [[] ]|].
  destruct s as [[] ]. cbn. lia.
Qed.

(** A new message: stored, judged by the pipeline, and confirmed. *)
Lemma receive_run e i body s r s' :
  open_message keypair e = Ok i → column_text (ct_body (in_content i)) = Some body →
  fresh_ids (ag_world s) → getMessage (in_messageId i) (ag_db s) = None →
  handleIncomingMessage config keypair e s = (r, s') →
  let m := inbound_record (env_fromAddress e) body i (isoString (env_now (tick s))) in
  ∃ w2,
    (∃ now, getMessage (in_messageId i) (w_db w2) =
              Some (set_state (v_state (verdict_on m s)) (v_reason (verdict_on m s)) now (as_text m))) ∧
    (∀ j, j ≠ in_messageId i → getMessage j (w_db w2) = getMessage j (ag_db s)) ∧
    w_store w2 = w_store (accounted config (ag_world (stored m s)) m (env_fromAddress e)) ∧
    (∃ rows, w_feed w2 = w_feed (accounted config (ag_world (stored m s)) m (env_fromAddress e)) ++ rows ∧
             Forall2 logs (v_events (verdict_on m s)) rows) ∧
    sendDeliveryConfirmation keypair (in_messageId i) (env_fromAddress e) (put_world w2 s) = (r, s').
Proof.
  intros Ho Hb Hf Hn. unfold handleIncomingMessage. bind1. unfold lift at 1. rewrite Ho.
  rewrite (bind_run _ _ _ _ _ (now_ticked s)), Hb. cbv zeta.
  set (m := inbound_record _ _ _ _).
  rewrite (bind_run _ _ _ _ _ (save_run_new m (ticked s) ltac:(by destruct s as [[] ]))).
  change (with_db _ (ticked s)) with (stored m s).
  destruct (getMessage_stored m s Hn) as [Hm Ho'].
  destruct (process config m (env_fromAddress e) (ag_world (stored m s))) as [r1 w2] eqn:Ep.
  pose proof (process_run config m (env_fromAddress e) (ag_world (stored m s))
    (fresh_ids_stored m s Hf)) as ((w2' & Hr & _ & Hs) & _).
  rewrite Ep in Hr. injection Hr as -> ->.
  destruct (process_refines config m (env_fromAddress e) (ag_world (stored m s)) (as_text m) _ w2'
    (fresh_ids_stored m s Hf) Hm Ep) as (_ & (now & H1) & H2 & H3).
  assert (zoom worldL (process config m (env_fromAddress e)) (stored m s) =
          (Ok (routed m (env_fromAddress e) (v_state (verdict_on m s)) (v_reason (verdict_on m s))),
           put_world w2' s)) as Hz.
  { unfold zoom. cbn [view worldL]. rewrite Ep. by destruct s. }
  bind1. rewrite Hz. intros Hc. exists w2'. split; [by exists now|].
  split; [|split; [exact (proj1 Hs)|split; [exact H3|exact Hc]]].
  intros j Hj. rewrite H2 by done. by apply Ho'.
Qed.

(** What the relay was given on the way: nothing, or the signed confirmation. *)
Definition confirmed_or_silent (e : Envelope) (i : string) (s s' : Agent) : Prop :=
  sent (ag_relay s') = sent (ag_relay s) ∨
  ∃ own t sg, assignedAddress (ag_relay s) = Some own ∧
    signDeliveryConfirmation (utf8_encode i) t (privateKey keypair) = Ok sg ∧
    sent (ag_relay s') = sent (ag_relay s) ++ [confirm_envelope own (env_fromAddress e) i t sg].

(** The cases of [handleIncomingMessage]. *)
Lemma receive_cases e s r s' :
  fresh_ids (ag_world s) → handleIncomingMessage config keypair e s = (r, s') →
  match open_message keypair e with
  | Throw err => r = Throw err ∧ s' = s
  | Ok i =>
      match column_text (ct_body (in_content i)), getMessage (in_messageId i) (ag_db s) with
      | Some body, None =>
          let m := inbound_record (env_fromAddress e) body i (isoString (env_now (tick s))) in
          (∃ now, getMessage (in_messageId i) (ag_db s') =
                    Some (set_state (v_state (verdict_on m s)) (v_reason (verdict_on m s)) now (as_text m))) ∧
          (∀ j, j ≠ in_messageId i → getMessage j (ag_db s') = getMessage j (ag_db s)) ∧
          ag_store s' = w_store (accounted config (ag_world (stored m s)) m (env_fromAddress e)) ∧
          confirmed_or_silent e (in_messageId i) s s'
      | _, _ => is_ok r = false ∧ s' = ticked s
      end
  end.
Proof.
  intros Hf Hr. destruct (open_message keypair e) as [i|err] eqn:Ho.
  2:{ revert Hr. unfold handleIncomingMessage. bind1. unfold lift at 1. rewrite Ho. by intros [= <- <-]. }
  destruct (column_text (ct_body (in_content i))) as [body|] eqn:Hb.
  2:{ revert Hr. unfold handleIncomingMessage. bind1. unfold lift at 1. rewrite Ho.
      rewrite (bind_run _ _ _ _ _ (now_ticked s)), Hb. by intros [= <- <-]. }
  destruct (getMessage (in_messageId i) (ag_db s)) as [old|] eqn:Hn.
  - revert Hr. unfold handleIncomingMessage. bind1. unfold lift at 1. rewrite Ho.
    rewrite (bind_run _ _ _ _ _ (now_ticked s)), Hb. cbv zeta.
    set (m := inbound_record _ _ _ _).
    assert (getMessage (m_id m) (ag_db (ticked s)) ≠ None) as Hne
      by (change (getMessage (in_messageId i) (ag_db s) ≠ None); by rewrite Hn).
    rewrite (bind_run _ _ _ _ _ (save_run_clash m (ticked s) Hne)). by intros [= <- <-].
  - cbv zeta. destruct (receive_run e i body s r s' Ho Hb Hf Hn Hr) as (w2 & H1 & H2 & H3 & _ & Hc).
    destruct (sendDeliveryConfirmation_run _ _ _ _ _ Hc) as ((W1 & W2 & _) & Hrel).
    unfold ag_db, ag_store. rewrite W1, W2. cbn [ag_world put_world].
    split; [exact H1|]. split; [exact H2|]. split; [exact H3|].
    unfold confirmed_or_silent.
    destruct Hrel as [[-> _]|(_ & _ & own & t & sg & Ho1 & _ & Hs & ->)]; [by left|right].
    by exists own, t, sg.
Qed.

(** A message that was not there before was brought by the envelope. *)
Lemma arrived e s r s' j m' :
  fresh_ids (ag_world s) → handleIncomingMessage config keypair e s = (r, s') →
  getMessage j (ag_db s) = None → getMessage j (ag_db s') = Some m' →
  ∃ i body, open_message keypair e = Ok i ∧ column_text (ct_body (in_content i)) = Some body ∧
    j = in_messageId i ∧
    ∃ now, let m := inbound_record (env_fromAddress e) body i (isoString (env_now (tick s))) in
      m' = set_state (v_state (verdict_on m s)) (v_reason (verdict_on m s)) now (as_text m).
Proof.
  intros Hf Hr Hn Hj. pose proof (receive_cases e s r s' Hf Hr) as H.
  assert (∀ s1, ag_db s1 = ag_db s → ag_db s' = ag_db s1 → False) as Hsame by congruence.
  destruct (open_message keypair e) as [i|err]; [|exfalso; by destruct H as [_ ->]; eapply Hsame].
  destruct (column_text (ct_body (in_content i))) as [body|] eqn:Hb;
    [|exfalso; destruct H as [_ ->]; by eapply (Hsame (ticked s))].
  destruct (getMessage (in_messageId i) (ag_db s)) eqn:Hi;
    [exfalso; destruct H as [_ ->]; by eapply (Hsame (ticked s))|].
  cbv zeta in H. destruct H as ((now & H1) & H2 & _). exists i, body. split; [done|]. split; [done|].
  destruct (decide (j = in_messageId i)) as [->|Hne]; [|by rewrite H2, Hn in Hj].
  split; [done|]. exists now. rewrite H1 in Hj. by injection Hj.
Qed.

(** C28. Receiving, on every input: an envelope that does not open changes nothing, a
    body that cannot be stored or an id that is taken changes no message and no
    connection, and any other message is stored, gets exactly the state and
    reason of the pipeline's verdict, leaves the other messages as they were,
    and is answered by at most one confirmation, signed over its id. *)
Theorem handleIncomingMessage_spec e s r s' :
  fresh_ids (ag_world s) → handleIncomingMessage config keypair e s = (r, s') →
  match open_message keypair e with
  | Throw err => r = Throw err ∧ s' = s
  | Ok i =>
      match column_text (ct_body (in_content i)), getMessage (in_messageId i) (ag_db s) with
      | Some body, None =>
          let m := inbound_record (env_fromAddress e) body i (isoString (env_now (tick s))) in
          (∃ now, getMessage (in_messageId i) (ag_db s') =
                    Some (set_state (v_state (verdict_on m s)) (v_reason (verdict_on m s)) now (as_text m))) ∧
          (∀ j, j ≠ in_messageId i → getMessage j (ag_db s') = getMessage j (ag_db s)) ∧
          ag_store s' = w_store (accounted config (ag_world (stored m s)) m (env_fromAddress e)) ∧
          confirmed_or_silent e (in_messageId i) s s'
      | _, _ => is_ok r = false ∧ s' = ticked s
      end
  end.
Proof. apply receive_cases. Qed.

Lemma received_read e s r s' j m' :
  fresh_ids (ag_world s) → handleIncomingMessage config keypair e s = (r, s') →
  getMessage j (ag_db s) = None → getMessage j (ag_db s') = Some m' →
  m_state m' = "read_by_agent" →
  m_connectionAddress m' = env_fromAddress e ∧
  ∃ i c t, open_message keypair e = Ok i ∧ column_text (ct_body (in_content i)) = Some (m_body m') ∧
    ag_conn (env_fromAddress e) s = Some c ∧ cstate c = active ∧ no_switch c ∧
    (∀ k q, questions (manifest_of c) !! k = Some q →
       ∃ d, checkInformationBoundary (t + k)%nat q (ct_body (in_content i)) = Some d ∧ d_action d = allow) ∧
    (autonomyLevel c = full_auto ∨ autonomyLevel c = notify ∨
     autonomyLevel c = auto_respond ∧
     ∃ p t' d, autoRespondPolicy c = Some p ∧ p ≠ "" ∧
       evaluatePolicy t' (mkPolicyRequest p (ct_body (in_content i)) (env_fromAddress e) (nickname c)) = Some d ∧
       d_action d = allow).
Proof.
  intros Hf Hr Hn Hj Hst.
  destruct (arrived e s r s' j m' Hf Hr Hn Hj) as (i & body & Ho & Hb & Hi & now & ->).
  set (m := inbound_record _ _ _ _) in *. split; [done|].
  assert (v_state (pipeline_verdict config (ag_world (stored m s)) m (env_fromAddress e)) =
            "read_by_agent") as Hv by exact Hst.
  apply pipeline_read in Hv as (c & Hc & Ha & Hs & Hg & Hl & _).
  assert (body_value m = ct_body (in_content i)) as Hbv.
  { unfold body_value. cbn [m m_numberBody inbound_record]. by destruct (ct_body (in_content i)); [injection Hb as ->|..]. }
  unfold policy_allows in Hl. rewrite Hbv in Hg, Hl.
  exists i, c, (w_tick (ag_world (stored m s))). split; [exact Ho|]. split; [exact Hb|].
  split; [by destruct s as [[] ]|]. by split_and!.
Qed.

(** What a peer sent is in the agent's hands only with the human's consent: if
    after an envelope a message it brought is stored as read by the agent,
    then the claimed sender's connection was active, unmuted and not under
    intervention, every boundary question was answered [allow] for the very
    content that is stored, and the autonomy level, or the policy of the
    auto-respond level, let it through. *)
Theorem received_read_only_with_consent e s r s' j m' :
  fresh_ids (ag_world s) → handleIncomingMessage config keypair e s = (r, s') →
  getMessage j (ag_db s) = None → getMessage j (ag_db s') = Some m' →
  m_state m' = "read_by_agent" →
  m_connectionAddress m' = env_fromAddress e ∧
  ∃ i c t, open_message keypair e = Ok i ∧ column_text (ct_body (in_content i)) = Some (m_body m') ∧
    ag_conn (env_fromAddress e) s = Some c ∧ cstate c = active ∧ no_switch c ∧
    (∀ k q, questions (manifest_of c) !! k = Some q →
       ∃ d, checkInformationBoundary (t + k)%nat q (ct_body (in_content i)) = Some d ∧ d_action d = allow) ∧
    (autonomyLevel c = full_auto ∨ autonomyLevel c = notify ∨
     autonomyLevel c = auto_respond ∧
     ∃ p t' d, autoRespondPolicy c = Some p ∧ p ≠ "" ∧
       evaluatePolicy t' (mkPolicyRequest p (ct_body (in_content i)) (env_fromAddress e) (nickname c)) = Some d ∧
       d_action d = allow).
Proof. apply received_read. Qed.
End receiving.

(** ** Across the wire *)
Section wire.
Context `{EN : Env, SH : Sha256, SQ : SqlEngine, B58 : Base58, B64 : Base64}.
Context `{UN : Unicode, UL : !UnicodeLaws, WI : Wire, WL : !WireLaws, ED : Ed25519, NB : NaclBox}.
Context `{EL : !Ed25519Laws, NL : !NaclLaws}.
Context (config : CircuitBreakerConfig).

(** The clock fits protobuf's int64, and a counter a JavaScript integer. *)
Definition clock_in_range : Prop := ∀ n, - 2 ^ 63 ≤ env_now n < 2 ^ 63.

Definition keys_ok (k : Keypair) : Prop := ed_pair (publicKey k) (privateKey k).

Lemma read_wrapped body a th rt :
  read_content CONTENT_TYPE (wrappedContent body a th rt) =
  mkContent (text_body body) a (Some th) rt.
Proof.
  unfold read_content, wrappedContent. rewrite bool_decide_eq_true_2 by done.
  rewrite json_object_roundtrip. by destruct rt, a.
Qed.

(** What one party seals for the other, the other reads. *)
Lemma open_sealed kA kB from to i ts p pt xpk xsk nonce sealed :
  keys_ok kA → keys_ok kB → length nonce = crypto_box_NONCEBYTES →
  pt_in_range pt → pt_toBinary pt = Ok p →
  ed25519PrivToX25519 (privateKey kA) = Ok xsk → ed25519PubToX25519 (publicKey kB) = Ok xpk →
  encryptWithNonce p xpk xsk nonce = Ok sealed →
  open_message kB (message_envelope kA from to i ts sealed) =
  Ok (mkIncoming (read_content (pt_contentType pt) (text_decode (pt_content pt)))
        (Number_of_bigint (pt_sequence pt)) i).
Proof.
  intros HA HB Hn Hr Hp Hsk Hpk He.
  destruct (decrypt_encrypt (publicKey kA) (privateKey kA) (publicKey kB) (privateKey kB) nonce p)
    as (xpk0 & xsk0 & xpk1 & xsk1 & sealed' & E1 & E2 & E3 & E4 & E5 & E6); [done..|].
  rewrite E2 in Hsk. rewrite E3 in Hpk. injection Hsk as ->. injection Hpk as ->.
  rewrite He in E5. injection E5 as <-. unfold open_message, message_envelope.
  cbn [env_payload enc_senderPublicKey enc_nonce enc_ciphertext env_messageId].
  rewrite E1, E4, u8_concat_eq, take_drop, E6, text_decode_encode.
  destruct (pt_roundtrip pt Hr) as (bs & Hb1 & Hb2). rewrite Hp in Hb1. injection Hb1 as <-.
  by rewrite Hb2.
Qed.

Lemma in_range n t c : 0 ≤ n < 2 ^ 53 → - 2 ^ 63 ≤ t < 2 ^ 63 →
  pt_in_range (mkPlaintext 1 n t c CONTENT_TYPE).
Proof. intros H1 H2. unfold pt_in_range. cbn [pt_version pt_sequence pt_timestamp]. lia. Qed.

Lemma open_composed kA kB params s m e :
  keys_ok kA → keys_ok kB → clock_in_range → composed kA params s m e →
  getPeerPublicKey (recipient params) (ag_store s) = Some (publicKey kB) →
  0 ≤ m_sequence m < 2 ^ 53 →
  assignedAddress (ag_relay s) = Some (env_fromAddress e) ∧
  open_message kB e =
  Ok (mkIncoming (mkContent (text_body (m_body m)) (default agent (m_attribution m))
                    (m_threadId m) (m_replyTo m)) (m_sequence m) (m_id m)).
Proof.
  intros HA HB Hclk (c & peerKey & own & n & now & created & ts & k & p & xsk & xpk & sealed & bs & H) Hk Hn.
  cbv zeta in H. destruct H as (_ & _ & Hk' & Hown & _ & _ & Hp & Hsk & Hpk & He & -> & -> & _).
  split; [exact Hown|]. rewrite Hk in Hk'. injection Hk' as <-.
  change (0 ≤ n < 2 ^ 53) in Hn.
  rewrite (open_sealed kA kB _ _ _ _ p _ xpk xsk _ sealed HA HB (random_length _ _)
    (in_range n _ _ Hn (Hclk _)) Hp Hsk Hpk He).
  cbn [pt_contentType pt_content pt_sequence]. rewrite text_decode_encode, read_wrapped.
  unfold Number_of_bigint. by rewrite (proj2 (Z.ltb_lt n (2 ^ 53))) by lia.
Qed.

(** A message that was sent: the one envelope that went out, and what is in it for
    the holder of the key it was sealed for. *)
Lemma sent_open kA kB params s i s' e m :
  keys_ok kA → keys_ok kB → clock_in_range →
  sendMessage kA params s = (Ok i, s') →
  getPeerPublicKey (recipient params) (ag_store s) = Some (publicKey kB) →
  sent (ag_relay s') = sent (ag_relay s) ++ [e] →
  messages (ag_db s') = messages (ag_db s) ++ [recordToRow m] → 0 ≤ m_sequence m < 2 ^ 53 →
  composed kA params s (as_text m) e ∧ assignedAddress (ag_relay s) = Some (env_fromAddress e) ∧ m_id m = i ∧
  m_body m = p_body params ∧ is_Some (m_attribution m) ∧
  open_message kB e =
  Ok (mkIncoming (mkContent (text_body (m_body m)) (default agent (m_attribution m))
                    (m_threadId m) (m_replyTo m)) (m_sequence m) (m_id m)).
Proof.
  intros HA HB Hclk Hsend Hk Hsent Hsaved Hn.
  destruct (sendMessage_run _ _ _ _ _ Hsend) as [(err & [=] & _)|(m0 & e0 & s1 & Hc & D & Hrun)].
  rewrite save_send_run in Hrun. case_bool_decide as Hid; [done|].
  assert (connected (ag_relay s1) = true) as Hon by (destruct (connected (ag_relay s1)); [done|done]).
  rewrite Hon in Hrun. injection Hrun as <- <-.
  destruct D as (_ & D2 & _ & _ & D5). cbn in Hsent. rewrite D2 in Hsent.
  change (messages (ag_db s1) ++ [recordToRow m0] = messages (ag_db s) ++ [recordToRow m]) in Hsaved.
  rewrite D5 in Hsaved. apply app_inv_head in Hsent, Hsaved. injection Hsent as <-.
  assert (m_numberBody m0 = None) as Hnum.
  { destruct Hc as (? & ? & ? & ? & ? & ? & ? & ? & ? & ? & ? & ? & ? & Hc). cbv zeta in Hc.
    by destruct Hc as (_ & _ & _ & _ & _ & _ & _ & _ & _ & _ & -> & _). }
  assert (m0 = as_text m) as ->
    by (injection Hsaved; intros; destruct m0, m; unfold as_text, with_number; cbn in *; congruence). clear Hsaved.
  destruct (open_composed kA kB params s (as_text m) e0) as [Hown Ho]; [done..|].
  split; [done|]. split; [exact Hown|]. split; [done|].
  destruct Hc as (? & ? & ? & ? & ? & ? & ? & ? & ? & ? & ? & ? & ? & Hc). cbv zeta in Hc.
  destruct Hc as (_ & _ & _ & _ & _ & _ & _ & _ & _ & _ & Em & _).
  assert (m_body m = p_body params ∧ is_Some (m_attribution m)) as [Hb Ha]; [|by split_and!].
  split; [exact (f_equal m_body Em)|]. apply (f_equal m_attribution) in Em. cbn in Em. rewrite Em. by eexists.
Qed.

(** What is sent is what arrives: a message sent to a peer under the key that peer
    holds is, once the relay hands its envelope over, in the peer's store under
    the same id with the text, attribution, thread, reference and sequence
    number it has in the sender's store, filed under the sender's address. *)
Theorem message_roundtrip `(ENB : Env) kA kB params sA i sA' sB r sB' e m :
  keys_ok kA → keys_ok kB → clock_in_range →
  sendMessage (EN := EN) kA params sA = (Ok i, sA') →
  getPeerPublicKey (recipient params) (ag_store sA) = Some (publicKey kB) →
  sent (ag_relay sA') = sent (ag_relay sA) ++ [e] →
  messages (ag_db sA') = messages (ag_db sA) ++ [recordToRow m] → 0 ≤ m_sequence m < 2 ^ 53 →
  fresh_ids (EN := ENB) (ag_world sB) → getMessage i (ag_db sB) = None →
  handleIncomingMessage (EN := ENB) config kB e sB = (r, sB') →
  assignedAddress (ag_relay sA) = Some (env_fromAddress e) ∧ m_id m = i ∧
  m_body m = p_body params ∧
  ∃ m', getMessage i (ag_db sB') = Some m' ∧
    m_direction m' = inbound ∧ m_connectionAddress m' = env_fromAddress e ∧
    m_body m' = m_body m ∧ m_attribution m' = m_attribution m ∧ m_threadId m' = m_threadId m ∧
    m_replyTo m' = m_replyTo m ∧ m_sequence m' = m_sequence m ∧ m_id m' = i.
Proof.
  intros HA HB Hclk Hsend Hk Hsent Hsaved Hn Hf Hnew Hr.
  destruct (sent_open kA kB params sA i sA' e m) as (_ & Hown & Hi & Hbody & [a Ha] & Ho); [done..|].
  split; [exact Hown|]. split; [done|]. split; [exact Hbody|].
  pose proof (receive_cases config kB e sB r sB' Hf Hr) as H. rewrite Ho in H.
  cbn [in_content ct_body in_messageId] in H. rewrite Hi, Hnew in H. cbv zeta in H.
  destruct H as ((now & H) & _). eexists. split; [exact H|]. rewrite Ha. by repeat split.
Qed.

(** ** Confirmations *)
Definition confirm_accepted (e : Envelope) (d : DeliveryConfirm) (s : Agent) : Prop :=
  is_Some (getMessage (text_decode (dc_messageId d)) (ag_db s)) ∧
  ∃ k, getPeerPublicKey (env_fromAddress e) (ag_store s) = Some k ∧
       verifyDeliveryConfirmation (dc_signature d) (dc_messageId d) (dc_timestamp d) k = Ok true.

Lemma updateState_agent i st s :
  ∃ s', zoom worldL (w_updateState i st None) s = (Ok tt, s') ∧
    ag_store s' = ag_store s ∧ ag_relay s' = ag_relay s ∧ w_feed (ag_world s') = w_feed (ag_world s) ∧
    ∃ now, ∀ j, getMessage j (ag_db s') =
      (λ m, if decide (i = j) then set_state st None now m else m) <$> getMessage j (ag_db s).
Proof.
  eexists. split; [unfold zoom; rewrite w_updateState_run; reflexivity|].
  split; [done|]. split; [by destruct s|]. split; [done|].
  exists (isoString (env_now (tick s))). intros j.
  exact (getMessage_updateState (env_now (tick s)) i st None j (ag_db s)).
Qed.

(** The cases of [handleDeliveryConfirmation]. *)
Lemma confirm_cases e d s r s' :
  env_payload e = deliveryConfirm d → handleDeliveryConfirmation e s = (r, s') →
  ag_store s' = ag_store s ∧ ag_relay s' = ag_relay s ∧ w_feed (ag_world s') = w_feed (ag_world s) ∧
  (confirm_accepted e d s → r = Ok tt ∧ ∃ now, ∀ j,
     getMessage j (ag_db s') =
       (λ m, if decide (text_decode (dc_messageId d) = j) then set_state (dc_state d) None now m else m)
         <$> getMessage j (ag_db s)) ∧
  (¬ confirm_accepted e d s → s' = s).
Proof.
  intros He. unfold handleDeliveryConfirmation, confirm_accepted. rewrite He.
  change (w_db (ag_world s)) with (ag_db s). bind1. unfold gets at 1.
  change (w_db (ag_world s)) with (ag_db s).
  set (i := text_decode (dc_messageId d)).
  destruct (getMessage i (ag_db s)) as [m|] eqn:Hm.
  2:{ intros [= <- <-]. do 3 (split; [done|]). split; [|done]. by intros [[? [=]] _]. }
  bind1. unfold gets at 1.
  destruct (getPeerPublicKey _ _) as [k|] eqn:Hk.
  2:{ intros [= <- <-]. do 3 (split; [done|]). split; [|done]. by intros [_ (? & [=] & _)]. }
  bind1. unfold lift at 1. destruct (verifyDeliveryConfirmation _ _ _ _) as [[]|err] eqn:Hv.
  - destruct (updateState_agent i (dc_state d) s) as (s1 & Hs1 & E1 & E2 & E3 & now & E4).
    rewrite Hs1. intros [= <- <-]. do 3 (split; [done|]). split.
    + intros _. split; [done|]. by exists now.
    + intros []. split; [by eexists|]. by exists k.
  - intros [= <- <-]. do 3 (split; [done|]). split; [|done].
    intros [_ (k' & [= <-] & H)]. by rewrite Hv in H.
  - intros [= <- <-]. do 3 (split; [done|]). split; [|done].
    intros [_ (k' & [= <-] & H)]. by rewrite Hv in H.
Qed.

(** A delivery confirmation is taken exactly when the message it names is known and
    the signature over its id and timestamp verifies under the key the store
    has for the sender; then that one message gets the state the confirmation
    carries and loses its failure reason.  In every other case nothing
    changes, and connections, log and relay never do. *)
Theorem handleDeliveryConfirmation_spec e d s r s' :
  env_payload e = deliveryConfirm d → handleDeliveryConfirmation e s = (r, s') →
  ag_store s' = ag_store s ∧ ag_relay s' = ag_relay s ∧ w_feed (ag_world s') = w_feed (ag_world s) ∧
  (confirm_accepted e d s → r = Ok tt ∧ ∃ now, ∀ j,
     getMessage j (ag_db s') =
       (λ m, if decide (text_decode (dc_messageId d) = j) then set_state (dc_state d) None now m else m)
         <$> getMessage j (ag_db s)) ∧
  (¬ confirm_accepted e d s → s' = s).
Proof. apply confirm_cases. Qed.

(** A confirmation made with the key the store has for its sender is taken. *)
Lemma signed_taken k a to i t sg st ws (s : Agent) :
  keys_ok k → getPeerPublicKey a (ag_store s) = Some (publicKey k) →
  is_Some (getMessage i (ag_db s)) →
  signDeliveryConfirmation (utf8_encode i) t (privateKey k) = Ok sg →
  let d := mkConfirm (utf8_encode i) sg t st ws in
  confirm_accepted (mkEnvelope 1 a to DELIVERY_CONFIRM [] t (deliveryConfirm d)) d s.
Proof.
  intros Hk Hp Hm Hs d. split; [cbn; by rewrite text_decode_encode|].
  exists (publicKey k). split; [exact Hp|]. cbn.
  destruct (sign_verify_roundtrip (publicKey k) (privateKey k) (utf8_encode i) t t Hk eq_refl)
    as (sg' & E1 & E2).
  rewrite Hs in E1. by injection E1 as <-.
Qed.

(** The confirmation goes out when the socket is up and the relay has named us. *)
Lemma sendDeliveryConfirmation_sends `{CE : !ConfirmEncodes} k i from s own :
  keys_ok k → clock_in_range → connected (ag_relay s) = true →
  assignedAddress (ag_relay s) = Some own → own ≠ "" →
  ∃ t sg, signDeliveryConfirmation (utf8_encode i) t (privateKey k) = Ok sg ∧
    let '(r, s') := sendDeliveryConfirmation k i from s in
    r = Ok tt ∧ same_world (ag_world s) s' ∧
    sent (ag_relay s') = sent (ag_relay s) ++ [confirm_envelope own from i t sg].
Proof.
  intros Hk Hclk Hup Hown Hne.
  destruct (sign_verify_roundtrip (publicKey k) (privateKey k) (utf8_encode i) (env_now (tick s)) _ Hk eq_refl)
    as (sg & Hsg & _).
  exists (env_now (tick s)), sg. split; [exact Hsg|].
  destruct (confirm_encodes (confirm_envelope own from i (env_now (tick s)) sg) _ eq_refl) as [bs Hbs];
    [done|apply Hclk..|].
  unfold sendDeliveryConfirmation. rewrite (bind_run _ _ _ _ _ (now_ticked s)).
  assert (ag_relay (ticked s) = ag_relay s) as R by by destruct s.
  unfold mbind, M_bind, lift, gets. rewrite Hsg, R, Hown.
  assert (truthy_str (Some own) = true) as -> by (cbn [truthy_str]; by rewrite bool_decide_eq_false_2). cbn [negb].
  change (default "" (Some own)) with own. rewrite Hbs, send_run, R, Hup, Hown. split; [done|]. split; by destruct s as [[] ].
Qed.

(** C36. A delivery is confirmed end to end.  A message that opens under a new id, with
    a body that can be stored, at a receiver whose socket is up and which the
    relay has told its address: the receiver handles it without an error and has then
    sent exactly one thing, a confirmation to the sender; and a sender that has the
    message and holds the receiver's key under that address takes the confirmation and
    marks exactly that message as delivered. *)
Theorem delivery_confirmed `{CE : !ConfirmEncodes} kA kB e i body sB own sA m :
  keys_ok kB → clock_in_range → fresh_ids (ag_world sB) →
  env_type e = MESSAGE → open_message kB e = Ok i → column_text (ct_body (in_content i)) = Some body →
  getMessage (in_messageId i) (ag_db sB) = None →
  connected (ag_relay sB) = true → assignedAddress (ag_relay sB) = Some own → own ≠ "" →
  getPeerPublicKey own (ag_store sA) = Some (publicKey kB) →
  getMessage (in_messageId i) (ag_db sA) = Some m →
  let '(rB, sB') := dispatch config kB e sB in
  rB = Ok tt ∧ ∃ c, sent (ag_relay sB') = sent (ag_relay sB) ++ [c] ∧ env_toAddress c = env_fromAddress e ∧
    let '(rA, sA') := dispatch config kA c sA in
    rA = Ok tt ∧
    (∃ now, getMessage (in_messageId i) (ag_db sA') = Some (set_state "delivered" None now m)) ∧
    ∀ j, j ≠ in_messageId i → getMessage j (ag_db sA') = getMessage j (ag_db sA).
Proof.
  intros HB Hclk Hf Ht Ho Hb Hnew Hup Hown Hne Hp Hm. unfold dispatch at 1. rewrite Ht.
  destruct (handleIncomingMessage config kB e sB) as [rB sB'] eqn:Hr.
  destruct (receive_run config kB e i body sB rB sB' Ho Hb Hf Hnew Hr) as (w2 & _ & _ & _ & _ & Hc).
  destruct (sendDeliveryConfirmation_sends kB (in_messageId i) (env_fromAddress e) (put_world w2 sB) own
    HB Hclk Hup Hown Hne) as (t & sg & Hsg & H).
  rewrite Hc in H. destruct H as (-> & _ & Hs). split; [done|]. eexists. split; [exact Hs|]. split; [done|].
  unfold dispatch. cbn [env_type confirm_envelope].
  set (c := confirm_envelope own (env_fromAddress e) (in_messageId i) t sg).
  destruct (handleDeliveryConfirmation c sA) as [rA sA'] eqn:Hd.
  pose proof (signed_taken kB own (env_fromAddress e) (in_messageId i) t sg "delivered" false sA HB Hp
    ltac:(by eexists) Hsg) as Hacc. cbv zeta in Hacc.
  destruct (confirm_cases c _ sA rA sA' eq_refl Hd) as (_ & _ & _ & Htk & _).
  destruct (Htk Hacc) as (-> & now & Hj). cbn [dc_messageId dc_state] in Hj. rewrite text_decode_encode in Hj.
  split; [done|]. split.
  - exists now. rewrite Hj, Hm. simpl. by rewrite decide_True.
  - intros j Hji. rewrite Hj. destruct (getMessage j (ag_db sA)); simpl; [|done]. by rewrite decide_False.
Qed.

(** The signature of a confirmation covers neither the state it carries nor whose
    message it is about: whoever holds the key of any known address can set
    any stored message to any state, a message under the human's review
    included. *)
Theorem any_peer_sets_any_state k kB a i st s m :
  keys_ok k → getPeerPublicKey a (ag_store s) = Some (publicKey k) →
  getMessage i (ag_db s) = Some m →
  ∃ c, env_type c = DELIVERY_CONFIRM ∧ env_fromAddress c = a ∧
    (dispatch config kB c s).1 = Ok tt ∧
    ∃ now, getMessage i (ag_db (dispatch config kB c s).2) = Some (set_state st None now m).
Proof.
  intros Hk Hp Hm.
  destruct (sign_verify_roundtrip (publicKey k) (privateKey k) (utf8_encode i) 0 0 Hk eq_refl)
    as (sg & Hs & _).
  set (d := mkConfirm (utf8_encode i) sg 0 st false).
  set (c := mkEnvelope 1 a "" DELIVERY_CONFIRM [] 0 (deliveryConfirm d)). exists c.
  split; [done|]. split; [done|]. change (dispatch config kB c) with (handleDeliveryConfirmation c).
  destruct (handleDeliveryConfirmation c s) as [r s'] eqn:E.
  destruct (confirm_cases c d s r s' eq_refl E) as (_ & _ & _ & Ht & _).
  destruct (Ht (signed_taken k a "" i 0 sg st false s Hk Hp ltac:(by eexists) Hs)) as (-> & now & Hj).
  split; [done|]. exists now. cbn [snd]. rewrite Hj. cbn [dc_messageId dc_state d].
  rewrite text_decode_encode, Hm. simpl. by rewrite decide_True.
Qed.

(** The sender's address is taken on trust: whatever key the store has for an
    address, a message sealed with any other key pair opens, is filed under
    that address and gets the verdict of that address's connection. *)
Theorem sender_key_unchecked kX kB a i body s :
  keys_ok kX → keys_ok kB → fresh_ids (ag_world s) → getMessage i (ag_db s) = None →
  ∃ e sealed, env_fromAddress e = a ∧ env_type e = MESSAGE ∧
    env_payload e = encrypted sealed ∧ enc_senderPublicKey sealed = publicKey kX ∧
    ∃ m now, m_connectionAddress m = a ∧ m_body m = body ∧
      getMessage i (ag_db (dispatch config kB e s).2) =
        Some (set_state (v_state (verdict_on config m s)) (v_reason (verdict_on config m s)) now m).
Proof.
  intros HX HB Hf Hnew.
  set (pt := mkPlaintext 1 1 0 (utf8_encode body) "text/plain").
  assert (pt_in_range pt) as Hr by (unfold pt_in_range; cbn; lia).
  destruct (pt_roundtrip pt Hr) as (p & Hp & _).
  destruct (decrypt_encrypt (publicKey kX) (privateKey kX) (publicKey kB) (privateKey kB)
    (randombytes_buf 0 crypto_box_NONCEBYTES) p HX HB (random_length _ _))
    as (_ & xsk & xpk & _ & sealed & _ & E2 & E3 & _ & E5 & _).
  pose proof (open_sealed kX kB a "" i 0 p pt xpk xsk _ sealed HX HB (random_length _ _) Hr Hp E2 E3 E5) as Ho.
  unfold read_content in Ho. rewrite bool_decide_eq_false_2 in Ho by done.
  cbn [pt_content pt] in Ho. rewrite text_decode_encode in Ho.
  exists (message_envelope kX a "" i 0 sealed), (mkEncrypted (take 24 sealed) (drop 24 sealed) (publicKey kX)).
  do 4 (split; [done|]). cbn [dispatch env_type message_envelope]. fold (message_envelope kX a "" i 0 sealed).
  destruct (handleIncomingMessage config kB _ s) as [r s'] eqn:E.
  pose proof (receive_cases config kB _ s r s' Hf E) as H. rewrite Ho in H.
  cbn [in_content ct_body raw_content in_messageId] in H. rewrite Hnew in H. cbv zeta in H.
  destruct H as ((now & H) & _). eexists _, now. split; [|split; [|exact H]]; done.
Qed.
End wire.

(** ** Witnesses *)
Module SampleWire.
Import SampleBytes.
Definition pt_write (p : PlaintextPayload) : bytes :=
  setBigInt64 (pt_version p) ++ setBigInt64 (pt_sequence p) ++ setBigInt64 (pt_timestamp p) ++
  esc (pt_content p) ++ utf8_encode (pt_contentType p).
Definition pt_read (bs : bytes) : res PlaintextPayload :=
  match unesc (drop 24 bs) with
  | Some (c, rest) =>
      Ok (mkPlaintext (be_value (take 8 bs)) (be_value (take 8 (drop 8 bs)))
            (signed64 (be_value (take 8 (drop 16 bs)))) c (SampleText.decode (length rest) rest))
  | None => Throw "premature EOF"
  end.

#[export] Instance wire : Wire := {|
  env_toBinary e := Ok (utf8_encode (env_toAddress e));
  pt_toBinary p := Ok (pt_write p);
  pt_fromBinary := pt_read;
  sqlite_number_text s := s
|}.

#[export] Instance wire_laws : WireLaws.
Proof.
  split. intros [v sq ts c ct] (Hv & Hs & Ht). cbn in Hv, Hs, Ht. eexists. split; [reflexivity|].
  cbn [pt_fromBinary wire]. unfold pt_read, pt_write.
  cbn [pt_version pt_sequence pt_timestamp pt_content pt_contentType].
  set (a := setBigInt64 v). set (b := setBigInt64 sq). set (d := setBigInt64 ts).
  assert (length a = 8%nat ∧ length b = 8%nat ∧ length d = 8%nat) as (La & Lb & Ld) by done.
  assert (drop 24 (a ++ b ++ d ++ esc c ++ utf8_encode ct) = esc c ++ utf8_encode ct) as ->.
  { rewrite !app_assoc, <- app_assoc. apply drop_app_length'. by rewrite !length_app, La, Lb, Ld. }
  rewrite unesc_esc, take_app_length' by done. rewrite drop_app_length' by done.
  rewrite take_app_length' by done.
  assert (drop 16 (a ++ b ++ d ++ esc c ++ utf8_encode ct) = d ++ esc c ++ utf8_encode ct) as ->.
  { rewrite (app_assoc a b). apply drop_app_length'. by rewrite !length_app, La, Lb. }
  rewrite take_app_length' by done. unfold a, b, d. rewrite !be_value_setBigInt64, signed64_mod by lia.
  rewrite !Z.mod_small by lia. by rewrite SampleText.decode_utf8.
Qed.
#[export] Instance confirm_ok : ConfirmEncodes.
Proof. split. intros. by eexists. Qed.
End SampleWire.

Section witnesses.
Import Sample SampleText SampleBox SampleWire SampleEnv.

(** A clock that stops after a thousand readings. *)
#[local] Instance mm_env : Env := {|
  env_now n := 1000 * Z.of_nat (Nat.min n 1000);
  env_uuid n := pretty n;
  evaluatePolicy _ _ := None;
  checkInformationBoundary _ _ _ := None
|}.

Lemma mm_clock : clock_in_range.
Proof. intros n. cbn. lia. Qed.
Lemma mm_fresh c d : fresh_ids (world c d).
Proof.
  split; simpl; [intros n _; apply not_elem_of_nil|]. intros m n E. by apply (inj pretty) in E.
Qed.

Definition alice : Keypair := mkKeypair [Byte.x41] [Byte.x41].
Definition bob : Keypair := mkKeypair [Byte.x42] [Byte.x42].
Definition mallory : Keypair := mkKeypair [Byte.x4d] [Byte.x4d].
Lemma alice_ok : keys_ok alice. Proof. done. Qed.
Lemma bob_ok : keys_ok bob. Proof. done. Qed.
Lemma mallory_ok : keys_ok mallory. Proof. done. Qed.

(** An agent with one active Full Auto peer. *)
Definition party (own peer : string) (key : bytes) (online : bool) : Agent :=
  mkAgent (world (mkConnection peer (Some (base64_encode key)) active "" full_auto None None
                    (Some defaultPermissionsManifest) None None None
                    "2026-01-01T00:00:00.000Z" "2026-01-01T00:00:00.000Z" None) emptyDb)
          (mkRelay (Some own) online []).
Definition at_alice : Agent := party "pinch:a@h" "pinch:b@h" [Byte.x42] true.
Definition at_bob : Agent := party "pinch:b@h" "pinch:a@h" [Byte.x41] true.
Definition hello : SendMessageParams := mkSendParams "pinch:b@h" "hello" None (Some "m0") None (Some human).

Definition alice_sent : Agent := (sendMessage alice hello at_alice).2.
Definition the_envelope : Envelope :=
  default (envelope "" "" UNSPECIFIED no_payload) (last (sent (ag_relay alice_sent))).
Definition the_row : MessageRecord :=
  default (outbound_record hello "" "" 0 "") (getMessage "0" (ag_db alice_sent)).
Definition bob_received : Agent :=
  (handleIncomingMessage DEFAULT_CIRCUIT_BREAKER_CONFIG bob the_envelope at_bob).2.

Definition the_content : Incoming := mkIncoming (mkContent (text_body "hello") human (Some "0") (Some "m0")) 1 "0".
Lemma sent_run : sendMessage alice hello at_alice = (Ok "0", alice_sent).
Proof. vm_compute. reflexivity. Qed.
Lemma received_run :
  handleIncomingMessage DEFAULT_CIRCUIT_BREAKER_CONFIG bob the_envelope at_bob = (Ok tt, bob_received).
Proof. vm_compute. reflexivity. Qed.

Lemma sendMessage_spec_witness :
  w_feed (ag_world alice_sent) = [] ∧ m_state the_row = "sent".
Proof.
  split; [exact (proj1 (proj2 (sendMessage_spec alice hello at_alice _ _ sent_run)))|].
  vm_compute. reflexivity.
Defined.

Lemma handleIncomingMessage_spec_witness :
  getMessage "1" (ag_db bob_received) = None ∧ ag_store bob_received = ag_store at_bob.
Proof.
  pose proof (handleIncomingMessage_spec DEFAULT_CIRCUIT_BREAKER_CONFIG bob the_envelope
    at_bob _ _ (mm_fresh _ _) received_run) as H.
  assert (open_message bob the_envelope =
          Ok (mkIncoming (mkContent (text_body "hello") human (Some "0") (Some "m0")) 1 "0")) as Ho
    by (vm_compute; reflexivity).
  rewrite Ho in H. cbn [in_content ct_body in_messageId] in H.
  change (getMessage "0" (ag_db at_bob)) with (@None MessageRecord) in H.
  split; [apply (proj1 (proj2 H)); discriminate|]. exact (proj1 (proj2 (proj2 H))).
Defined.

Lemma received_read_only_with_consent_witness :
  ∃ m' c, getMessage "0" (ag_db bob_received) = Some m' ∧ m_state m' = "read_by_agent" ∧
    ag_conn "pinch:a@h" at_bob = Some c ∧ autonomyLevel c = full_auto.
Proof.
  assert (∃ m', getMessage "0" (ag_db bob_received) = Some m' ∧ m_state m' = "read_by_agent")
    as (m' & Hm & Hs) by (eexists; split; vm_compute; reflexivity).
  destruct (received_read_only_with_consent DEFAULT_CIRCUIT_BREAKER_CONFIG bob the_envelope at_bob
    _ _ "0" m' (mm_fresh _ _) received_run eq_refl Hm Hs) as (_ & i & c & _ & _ & _ & Hc & _ & _ & _ & Hl).
  exists m', c. split; [exact Hm|]. split; [exact Hs|]. split; [exact Hc|].
  injection Hc as <-. reflexivity.
Defined.

Lemma message_roundtrip_witness :
  ∃ m', getMessage "0" (ag_db bob_received) = Some m' ∧ m_body m' = "hello" ∧
        m_connectionAddress m' = "pinch:a@h".
Proof.
  destruct (message_roundtrip DEFAULT_CIRCUIT_BREAKER_CONFIG _ alice bob hello at_alice "0" alice_sent
    at_bob (Ok tt) bob_received the_envelope the_row alice_ok bob_ok mm_clock sent_run)
    as (_ & _ & Hb & m' & Hm & _ & Ha & Hb' & _).
  - vm_compute. reflexivity.
  - vm_compute. reflexivity.
  - vm_compute. reflexivity.
  - vm_compute. split; [intros [=]|reflexivity].
  - exact (mm_fresh _ _).
  - reflexivity.
  - exact received_run.
  - exists m'. split; [exact Hm|]. rewrite Hb', Hb. split; [reflexivity|]. rewrite Ha. reflexivity.
Defined.

Definition the_confirmation : Envelope :=
  default (envelope "" "" UNSPECIFIED no_payload) (last (sent (ag_relay bob_received))).

Lemma handleDeliveryConfirmation_spec_witness :
  ag_store (handleDeliveryConfirmation the_confirmation alice_sent).2 = ag_store at_alice.
Proof.
  destruct (handleDeliveryConfirmation the_confirmation alice_sent) as [r s'] eqn:E.
  assert (∃ d, env_payload the_confirmation = deliveryConfirm d) as [d Hd]
    by (eexists; vm_compute; reflexivity).
  transitivity (ag_store alice_sent); [|vm_compute; reflexivity].
  exact (proj1 (handleDeliveryConfirmation_spec the_confirmation d alice_sent r s' Hd E)).
Defined.

Lemma delivery_confirmed_witness :
  ∃ c now, sent (ag_relay bob_received) = [c] ∧
    getMessage "0" (ag_db (dispatch DEFAULT_CIRCUIT_BREAKER_CONFIG alice c alice_sent).2) =
      Some (set_state "delivered" None now the_row).
Proof.
  assert (dispatch DEFAULT_CIRCUIT_BREAKER_CONFIG bob the_envelope at_bob = (Ok tt, bob_received)) as E
    by exact received_run.
  assert (open_message bob the_envelope = Ok the_content) as Ho by (vm_compute; reflexivity).
  assert (getPeerPublicKey "pinch:b@h" (ag_store alice_sent) = Some (publicKey bob)) as Hk
    by (vm_compute; reflexivity).
  assert (getMessage "0" (ag_db alice_sent) = Some the_row) as Hm by (vm_compute; reflexivity).
  pose proof (delivery_confirmed DEFAULT_CIRCUIT_BREAKER_CONFIG alice bob the_envelope the_content "hello"
    at_bob "pinch:b@h" alice_sent the_row bob_ok mm_clock (mm_fresh _ _) eq_refl Ho eq_refl eq_refl eq_refl eq_refl
    ltac:(discriminate) Hk Hm) as H.
  rewrite E in H. destruct H as (_ & c & Hs & _ & H). exists c. revert H.
  destruct (dispatch DEFAULT_CIRCUIT_BREAKER_CONFIG alice c alice_sent) as [r s'].
  intros (_ & (now & H) & _). exists now. split; [exact Hs|exact H].
Defined.

(** A message of another peer, held for the human, which this peer releases. *)
Definition under_review : Agent :=
  put_world (put_db (mkDb [recordToRow (set_state "escalated_to_human" None "" (sample_message "m1"))] ∅)
               (ag_world at_bob)) at_bob.

Lemma any_peer_sets_any_state_witness :
  ∃ c now, env_fromAddress c = "pinch:a@h" ∧
    getMessage "m1" (ag_db (dispatch DEFAULT_CIRCUIT_BREAKER_CONFIG bob c under_review).2) =
      Some (set_state "read_by_agent" None now
              (set_state "escalated_to_human" None "" (sample_message "m1"))).
Proof.
  assert (getPeerPublicKey "pinch:a@h" (ag_store under_review) = Some (publicKey alice)) as Hk
    by (vm_compute; reflexivity).
  destruct (any_peer_sets_any_state DEFAULT_CIRCUIT_BREAKER_CONFIG alice bob "pinch:a@h" "m1"
    "read_by_agent" under_review (set_state "escalated_to_human" None "" (sample_message "m1"))
    alice_ok Hk eq_refl) as (c & _ & Hc & _ & now & H).
  exists c, now. split; [exact Hc|exact H].
Defined.

Lemma sender_key_unchecked_witness :
  ∃ e m' now, env_fromAddress e = "pinch:a@h" ∧
    getMessage "forged" (ag_db (dispatch DEFAULT_CIRCUIT_BREAKER_CONFIG bob e at_bob).2) =
      Some (set_state (v_state (verdict_on DEFAULT_CIRCUIT_BREAKER_CONFIG m' at_bob))
              (v_reason (verdict_on DEFAULT_CIRCUIT_BREAKER_CONFIG m' at_bob)) now m') ∧
    m_connectionAddress m' = "pinch:a@h" ∧ m_body m' = "do it".
Proof.
  destruct (sender_key_unchecked DEFAULT_CIRCUIT_BREAKER_CONFIG mallory bob "pinch:a@h" "forged" "do it"
    at_bob mallory_ok bob_ok (mm_fresh _ _) eq_refl)
    as (e & sealed & He & _ & _ & _ & m & now & Ha & Hb & H).
  exists e, m, now. split; [exact He|]. split; [|split; [exact Ha|exact Hb]].
  exact H.
Defined.
End witnesses.
