(* ===== verification/Flush.v ===== *)
(** [message-manager.ts]: [waitForFlush] and the counting of queued envelopes.  The
    promises and timers are the runtime's: each callback is an event, in any
    order; a timer that was set stays armed until it fires. *)
From S2P Require Import Prelude JsLib Platform Identity ConnectionStore World CircuitBreaker.
From S2P Require Import Text Envelope ConnectionManager Delivery Crypto MessageManager.
Local Open Scope Z_scope.

(** ** State *)
Inductive Outcome : Type := pending | resolved | rejected.

#[export] Instance Outcome_eq_dec : EqDecision Outcome.
Proof. solve_decision. Defined.

(** A call of [waitForFlush]: in the grace loop, awaiting a promise, or returned. *)
Inductive Call : Type := polling (elapsed : Z) | awaiting (p : nat) | returned.

(** A promise is its place in [promises]; [timers] holds the promises whose
    [setTimeout] has not fired. *)
Record Flush : Type := mkFlush {
  flushRemaining : Z;
  flushResolve : option nat;
  flushPromise : option nat;
  queueStatusReceived : bool;
  promises : list Outcome;
  timers : list nat;
  calls : list Call
}.

Definition newFlush : Flush := mkFlush (-1) None None false [] [] [].

(** [resolve()] and [reject()]: only the first has an effect. *)
Definition settle_with (o : Outcome) (p : nat) (ps : list Outcome) : list Outcome :=
  alter (λ q, if decide (q = pending) then o else q) p ps.

(** ** Operations *)

(** The part of [waitForFlush] after the grace period, for the call [i]. *)
Definition after_grace (i : nat) : M Flush unit := λ f,
  if flushRemaining f <=? 0 then
    (Ok tt, mkFlush (flushRemaining f) (flushResolve f) (flushPromise f) (queueStatusReceived f)
              (promises f) (timers f) (<[i := returned]> (calls f)))
  else
    match flushPromise f with
    | Some p =>
        (Ok tt, mkFlush (flushRemaining f) (flushResolve f) (flushPromise f) (queueStatusReceived f)
                  (promises f) (timers f) (<[i := awaiting p]> (calls f)))
    | None =>
        let p := length (promises f) in
        (Ok tt, mkFlush (flushRemaining f) (Some p) (Some p) (queueStatusReceived f)
                  (promises f ++ [pending]) (p :: timers f) (<[i := awaiting p]> (calls f)))
    end.

Definition set_call (i : nat) (c : Call) : M Flush unit := modify (λ f,
  mkFlush (flushRemaining f) (flushResolve f) (flushPromise f) (queueStatusReceived f)
    (promises f) (timers f) (<[i := c]> (calls f))).

(** [waitForFlush]: a new call. *)
Definition waitForFlush : M Flush unit :=
  i ← gets (λ f, length (calls f));
  modify (λ f, mkFlush (flushRemaining f) (flushResolve f) (flushPromise f) (queueStatusReceived f)
                 (promises f) (timers f) (calls f ++ [polling 0]));;
  received ← gets queueStatusReceived;
  if negb received then mret tt else after_grace i.

(** [check], every 50 ms of the grace loop. *)
Definition check (i : nat) : M Flush unit :=
  call ← gets (λ f, calls f !! i);
  match call with
  | Some (polling elapsed) =>
      received ← gets queueStatusReceived;
      if received : bool then after_grace i
      else
        let elapsed := elapsed + 50 in
        if 2000 <=? elapsed then after_grace i else set_call i (polling elapsed)
  | _ => mret tt
  end.

(** The [setTimeout] callback of the promise [p]. *)
Definition on_timeout (p : nat) : M Flush unit := modify (λ f,
  if bool_decide (p ∈ timers f) then
    mkFlush 0 None None (queueStatusReceived f) (settle_with rejected p (promises f))
      (filter (λ q, q ≠ p) (timers f)) (calls f)
  else f).

(** The head of the envelope handler. *)
Definition count_envelope : M Flush unit := modify (λ f,
  if 0 <? flushRemaining f then
    let n := flushRemaining f - 1 in
    match flushResolve f with
    | Some p =>
        if n <=? 0
        then mkFlush n None None (queueStatusReceived f) (settle_with resolved p (promises f))
               (timers f) (calls f)
        else mkFlush n (Some p) (flushPromise f) (queueStatusReceived f) (promises f) (timers f) (calls f)
    | None => mkFlush n None (flushPromise f) (queueStatusReceived f) (promises f) (timers f) (calls f)
    end
  else f).

Definition handleQueueStatus (e : Envelope) : M Flush unit :=
  match env_payload e with
  | queueStatus q => modify (λ f,
      mkFlush (qs_pendingCount q) (flushResolve f) (flushPromise f) true (promises f) (timers f) (calls f))
  | _ => mret tt
  end.

(** ** The manager: the counters and the agent *)
Record Manager : Type := mkManager { mg_flush : Flush; mg_agent : Agent }.
Definition put_flush (f : Flush) (m : Manager) : Manager := mkManager f (mg_agent m).
Definition put_agent (s : Agent) (m : Manager) : Manager := mkManager (mg_flush m) s.
Program Definition flushL : lens Manager Flush := Lens mg_flush put_flush _ _ _.
Solve All Obligations with (by intros; try destruct t).
Program Definition agentL : lens Manager Agent := Lens mg_agent put_agent _ _ _.
Solve All Obligations with (by intros; try destruct t).

Section handler.
Context `{EN : Env, SH : Sha256, SQ : SqlEngine, B58 : Base58, B64 : Base64}.
Context `{UN : Unicode, WI : Wire, ED : Ed25519, NB : NaclBox}.
Context (config : CircuitBreakerConfig) (keypair : Keypair).

(** The handler [setupHandlers] registers.  The asynchronous handlers are not
    awaited, so that a rejection goes nowhere; [handleQueueFull] and
    [handleRateLimited] print a warning. *)
Definition on_envelope (e : Envelope) : M Manager unit :=
  zoom flushL count_envelope;;
  match env_type e with
  | QUEUE_STATUS => zoom flushL (handleQueueStatus e)
  | _ => try_catch (zoom agentL (dispatch config keypair e)) (mret tt)
  end.
End handler.

(** ** Events *)
Inductive Event : Type :=
| ev_wait
| ev_check (i : nat)
| ev_timeout (p : nat)
| ev_envelope
| ev_status (pendingCount : Z).

#[export] Instance Event_eq_dec : EqDecision Event.
Proof. solve_decision. Defined.

(** A [QueueStatus] is an envelope too: it is counted, then sets the counter. *)
Definition status_envelope (n : Z) : Envelope :=
  envelope "" "" QUEUE_STATUS (queueStatus (mkQueueStatus n)).

Definition on_event (ev : Event) : M Flush unit :=
  match ev with
  | ev_wait => waitForFlush
  | ev_check i => check i
  | ev_timeout p => on_timeout p
  | ev_envelope => count_envelope
  | ev_status n => count_envelope;; handleQueueStatus (status_envelope n)
  end.

Definition run_events (evs : list Event) (f : Flush) : Flush :=
  fold_left (λ f ev, (on_event ev f).2) evs f.

(** ** The promises and their timers *)

Lemma settle_lookup o p ps q :
  settle_with o p ps !! q =
  (λ x, if decide (p = q ∧ x = pending) then o else x) <$> ps !! q.
Proof.
  unfold settle_with. destruct (decide (p = q)) as [->|Hne].
  - rewrite list_lookup_alter_eq. destruct (ps !! q) as [x|]; [|done]. simpl. f_equal.
    destruct (decide (x = pending)) as [->|Hx]; [by rewrite decide_True|].
    rewrite decide_False; [done|]. by intros [_ ?].
  - rewrite list_lookup_alter_ne by done. destruct (ps !! q) as [x|]; [|done]. simpl.
    rewrite decide_False; [done|]. by intros [? _].
Qed.

(** The promise on offer is pending, and a pending promise has its timer armed. *)
Record flush_wf (f : Flush) : Prop := {
  wf_offer : flushResolve f = flushPromise f;
  wf_pending p : flushPromise f = Some p → promises f !! p = Some pending;
  wf_timer p : promises f !! p = Some pending → p ∈ timers f;
  wf_range p : p ∈ timers f → (p < length (promises f))%nat;
  wf_calls i p : calls f !! i = Some (awaiting p) → (p < length (promises f))%nat
}.

Lemma insert_call {i j : nat} {c c' : Call} {cs : list Call} :
  <[i := c]> cs !! j = Some c' → c = c' ∨ cs !! j = Some c'.
Proof.
  rewrite list_lookup_insert. case_decide; [intros [= ->]; by left|by right].
Qed.

Lemma newFlush_wf : flush_wf newFlush.
Proof. split; simpl; try done. intros p Hp. by apply not_elem_of_nil in Hp. Qed.

Lemma wf_put_calls f cs :
  flush_wf f → (∀ i p, cs !! i = Some (awaiting p) → (p < length (promises f))%nat) →
  flush_wf (mkFlush (flushRemaining f) (flushResolve f) (flushPromise f) (queueStatusReceived f)
              (promises f) (timers f) cs).
Proof. by intros [] ?. Qed.

Lemma wf_after_grace i f : flush_wf f → flush_wf (after_grace i f).2.
Proof.
  intros Hf. unfold after_grace. case_match.
  { apply wf_put_calls; [done|]. intros j p [[=]|Hj]%insert_call. by eapply wf_calls. }
  destruct (flushPromise f) as [p|] eqn:Ep.
  - cbn [snd]. rewrite <- Ep. apply wf_put_calls; [done|].
    intros j q [[= ->]|Hj]%insert_call; [|by eapply wf_calls].
    eapply lookup_lt_Some, wf_pending; [done|congruence].
  - destruct Hf as [H1 H2 H3 H4 H5]. split; cbn.
    + done.
    + intros p [= <-]. by rewrite lookup_app_r, Nat.sub_diag by lia.
    + intros p Hp. apply elem_of_cons. apply lookup_app_Some in Hp as [Hp|[Hl Hp]]; [right; by apply H3|].
      left. apply lookup_lt_Some in Hp. simpl in Hp. lia.
    + intros p [->|Hp]%elem_of_cons; rewrite length_app; simpl; [lia|]. apply H4 in Hp. lia.
    + intros j q Hj. rewrite length_app. cbn. apply insert_call in Hj as [[= ->]|Hj]; [lia|].
      apply H5 in Hj. lia.
Qed.

Lemma wf_settle o p f n b :
  o ≠ pending → flush_wf f → (flushPromise f = None ∨ flushPromise f = Some p) →
  flush_wf (mkFlush n None None b (settle_with o p (promises f)) (timers f) (calls f)).
Proof.
  intros Ho [H1 H2 H3 H4 H5] Hp. split; simpl; [done|done|..].
  - intros q. rewrite settle_lookup. intros (x & Hx & E)%fmap_Some. apply H3. rewrite Hx. f_equal.
    destruct (decide (p = q ∧ x = pending)) as [[_ ->]|]; congruence.
  - intros q Hq. unfold settle_with. rewrite length_alter. by apply H4.
  - intros j q Hq. unfold settle_with. rewrite length_alter. by apply (H5 j).
Qed.

Lemma wf_event ev f : flush_wf f → flush_wf (on_event ev f).2.
Proof.
  assert (∀ f, flush_wf f → flush_wf (count_envelope f).2) as Hc.
  { intros g Hg. unfold count_envelope, modify. simpl. case_match; [|done].
    pose proof (wf_offer g Hg) as E. destruct (flushResolve g) as [p|] eqn:Er.
    - case_match; [apply wf_settle; [done|done|right; congruence]|]. destruct Hg as [H1 H2 H3 H4 H5]. split; simpl; eauto.
    - destruct Hg as [H1 H2 H3 H4 H5]. split; simpl; eauto. }
  destruct ev as [|i|p| |n]; cbn [on_event]; intros Hf.
  - unfold waitForFlush, mbind, M_bind, gets, modify. simpl.
    assert (flush_wf (mkFlush (flushRemaining f) (flushResolve f) (flushPromise f)
              (queueStatusReceived f) (promises f) (timers f) (calls f ++ [polling 0]))) as Hcs.
    { apply wf_put_calls; [done|]. intros i p [Hi|[_ Hi]]%lookup_app_Some; [by eapply wf_calls|].
      apply list_lookup_singleton_Some in Hi as [_ [=]]. }
    destruct (queueStatusReceived f); [by apply wf_after_grace|done].
  - unfold check. bind1. unfold gets at 1. destruct (calls f !! i) as [[e| |]|]; try done.
    bind1. unfold gets at 1. destruct (queueStatusReceived f); [by apply wf_after_grace|].
    case_match; [by apply wf_after_grace|]. apply wf_put_calls; [done|].
    intros j p [[=]|Hj]%insert_call. by eapply wf_calls.
  - unfold on_timeout, modify. simpl. case_bool_decide as Hp; [|done].
    destruct Hf as [H1 H2 H3 H4 H5]. split; simpl; [done|done|..].
    + intros q. rewrite settle_lookup. intros (x & Hx & E)%fmap_Some.
      destruct (decide (p = q ∧ x = pending)) as [[_ ->]|Hne]; [done|subst x].
      apply list_elem_of_filter. split; [|by apply H3]. intros ->. by apply Hne.
    + intros q [_ Hq]%list_elem_of_filter. unfold settle_with. rewrite length_alter. by apply H4.
    + intros j q Hq. unfold settle_with. rewrite length_alter. by apply (H5 j).
  - by apply Hc.
  - change (flush_wf (handleQueueStatus (status_envelope n) (count_envelope f).2).2).
    destruct (Hc f Hf) as [H1 H2 H3 H4 H5]. by split.
Qed.

Lemma flush_run_snoc evs ev f : run_events (evs ++ [ev]) f = (on_event ev (run_events evs f)).2.
Proof. unfold run_events. by rewrite fold_left_app. Qed.

Lemma wf_run evs : flush_wf (run_events evs newFlush).
Proof.
  induction evs as [|ev evs IH] using rev_ind; [apply newFlush_wf|]. rewrite flush_run_snoc. by apply wf_event.
Qed.

(** ** Release *)
Definition occurrences (x : Event) (evs : list Event) : Z :=
  Z.of_nat (length (filter (λ ev, ev = x) evs)).

Lemma occurrences_snoc x evs ev :
  occurrences x (evs ++ [ev]) = occurrences x evs + if decide (ev = x) then 1 else 0.
Proof.
  unfold occurrences. rewrite filter_app, length_app, filter_cons, filter_nil.
  destruct (decide (ev = x)); simpl length; lia.
Qed.

(** Waiting, polling and counting; no new status and no timer. *)
Definition ordinary (ev : Event) : Prop :=
  match ev with ev_wait | ev_check _ | ev_envelope => True | _ => False end.

(** While [n] envelopes are outstanding, [p] is on offer; then it is resolved. *)
Definition flushing (p : nat) (n : Z) (f : Flush) : Prop :=
  flushRemaining f = Z.max 0 n ∧
  if decide (n ≤ 0)
  then flushResolve f = None ∧ flushPromise f = None ∧ promises f !! p = Some resolved
  else flushResolve f = Some p ∧ flushPromise f = Some p ∧ promises f !! p = Some pending.

Lemma flushing_after_grace p n i f : flushing p n f → flushing p n (after_grace i f).2.
Proof.
  intros Hf. unfold after_grace. case_match eqn:E; [exact Hf|].
  apply Z.leb_gt in E. pose proof Hf as [Hr Hd].
  rewrite decide_False in Hd by lia. destruct Hd as (Hres & Hp & _). rewrite Hp. cbn [snd].
  rewrite <- Hp. exact Hf.
Qed.

Lemma flushing_event p n ev f :
  ordinary ev → flushing p n f →
  flushing p (if decide (ev = ev_envelope) then n - 1 else n) (on_event ev f).2.
Proof.
  destruct ev as [|i|q| |m]; try done; intros _ Hf; cbn [on_event].
  - rewrite decide_False by done. unfold waitForFlush, mbind, M_bind, gets, modify. simpl.
    destruct (queueStatusReceived f); [apply flushing_after_grace|]; exact Hf.
  - rewrite decide_False by done. unfold check. bind1. unfold gets at 1.
    destruct (calls f !! i) as [[e| |]|]; try done.
    bind1. unfold gets at 1. destruct (queueStatusReceived f); [by apply flushing_after_grace|].
    case_match; [by apply flushing_after_grace|exact Hf].
  - rewrite decide_True by done. destruct Hf as [Hr Hd]. unfold count_envelope, modify, flushing. cbn [snd].
    rewrite Hr. destruct (decide (n ≤ 0)) as [Hn|Hn].
    + rewrite (proj2 (Z.ltb_ge _ _)) by lia. rewrite decide_True by lia. split; [lia|done].
    + destruct Hd as (Hres & Hp & Hst). rewrite (proj2 (Z.ltb_lt _ _)) by lia. rewrite Hres.
      destruct (decide (n - 1 ≤ 0)).
      * rewrite (proj2 (Z.leb_le _ _)) by lia. cbn. split; [lia|]. split; [done|]. split; [done|].
        rewrite settle_lookup, Hst. simpl. by rewrite decide_True.
      * rewrite (proj2 (Z.leb_gt _ _)) by lia. cbn. split; [lia|done].
Qed.

Lemma flushing_run p n evs f :
  Forall ordinary evs → flushing p n f → flushing p (n - occurrences ev_envelope evs) (run_events evs f).
Proof.
  intros Ho Hf. induction evs as [|ev evs IH] using rev_ind; [by rewrite Z.sub_0_r|].
  apply Forall_app in Ho as [Ho Hev]. apply Forall_cons in Hev as [Hev _].
  rewrite flush_run_snoc, occurrences_snoc. pose proof (flushing_event p _ ev _ Hev (IH Ho)) as H.
  destruct (decide (ev = ev_envelope)).
  - by rewrite Z.sub_add_distr.
  - by rewrite Z.add_0_r.
Qed.

(** Waiting for the flush ends with the flush: a promise [waitForFlush] hands out
    while [n] envelopes are outstanding is resolved by exactly the [n]-th envelope
    to arrive, whatever calls are made meanwhile; before that it is pending, and
    afterwards there is nothing left to wait for. *)
Theorem released_at_last_envelope f p evs :
  flush_wf f → flushPromise f = Some p → 0 < flushRemaining f → Forall ordinary evs →
  let f' := run_events evs f in
  let n := flushRemaining f - occurrences ev_envelope evs in
  flushRemaining f' = Z.max 0 n ∧
  promises f' !! p = Some (if decide (n ≤ 0) then resolved else pending) ∧
  flushPromise f' = (if decide (n ≤ 0) then None else Some p).
Proof.
  intros Hf Hp Hn Ho f' n.
  assert (flushing p (flushRemaining f) f) as H0.
  { split; [lia|]. rewrite decide_False by lia. rewrite (wf_offer f Hf). by auto using wf_pending. }
  destruct (flushing_run p _ evs f Ho H0) as [Hr Hd]. fold f' n in Hr, Hd. split; [done|].
  destruct (decide (n ≤ 0)); naive_solver.
Qed.

(** ** No wait hangs *)
(** A call that still polls has polled at every check, and not for two seconds. *)
Definition polled (i : nat) (n : Z) (cs : list Call) : Prop :=
  (i < length cs)%nat ∧ ∀ e, cs !! i = Some (polling e) → e = 50 * n ∧ e < 2000.

Lemma polled_insert i n j c cs :
  (i < length cs)%nat → (j = i ∨ polled i n cs) →
  (∀ e, c = polling e → j = i → e = 50 * n ∧ e < 2000) → polled i n (<[j := c]> cs).
Proof.
  intros Hl Hp Hc. split; [by rewrite length_insert|]. intros e. rewrite list_lookup_insert.
  case_decide as Hd; [intros [= ->]; apply (Hc e); naive_solver|].
  destruct Hp as [->|[_ Hp]]; [naive_solver|apply Hp].
Qed.

Lemma calls_after_grace j f :
  ∃ c, calls (after_grace j f).2 = <[j := c]> (calls f) ∧ ∀ e, c ≠ polling e.
Proof.
  unfold after_grace. case_match; [by exists returned|].
  destruct (flushPromise f) as [p|]; [by exists (awaiting p)|]. by exists (awaiting (length (promises f))).
Qed.

Lemma after_grace_polled i n j f :
  (i < length (calls f))%nat → (j = i ∨ polled i n (calls f)) →
  polled i n (calls (after_grace j f).2).
Proof.
  intros Hl Hp. destruct (calls_after_grace j f) as (c & -> & Hc).
  apply polled_insert; [done|done|]. intros e ->. by destruct (Hc e).
Qed.

Lemma check_polled i n j f :
  polled i n (calls f) →
  polled i (n + if decide (ev_check j = ev_check i) then 1 else 0) (calls (check j f).2).
Proof.
  intros [Hl Hp]. set (n' := n + _).
  assert (j = i ∨ polled i n' (calls f)) as Hor.
  { unfold n'. destruct (decide (ev_check j = ev_check i)) as [[= ->]|]; [by left|right].
    by rewrite Z.add_0_r. }
  unfold check. bind1. unfold gets at 1. destruct (calls f !! j) as [[e| |]|] eqn:Ej.
  2-4: destruct Hor as [->|Hor]; [|exact Hor]; split; [exact Hl|]; intros e He; cbn in He; congruence.
  bind1. unfold gets at 1. destruct (queueStatusReceived f); [by apply after_grace_polled|].
  case_match eqn:El; [by apply after_grace_polled|]. apply Z.leb_gt in El.
  apply polled_insert; [done|done|]. intros e' [= <-] ->. destruct (Hp e Ej) as [-> _].
  unfold n'. rewrite decide_True by done. lia.
Qed.

Lemma calls_count_envelope f : calls (count_envelope f).2 = calls f.
Proof. unfold count_envelope, modify. simpl. by repeat case_match. Qed.

Lemma event_polled i n ev f :
  polled i n (calls f) →
  polled i (n + if decide (ev = ev_check i) then 1 else 0) (calls (on_event ev f).2).
Proof.
  intros Hf. destruct ev as [|j|q| |m]; cbn [on_event]; [|by apply check_polled|..];
    rewrite decide_False, Z.add_0_r by done.
  - destruct Hf as [Hl Hp]. unfold waitForFlush, mbind, M_bind, gets, modify. simpl.
    assert (polled i n (calls f ++ [polling 0])) as Hg.
    { split; [rewrite length_app; lia|]. intros e. rewrite lookup_app_l by done. apply Hp. }
    destruct (queueStatusReceived f); [|exact Hg]. apply after_grace_polled; [apply Hg|by right].
  - unfold on_timeout, modify. simpl. by case_bool_decide.
  - by rewrite calls_count_envelope.
  - change (polled i n (calls (handleQueueStatus (status_envelope m) (count_envelope f).2).2)).
    cbn. by rewrite <- (calls_count_envelope f) in Hf.
Qed.

Lemma run_polled i evs f :
  calls f !! i = Some (polling 0) → polled i (occurrences (ev_check i) evs) (calls (run_events evs f)).
Proof.
  intros Hi. induction evs as [|ev evs IH] using rev_ind.
  - split; [by eapply lookup_lt_Some|]. intros e He. cbn in He. rewrite Hi in He. by injection He as <-.
  - rewrite flush_run_snoc, occurrences_snoc. by apply event_polled.
Qed.

(** No wait hangs: a call that has begun to poll is out of the grace loop after forty
    checks, whatever else happens meanwhile; and in every reachable state a call
    that awaits a promise awaits one that is settled, or whose own timer is
    still armed and rejects it when it fires. *)
Theorem waitForFlush_settles evs :
  let f := run_events evs newFlush in
  (∀ i evs' e, calls f !! i = Some (polling 0) → 40 ≤ occurrences (ev_check i) evs' →
     calls (run_events evs' f) !! i ≠ Some (polling e)) ∧
  (∀ i p, calls f !! i = Some (awaiting p) →
     ∃ o, promises f !! p = Some o ∧
       (o = pending → p ∈ timers f ∧ promises (on_timeout p f).2 !! p = Some rejected)).
Proof.
  intros f. pose proof (wf_run evs) as Hf. fold f in Hf. split.
  - intros i evs' e Hi Hn He. destruct (run_polled i evs' f Hi) as [_ Hp].
    apply Hp in He as [-> He]. lia.
  - intros i p Hi. pose proof (wf_calls f Hf i p Hi) as Hl.
    destruct (lookup_lt_is_Some_2 _ _ Hl) as [o Ho]. exists o. split; [done|]. intros ->.
    pose proof (wf_timer f Hf p Ho) as Ht. split; [done|].
    unfold on_timeout, modify. cbn [snd]. rewrite bool_decide_eq_true_2 by done. cbn [promises].
    rewrite settle_lookup, Ho. simpl. by rewrite decide_True.
Qed.

(** ** The timer of an earlier flush *)
Lemma orphaned_run k f :
  flushRemaining f = 0 → run_events (replicate k ev_envelope) f = f.
Proof.
  intros Hr. induction k as [|k IH]; [done|]. cbn. unfold count_envelope, modify. cbn [snd].
  rewrite Hr. exact IH.
Qed.

(** A timer is never cleared, and clears the state of whatever flush is running when
    it fires: if the timer of an earlier promise fires while a later one is on
    offer, the later one is never resolved however many envelopes arrive, and
    its waiters are rejected by its own timer. *)
Theorem stale_timer_loses_flush f p q k :
  flush_wf f → flushPromise f = Some p → q ∈ timers f → q ≠ p →
  let f' := run_events (ev_timeout q :: replicate k ev_envelope) f in
  promises f' !! p = Some pending ∧ flushPromise f' = None ∧
  promises (on_timeout p f').2 !! p = Some rejected.
Proof.
  intros Hf Hp Hq Hne f'. pose proof (wf_pending f Hf p Hp) as Hpend.
  pose proof (wf_timer f Hf p Hpend) as Ht.
  assert (f' = (on_timeout q f).2) as ->.
  { unfold f'. change (run_events (replicate k ev_envelope) (on_timeout q f).2 = (on_timeout q f).2).
    apply orphaned_run. unfold on_timeout, modify. cbn [snd].
    by rewrite bool_decide_eq_true_2. }
  unfold on_timeout, modify. cbn [snd]. rewrite (bool_decide_eq_true_2 (q ∈ _)) by done.
  cbn [promises flushPromise timers]. rewrite settle_lookup, Hpend. simpl.
  rewrite decide_False by naive_solver. split; [done|]. split; [done|].
  rewrite bool_decide_eq_true_2 by (apply list_elem_of_filter; naive_solver).
  cbn [promises]. rewrite settle_lookup, settle_lookup, Hpend. simpl.
  rewrite (decide_False (P := q = p ∧ _)) by naive_solver. by rewrite decide_True.
Qed.

(** ** Witnesses *)

(** A reported queue of two, and a wait for it. *)
Definition two_queued : Flush := run_events [ev_status 2; ev_wait] newFlush.

Lemma released_at_last_envelope_witness :
  promises (run_events [ev_envelope; ev_wait; ev_envelope] two_queued) !! 0%nat = Some resolved.
Proof.
  refine (proj1 (proj2 (released_at_last_envelope two_queued 0 [ev_envelope; ev_wait; ev_envelope]
    (wf_run _) eq_refl eq_refl _))).
  repeat constructor.
Defined.

(** The first flush is over; its timer is still armed when the second is awaited. *)
Definition second_flush : Flush :=
  run_events [ev_status 1; ev_wait; ev_envelope; ev_status 1; ev_wait] newFlush.

Lemma stale_timer_loses_flush_witness :
  promises (run_events [ev_timeout 0; ev_envelope] second_flush) !! 1%nat = Some pending.
Proof.
  refine (proj1 (stale_timer_loses_flush second_flush 1 0 1 (wf_run _) eq_refl _ _)).
  - vm_compute. right. left.
  - discriminate.
Defined.

Lemma waitForFlush_settles_witness :
  0%nat ∈ timers two_queued ∧
  ∀ e, calls (run_events (replicate 40 (ev_check 0)) (run_events [ev_wait] newFlush)) !! 0%nat
         ≠ Some (polling e).
Proof.
  split.
  - destruct (proj2 (waitForFlush_settles [ev_status 2; ev_wait]) 0%nat 0%nat eq_refl) as (o & Ho & H).
    apply H. vm_compute in Ho. injection Ho as <-. reflexivity.
  - intros e. apply (proj1 (waitForFlush_settles [ev_wait]) 0%nat (replicate 40 (ev_check 0)) e);
      [reflexivity|vm_compute; intros [=]].
Defined.
