(* ===== verification/Tools.v ===== *)
(** The tools (tools/pinch-*.ts) and how they start (tools/cli.ts): each parses
    its arguments, then opens the stores (and, except for the local ones,
    connects to the relay), then runs on what it opened.  What it prints is its
    result; a throw is the error the entry point prints before it exits. *)
From S2P Require Import Prelude JsLib JsDate JsNumber Platform Identity PermissionsManifest ConnectionStore.
From S2P Require Import MessageStore Args ActivityFeed AuditVerify World CircuitBreaker InboundRouter.
From S2P Require Import PermissionsEnforcer EnforcementPipeline Text AuditExport Envelope ConnectionManager.
From S2P Require Import PermissionsTool Delivery Crypto MessageManager.
From stdpp Require Import gmap.
From Stdlib Require Import Ascii.

(** ** Entry points *)

(** [basename(path)] with [/] as the separator; trailing separators do not count. *)
Definition basename (path : string) : string :=
  default "" (last (filter (λ piece, piece ≠ "") (split_on "/"%char path))).

Definition isToolEntrypoint (scriptPath : option string) (toolName : string) : bool :=
  if negb (truthy_str scriptPath) then false
  else
    let scriptName := basename (default "" scriptPath) in
    bool_decide (scriptName = toolName)
    || bool_decide (scriptName = toolName +:+ ".ts")
    || bool_decide (scriptName = toolName +:+ ".js")
    || bool_decide (scriptName = toolName +:+ ".mjs")
    || bool_decide (scriptName = toolName +:+ ".cjs").

(** ** What a tool prints *)
Record ContactLine : Type := mkContact {
  cl_address : string;
  cl_state : ConnectionState;
  cl_autonomyLevel : AutonomyLevel;
  cl_nickname : string;
  cl_lastActivity : string
}.

(** [out_fields] is an object of strings; [out_export] carries the text written to [path]. *)
Inductive Output : Type :=
| out_fields (fields : list (string * string))
| out_permissions (o : PermissionsOutput)
| out_contacts (lines : list ContactLine)
| out_history (messages : list MessageRecord)
| out_events (events : list ActivityEvent) (count : nat)
| out_status (message_id state : string) (failure_reason : option string) (updated_at : string)
| out_report (r : AuditReport)
| out_export (exported : nat) (path text : string).

Definition out_error (msg : string) : Output := out_fields [("error", msg)].

(** ** Starting up *)

(** The relay as a tool finds it: no URL is set, it cannot be reached, or it
    answers with the address it assigns. *)
Inductive RelayEnv : Type :=
| relay_unset
| relay_fails (msg : string)
| relay_assigns (own : string).

Section tools.
Context `{EN : Env, SH : Sha256, SQ : SqlEngine, SB : SqlBind, B58 : Base58, B64 : Base64, LO : Locale}.
Context `{UN : Unicode, WI : Wire, ED : Ed25519, NB : NaclBox}.
Context (keypair : Keypair).

(** A new process: the store is opened from its file, the breaker's counters and
    the relay connection are gone; the database is on disk. *)
Definition restart : M Agent unit := λ s,
  let w := ag_world s in
  (Ok tt, mkAgent (mkWorld (w_tick w) (openStore (newStore (file (w_store w)))).2 (w_db w)
                     (w_feed w) ∅)
                  (mkRelay None false (sent (ag_relay s)))).

(** The relay answers the handshake, or the socket goes down. *)
Definition relay_up (own : string) : M Agent unit := λ s,
  (Ok tt, put_relay (mkRelay (Some own) true (sent (ag_relay s))) s).
Definition relay_down : M Agent unit := λ s,
  (Ok tt, put_relay (mkRelay (assignedAddress (ag_relay s)) false (sent (ag_relay s))) s).

(** [bootstrap()] in a new process, its keypair loaded: the URL is checked before
    the stores are opened, the relay is connected after. *)
Definition bootstrap (relay : RelayEnv) : M Agent unit :=
  match relay with
  | relay_unset => throw "PINCH_RELAY_URL environment variable is required"
  | relay_fails msg => restart;; throw msg
  | relay_assigns own => restart;; relay_up own
  end.

(** [bootstrapLocal()]: the stores only. *)
Definition bootstrapLocal : M Agent unit := restart.

(** ** The tools that change state, after parsing and starting up *)

(** pinch-autonomy *)
Definition tool_autonomy (parsed : AutonomyArgs) : M Agent Output :=
  let address := ua_address parsed in
  let level := ua_level parsed in
  connection ← conn_ address;
  match connection with
  | None => mret (out_error ("Connection not found: " +:+ address))
  | Some connection =>
      let previousLevel := autonomyLevel connection in
      if bool_decide (level = full_auto) && bool_decide (previousLevel ≠ full_auto)
         && negb (ua_confirmed parsed)
      then mret (out_error ("Upgrading to full_auto requires --confirmed flag. " +:+
                            "This gives the agent full autonomy over this connection."))
      else
        _ ← zoom worldL (now ← date_now;
              zoom storeL (setAutonomy now address level (Some (ua_confirmed parsed))));
        (if truthy_str (ua_policy parsed) && bool_decide (level = auto_respond)
         then _ ← update_ address (with_policy (default "" (ua_policy parsed))); mret tt
         else mret tt);;
        save_;;
        mret (out_fields ([("address", address); ("previous_level", level_name previousLevel);
                           ("new_level", level_name level)] ++
                          (if truthy_str (ua_policy parsed)
                           then [("policy", default "" (ua_policy parsed))] else [])))
  end.

Definition tool_event (address event badge : string) : EventInput :=
  mkEventInput address event None (Some badge) None None (Some event) None.

(** pinch-mute *)
Definition tool_mute (parsed : MuteArgs) : M Agent Output :=
  _ ← update_ (ma_connection parsed) (with_muted (negb (ma_unmute parsed)));
  save_;;
  _ ← zoom worldL (w_record (tool_event (ma_connection parsed)
        (if ma_unmute parsed then "connection_unmuted" else "connection_muted") "muted"));
  mret (out_fields [("status", if ma_unmute parsed then "unmuted" else "muted");
                    ("connection", ma_connection parsed)]).

(** pinch-intervene *)
Definition tool_intervene (parsed : InterveneArgs) : M Agent Output :=
  match ia_mode parsed with
  | mode_start =>
      _ ← update_ (ia_connection parsed) (with_passthrough true);
      save_;;
      _ ← zoom worldL (w_record (tool_event (ia_connection parsed) "intervention_started" "intervention"));
      mret (out_fields [("status", "passthrough_active"); ("connection", ia_connection parsed)])
  | mode_stop =>
      _ ← update_ (ia_connection parsed) (with_passthrough false);
      save_;;
      _ ← zoom worldL (w_record (tool_event (ia_connection parsed) "intervention_ended" "intervention"));
      mret (out_fields [("status", "passthrough_ended"); ("connection", ia_connection parsed)])
  | mode_send =>
      messageId ← sendMessage keypair
        (mkSendParams (ia_connection parsed) (default "" (ia_body parsed)) None None None (Some human));
      mret (out_fields [("message_id", messageId); ("status", "sent"); ("attribution", "human")])
  end.

(** pinch-connect, pinch-accept, pinch-reject *)
Definition tool_connect (parsed : ConnectArgs) : M Agent Output :=
  sendRequest (Some (publicKey keypair)) (ca_to parsed) (ca_message parsed);;
  mret (out_fields [("status", "request_sent"); ("to", ca_to parsed)]).

Definition tool_accept (connection : string) : M Agent Output :=
  approveRequest (Some (publicKey keypair)) connection;;
  mret (out_fields [("status", "accepted"); ("connection", connection)]).

Definition tool_reject (connection : string) : M Agent Output :=
  rejectRequest connection;;
  mret (out_fields [("status", "rejected"); ("connection", connection)]).

(** pinch-send *)
Definition tool_send (parsed : SendArgs) : M Agent Output :=
  messageId ← sendMessage keypair
    (mkSendParams (sa_to parsed) (sa_body parsed) (sa_thread parsed) (sa_replyTo parsed)
       (sa_priority parsed) None);
  mret (out_fields [("message_id", messageId); ("status", "sent")]).

(** ** The tools that read *)

(** pinch-contacts *)
Definition contact_line (c : Connection) : ContactLine :=
  mkContact (peerAddress c) (cstate c) (autonomyLevel c) (nickname c) (lastActivity c).

Definition tool_contacts (parsed : option ConnectionState) : M Agent Output :=
  gets (λ s, out_contacts (contact_line <$> listConnections parsed (ag_store s))).

(** pinch-history, after [waitForFlush]; the numbers are bound to LIMIT and OFFSET. *)
Definition tool_history (parsed : HistoryArgs) : M Agent Output :=
  limit ← lift (sql_integer (ha_limit parsed));
  offset ← lift (sql_integer (ha_offset parsed));
  gets (λ s, out_history (getHistory
    (mkHistoryOptions (ha_connection parsed) (ha_thread parsed) None None (Some limit) (Some offset))
    (w_db (ag_world s)))).

(** pinch-activity *)
Definition tool_activity (parsed : ActivityArgs) : M Agent Output :=
  let excludeEventTypes :=
    if aa_includeMuted parsed then None
    else Some ["message_received_muted"; "message_receive_muted"] in
  limit ← lift (sql_integer (aa_limit parsed));
  gets (λ s,
    let events := getEvents
      (mkEventQuery (aa_connection parsed) (aa_type parsed) (aa_since parsed) (aa_until parsed)
         excludeEventTypes (Some limit)) (w_feed (ag_world s)) in
    out_events events (length events)).

(** pinch-status *)
Definition tool_status (i : string) : M Agent Output :=
  gets (λ s, match getMessage i (w_db (ag_world s)) with
             | None => out_error "message not found"
             | Some message =>
                 out_status (m_id message) (m_state message) (m_failureReason message)
                   (m_updatedAt message)
             end).

(** pinch-audit-verify *)
Definition tool_audit_verify (tail : option number) : M Agent Output :=
  rows ← gets (λ s, w_feed (ag_world s));
  if bool_decide (length (chained rows) = 0) then mret (out_report (audit_verify None rows))
  else
    match tail with
    | None => mret (out_report (audit_verify None rows))
    | Some n => n ← lift (sql_integer n); mret (out_report (audit_verify (Some n) rows))
    end.

(** pinch-audit-export; the text is what the file then holds. *)
Definition tool_audit_export (parsed : AuditExportArgs) : M Agent Output :=
  rows ← gets (λ s, w_feed (ag_world s));
  now ← now_;
  let '(text, n) := audit_export parsed now rows in
  mret (out_export n (default "" (xa_output parsed)) text).

(** ** A tool as a process *)
Inductive Tool : Type :=
| pinch_accept | pinch_activity | pinch_audit_export | pinch_audit_verify | pinch_autonomy
| pinch_connect
| pinch_contacts | pinch_history | pinch_intervene | pinch_mute | pinch_permissions
| pinch_reject | pinch_send | pinch_status.

Definition then_run {A} (parsed : res A) (run : A → M Agent Output) : res (M Agent Output) :=
  res_bind parsed (λ p, Ok (run p)).

#[export] Instance Tool_eq_dec : EqDecision Tool.
Proof. solve_decision. Defined.

(** What is left to do when the arguments have been parsed. *)
Definition tool_body (t : Tool) (args : list string) : res (M Agent Output) :=
  match t with
  | pinch_accept => then_run (parseConnectionArg args) tool_accept
  | pinch_activity => then_run (activity_parseArgs args) tool_activity
  | pinch_audit_export => then_run (audit_export_parseArgs args) tool_audit_export
  | pinch_audit_verify => then_run (audit_verify_parseArgs args) tool_audit_verify
  | pinch_autonomy => then_run (autonomy_parseArgs args) tool_autonomy
  | pinch_connect => then_run (connect_parseArgs args) tool_connect
  | pinch_contacts => then_run (contacts_parseArgs args) tool_contacts
  | pinch_history => then_run (history_parseArgs args) tool_history
  | pinch_intervene => then_run (intervene_parseArgs args) tool_intervene
  | pinch_mute => then_run (mute_parseArgs args) tool_mute
  | pinch_permissions =>
      then_run (permissions_parseArgs args) (λ p, o ← tool_permissions p; mret (out_permissions o))
  | pinch_reject => then_run (parseConnectionArg args) tool_reject
  | pinch_send => then_run (send_parseArgs args) tool_send
  | pinch_status => then_run (status_parseArgs args) tool_status
  end.

(** The tools that use [bootstrapLocal]. *)
Definition is_local (t : Tool) : bool :=
  match t with pinch_permissions | pinch_audit_export | pinch_audit_verify => true | _ => false end.

(** [run(args)] in a process of its own, with nothing arriving meanwhile: parse,
    start up, run, shut down.  A throw ends the process where it is. *)
Definition tool_run (t : Tool) (relay : RelayEnv) (args : list string) : M Agent Output :=
  body ← lift (tool_body t args);
  (if is_local t then bootstrapLocal else bootstrap relay);;
  output ← body;
  relay_down;;
  mret output.
End tools.
