(* ===== verification/Steps.v ===== *)
(** The whole skill as a transition system: every operation that can change the
    connection store, the tools that call them, and the restart of the process,
    as steps on one [Agent].  What the components promise about the store is a
    pair of classes, one for what only changes a connection's settings and one
    that adds the writes of its state and key; the steps are verified against
    the classes once and for all. *)
From S2P Require Import Prelude JsLib JsDate Platform Identity PermissionsManifest ConnectionStore.
From S2P Require Import MessageStore ActivityFeed World CircuitBreaker InboundRouter.
From S2P Require Import PermissionsEnforcer EnforcementPipeline Text Envelope ConnectionManager.
From S2P Require Import Args ArgsSpec PermissionsTool Delivery Crypto MessageManager Tools.
From stdpp Require Import gmap.

Section steps.
Context `{EN : Env, SH : Sha256, SQ : SqlEngine, SB : SqlBind, LO : Locale, B58 : Base58, B64 : Base64}.
Context `{UN : Unicode, WI : Wire, ED : Ed25519, NB : NaclBox}.
Context (config : CircuitBreakerConfig) (keypair : Keypair).

(** ** Steps

    [st_tool] runs a tool's body on the running agent, so that a tool that
    bootstraps is the sequence [st_restart], [st_relay_up], the envelopes that
    arrive, [st_tool], [st_relay_down]; [st_process_of] is the whole process
    when nothing arrives. *)
Inductive Step : Type :=
| st_op (op : Op)
| st_sendMessage (params : SendMessageParams)
| st_message (e : Envelope)
| st_process (message : MessageRecord) (addr : string)
| st_approve_message (i : string) (action : ReviewAction)
| st_tool (t : Tool) (args : list string)
| st_process_of (t : Tool) (relay : RelayEnv) (args : list string)
| st_setAutonomy (a : string) (level : AutonomyLevel) (confirmed : option bool)
| st_setPermissions (a : string) (m : PermissionsManifest)
| st_setNickname (a n : string)
| st_expire
| st_save
| st_restart
| st_relay_up (own : string)
| st_relay_down.

Definition store_call {A} (m : Z → M ConnectionStore A) : M Agent unit :=
  _ ← zoom worldL (now ← date_now; zoom storeL (m now)); mret tt.

Definition exec (st : Step) : M Agent unit :=
  match st with
  | st_op op => ConnectionManager.run (Some (publicKey keypair)) op
  | st_sendMessage params => _ ← sendMessage keypair params; mret tt
  | st_message e => dispatch config keypair e
  | st_process message addr => _ ← zoom worldL (process config message addr); mret tt
  | st_approve_message i action => _ ← zoom worldL (approveMessage i action); mret tt
  | st_tool t args => body ← lift (tool_body keypair t args); _ ← body; mret tt
  | st_process_of t relay args => _ ← tool_run keypair t relay args; mret tt
  | st_setAutonomy a level confirmed => store_call (λ now, setAutonomy now a level confirmed)
  | st_setPermissions a m => store_call (λ now, setPermissions now a m)
  | st_setNickname a n => store_call (λ now, setNickname now a n)
  | st_expire => store_call expirePendingRequests
  | st_save => save_
  | st_restart => restart
  | st_relay_up own => relay_up own
  | st_relay_down => relay_down
  end.

(** The state after a step, whether it returned or threw. *)
Definition step (st : Step) (s : Agent) : Agent := (exec st s).2.

Inductive reachable (s0 : Agent) : list Step → Agent → Prop :=
| reach_start : reachable s0 [] s0
| reach_step tr s st : reachable s0 tr s → reachable s0 (tr ++ [st]) (step st s).

(** The steps in turn. *)
Definition steps (tr : list Step) (s : Agent) : Agent := foldl (λ s st, step st s) s tr.

Lemma reachable_steps s0 tr : reachable s0 tr (steps tr s0).
Proof.
  induction tr as [|st tr IH] using rev_ind; [constructor|].
  unfold steps. rewrite foldl_app. by constructor.
Qed.

(** A fresh installation. *)
Definition installed (s : Agent) : Prop := ag_store s = newStore NoFile.
End steps.

(** A tool, in the running agent and as a process of its own, keeps what its body
    and the process around it keep. *)
Section tools_keep.
Context `{EN : Env, SH : Sha256, SQ : SqlEngine, SB : SqlBind, LO : Locale, B58 : Base58, B64 : Base64}.
Context `{UN : Unicode, WI : Wire, ED : Ed25519, NB : NaclBox}.
Context (config : CircuitBreakerConfig) (keypair : Keypair).
Context (Q : relation Agent) `{!PreOrder Q}.

Lemma moves_tool_in t args :
  (∀ body, tool_body keypair t args = Ok body → moves Q body) →
  moves Q (exec config keypair (st_tool t args)).
Proof.
  intros Hb s. cbn [exec]. unfold lift. bind1.
  destruct (tool_body keypair t args) as [body|] eqn:E; [|reflexivity].
  pose proof (Hb body eq_refl). revert s. apply moves_bind; [apply _|done|intros; apply moves_ret; apply _].
Qed.

Lemma moves_tool_process t relay args :
  moves Q restart → moves Q relay_down →
  (∀ own, relay = relay_assigns own → moves Q (relay_up own)) →
  (∀ body, tool_body keypair t args = Ok body → moves Q body) →
  moves Q (exec config keypair (st_process_of t relay args)).
Proof.
  intros Hr Hd Hu Hb. cbn [exec]. apply moves_bind; [apply _| |intros; apply moves_ret; apply _].
  intros s. unfold tool_run, lift. bind1.
  destruct (tool_body keypair t args) as [body|] eqn:E; [|reflexivity].
  pose proof (Hb body eq_refl). unfold bootstrap, bootstrapLocal. revert s.
  repeat first [ solve [eauto using moves_ret, moves_throw] | apply moves_bind; [apply _|..]
               | progress intros | case_match | apply moves_ret; apply _ | apply moves_throw; apply _ ].
Qed.
End tools_keep.

(** ** What a step may do

    The arguments with which a relation is known to be kept; the relay may assign
    the addresses of [may_connect]. *)
Record Permits : Type := mkPermits {
  may_level : string → AutonomyLevel → option bool → Prop;
  may_insert : MessageRecord → Prop;
  may_state : string → string → Prop;
  may_send : Envelope → Prop;
  may_connect : string → Prop
}.

Definition plain_level (l : option AutonomyLevel) : bool :=
  match l with None | Some full_manual => true | _ => false end.

(** An update of settings leaves the state and the key alone. *)
Definition settings_only (u : ConnectionUpdates) : bool :=
  plain_level (upd_autonomyLevel u) &&
  match upd_state u, upd_peerPublicKey u with None, None => true | _, _ => false end.

(** An update that does not trip the breaker. *)
Definition untripped (u : ConnectionUpdates) : bool :=
  match upd_circuitBreakerTripped u with Some true => false | _ => true end.

Lemma settings_plain u : settings_only u = true → plain_level (upd_autonomyLevel u) = true.
Proof. by intros [H _]%andb_prop. Qed.

(** [R] between two worlds of one agent. *)
Definition world_rel (R : relation Agent) : relation World := λ w w',
  ∀ r, R (mkAgent w r) (mkAgent w' r).

#[export] Instance world_rel_preorder R `{!PreOrder R} : PreOrder (world_rel R).
Proof.
  unfold world_rel. split; [intros w r; reflexivity|]. intros x y z H1 H2 r. etrans; [apply H1|apply H2].
Qed.

Lemma moves_world (R : relation Agent) {A} (m : M World A) :
  moves (world_rel R) m → moves R (zoom worldL m).
Proof.
  intros Hm [w r]. specialize (Hm w r). unfold zoom. cbn in *. by destruct (m w).
Qed.

Lemma moves_lift_bind {S A B} (R : relation S) (a : A) (k : A → M S B) :
  moves R (k a) → moves R (lift (Ok a) ≫= k).
Proof. intros Hk. exact Hk. Qed.

(** A trip is two updates, a save and a record. *)
Lemma moves_trip `{EN : Env, SH : Sha256, SQ : SqlEngine} (R : relation World) `{!PreOrder R} addr trigger n th win :
  (∀ A (f : nat → A), moves R (ask f)) →
  (∀ now a u, settings_only u = true → moves R (zoom storeL (updateConnection now a u))) →
  moves R (zoom storeL save) → (∀ e, moves R (w_record e)) →
  moves R (trip addr trigger n th win).
Proof.
  intros Ha Hu Hs Hr.
  assert (∀ u, settings_only u = true → moves R (w_updateConnection addr u)) as Hw.
  { intros u Ho. unfold w_updateConnection, date_now. apply moves_bind; [apply _|apply Ha|].
    intros now. by apply Hu. }
  unfold trip. apply moves_bind; [apply _|by apply Hw|intros _].
  apply moves_bind; [apply _|by apply Hw|intros _]. apply moves_bind; [apply _|exact Hs|intros _].
  apply moves_bind; [apply _|apply Hr|intros _]. apply moves_ret. apply _.
Qed.

(** The calls of the skill keep [R], with the arguments that [p] permits. *)
Class Calls `{EN : Env, SH : Sha256, SQ : SqlEngine, B58 : Base58, B64 : Base64}
    (R : relation Agent) (p : Permits) : Prop := {
  c_preorder :: PreOrder R;
  c_ask {A} (f : nat → A) : moves (world_rel R) (ask f);
  c_events {A} (m : M (gmap string (list EventRecord)) A) : moves (world_rel R) (zoom eventsL m);
  c_record e : moves (world_rel R) (w_record e);
  c_save : moves (world_rel R) (zoom storeL save);
  c_settings now a u : settings_only u = true → untripped u = true →
    moves (world_rel R) (zoom storeL (updateConnection now a u));
  c_trip addr trigger n th win : moves (world_rel R) (trip addr trigger n th win);
  c_edit a m : moves (world_rel R) (zoom storeL (edit_in_place a m));
  c_level now a level confirmed : may_level p a level confirmed →
    moves (world_rel R) (zoom storeL (setAutonomy now a level confirmed));
  c_expire now : moves (world_rel R) (zoom storeL (expirePendingRequests now));
  c_insert m : may_insert p m → moves (world_rel R) (zoom dbL (saveMessage m));
  c_state now i st reason : may_state p i st →
    moves (world_rel R) (zoom dbL (updateState now i st reason));
  c_sequence a : moves (world_rel R) (zoom dbL (nextSequence a));
  c_send e : may_send p e → moves R (send_ e);
  c_restart : moves R restart;
  c_up own : may_connect p own → moves R (relay_up own);
  c_down : moves R relay_down
}.

Definition connection_type (t : MessageType) : bool :=
  match t with
  | CONNECTION_REQUEST | CONNECTION_RESPONSE | CONNECTION_REVOKE
  | BLOCK_NOTIFICATION | UNBLOCK_NOTIFICATION => true
  | _ => false
  end.

(** The operations of the connection manager also write states and keys. *)
Class ManagerCalls `{EN : Env, SH : Sha256, SQ : SqlEngine, B58 : Base58, B64 : Base64}
    (R : relation Agent) (p : Permits) : Prop := {
  mc_calls :: Calls R p;
  mc_update now a u : plain_level (upd_autonomyLevel u) = true → untripped u = true →
    moves (world_rel R) (zoom storeL (updateConnection now a u));
  mc_add now i : plain_level (in_autonomyLevel i) = true →
    moves (world_rel R) (zoom storeL (addConnection now i));
  mc_send from to t pl : connection_type t = true → may_send p (envelope from to t pl)
}.

(** Arguments with which a tool sends no message. *)
Definition mute_tool (t : Tool) (args : list string) : Prop :=
  match t with
  | pinch_send => ∀ p, send_parseArgs args ≠ Ok p
  | pinch_intervene => ∀ p, intervene_parseArgs args = Ok p → ia_mode p ≠ mode_send
  | _ => True
  end.
Definition mute_step (st : Step) : Prop :=
  match st with
  | st_sendMessage _ => False
  | st_tool t args | st_process_of t _ args => mute_tool t args
  | _ => True
  end.

(** The tools whose work is an operation of the connection manager, and the steps
    outside it. *)
Definition managing (t : Tool) : bool :=
  match t with pinch_connect | pinch_accept | pinch_reject => true | _ => false end.
Definition unmanaged (st : Step) : bool :=
  match st with
  | st_op _ => false
  | st_tool t _ | st_process_of t _ _ => negb (managing t)
  | _ => true
  end.

Section calls.
Context `{EN : Env, SH : Sha256, SQ : SqlEngine, SB : SqlBind, LO : Locale, B58 : Base58, B64 : Base64}.
Context `{UN : Unicode, WI : Wire, ED : Ed25519, NB : NaclBox}.
Context (config : CircuitBreakerConfig) (keypair : Keypair).

(** The record an envelope can bring, the confirmation it is answered with, and the
    states it can give to a stored message. *)
Definition brings (e : Envelope) (m : MessageRecord) : Prop :=
  env_type e = MESSAGE ∧
  ∃ i body now, open_message keypair e = Ok i ∧ column_text (ct_body (in_content i)) = Some body ∧
    m = inbound_record (env_fromAddress e) body i now.

Definition answers (e c : Envelope) : Prop :=
  env_type e = MESSAGE ∧
  ∃ i own t sg, open_message keypair e = Ok i ∧
    c = confirm_envelope own (env_fromAddress e) (in_messageId i) t sg.
Definition judges (e : Envelope) (j st : string) : Prop :=
  match env_type e with
  | MESSAGE => ∃ i, open_message keypair e = Ok i ∧ j = in_messageId i
  | DELIVERY_CONFIRM =>
      ∃ d, env_payload e = deliveryConfirm d ∧ j = text_decode (dc_messageId d) ∧ st = dc_state d
  | _ => False
  end.

Definition review_state (action : ReviewAction) : string :=
  match action with agent_handle => "read_by_agent" | human_respond => "delivered" end.

Definition tool_ok (ok : string → AutonomyLevel → option bool → Prop) (t : Tool)
    (args : list string) : Prop :=
  t = pinch_autonomy → ∀ p, autonomy_parseArgs args = Ok p →
  ok (ua_address p) (ua_level p) (Some (ua_confirmed p)).

(** The step's own arguments are permitted. *)
Definition permitted (p : Permits) (st : Step) : Prop :=
  match st with
  | st_message e =>
      (∀ m, brings e m → may_insert p m) ∧ (∀ c, answers e c → may_send p c) ∧
      (∀ j st, judges e j st → may_state p j st)
  | st_process m _ => ∀ st, may_state p (m_id m) st
  | st_approve_message i action => may_state p i (review_state action)
  | st_tool t args => tool_ok (may_level p) t args
  | st_process_of t relay args =>
      tool_ok (may_level p) t args ∧
      match relay with relay_assigns own => may_connect p own | _ => True end
  | st_setAutonomy a level confirmed => may_level p a level confirmed
  | st_relay_up own => may_connect p own
  | _ => True
  end.

Context (R : relation Agent) (p : Permits) `{!Calls R p}.
Abbreviation W := (world_rel R).

Lemma k_ask {A} (f : nat → A) : moves W (ask f).
Proof. apply c_ask. Qed.
Lemma k_events {A} (m : M (gmap string (list EventRecord)) A) : moves W (zoom eventsL m).
Proof. apply c_events. Qed.
Lemma k_settings now a u :
  settings_only u = true → untripped u = true → moves W (zoom storeL (updateConnection now a u)).
Proof. apply c_settings. Qed.
Lemma k_state now i st reason :
  may_state p i st → moves W (zoom dbL (updateState now i st reason)).
Proof. apply c_state. Qed.

(** Through a body, call by call. *)
Ltac call :=
  lazymatch goal with
  | |- moves _ (ask _) => apply k_ask
  | |- moves _ (zoom eventsL _) => apply k_events
  | |- moves _ (w_record _) => apply c_record
  | |- moves _ (zoom storeL save) => apply c_save
  | |- moves _ (zoom storeL (edit_in_place _ _)) => apply c_edit
  | |- moves _ (zoom storeL (updateConnection _ _ _)) =>
      apply k_settings; first [reflexivity | cbn; case_match; reflexivity]
  | |- moves _ (zoom dbL (nextSequence _)) => apply c_sequence
  | |- moves _ (zoom dbL (updateState _ _ _ _)) => apply k_state; solve [auto]
  | |- moves R (zoom worldL _) => apply moves_world
  | |- moves _ (try_catch _ _) => apply moves_try; [apply _|..]
  | |- moves _ (try_catch_with _ _) => apply moves_try_with; [apply _|..]
  | |- moves _ (mret _) => apply moves_ret; apply _
  | |- moves _ (gets _) => apply moves_gets; apply _
  | |- moves _ (throw _) => apply moves_throw; apply _
  | |- moves _ (lift _) => apply moves_lift; apply _
  | |- moves _ (_ ≫= _) => apply moves_bind; [apply _|..]
  end.
Ltac calls :=
  repeat first
    [ assumption | solve [auto with moves typeclass_instances] | call | progress intros
    | progress unfold w_getConnection, w_updateConnection, w_save, w_updateState, uuidv7, date_now,
        await_policy, await_boundary, now_, conn_, update_, save_, own_address, iso_, in_db, encrypt
    | case_match ].

Lemma moves_records addr op type : records config addr op type → moves W op.
Proof.
  assert (∀ tr n th win, moves W (trip addr tr n th win)) by (intros; apply c_trip).
  assert (∀ now evs cs, moves W (run_checks addr now evs cs)) as Hc.
  { intros now evs cs. induction cs as [|chk cs IH]; simpl; calls. }
  intros Hop w. rewrite (records_unfold config _ _ _ w Hop). revert w.
  change (moves W (addEvent config addr type;; _ ← checkAndTrip config addr; mret tt)).
  unfold addEvent, pruneOldEvents, checkAndTrip. calls.
Qed.

Lemma moves_process message addr :
  (∀ st, may_state p (m_id message) st) → moves W (process config message addr).
Proof.
  intros Hst.
  pose proof (moves_records addr _ _ (records_message config addr)).
  pose proof (λ v, moves_records addr _ _ (records_violation config addr v)).
  assert (∀ q body, moves W (ask_boundary q body)) by (intros; unfold ask_boundary; calls).
  assert (∀ cats body, moves W (check_categories cats body)).
  { intros cats body. induction cats; simpl; calls. }
  unfold process, PermissionsEnforcer.check, route, evaluateAutoRespondPolicy, recordAutoRespondDecision. calls.
Qed.

Lemma moves_sendMessage params :
  (∀ i th n now, may_insert p (outbound_record params i th n now)) →
  (∀ from i now sealed, may_send p (message_envelope keypair from (recipient params) i now sealed)) →
  moves R (sendMessage keypair params).
Proof using Calls0.
  intros Hi Hs.
  assert (∀ i th n now, moves W (zoom dbL (saveMessage (outbound_record params i th n now))))
    by (intros; by apply (c_insert (p:=p)), Hi).
  assert (∀ from i now sealed, moves R (send_ (message_envelope keypair from (recipient params) i now sealed)))
    by (intros; by apply (c_send (p:=p))).
  unfold sendMessage. calls.
Qed.

Lemma moves_confirm e i a :
  env_type e = MESSAGE → open_message keypair e = Ok i → a = env_fromAddress e →
  (∀ c, answers e c → may_send p c) → moves R (sendDeliveryConfirmation keypair (in_messageId i) a).
Proof using Calls0.
  intros Ht Ho -> Ha.
  assert (∀ own t sg, moves R (send_ (confirm_envelope own (env_fromAddress e) (in_messageId i) t sg)))
    by (intros; apply (c_send (p:=p)), Ha; split; [done|]; by eexists i, _, _, _).
  unfold sendDeliveryConfirmation. calls.
Qed.

Lemma moves_dispatch e : permitted p (st_message e) → moves R (dispatch config keypair e).
Proof using Calls0.
  intros (He & Ha & Hj). unfold dispatch. destruct (env_type e) eqn:Ht; try (apply moves_ret; apply _).
  - unfold handleIncomingMessage. destruct (open_message keypair e) as [i|] eqn:Ho; [|intros s; reflexivity].
    assert (∀ body now, column_text (ct_body (in_content i)) = Some body →
      moves W (zoom dbL (saveMessage (inbound_record (env_fromAddress e) body i now)))) as Hs
      by (intros body now Hb; apply (c_insert (p:=p)), He; split; [done|]; by exists i, body, now).
    pose proof (moves_confirm e i _ Ht Ho eq_refl Ha).
    assert (∀ body now a, moves W (process config (inbound_record (env_fromAddress e) body i now) a)).
    { intros. apply moves_process. intros st. apply Hj. unfold judges. rewrite Ht. by exists i. }
    apply moves_lift_bind. cbv beta. destruct (column_text (ct_body (in_content i))) as [body|] eqn:Eb; calls.
  - unfold handleDeliveryConfirmation. destruct (env_payload e) as [| | | | | | | | | | |d| | | |] eqn:Ep; try by calls.
    assert (may_state p (text_decode (dc_messageId d)) (dc_state d)) by (apply Hj; unfold judges; rewrite Ht; by exists d).
    calls.
Qed.

Definition kept_by_sending : Prop := ∀ params, moves R (sendMessage keypair params).

Lemma moves_store_call {A} (m : Z → M ConnectionStore A) :
  (∀ now, moves W (zoom storeL (m now))) → moves R (store_call m).
Proof using Calls0. intros Hm. unfold store_call. calls. Qed.
Lemma moves_setPermissions now a m : moves W (zoom storeL (setPermissions now a m)).
Proof using Calls0.
  unfold setPermissions. cbv zeta. case_match; [|by apply k_settings].
  intros [t st d f ev]. reflexivity.
Qed.

Lemma moves_autonomy q :
  may_level p (ua_address q) (ua_level q) (Some (ua_confirmed q)) → moves R (tool_autonomy q).
Proof using Calls0.
  intros Hok. pose proof (λ now, c_level (p:=p) now _ _ _ Hok). unfold tool_autonomy. calls.
Qed.

Lemma moves_intervene q : kept_by_sending ∨ ia_mode q ≠ mode_send → moves R (tool_intervene keypair q).
Proof using Calls0.
  intros [Hs|Hs]; unfold tool_intervene; destruct (ia_mode q); try done; calls; apply Hs.
Qed.

Lemma moves_permissions q : moves R (tool_permissions q).
Proof using Calls0. pose proof moves_setPermissions. unfold tool_permissions. calls. Qed.

Lemma moves_tool t args body :
  managing t = false → kept_by_sending ∨ mute_tool t args → tool_ok (may_level p) t args →
  tool_body keypair t args = Ok body → moves R body.
Proof using Calls0.
  pose proof moves_permissions. unfold tool_body, then_run, res_bind. intros Hm Hs Hok.
  destruct t; try done; case_match eqn:Ep; intros; simplify_eq; try by apply moves_autonomy, Hok.
  all: try (apply moves_intervene; destruct Hs as [|Hs]; [by left|right; by apply Hs]).
  all: try (destruct Hs as [Hs|Hs]; [|by exfalso; eapply Hs]).
  all: unfold tool_activity, tool_audit_export, tool_audit_verify, tool_contacts, tool_history,
    tool_mute, tool_send, tool_status; calls.
Qed.

Lemma moves_unmanaged st :
  unmanaged st = true → kept_by_sending ∨ mute_step st → permitted p st → moves R (exec config keypair st).
Proof using Calls0.
  destruct st as [op|ps|e|m a|i act|t args|t relay args|a l c|a m|a n| | | |own|]; cbn [permitted unmanaged mute_step];
    intros Hu Hs Hok; try (apply negb_true_iff in Hu).
  - done.
  - destruct Hs as [Hs|[]]. cbn [exec]. calls.
  - by apply moves_dispatch.
  - pose proof (moves_process m a Hok). cbn [exec]. calls.
  - assert (may_state p i (match act with agent_handle => "read_by_agent" | human_respond => "delivered" end))
      by by destruct act.
    cbn [exec]. unfold approveMessage. calls.
  - apply moves_tool_in; [apply _|]. intros body. by apply moves_tool.
  - destruct Hok as [Hok Hr]. apply moves_tool_process; [apply _|apply (c_restart (p:=p))|apply (c_down (p:=p))| |].
    + intros own ->. by apply (c_up (p:=p)).
    + intros body. by apply moves_tool.
  - apply moves_store_call. intros now. by apply (c_level (p:=p)).
  - apply moves_store_call. intros now. apply moves_setPermissions.
  - apply moves_store_call. intros now. by apply k_settings.
  - apply moves_store_call. intros now. apply (c_expire (p:=p)).
  - cbn [exec]. calls.
  - apply (c_restart (p:=p)).
  - by apply (c_up (p:=p)).
  - apply (c_down (p:=p)).
Qed.
End calls.

Section manager_calls.
Context `{EN : Env, SH : Sha256, SQ : SqlEngine, SB : SqlBind, LO : Locale, B58 : Base58, B64 : Base64}.
Context `{UN : Unicode, WI : Wire, ED : Ed25519, NB : NaclBox}.
Context (config : CircuitBreakerConfig) (keypair : Keypair).
Context (R : relation Agent) (p : Permits) `{!ManagerCalls R p}.

Lemma moves_update a u :
  plain_level (upd_autonomyLevel u) = true → untripped u = true → moves R (update_ a u).
Proof.
  intros Hu Ht. apply moves_world. unfold w_updateConnection, date_now.
  apply moves_bind; [apply _|apply c_ask|]. intros now. by apply mc_update.
Qed.
Lemma moves_add i : plain_level (in_autonomyLevel i) = true → moves R (add_ i).
Proof.
  intros Hi. apply moves_world. unfold date_now.
  apply moves_bind; [apply _|apply c_ask|]. intros now. by apply mc_add.
Qed.
Lemma moves_connection_send from to t pl : connection_type t = true → moves R (send_ (envelope from to t pl)).
Proof. intros Ht. by apply c_send, mc_send. Qed.
Lemma moves_save_ : moves R save_.
Proof. apply moves_world, c_save. Qed.
Lemma moves_now_ : moves R now_.
Proof. apply moves_world, c_ask. Qed.

Lemma moves_run k op : moves R (ConnectionManager.run k op).
Proof.
  pose proof moves_save_. pose proof moves_now_.
  destruct op; unfold ConnectionManager.run, sendRequest, approveRequest, rejectRequest, blockConnection,
    unblockConnection, revokeConnection, handleEnvelope, handleIncomingRequest,
    handleIncomingResponse, handleIncomingRevoke, conn_, own_address, iso_;
  repeat first
    [ assumption | apply moves_update; reflexivity | apply moves_add; reflexivity
    | apply moves_connection_send; reflexivity
    | apply moves_world; apply moves_gets; apply _
    | apply moves_bind; [apply _|..] | progress intros
    | apply moves_ret; apply _ | apply moves_gets; apply _ | apply moves_throw; apply _
    | case_match ].
Qed.

Lemma moves_managing t args body :
  managing t = true → tool_body keypair t args = Ok body → moves R body.
Proof.
  destruct t; try done; unfold tool_body, then_run, res_bind; intros _; case_match; intros [= <-].
  all: unfold tool_accept, tool_connect, tool_reject; apply moves_bind; [apply _| |intros; apply moves_ret; apply _].
  - apply (moves_run _ (op_approve _)).
  - apply (moves_run _ (op_send _ _)).
  - apply (moves_run None (op_reject _)).
Qed.

(** Every step keeps what its calls keep. *)
Theorem moves_step st :
  kept_by_sending keypair R ∨ mute_step st → permitted keypair p st → moves R (exec config keypair st).
Proof.
  intros Hs Hok. destruct (unmanaged st) eqn:Hu; [by apply (moves_unmanaged _ _ _ p)|].
  destruct st; try done; cbn [unmanaged] in Hu; try apply negb_false_iff in Hu.
  - apply moves_run.
  - apply moves_tool_in; [apply _|]. intros body. by apply moves_managing.
  - destruct Hok as [_ Hr]. apply moves_tool_process; [apply _|apply c_restart|apply c_down| |intros body; by apply moves_managing].
    intros own ->. by apply c_up.
Qed.
End manager_calls.

(** ** What the store promises its clients

    [R] is kept by every call on the store, [setAutonomy] only with arguments
    that [ok] admits; the other writes leave the level alone or set Full Manual. *)
Class SettingsFrame (R : relation ConnectionStore)
    (ok : string → AutonomyLevel → option bool → Prop) : Prop := {
  sf_preorder :: PreOrder R;
  sf_save : moves R save;
  sf_settings now a u : settings_only u = true → moves R (updateConnection now a u);
  sf_edit a m : moves R (edit_in_place a m);
  sf_autonomy now a level confirmed :
    ok a level confirmed → moves R (setAutonomy now a level confirmed);
  sf_expire now : moves R (expirePendingRequests now);
  sf_open st : R st (openStore (newStore (file st))).2
}.

(** The operations of the connection manager also write states and keys. *)
Class StoreFrame (R : relation ConnectionStore)
    (ok : string → AutonomyLevel → option bool → Prop) : Prop := {
  sf_frame :: SettingsFrame R ok;
  sf_update now a u : plain_level (upd_autonomyLevel u) = true → moves R (updateConnection now a u);
  sf_add now i : plain_level (in_autonomyLevel i) = true → moves R (addConnection now i)
}.

Definition step_ok (ok : string → AutonomyLevel → option bool → Prop) (st : Step) : Prop :=
  match st with
  | st_tool t args | st_process_of t _ args => tool_ok ok t args
  | st_setAutonomy a level confirmed => ok a level confirmed
  | _ => True
  end.

Section frame.
Context `{EN : Env, SH : Sha256, SQ : SqlEngine, SB : SqlBind, LO : Locale, B58 : Base58, B64 : Base64}.
Context `{UN : Unicode, WI : Wire, ED : Ed25519, NB : NaclBox}.
Context (config : CircuitBreakerConfig) (keypair : Keypair).
Context (R : relation ConnectionStore) (ok : string → AutonomyLevel → option bool → Prop).

Definition Ra (s s' : Agent) : Prop := R (ag_store s) (ag_store s').
Definition store_permits : Permits := mkPermits ok (λ _, True) (λ _ _, True) (λ _, True) (λ _, True).

Lemma fr_store `{!PreOrder R} {A} (m : M ConnectionStore A) :
  moves R m → moves (world_rel Ra) (zoom storeL m).
Proof. intros Hm. apply (moves_zoom _ R); [done|]. intros [t st d f ev] st' H r. exact H. Qed.
Lemma fr_same `{!PreOrder R} w w' : w_store w' = w_store w → world_rel Ra w w'.
Proof. unfold world_rel, Ra, ag_store. cbn. intros -> r. reflexivity. Qed.
Lemma fr_ask `{!PreOrder R} {A} (f : nat → A) : moves (world_rel Ra) (ask f).
Proof. apply moves_ask. intros w. by apply fr_same. Qed.
Lemma fr_db `{!PreOrder R} {A} (m : M MessageDb A) : moves (world_rel Ra) (zoom dbL m).
Proof. apply (moves_zoom _ (λ _ _, True)); [done|]. intros; by apply fr_same. Qed.
Lemma fr_feed `{!PreOrder R} {A} (m : M (list ActivityRow) A) : moves (world_rel Ra) (zoom feedL m).
Proof. apply (moves_zoom _ (λ _ _, True)); [done|]. intros; by apply fr_same. Qed.
Lemma fr_events `{!PreOrder R} {A} (m : M (gmap string (list EventRecord)) A) :
  moves (world_rel Ra) (zoom eventsL m).
Proof. apply (moves_zoom _ (λ _ _, True)); [done|]. intros; by apply fr_same. Qed.

#[export] Instance Ra_preorder `{!PreOrder R} : PreOrder Ra.
Proof. unfold Ra. split; [intros w; reflexivity|]. intros x y z H1 H2. by etrans. Qed.

Lemma fr_record `{!PreOrder R} e : moves (world_rel Ra) (w_record e).
Proof.
  unfold w_record, uuidv7, date_now.
  repeat (apply moves_bind; [apply _|apply fr_ask|intros]). apply fr_feed.
Qed.

#[export] Instance store_calls `{!SettingsFrame R ok} : Calls Ra store_permits.
Proof.
  split.
  - apply _.
  - intros. apply fr_ask.
  - intros. apply fr_events.
  - intros. apply fr_record.
  - apply fr_store, sf_save.
  - intros. by apply fr_store, sf_settings.
  - intros. apply moves_trip; [apply _|intros; apply fr_ask|intros; by apply fr_store, sf_settings| |intros; apply fr_record].
    apply fr_store, sf_save.
  - intros. apply fr_store, sf_edit.
  - intros. by apply fr_store, sf_autonomy.
  - intros. apply fr_store, sf_expire.
  - intros. apply fr_db.
  - intros. apply fr_db.
  - intros. apply fr_db.
  - intros e _ s. rewrite send_run. unfold Ra. destruct (connected _); reflexivity.
  - intros s. apply sf_open.
  - intros own _ s. unfold Ra. reflexivity.
  - intros s. unfold Ra. reflexivity.
Qed.

#[export] Instance store_manager_calls `{!StoreFrame R ok} : ManagerCalls Ra store_permits.
Proof.
  split; [apply _|intros; apply fr_store..|done].
  - by apply sf_update.
  - by apply sf_add.
Qed.

Lemma step_ok_permitted st : step_ok ok st → permitted keypair store_permits st.
Proof. destruct st; cbn; try done. by destruct relay. Qed.
Lemma store_sends `{!SettingsFrame R ok} : kept_by_sending keypair Ra.
Proof. intros params. by apply (moves_sendMessage keypair Ra store_permits). Qed.

Lemma fr_unmanaged `{!SettingsFrame R ok} st :
  unmanaged st = true → step_ok ok st → moves Ra (exec config keypair st).
Proof.
  intros Hu Hok. apply (moves_unmanaged config keypair Ra store_permits); [done|left; apply store_sends|].
  by apply step_ok_permitted.
Qed.
Lemma fr_step `{!StoreFrame R ok} st : step_ok ok st → moves Ra (exec config keypair st).
Proof.
  intros Hok. apply (moves_step config keypair Ra store_permits); [left; apply store_sends|].
  by apply step_ok_permitted.
Qed.
End frame.

(** ** A frame that serves many invariants: a property of every stored connection,
    in memory and in the file the next process will load *)
Section everywhere.
Context (P : string → Connection → Prop).

Definition all_conns (l : list (string * Connection)) : Prop := Forall (λ kv, P kv.1 kv.2) l.
Definition everywhere (st : ConnectionStore) : Prop :=
  all_conns (connections (data st)) ∧ ∀ d, file st = Json d → all_conns (connections d).
Definition keeps (st st' : ConnectionStore) : Prop := everywhere st → everywhere st'.

#[export] Instance keeps_preorder : PreOrder keeps.
Proof. split; [by intros st H|]. intros x y z H1 H2 H. by apply H2, H1. Qed.

Lemma all_conns_set a c l : all_conns l → P a c → all_conns (Obj.set a c l).
Proof.
  unfold all_conns. rewrite !Forall_forall. intros Hl Hc [b c'] [[= -> ->]|Hin]%Obj.set_elem; [done|].
  by apply (Hl (b, c')).
Qed.

Lemma everywhere_write a c st :
  (everywhere st → P a c) → keeps st (set_connections (Obj.set a c) st).
Proof. intros Hc H. destruct (H) as [Hm Hf]. split; [|done]. exact (all_conns_set _ _ _ Hm (Hc H)). Qed.

Lemma everywhere_get a st c : everywhere st → getConnection a st = Some c → P a c.
Proof.
  intros [Hm _] Hc%Obj.get_elem. unfold all_conns in Hm. rewrite Forall_forall in Hm. apply (Hm _ Hc).
Qed.

Lemma keeps_update now a u :
  (∀ c, P a c → P a (assign c u (isoString now))) → moves keeps (updateConnection now a u).
Proof.
  intros Hu st. destruct (getConnection a st) as [c|] eqn:E.
  - rewrite (updateConnection_run _ _ _ _ _ E). apply everywhere_write. intros H.
    apply Hu. by apply (everywhere_get a st).
  - by rewrite updateConnection_missing.
Qed.

Lemma keeps_save : moves keeps save.
Proof. intros st [Hm Hf]. split; [done|]. by intros d [= <-]. Qed.

Lemma all_conns_map f l :
  (∀ a c, P a c → P a (f c)) → all_conns l → all_conns (Obj.map_values f l).
Proof.
  intros Hf. unfold all_conns, Obj.map_values. rewrite Forall_fmap.
  intros H. eapply Forall_impl; [exact H|]. intros [k c]. apply Hf.
Qed.

Lemma keeps_edit a m :
  (∀ c, P a c → P a (with_live_manifest m c)) → moves keeps (edit_in_place a m).
Proof.
  intros Hp st. unfold edit_in_place. destruct (getConnection a st) as [c|] eqn:E; [|done].
  apply everywhere_write. intros H. apply Hp. by apply (everywhere_get a st).
Qed.

Lemma keeps_level now a level confirmed :
  (∀ c, P a c → P a (with_level now level c)) → moves keeps (setAutonomy now a level confirmed).
Proof.
  intros Hp st. destruct (getConnection a st) as [c|] eqn:E; [|by rewrite setAutonomy_missing].
  rewrite (setAutonomy_run _ _ _ _ _ _ E). case_decide; [done|]. apply everywhere_write.
  intros He. apply Hp. by apply (everywhere_get a st).
Qed.

Lemma keeps_expire now :
  (∀ a c, P a c → P a (revoke_expired (isoString now) c)) → moves keeps (expirePendingRequests now).
Proof.
  intros Hp st. unfold expirePendingRequests. rewrite expire_loop_spec. intros [Hm Hf]. split; [|exact Hf].
  apply (all_conns_map (λ c, if expired (isoString now) c then revoke_expired (isoString now) c else c));
    [intros a c Hc; case_match; [by apply Hp|done]|exact Hm].
Qed.

Lemma keeps_open st :
  (∀ a c, P a c → P a (clear_passthrough c)) → keeps st (openStore (newStore (file st))).2.
Proof.
  intros Hp [_ Hf].
  assert (∀ l, all_conns l → all_conns (Obj.map_values clear_passthrough l)) as Hc
    by (intros l; apply all_conns_map; intros a c; apply Hp).
  assert (all_conns (connections (data (openStore (newStore (file st))).2))) as Hw.
  { unfold openStore, load, clearPassthroughFlags, save, modify, mbind, M_bind. simpl. apply Hc.
    destruct (file st) as [| |d] eqn:Ef; [constructor..|]. by apply (Hf d). }
  split; [done|]. by intros d [= <-].
Qed.

(** Closed under what a settings write, expiry and a new process do to one connection. *)
Class Closed (ok : string → AutonomyLevel → option bool → Prop) : Prop := {
  cl_settings a c u now : settings_only u = true → P a c → P a (assign c u now);
  cl_live a c m : P a c → P a (with_live_manifest m c);
  cl_level a c now level confirmed : ok a level confirmed → P a c → P a (with_level now level c);
  cl_expire a c now : P a c → P a (revoke_expired now c);
  cl_clear a c : P a c → P a (clear_passthrough c)
}.

#[export] Instance keeps_frame ok `{HC : !Closed ok} : SettingsFrame keeps ok.
Proof.
  split; [apply _|apply keeps_save|..].
  - intros now a u Hu. apply keeps_update. intros c. by apply cl_settings.
  - intros a m. apply keeps_edit. intros c. apply cl_live.
  - intros now a level confirmed Hok. apply keeps_level. intros c. by apply (cl_level a c now level confirmed).
  - intros now. apply keeps_expire. intros a c. apply cl_expire.
  - intros st. apply keeps_open. intros a c. apply cl_clear.
Qed.
End everywhere.
