(* ===== verification/Handlers.v ===== *)
(** The asynchronous functions of the running skill: the connection manager's
    operations, the enforcement pipeline and the message handlers with every
    [await] of the source as the end of a turn, and the breaker's save that nobody
    awaits as a thread of its own. *)
From S2P Require Import Prelude Threads JsLib JsDate Platform Identity PermissionsManifest ConnectionStore.
From S2P Require Import StoreText Saving MessageStore ActivityFeed World CircuitBreaker InboundRouter.
From S2P Require Import PermissionsEnforcer EnforcementPipeline Text Envelope ConnectionManager.
From S2P Require Import Delivery Crypto MessageManager Steps.
From stdpp Require Import gmap.

(** ** The process: the agent, and the saves that run on their own *)
Record Proc : Type := mkProc {
  p_agent : Agent;
  p_saves : list (thread Agent unit)
}.

Program Definition procL : lens Proc Agent := Lens p_agent (λ s p, mkProc s (p_saves p)) _ _ _.
Solve All Obligations with (by intros; try destruct t).
Program Definition agent_storeL : lens Agent ConnectionStore :=
  Lens ag_store (λ st s, put_world (put_store st (ag_world s)) s) _ _ _.
Next Obligation. by intros st [[] ]. Qed.
Next Obligation. by intros [[] ]. Qed.
Next Obligation. by intros st st' [[] ]. Qed.

Section handlers.
Context `{EN : Env, SH : Sha256, SQ : SqlEngine, B58 : Base58, B64 : Base64, NT : NumberText}.
Context `{UN : Unicode, WI : Wire, ED : Ed25519, NB : NaclBox}.
Context (config : CircuitBreakerConfig) (keypair : Keypair).

(** Code on the agent, and on its world, without an [await]. *)
Definition here {A} (m : M Agent A) : Async Proc A := sync (zoom procL m).
Definition in_world {A} (m : M World A) : Async Proc A := here (zoom worldL m).

Definition save_agent : Async Agent unit := within agent_storeL save_async.
(** [await this.connectionStore.save()] *)
Definition awaited_save : Async Proc unit := await (within procL save_agent).
(** [this.connectionStore.save()], the promise dropped. *)
Definition detached_save : Async Proc unit := λ p,
  let '(t, s) := save_agent (p_agent p) in (ended (Ok tt), mkProc s (p_saves p ++ [t])).

(** ** connection.ts *)
Definition key_bytes : option bytes := Some (publicKey keypair).

Definition sendRequest_a (toAddress message : string) : Async Proc unit :=
  if (MAX_MESSAGE_LENGTH <? String.length message)%nat
  then async_throw "Message exceeds 280 character limit"
  else
    ownAddress ← here own_address;
    now ← here now_;
    let expiresAt := (now / 1000 + REQUEST_TTL_SECONDS)%Z in
    here (send_ (envelope ownAddress toAddress CONNECTION_REQUEST
                   (connectionRequest (mkRequest ownAddress toAddress message (own_key key_bytes) expiresAt))));;
    now ← here now_;
    expires ← here (iso_ ((now / 1000 + REQUEST_TTL_SECONDS) * 1000)%Z);
    _ ← here (add_ (mkInput toAddress "" pending_outbound "" (Some full_manual) None (Some message)
                      (Some expires)));
    awaited_save.

Definition handleIncomingRequest_a (e : Envelope) : Async Proc unit :=
  match env_payload e with
  | connectionRequest request =>
      let senderPubKeyBase64 :=
        match req_senderPublicKey request with
        | [] => ""
        | key => base64_encode key
        end in
      expires ← here (if bool_decide (req_expiresAt request ≠ 0%Z)
                      then s ← iso_ (req_expiresAt request * 1000)%Z; mret (Some s)
                      else mret None);
      _ ← here (add_ (mkInput (req_fromAddress request) senderPubKeyBase64 pending_inbound ""
                        (Some full_manual) None (Some (req_message request)) expires));
      awaited_save
  | _ => mret tt
  end.

Definition approveRequest_a (peerAddress : string) : Async Proc unit :=
  conn ← here (conn_ peerAddress);
  match conn with
  | None => async_throw ("No connection found for " +:+ peerAddress)
  | Some conn =>
      if bool_decide (cstate conn ≠ pending_inbound)
      then async_throw ("Cannot approve connection in state: " +:+ state_text (cstate conn))
      else
        ownAddress ← here own_address;
        here (send_ (envelope ownAddress peerAddress CONNECTION_RESPONSE
                       (connectionResponse (mkResponse ownAddress peerAddress true (own_key key_bytes)))));;
        _ ← here (update_ peerAddress (with_state active));
        awaited_save
  end.

Definition rejectRequest_a (peerAddress : string) : Async Proc unit :=
  conn ← here (conn_ peerAddress);
  match conn with
  | None => async_throw ("No connection found for " +:+ peerAddress)
  | Some conn =>
      if bool_decide (cstate conn ≠ pending_inbound)
      then async_throw ("Cannot reject connection in state: " +:+ state_text (cstate conn))
      else
        _ ← here (update_ peerAddress (with_state revoked));
        awaited_save
  end.

Definition handleIncomingResponse_a (e : Envelope) : Async Proc unit :=
  match env_payload e with
  | connectionResponse response =>
      _ ← here (if rsp_accepted response then
                  let responderPubKeyBase64 :=
                    match rsp_responderPublicKey response with
                    | [] => ""
                    | key => base64_encode key
                    end in
                  update_ (rsp_fromAddress response)
                    (with_state_and_key active
                       (if bool_decide (responderPubKeyBase64 = "") then None
                        else Some responderPubKeyBase64))
                else update_ (rsp_fromAddress response) (with_state revoked));
      awaited_save
  | _ => mret tt
  end.

Definition blockConnection_a (peerAddress : string) : Async Proc unit :=
  ownAddress ← here own_address;
  _ ← here (update_ peerAddress (with_state blocked));
  here (send_ (envelope ownAddress "" BLOCK_NOTIFICATION
                 (blockNotification (mkBlock ownAddress peerAddress))));;
  awaited_save.

Definition unblockConnection_a (peerAddress : string) : Async Proc unit :=
  ownAddress ← here own_address;
  _ ← here (update_ peerAddress (with_state active));
  here (send_ (envelope ownAddress "" UNBLOCK_NOTIFICATION
                 (unblockNotification (mkUnblock ownAddress peerAddress))));;
  awaited_save.

Definition revokeConnection_a (peerAddress : string) : Async Proc unit :=
  ownAddress ← here own_address;
  here (send_ (envelope ownAddress peerAddress CONNECTION_REVOKE
                 (connectionRevoke (mkRevoke ownAddress peerAddress))));;
  _ ← here (update_ peerAddress (with_state revoked));
  awaited_save.

Definition handleIncomingRevoke_a (e : Envelope) : Async Proc unit :=
  match env_payload e with
  | connectionRevoke revoke =>
      conn ← here (conn_ (rvk_fromAddress revoke));
      match conn with
      | Some _ => _ ← here (update_ (rvk_fromAddress revoke) (with_state revoked)); awaited_save
      | None => mret tt
      end
  | _ => mret tt
  end.

Definition handleEnvelope_a (e : Envelope) : Async Proc unit :=
  match env_type e with
  | CONNECTION_REQUEST => handleIncomingRequest_a e
  | CONNECTION_RESPONSE => handleIncomingResponse_a e
  | CONNECTION_REVOKE => handleIncomingRevoke_a e
  | _ => mret tt
  end.

Definition run_a (op : Op) : Async Proc unit :=
  match op with
  | op_send a m => sendRequest_a a m
  | op_approve a => approveRequest_a a
  | op_reject a => rejectRequest_a a
  | op_block a => blockConnection_a a
  | op_unblock a => unblockConnection_a a
  | op_revoke a => revokeConnection_a a
  | op_receive e => handleEnvelope_a e
  end.

(** ** autonomy/circuit-breaker.ts: the save of a trip is not awaited *)
Definition trip_a (addr : string) (trigger : TriggerType) (count threshold windowMs : Z) : Async Proc unit :=
  _ ← in_world (w_updateConnection addr (with_autonomy full_manual));
  _ ← in_world (w_updateConnection addr (with_tripped true));
  detached_save;;
  _ ← in_world (w_record (trip_event addr trigger count threshold windowMs));
  mret tt.

Fixpoint run_checks_a (addr : string) (now : Z) (events : list EventRecord) (cs : list Check)
    : Async Proc bool :=
  match cs with
  | [] => mret false
  | check :: rest =>
      let count := window_count now check events in
      if (chk_threshold check <=? count)%Z
      then trip_a addr (chk_type check) count (chk_threshold check) (chk_windowMs check);; mret true
      else run_checks_a addr now events rest
  end.

Definition checkAndTrip_a (addr : string) : Async Proc bool :=
  tripped ← in_world (gets (isTripped addr));
  if tripped : bool then mret true
  else
    events ← in_world (gets (λ w, default [] (w_events w !! addr)));
    now ← in_world date_now;
    run_checks_a addr now events (checks config).

(** [recordMessage] and [recordViolation], by the type of the event. *)
Definition recordEvent_a (addr type : string) : Async Proc unit :=
  in_world (addEvent config addr type);;
  _ ← checkAndTrip_a addr;
  mret tt.

(** ** autonomy/permissions-enforcer.ts *)
Definition ask_boundary_a (boundaries : list string) (content : BodyValue)
    : Async Proc (option EnforcementResult) :=
  async_try
    (decision ← await (in_world (await_boundary boundaries content));
     if bool_decide (d_action decision = deny) || bool_decide (d_action decision = escalate)
     then mret (Some (boundary_denied decision)) else mret None)
    (mret (Some evaluation_unavailable)).

Fixpoint check_categories_a (deniedCategories : list CustomCategory) (messageBody : BodyValue)
    : Async Proc EnforcementResult :=
  match deniedCategories with
  | [] => mret (mkEnforcement true None None None)
  | category :: rest =>
      early ← ask_boundary_a [cat_description category] messageBody;
      match early with
      | Some result => mret result
      | None => check_categories_a rest messageBody
      end
  end.

Definition check_a (messageBody : BodyValue) (connectionAddress : string) : Async Proc EnforcementResult :=
  connection ← in_world (w_getConnection connectionAddress);
  match connection with
  | Some connection =>
      if bool_decide (cstate connection ≠ active)
      then mret (mkEnforcement false (Some "unknown sender") None None)
      else
        let manifest := default defaultPermissionsManifest (permissionsManifest connection) in
        early ← (if bool_decide (informationBoundaries manifest ≠ [])
                 then ask_boundary_a (informationBoundaries manifest) messageBody
                 else mret None);
        match early with
        | Some result => mret result
        | None =>
            check_categories_a
              (filter (λ c, cat_allowed c = false) (customCategories manifest)) messageBody
        end
  | None => mret (mkEnforcement false (Some "unknown sender") None None)
  end.

(** ** autonomy/enforcement-pipeline.ts *)

(** An outcome of the evaluation: the state, the entry in the log, the result. *)
Definition conclude (message : MessageRecord) (addr st : string) (reason : option string)
    (decision : PolicyDecision) (rm : RoutedMessage) : M World RoutedMessage :=
  w_updateState (m_id message) st reason;;
  recordAutoRespondDecision (m_id message) addr decision;;
  mret rm.

Definition evaluateAutoRespondPolicy_a (message : MessageRecord) (connectionAddress : string)
    (rm : RoutedMessage) : Async Proc RoutedMessage :=
  connection ← in_world (w_getConnection connectionAddress);
  let policy := connection ≫= autoRespondPolicy in
  if negb (truthy_str policy) then
    in_world (conclude message connectionAddress "escalated_to_human" None no_policy_decision
                (with_rm_state "escalated_to_human" rm))
  else
    async_try
      (decision ← await (in_world (await_policy (policy_request message connectionAddress connection)));
       in_world
         match d_action decision with
         | allow => conclude message connectionAddress "read_by_agent" None decision
                      (with_rm_state "read_by_agent" rm)
         | deny => conclude message connectionAddress "failed" (Some (d_reasoning decision)) decision
                     (with_rm_failure "failed" (d_reasoning decision) rm)
         | escalate => conclude message connectionAddress "escalated_to_human" None decision
                         (with_rm_state "escalated_to_human" rm)
         end)
      (in_world (conclude message connectionAddress "escalated_to_human" None error_decision
                   (with_rm_state "escalated_to_human" rm))).

Definition process_a (message : MessageRecord) (connectionAddress : string) : Async Proc RoutedMessage :=
  connection ← in_world (w_getConnection connectionAddress);
  if truthy_bool (connection ≫= muted) then
    _ ← in_world (w_record (muted_event connectionAddress (m_id message)));
    in_world (w_updateState (m_id message) "delivered" None);;
    mret (routed message connectionAddress "delivered" None)
  else if truthy_bool (connection ≫= passthrough) then
    in_world (w_updateState (m_id message) "escalated_to_human" None);;
    _ ← in_world (w_record (intervention_event connectionAddress (m_id message)));
    mret (routed message connectionAddress "escalated_to_human" None)
  else
    enforcement ← await (check_a (body_value message) connectionAddress);
    if negb (allowed enforcement) then
      if truthy_bool (escalateToHuman enforcement) then
        in_world (w_updateState (m_id message) "escalated_to_human" (e_reason enforcement));;
        mret (routed message connectionAddress "escalated_to_human" (e_reason enforcement))
      else
        (if truthy_str (violationType enforcement)
         then recordEvent_a connectionAddress (default "" (violationType enforcement))
         else mret tt);;
        in_world (w_updateState (m_id message) "failed" (e_reason enforcement));;
        mret (routed message connectionAddress "failed" (e_reason enforcement))
    else
      recordEvent_a connectionAddress (trigger_text message_flood);;
      rm ← in_world (route true message connectionAddress);
      if bool_decide (rm_state rm = "pending_policy_eval")
      then evaluateAutoRespondPolicy_a message connectionAddress rm
      else mret rm.

(** ** message-manager.ts and delivery.ts *)

(** [await ensureSodiumReady()], then the call. *)
Definition when_ready {A} (r : res A) : Async Proc A := await (mret tt);; here (lift r).

Definition sendDeliveryConfirmation_a (messageId senderAddress : string) : Async Proc unit :=
  timestamp ← here now_;
  signature ← await (when_ready (signDeliveryConfirmation (utf8_encode messageId) timestamp (privateKey keypair)));
  fromAddress ← here (gets (λ s, assignedAddress (ag_relay s)));
  if negb (truthy_str fromAddress) then mret tt
  else
    let e := confirm_envelope (default "" fromAddress) senderAddress messageId timestamp signature in
    _ ← here (lift (env_toBinary e));
    here (send_ e).

Definition handleIncomingMessage_a (e : Envelope) : Async Proc unit :=
  i ← here (lift (open_message keypair e));
  let senderAddress := env_fromAddress e in
  now ← here now_;
  match column_text (ct_body (in_content i)) with
  | None => async_throw "SQLite3 can only bind numbers, strings, bigints, buffers, and null"
  | Some body =>
      let messageRecord := inbound_record senderAddress body i (isoString now) in
      here (in_db (saveMessage messageRecord));;
      _ ← await (process_a messageRecord senderAddress);
      await (sendDeliveryConfirmation_a (in_messageId i) senderAddress)
  end.

Definition handleDeliveryConfirmation_a (e : Envelope) : Async Proc unit :=
  match env_payload e with
  | deliveryConfirm confirm =>
      let messageId := text_decode (dc_messageId confirm) in
      message ← here (gets (λ s, getMessage messageId (w_db (ag_world s))));
      match message with
      | None => mret tt
      | Some _ =>
          peerPubKey ← here (gets (λ s, getPeerPublicKey (env_fromAddress e) (ag_store s)));
          match peerPubKey with
          | None => mret tt
          | Some peerPubKey =>
              valid ← await (when_ready (verifyDeliveryConfirmation (dc_signature confirm)
                                           (dc_messageId confirm) (dc_timestamp confirm) peerPubKey));
              if valid : bool then in_world (w_updateState messageId (dc_state confirm) None)
              else mret tt
          end
      end
  | _ => async_throw "Expected deliveryConfirm payload"
  end.

Definition dispatch_a (e : Envelope) : Async Proc unit :=
  match env_type e with
  | MESSAGE => handleIncomingMessage_a e
  | DELIVERY_CONFIRM => handleDeliveryConfirmation_a e
  | _ => mret tt
  end.

(** ** What can be called on the running skill, and the step it is when nothing
    comes between *)
Inductive Call : Type :=
| call_op (op : Op)
| call_message (e : Envelope)
| call_process (message : MessageRecord) (addr : string)
| call_send (params : SendMessageParams)
| call_approve_message (i : string) (action : ReviewAction)
| call_setAutonomy (a : string) (level : AutonomyLevel) (confirmed : option bool)
| call_setPermissions (a : string) (m : PermissionsManifest)
| call_setNickname (a n : string)
| call_expire
| call_save
| call_relay_up (own : string)
| call_relay_down.

Definition as_step (c : Call) : Step :=
  match c with
  | call_op op => st_op op
  | call_message e => st_message e
  | call_process m a => st_process m a
  | call_send params => st_sendMessage params
  | call_approve_message i action => st_approve_message i action
  | call_setAutonomy a level confirmed => st_setAutonomy a level confirmed
  | call_setPermissions a m => st_setPermissions a m
  | call_setNickname a n => st_setNickname a n
  | call_expire => st_expire
  | call_save => st_save
  | call_relay_up own => st_relay_up own
  | call_relay_down => st_relay_down
  end.
End handlers.

Section launch.
Context `{EN : Env, SH : Sha256, SQ : SqlEngine, SB : SqlBind, LO : Locale, B58 : Base58, B64 : Base64}.
Context `{UN : Unicode, WI : Wire, ED : Ed25519, NB : NaclBox, NT : NumberText}.
Context (config : CircuitBreakerConfig) (keypair : Keypair).

(** The calls without an [await] are the steps themselves. *)
Definition launch (c : Call) : Async Proc unit :=
  match c with
  | call_op op => run_a keypair op
  | call_message e => dispatch_a config keypair e
  | call_process message addr => _ ← process_a config message addr; mret tt
  | call_save => awaited_save
  | call_send _ | call_approve_message _ _ | call_setAutonomy _ _ _ | call_setPermissions _ _
  | call_setNickname _ _ | call_expire | call_relay_up _ | call_relay_down =>
      here (exec config keypair (as_step c))
  end.
End launch.

(** Running the first statement. *)
Lemma here_bind {A B} (m : M Agent A) (k : A → Async Proc B) pr :
  (here m ≫= k) pr =
  match m (p_agent pr) with
  | (Ok a, s) => k a (mkProc s (p_saves pr))
  | (Throw e, s) => (ended (Throw e), mkProc s (p_saves pr))
  end.
Proof. unfold here, sync, mbind, Async_bind, zoom. cbn. by destruct (m (p_agent pr)) as [[a|e] s]. Qed.
Lemma in_world_bind {A B} (m : M World A) (k : A → Async Proc B) pr :
  (in_world m ≫= k) pr =
  match zoom worldL m (p_agent pr) with
  | (Ok a, s) => k a (mkProc s (p_saves pr))
  | (Throw e, s) => (ended (Throw e), mkProc s (p_saves pr))
  end.
Proof. apply here_bind. Qed.
