(* ===== verification/Alone.v ===== *)
(** A handler that nothing interrupts does what the step of [Steps] does: the
    asynchronous functions, each save they start included, are equivalent to the
    sequential ones, so what is proved of those holds of them. *)
From S2P Require Import Prelude Threads JsLib JsDate Platform Identity PermissionsManifest ConnectionStore.
From S2P Require Import StoreText Saving MessageStore ActivityFeed World CircuitBreaker InboundRouter.
From S2P Require Import PermissionsEnforcer EnforcementPipeline Text Envelope ConnectionManager.
From S2P Require Import Delivery Crypto MessageManager Steps Handlers.
From stdpp Require Import gmap.

(** ** The saves that are under way *)
Section saves.
Context `{NT : NumberText}.

(** Between two turns of the handler every save that was started comes to its end. *)
Definition finish_saves (p : Proc) : Proc :=
  mkProc (fold_left (λ s t, (finish_thread Datatypes.id t s).2) (p_saves p) (p_agent p)) [].

Definition save_under_way : thread Agent unit := within_thread agent_storeL started_save.
Lemma save_agent_starts s : save_agent s = (save_under_way, s).
Proof. by destruct s as [[t [d f] db fd ev] r]. Qed.

Definition with_store (st : ConnectionStore) (s : Agent) : Agent := put_world (put_store st (ag_world s)) s.
Definition file_synced (s : Agent) : Agent := with_store (mkStore (data (ag_store s)) (Json (data (ag_store s)))) s.

Lemma finish_save s : (finish_thread Datatypes.id save_under_way s).2 = file_synced s.
Proof.
  destruct s as [[t [d f] db fd ev] r].
  transitivity (mkAgent (mkWorld t (mkStore d (overwritten d (NotJson ""))) db fd ev) r); [reflexivity|].
  by rewrite overwritten_cut.
Qed.

(** The agent as it is, and the agent as it will be when the started saves are done. *)
Definition level (p : Proc) (s : Agent) : Prop := p = mkProc s [].
Definition lagging (p : Proc) (s : Agent) : Prop :=
  Forall (eq save_under_way) (p_saves p) ∧
  s = match p_saves p with [] => p_agent p | _ => file_synced (p_agent p) end.

Lemma level_lagging p s : level p s → lagging p s.
Proof. intros ->. by split. Qed.

Lemma file_synced_twice s : file_synced (file_synced s) = file_synced s.
Proof. by destruct s as [[t [d f] db fd ev] r]. Qed.

Lemma finish_lagging p s : lagging p s → finish_saves p = mkProc s [].
Proof.
  destruct p as [a l]. intros [Hf ->]. unfold finish_saves. cbn [p_saves p_agent] in *. f_equal.
  destruct l as [|t l]; [done|]. apply Forall_cons in Hf as [<- Hf]. cbn [fold_left].
  rewrite finish_save. clear -Hf. induction Hf as [|t l <- _ IH]; [done|]. cbn [fold_left].
  by rewrite finish_save, file_synced_twice.
Qed.
End saves.

(** ** Simulation, from what holds before to what holds after *)
Section sim.
Context `{NT : NumberText}.

Definition sim {A} (pre post : Proc → Agent → Prop) (mt : Async Proc A) (m : M Agent A) : Prop :=
  ∀ p s, pre p s →
    (alone finish_saves mt p).1 = (m s).1 ∧ post (alone finish_saves mt p).2 (m s).2.

Lemma sim_weaken {A} (pre pre' post post' : Proc → Agent → Prop) mt (m : M Agent A) :
  (∀ p s, pre' p s → pre p s) → (∀ p s, post p s → post' p s) → sim pre post mt m → sim pre' post' mt m.
Proof. intros H1 H2 Hs p s Hp. destruct (Hs p s (H1 p s Hp)). auto. Qed.

Lemma sim_ret {A} (P : Proc → Agent → Prop) (a : A) : sim P P (mret a) (mret a).
Proof. intros p s H. by split. Qed.
Lemma sim_throw {A} (P : Proc → Agent → Prop) e : sim P P (async_throw (A:=A) e) (throw e).
Proof. intros p s H. by split. Qed.

Lemma sim_bind {A B} (pre mid post : Proc → Agent → Prop) mt (m : M Agent A) (f : A → Async Proc B) g :
  (∀ p s, mid p s → post p s) → sim pre mid mt m → (∀ a, sim mid post (f a) (g a)) →
  sim pre post (mt ≫= f) (m ≫= g).
Proof.
  intros Hmp Hm Hf p s H. rewrite alone_bind. specialize (Hm p s H). unfold mbind at 1 2, M_bind.
  destruct (alone finish_saves mt p) as [ra p'], (m s) as [r s']. cbn [fst snd] in Hm.
  destruct Hm as [-> Hmid]. destruct r as [a|e]; [by apply Hf|]. cbn. auto.
Qed.
Lemma sim_bind_same {A B} (P : Proc → Agent → Prop) mt (m : M Agent A) (f : A → Async Proc B) g :
  sim P P mt m → (∀ a, sim P P (f a) (g a)) → sim P P (mt ≫= f) (m ≫= g).
Proof. by apply sim_bind. Qed.

Lemma sim_try {A} (P : Proc → Agent → Prop) mt (m : M Agent A) ht h :
  sim P P mt m → sim P P ht h → sim P P (async_try mt ht) (try_catch m h).
Proof.
  intros Hm Hh p s H. rewrite alone_try. specialize (Hm p s H). unfold try_catch.
  destruct (alone finish_saves mt p) as [ra p'], (m s) as [r s']. cbn [fst snd] in Hm.
  destruct Hm as [-> Hmid]. destruct r as [a|e]; [by split|by apply Hh].
Qed.

Lemma sim_await {A} pre mt (m : M Agent A) : sim pre lagging mt m → sim pre level (await mt) m.
Proof.
  intros Hm p s H. rewrite alone_await. destruct (Hm p s H) as [E Hl].
  destruct (alone finish_saves mt p) as [r p']. cbn [fst snd] in *. split; [done|]. by apply finish_lagging.
Qed.

(** Without a save under way nothing has to be said of the code. *)
Lemma sim_here {A} (m : M Agent A) : sim level level (here m) m.
Proof.
  intros p s ->. unfold here. rewrite alone_sync. unfold zoom. cbn. by destruct (m s).
Qed.

Lemma finish_within (t : thread Agent unit) a :
  finish_thread finish_saves (within_thread procL t) (mkProc a []) =
  let '(r, a') := finish_thread Datatypes.id t a in (r, mkProc a' []).
Proof.
  revert a. induction t as [r|k IH] using thread_ind'; intros a; [done|].
  cbn [within_thread finish_thread]. change (finish_saves (mkProc a [])) with (mkProc a []).
  cbn [view procL p_agent]. specialize (IH a). unfold Datatypes.id at 1. destruct (k a) as [t' a'].
  cbn in IH |- *. apply IH.
Qed.

Lemma sim_saved : sim level level awaited_save save_.
Proof.
  apply sim_await. intros p s ->.
  unfold alone, within. cbn [view procL p_agent]. rewrite save_agent_starts. cbn [put procL p_saves p_agent].
  rewrite finish_within. pose proof (finish_save s) as E.
  assert ((finish_thread Datatypes.id save_under_way s).1 = Ok tt) as E1 by by destruct s as [[t [d f] db fd ev] r].
  destruct (finish_thread Datatypes.id save_under_way s) as [r s']. cbn [fst snd] in E, E1 |- *. subst.
  split; [by destruct s as [[t [d f] db fd ev] r]|].
  apply level_lagging. unfold level. by destruct s as [[t [d f] db fd ev] r].
Qed.

(** *** Code that neither reads the file nor writes the store *)
Definition file_blind {A} (m : M World A) : Prop := ∀ w,
  w_store (m w).2 = w_store w ∧
  ∀ f, let w' := put_store (mkStore (data (w_store w)) f) w in
       m w' = ((m w).1, put_store (mkStore (data (w_store w)) f) (m w).2).

Lemma sim_blind {A} (m : M World A) : file_blind m → sim lagging lagging (in_world m) (zoom worldL m).
Proof.
  intros Hb [[w r] l] s [Hl ->]. unfold in_world, here. rewrite alone_sync. unfold zoom. cbn [view put procL worldL p_agent p_saves ag_world put_world ag_relay].
  destruct (Hb w) as [Es Hw]. destruct l as [|t l]; cbn [ag_world put_world ag_relay].
  - destruct (m w) as [x w']. by split.
  - cbv zeta in Hw. specialize (Hw (Json (data (w_store w)))). cbn [file_synced with_store ag_store ag_world put_world ag_relay].
    unfold ag_store. cbn [ag_world]. rewrite Hw. destruct (m w) as [x w']. cbn in Es |- *. split; [done|].
    split; [done|]. cbn. unfold file_synced, with_store, ag_store. cbn. by rewrite Es.
Qed.

Lemma blind_ret {A} (a : A) : file_blind (mret a).
Proof. by split. Qed.
Lemma blind_throw {A} e : file_blind (throw (A:=A) e).
Proof. by split. Qed.
Lemma blind_bind {A B} (m : M World A) (k : A → M World B) :
  file_blind m → (∀ a, file_blind (k a)) → file_blind (m ≫= k).
Proof.
  intros Hm Hk w. destruct (Hm w) as [Es Hf]. unfold mbind, M_bind.
  destruct (m w) as [[a|e] w'] eqn:E; cbn [fst snd] in *.
  - destruct (Hk a w') as [Es' Hf']. split; [congruence|]. intros f. specialize (Hf f). cbv zeta in *. rewrite Hf.
    specialize (Hf' f). rewrite <- Es. exact Hf'.
  - split; [done|]. intros f. specialize (Hf f). cbv zeta in *. by rewrite Hf.
Qed.
Lemma blind_ask {A} (f : nat → A) : file_blind (ask f).
Proof. intros [t [d fl] db fd ev]. by split. Qed.
Lemma blind_db {A} (m : M MessageDb A) : file_blind (zoom dbL m).
Proof. intros [t [d fl] db fd ev]. unfold zoom. cbn. destruct (m db). by split. Qed.
Lemma blind_feed {A} (m : M (list ActivityRow) A) : file_blind (zoom feedL m).
Proof. intros [t [d fl] db fd ev]. unfold zoom. cbn. destruct (m fd). by split. Qed.
Lemma blind_events {A} (m : M (gmap string (list EventRecord)) A) : file_blind (zoom eventsL m).
Proof. intros [t [d fl] db fd ev]. unfold zoom. cbn. destruct (m ev). by split. Qed.
Lemma blind_connection a : file_blind (w_getConnection a).
Proof. intros [t [d fl] db fd ev]. by split. Qed.
Lemma blind_gets_events {A} (f : gmap string (list EventRecord) → A) : file_blind (gets (λ w, f (w_events w))).
Proof. intros [t [d fl] db fd ev]. by split. Qed.
End sim.
Create HintDb blind discriminated.
#[export] Hint Resolve blind_ret blind_throw blind_ask blind_db blind_feed blind_events blind_connection
  blind_gets_events : blind.

Lemma zoom_bind {T S A B} (l : lens T S) (m : M S A) (k : A → M S B) t :
  zoom l (m ≫= k) t = (zoom l m ≫= λ a, zoom l (k a)) t.
Proof.
  unfold zoom, mbind, M_bind. destruct (m (view l t)) as [[a|e] s]; [|done].
  rewrite view_put. destruct (k a s) as [r s']. by rewrite put_put.
Qed.
Lemma zoom_try {T S A} (l : lens T S) (m h : M S A) t :
  zoom l (try_catch m h) t = try_catch (zoom l m) (zoom l h) t.
Proof.
  unfold zoom, try_catch. destruct (m (view l t)) as [[a|e] s]; [done|].
  rewrite view_put. destruct (h s) as [r s']. by rewrite put_put.
Qed.

Section world.
Context `{NT : NumberText}.

(** Simulation of code on the world. *)
Definition simw {A} (pre post : Proc → Agent → Prop) (mt : Async Proc A) (m : M World A) : Prop :=
  sim pre post mt (zoom worldL m).

Lemma sim_ext {A} (pre post : Proc → Agent → Prop) mt (m m' : M Agent A) :
  (∀ s, m s = m' s) → sim pre post mt m → sim pre post mt m'.
Proof. intros E Hs p s Hp. rewrite <- E. by apply Hs. Qed.

Lemma simw_ret {A} (P : Proc → Agent → Prop) (a : A) : simw P P (mret a) (mret a).
Proof. apply (sim_ext _ _ _ (mret a)), sim_ret. by intros [[] ]. Qed.
Lemma simw_bind {A B} (pre mid post : Proc → Agent → Prop) mt (m : M World A) (f : A → Async Proc B) g :
  (∀ p s, mid p s → post p s) → simw pre mid mt m → (∀ a, simw mid post (f a) (g a)) →
  simw pre post (mt ≫= f) (m ≫= g).
Proof.
  intros Hmp Hm Hf. eapply sim_ext; [intros s; symmetry; apply zoom_bind|]. by apply (sim_bind _ mid).
Qed.
Lemma simw_try {A} (P : Proc → Agent → Prop) mt (m : M World A) ht h :
  simw P P mt m → simw P P ht h → simw P P (async_try mt ht) (try_catch m h).
Proof. intros Hm Hh. eapply sim_ext; [intros s; symmetry; apply zoom_try|]. by apply sim_try. Qed.
Lemma simw_await {A} pre mt (m : M World A) : simw pre lagging mt m → simw pre level (await mt) m.
Proof. exact (sim_await pre mt (zoom worldL m)). Qed.
Lemma simw_here {A} (m : M World A) : simw level level (in_world m) m.
Proof. exact (sim_here (zoom worldL m)). Qed.
Lemma simw_blind {A} (m : M World A) : file_blind m → simw lagging lagging (in_world m) m.
Proof. exact (sim_blind m). Qed.

Lemma sim_level {A} mt (m : M Agent A) : sim level level mt m → sim level lagging mt m.
Proof. exact (sim_weaken level level level lagging mt m (λ p s H, H) level_lagging). Qed.
Lemma simw_level {A} mt (m : M World A) : simw level level mt m → simw level lagging mt m.
Proof. exact (sim_level mt (zoom worldL m)). Qed.
Lemma simw_from_lagging {A} mt (m : M World A) : simw lagging level mt m → simw lagging lagging mt m.
Proof. exact (sim_weaken lagging lagging level lagging mt (zoom worldL m) (λ p s H, H) level_lagging). Qed.

Lemma sim_detach : sim level lagging detached_save save_.
Proof.
  intros p s ->. unfold alone, detached_save. cbn [p_agent p_saves]. rewrite save_agent_starts.
  split; [by destruct s as [[t [d f] db fd ev] r]|]. split; [by repeat constructor|].
  by destruct s as [[t [d f] db fd ev] r].
Qed.
End world.

Ltac blinds :=
  repeat first
    [ solve [auto with blind] | apply blind_bind; [|intros] | case_match
    | progress unfold conclude, recordAutoRespondDecision, w_record, w_updateState, uuidv7, date_now,
        await_policy, await_boundary ].

Section handlers.
Context `{EN : Env, SH : Sha256, SQ : SqlEngine, SB : SqlBind, LO : Locale, B58 : Base58, B64 : Base64}.
Context `{UN : Unicode, WI : Wire, ED : Ed25519, NB : NaclBox, NT : NumberText}.
Context (config : CircuitBreakerConfig) (keypair : Keypair).

(** ** The connection manager *)
Lemma sim_run op : sim level level (run_a keypair op) (ConnectionManager.run (Some (publicKey keypair)) op).
Proof.
  destruct op; unfold run_a, ConnectionManager.run, sendRequest_a, sendRequest, approveRequest_a, approveRequest,
    rejectRequest_a, rejectRequest, blockConnection_a, blockConnection, unblockConnection_a, unblockConnection,
    revokeConnection_a, revokeConnection, handleEnvelope_a, handleEnvelope, handleIncomingRequest_a,
    handleIncomingRequest, handleIncomingResponse_a, handleIncomingResponse, handleIncomingRevoke_a,
    handleIncomingRevoke; fold (key_bytes keypair);
  repeat first
    [ apply sim_here | apply sim_saved | apply sim_ret | apply sim_throw
    | apply sim_bind_same; [|intros] | case_match ].
Qed.

(** ** The pipeline *)
Lemma sim_trip addr tr n th win : simw level lagging (trip_a addr tr n th win) (trip addr tr n th win).
Proof.
  unfold trip_a, trip. apply (simw_bind _ level); [apply level_lagging|apply simw_here|intros _].
  apply (simw_bind _ level); [apply level_lagging|apply simw_here|intros _].
  apply (simw_bind _ lagging); [done|exact sim_detach|intros _].
  apply (simw_bind _ lagging); [done|apply simw_blind; blinds|intros _]. apply simw_ret.
Qed.

Lemma sim_recordEvent addr type op :
  records config addr op type → simw level lagging (recordEvent_a config addr type) op.
Proof.
  intros Hop. eapply (sim_ext _ _ _ (zoom worldL (addEvent config addr type;; _ ← checkAndTrip config addr; mret tt))).
  { intros [w r]. unfold zoom. cbn [view worldL ag_world]. by rewrite <- (records_unfold config _ _ _ w Hop). }
  unfold recordEvent_a. apply (simw_bind _ level); [apply level_lagging|apply simw_here|intros _].
  apply (simw_bind _ lagging); [done| |intros _; apply simw_ret].
  unfold checkAndTrip_a, checkAndTrip. apply (simw_bind _ level); [apply level_lagging|apply simw_here|].
  intros []; [apply simw_level, simw_ret|].
  apply (simw_bind _ level); [apply level_lagging|apply simw_here|intros events].
  apply (simw_bind _ level); [apply level_lagging|apply simw_here|intros now].
  induction (checks config) as [|chk cs IH]; simpl; [apply simw_level, simw_ret|].
  destruct (_ <=? _)%Z; [|exact IH].
  apply (simw_bind _ lagging); [done|apply sim_trip|intros _; apply simw_ret].
Qed.

Lemma sim_ask_boundary bs body : simw level level (ask_boundary_a bs body) (ask_boundary bs body).
Proof.
  unfold ask_boundary_a, ask_boundary. apply simw_try; [|apply simw_ret].
  apply (simw_bind _ level); [done|apply simw_await, simw_level, simw_here|].
  intros d. case_match; apply simw_ret.
Qed.

Lemma sim_check body addr : simw level level (check_a body addr) (PermissionsEnforcer.check body addr).
Proof.
  unfold check_a, PermissionsEnforcer.check. apply (simw_bind _ level); [done|apply simw_here|].
  intros [c|]; [|apply simw_ret]. case_bool_decide; [apply simw_ret|]. cbv zeta.
  apply (simw_bind _ level); [done|case_bool_decide; [apply sim_ask_boundary|apply simw_ret]|].
  intros [r|]; [apply simw_ret|]. generalize (filter (λ c, cat_allowed c = false)
    (customCategories (default defaultPermissionsManifest (permissionsManifest c)))).
  intros cats. induction cats as [|cat cats IH]; cbn [check_categories_a check_categories]; [apply simw_ret|].
  apply (simw_bind _ level); [done|apply sim_ask_boundary|]. intros [r|]; [apply simw_ret|exact IH].
Qed.

Lemma sim_policy message addr rm :
  simw lagging lagging (evaluateAutoRespondPolicy_a message addr rm) (evaluateAutoRespondPolicy message addr rm).
Proof.
  unfold evaluateAutoRespondPolicy_a, evaluateAutoRespondPolicy.
  apply (simw_bind _ lagging); [done|apply simw_blind; blinds|intros conn]. cbv zeta.
  case_match; [apply (simw_blind (conclude _ _ _ _ _ _)); blinds|].
  apply simw_try; [|apply (simw_blind (conclude _ _ _ _ _ _)); blinds].
  apply (simw_bind _ lagging); [done|apply simw_from_lagging, simw_await, simw_blind; blinds|].
  intros d. destruct (d_action d); apply (simw_blind (conclude _ _ _ _ _ _)); blinds.
Qed.

Lemma sim_process message addr : simw level lagging (process_a config message addr) (process config message addr).
Proof.
  unfold process_a, process. apply (simw_bind _ level); [apply level_lagging|apply simw_here|intros conn].
  case_match; [|case_match].
  1, 2: do 2 (apply (simw_bind _ level); [apply level_lagging|apply simw_here|intros _]); apply simw_level, simw_ret.
  apply (simw_bind _ level); [apply level_lagging|apply simw_await, simw_level, sim_check|intros res].
  case_match; [case_match|].
  - apply (simw_bind _ level); [apply level_lagging|apply simw_here|intros _]. apply simw_level, simw_ret.
  - apply (simw_bind _ lagging); [done| |intros _; apply (simw_bind _ lagging);
      [done|apply simw_blind; blinds|intros _; apply simw_ret]].
    case_match; [apply sim_recordEvent, records_violation|apply simw_level, simw_ret].
  - apply (simw_bind _ lagging); [done|apply sim_recordEvent, records_message|intros _].
    apply (simw_bind _ lagging); [done|apply simw_blind; unfold route; blinds|intros rm].
    case_match; [apply sim_policy|apply simw_ret].
Qed.

(** ** The message manager *)
Lemma sim_when_ready {A} (r : res A) : sim level level (await (when_ready r)) (lift r).
Proof.
  intros p s ->. rewrite alone_await. unfold when_ready. rewrite alone_bind, alone_await. cbn.
  by destruct r.
Qed.

Lemma sim_confirm i a : sim level level (sendDeliveryConfirmation_a keypair i a) (sendDeliveryConfirmation keypair i a).
Proof.
  unfold sendDeliveryConfirmation_a, sendDeliveryConfirmation.
  repeat first [ apply sim_when_ready | apply sim_here | apply sim_ret | apply sim_bind_same; [|intros] | case_match ].
Qed.

Lemma sim_dispatch e : sim level level (dispatch_a config keypair e) (dispatch config keypair e).
Proof.
  assert (∀ i a, sim level level (await (sendDeliveryConfirmation_a keypair i a)) (sendDeliveryConfirmation keypair i a)) as Hc.
  { intros i a. apply sim_await, sim_level, sim_confirm. }
  assert (∀ m a, sim level level (await (process_a config m a)) (zoom worldL (process config m a))) as Hp
    by (intros m a; apply sim_await, sim_process).
  unfold dispatch_a, dispatch, handleIncomingMessage_a, handleIncomingMessage, handleDeliveryConfirmation_a,
    handleDeliveryConfirmation.
  repeat first [ apply Hc | apply Hp | apply sim_when_ready | apply sim_here | apply sim_ret | apply sim_throw
               | apply sim_bind_same; [|intros] | case_match ].
Qed.

(** A call that nothing interrupts, with the saves it starts, returns or throws what
    the sequential step does and leaves the same agent: what is proved of [dispatch],
    [process] and the operations of the connection manager holds of the asynchronous
    functions when they run alone.  What holds when they do not is in Schedules. *)
Lemma alone_is_step c s :
  let '(r, p) := alone finish_saves (launch config keypair c) (mkProc s []) in
  r = (exec config keypair (as_step c) s).1 ∧
  finish_saves p = mkProc (step config keypair (as_step c) s) [].
Proof.
  assert (sim level lagging (launch config keypair c) (exec config keypair (as_step c))) as Hs.
  { destruct c; cbn [launch as_step exec]; try (apply sim_level, sim_here).
    - apply sim_level, sim_run.
    - apply sim_level, sim_dispatch.
    - apply (sim_bind _ lagging); [done|apply sim_process|intros _; apply sim_ret].
    - apply sim_level, sim_saved. }
  destruct (Hs (mkProc s []) s eq_refl) as [E Hl]. destruct (alone _ _ _) as [r p]. cbn [fst snd] in *.
  split; [exact E|]. by apply finish_lagging.
Qed.
End handlers.
