(* ===== verification/Concurrent.v ===== *)
(** The running process as a pool of handlers: a turn of the event loop starts a
    call, resumes a suspended handler, moves a save that nobody awaits, or ends
    the process; between two processes a tool may run in one of its own.  Any
    order of turns is allowed.  A relation between agents that
    every call keeps, and that a late write of an earlier text keeps, is kept by
    every schedule ([Overlaps]). *)
From S2P Require Import Prelude Threads JsLib JsDate Platform Identity PermissionsManifest ConnectionStore.
From S2P Require Import StoreText Saving MessageStore ActivityFeed World CircuitBreaker InboundRouter.
From S2P Require Import PermissionsEnforcer EnforcementPipeline Text Envelope ConnectionManager.
From S2P Require Import Args ArgsSpec PermissionsTool Delivery Crypto MessageManager Tools Steps Handlers Alone.
From stdpp Require Import gmap.

(** ** The pool *)

(** A called function that is under way, and whether its caller waits for it. *)
Record Handler : Type := mkHandler {
  h_awaited : bool;
  h_thread : thread Proc unit
}.
Record Pool : Type := mkPool {
  pl_proc : Proc;
  pl_handlers : list Handler
}.
Definition pl_agent (pl : Pool) : Agent := p_agent (pl_proc pl).

Inductive Turn : Type :=
| turn_call (c : Call)
| turn_resume (n : nat)
| turn_save (n : nat)
| turn_exit
| turn_tool (t : Tool) (relay : RelayEnv) (args : list string).

(** The handlers [setupHandlers] registers call without awaiting; every other
    caller awaits. *)
Definition awaited_call (c : Call) : bool :=
  match c with call_op (op_receive _) | call_message _ => false | _ => true end.

(** A rejection that nobody handles ends the process. *)
Definition unhandled (awaited : bool) (t : thread Proc unit) : bool :=
  match t with ended (Throw _) => negb awaited | _ => false end.

Section pool.
Context `{EN : Env, SH : Sha256, SQ : SqlEngine, SB : SqlBind, LO : Locale, B58 : Base58, B64 : Base64}.
Context `{UN : Unicode, WI : Wire, ED : Ed25519, NB : NaclBox, NT : NumberText}.
Context (config : CircuitBreakerConfig) (keypair : Keypair).

(** The process ends and the next one starts: what was under way is gone.  A file
    operation that was handed to the thread pool and that the pool still finishes is
    one that has finished just before: the turn that resumes it comes first.  (A
    call suspended at a file operation does nothing else in that turn, and no turn
    of a running process reads the file.) *)
Definition exits (pl : Pool) : Pool :=
  mkPool (mkProc (step config keypair st_restart (pl_agent pl)) []) [].

Definition after_turn (awaited : bool) (t : thread Proc unit) (pl : Pool) : Pool :=
  if unhandled awaited t then exits pl else pl.

Definition take_turn (u : Turn) (pl : Pool) : Pool :=
  match u with
  | turn_call c =>
      let '(t, p) := launch config keypair c (pl_proc pl) in
      after_turn (awaited_call c) t (mkPool p (pl_handlers pl ++ [mkHandler (awaited_call c) t]))
  | turn_resume n =>
      match pl_handlers pl !! n with
      | Some (mkHandler awaited (suspended k)) =>
          let '(t, p) := k (pl_proc pl) in
          after_turn awaited t (mkPool p (<[n := mkHandler awaited t]> (pl_handlers pl)))
      | _ => pl
      end
  | turn_save n =>
      match p_saves (pl_proc pl) !! n with
      | Some (suspended k) =>
          let '(t, s) := k (pl_agent pl) in
          mkPool (mkProc s (<[n := t]> (p_saves (pl_proc pl)))) (pl_handlers pl)
      | _ => pl
      end
  | turn_exit => exits pl
  | turn_tool t relay args =>
      exits (mkPool (mkProc (step config keypair (st_process_of t relay args) (pl_agent pl)) []) [])
  end.

Definition turns (us : list Turn) (pl : Pool) : Pool := foldl (λ pl u, take_turn u pl) pl us.

(** A process that has just started. *)
Definition started (s : Agent) : Pool := mkPool (mkProc s []) [].

Lemma turns_app us vs pl : turns (us ++ vs) pl = turns vs (turns us pl).
Proof. apply foldl_app. Qed.
End pool.

(** ** What every schedule keeps *)
Section store_rel.
Context (R : relation Agent) `{!PreOrder R}.

(** [R] between two stores of one agent. *)
Definition store_rel : relation ConnectionStore := λ st st',
  ∀ s, ag_store s = st → R s (with_store st' s).

Lemma with_own_store s : with_store (ag_store s) s = s.
Proof. by destruct s as [[] ]. Qed.

#[export] Instance store_rel_preorder : PreOrder store_rel.
Proof.
  split.
  - intros st s <-. by rewrite with_own_store.
  - intros x y z H1 H2 s Hs. etrans; [by apply H1|].
    assert (with_store z s = with_store z (with_store y s)) as -> by by destruct s as [[] ].
    apply H2. by destruct s as [[] ].
Qed.
End store_rel.

(** [R] is kept by the calls with the arguments that [p] permits, and, as long as
    [I] holds of the store, by what a save does to the file: it is cut off, and
    a text of [good] data that was made earlier is written. *)
Class Overlaps `{EN : Env, SH : Sha256, SQ : SqlEngine, B58 : Base58, B64 : Base64, NT : NumberText}
    (R : relation Agent) (p : Permits) (I : ConnectionStore → Prop) (good : StoreData → Prop) : Prop := {
  ov_calls :: ManagerCalls R p;
  ov_settings now a u : settings_only u = true →
    moves (world_rel R) (zoom storeL (updateConnection now a u));
  ov_stable s s' : R s s' → I (ag_store s) → I (ag_store s');
  ov_good st : I st → good (data st);
  ov_cut st : I st → store_rel R st (put_file (NotJson "") st);
  ov_write d st : good d → I st → store_rel R st (put_file (overwritten d (file st)) st)
}.

Section kept.
Context `{EN : Env, SH : Sha256, SQ : SqlEngine, SB : SqlBind, LO : Locale, B58 : Base58, B64 : Base64}.
Context `{UN : Unicode, WI : Wire, ED : Ed25519, NB : NaclBox, NT : NumberText}.
Context (config : CircuitBreakerConfig) (keypair : Keypair).
Context (R : relation Agent) (p : Permits) (I : ConnectionStore → Prop) (good : StoreData → Prop).
Context `{!Overlaps R p I good}.

Definition Ia (s : Agent) : Prop := I (ag_store s).
Definition saves_ok (pr : Proc) : Prop := Forall (turns_keep Ia R) (p_saves pr).
Definition Ip (pr : Proc) : Prop := Ia (p_agent pr).
Definition Rp (pr pr' : Proc) : Prop := R (p_agent pr) (p_agent pr') ∧ (saves_ok pr → saves_ok pr').

#[local] Instance Rp_preorder : PreOrder Rp.
Proof. split; [by split|]. intros x y z [H1 S1] [H2 S2]. split; [by etrans|auto]. Qed.
Lemma Rp_stable pr pr' : Rp pr pr' → Ip pr → Ip pr'.
Proof. intros [H _]. apply (ov_stable (R:=R) _ _ H). Qed.

Lemma save_keeps : async_keeps Ia R save_agent.
Proof.
  apply (keeps_within agent_storeL I (store_rel R)).
  - done.
  - intros s st H. by apply H.
  - refine (save_async_keeps I (store_rel R) good _ _ _ _).
    + intros st st' H Hi. pose (s := mkAgent (mkWorld 0 st emptyDb [] ∅) (mkRelay None false [])).
      exact (ov_stable (R:=R) s _ (H s eq_refl) Hi).
    + apply (ov_good (R:=R)).
    + apply (ov_cut (R:=R)).
    + apply (ov_write (R:=R)).
Qed.

Lemma moved_here {A} (m : M Agent A) : moves R m → async_keeps Ip Rp (here m).
Proof.
  intros Hm. apply keeps_sync. intros pr. unfold zoom. cbn. specialize (Hm (p_agent pr)).
  destruct (m (p_agent pr)) as [r s]. by split.
Qed.
Lemma moved_in_world {A} (m : M World A) : moves (world_rel R) m → async_keeps Ip Rp (in_world m).
Proof. intros Hm. by apply moved_here, moves_world. Qed.

Lemma awaited_save_keeps : async_keeps Ip Rp awaited_save.
Proof.
  apply keeps_await; [apply _|]. apply (keeps_within procL Ia R); [done| |apply save_keeps].
  intros pr s H. by split.
Qed.
Lemma detached_save_keeps : async_keeps Ip Rp detached_save.
Proof.
  intros pr Hi. unfold detached_save. pose proof (save_keeps (p_agent pr) Hi) as Hs.
  destruct (save_agent (p_agent pr)) as [t s]. destruct Hs as [Hr Ht]. split; [|done]. split; [exact Hr|].
  intros Ho. apply Forall_app. split; [exact Ho|by repeat constructor].
Qed.

Abbreviation W := (world_rel R).

Lemma k_bind {A B} (m : Async Proc A) (f : A → Async Proc B) :
  async_keeps Ip Rp m → (∀ a, async_keeps Ip Rp (f a)) → async_keeps Ip Rp (m ≫= f).
Proof. apply keeps_bind; [apply _|apply Rp_stable]. Qed.
Lemma k_try {A} (m h : Async Proc A) :
  async_keeps Ip Rp m → async_keeps Ip Rp h → async_keeps Ip Rp (async_try m h).
Proof. apply keeps_try; [apply _|apply Rp_stable]. Qed.
Lemma k_await {A} (m : Async Proc A) : async_keeps Ip Rp m → async_keeps Ip Rp (await m).
Proof. apply keeps_await, _. Qed.
Lemma k_ret {A} (a : A) : async_keeps Ip Rp (mret a).
Proof. apply keeps_ret, _. Qed.
Lemma k_throw {A} e : async_keeps Ip Rp (async_throw (A:=A) e).
Proof. apply keeps_throw, _. Qed.

(** The calls on the world. *)
Lemma w_ask {A} (f : nat → A) : moves W (ask f).
Proof. apply c_ask. Qed.
Lemma w_events_kept {A} (m : M (gmap string (list EventRecord)) A) : moves W (zoom eventsL m).
Proof. apply c_events. Qed.
Lemma w_record_kept e : moves W (w_record e).
Proof. apply c_record. Qed.
Lemma w_settings_kept a u : settings_only u = true → moves W (w_updateConnection a u).
Proof.
  intros Hu. unfold w_updateConnection, date_now. apply moves_bind; [apply _|apply w_ask|].
  intros now. by apply (ov_settings (R:=R)).
Qed.
Lemma w_state_kept i st reason : may_state p i st → moves W (w_updateState i st reason).
Proof.
  intros Hst. unfold w_updateState, date_now. apply moves_bind; [apply _|apply w_ask|].
  intros now. by apply (c_state (p:=p)).
Qed.

(** Through a body, turn by turn. *)
Ltac in_turn :=
  lazymatch goal with
  | |- async_keeps _ _ (_ ≫= _) => apply k_bind; [|intros]
  | |- async_keeps _ _ (mret _) => apply k_ret
  | |- async_keeps _ _ (async_throw _) => apply k_throw
  | |- async_keeps _ _ (async_try _ _) => apply k_try
  | |- async_keeps _ _ awaited_save => apply awaited_save_keeps
  | |- async_keeps _ _ detached_save => apply detached_save_keeps
  | |- async_keeps _ _ (await _) => apply k_await
  | |- async_keeps _ _ (here _) => apply moved_here
  | |- async_keeps _ _ (in_world _) => apply moved_in_world
  | |- moves _ (_ ≫= _) => apply moves_bind; [apply _|..]
  | |- moves _ (mret _) => apply moves_ret; apply _
  | |- moves _ (gets _) => apply moves_gets; apply _
  | |- moves _ (throw _) => apply moves_throw; apply _
  | |- moves _ (lift _) => apply moves_lift; apply _
  | |- moves _ (ask _) => apply w_ask
  | |- moves _ (zoom eventsL _) => apply w_events_kept
  | |- moves _ (w_record _) => apply w_record_kept
  | |- moves _ (w_updateState _ _ _) => apply w_state_kept; solve [auto]
  | |- moves _ (w_updateConnection _ _) => apply w_settings_kept; reflexivity
  | |- moves _ (add_ _) => apply (moves_add R p); reflexivity
  | |- moves _ (update_ _ _) => apply (moves_update R p); reflexivity
  | |- moves _ (send_ (envelope _ _ _ _)) => apply (moves_connection_send R p); reflexivity
  | |- moves R (zoom worldL _) => apply moves_world
  end.
Ltac keep_turns :=
  repeat first
    [ solve [auto 2] | in_turn | progress intros | case_match
    | progress unfold own_address, iso_, now_, conn_, in_db, w_getConnection, date_now, await_policy,
        await_boundary, conclude, recordAutoRespondDecision, when_ready ].

Lemma run_keeps op : async_keeps Ip Rp (run_a keypair op).
Proof.
  destruct op; unfold run_a, sendRequest_a, approveRequest_a, rejectRequest_a, blockConnection_a,
    unblockConnection_a, revokeConnection_a, handleEnvelope_a, handleIncomingRequest_a, handleIncomingResponse_a,
    handleIncomingRevoke_a; keep_turns.
Qed.

Lemma recordEvent_keeps addr type : async_keeps Ip Rp (recordEvent_a config addr type).
Proof.
  assert (∀ now evs cs, async_keeps Ip Rp (run_checks_a addr now evs cs)) as Hc.
  { intros now evs cs. induction cs as [|chk cs IH]; cbn [run_checks_a]; [apply k_ret|]. unfold trip_a. keep_turns. }
  unfold recordEvent_a, checkAndTrip_a, addEvent, pruneOldEvents. keep_turns.
Qed.

Lemma process_keeps message addr :
  (∀ st, may_state p (m_id message) st) → async_keeps Ip Rp (process_a config message addr).
Proof.
  intros Hst. pose proof (recordEvent_keeps addr).
  assert (∀ q body, async_keeps Ip Rp (ask_boundary_a q body)) by (intros; unfold ask_boundary_a; keep_turns).
  assert (∀ cats body, async_keeps Ip Rp (check_categories_a cats body))
    by (intros cats body; induction cats; cbn [check_categories_a]; keep_turns).
  unfold process_a, check_a, route, evaluateAutoRespondPolicy_a. keep_turns.
Qed.

Lemma confirm_keeps e i :
  env_type e = MESSAGE → open_message keypair e = Ok i → (∀ c, answers keypair e c → may_send p c) →
  async_keeps Ip Rp (sendDeliveryConfirmation_a keypair (in_messageId i) (env_fromAddress e)).
Proof.
  intros Ht Ho Ha.
  assert (∀ own t sg, moves R (send_ (confirm_envelope own (env_fromAddress e) (in_messageId i) t sg)))
    by (intros; apply (c_send (p:=p)), Ha; split; [done|]; by eexists i, _, _, _).
  unfold sendDeliveryConfirmation_a. keep_turns.
Qed.

Lemma dispatch_keeps e : permitted keypair p (st_message e) → async_keeps Ip Rp (dispatch_a config keypair e).
Proof.
  intros (He & Ha & Hj). unfold dispatch_a. destruct (env_type e) eqn:Ht; try apply k_ret.
  - unfold handleIncomingMessage_a. destruct (open_message keypair e) as [i|] eqn:Ho;
      [|intros [a l] _; split; [reflexivity|done]].
    pose proof (confirm_keeps e i Ht Ho Ha).
    assert (∀ body now, column_text (ct_body (in_content i)) = Some body →
      moves W (zoom dbL (saveMessage (inbound_record (env_fromAddress e) body i now)))) as Hs
      by (intros body now Hb; apply (c_insert (p:=p)), He; split; [done|]; by exists i, body, now).
    assert (∀ body now a, async_keeps Ip Rp (process_a config (inbound_record (env_fromAddress e) body i now) a)).
    { intros. apply process_keeps. intros st. apply Hj. unfold judges. rewrite Ht. by exists i. }
    intros [a l] Hpr. apply (k_bind (here now_)); [keep_turns| |exact Hpr]. intros now.
    destruct (column_text (ct_body (in_content i))) as [body|] eqn:Eb; keep_turns.
  - unfold handleDeliveryConfirmation_a. destruct (env_payload e) as [| | | | | | | | | | |d| | | |] eqn:Ep; try apply k_throw.
    assert (may_state p (text_decode (dc_messageId d)) (dc_state d)) by (apply Hj; unfold judges; rewrite Ht; by exists d).
    keep_turns.
Qed.

(** Every call, turn by turn. *)
Lemma launch_keeps c :
  kept_by_sending keypair R → permitted keypair p (as_step c) → async_keeps Ip Rp (launch config keypair c).
Proof.
  intros Hsend Hok. destruct c; cbn [launch];
    try (apply moved_here, (moves_step config keypair R p); [by left|exact Hok]).
  - apply run_keeps.
  - by apply dispatch_keeps.
  - apply k_bind; [by apply process_keeps|intros; apply k_ret].
  - apply awaited_save_keeps.
Qed.

(** ** Every schedule *)
Definition pool_ok (pl : Pool) : Prop :=
  Ip (pl_proc pl) ∧ saves_ok (pl_proc pl) ∧ Forall (λ h, turns_keep Ip Rp (h_thread h)) (pl_handlers pl).

Lemma started_ok s : I (ag_store s) → pool_ok (started s).
Proof. by repeat constructor. Qed.

Lemma exits_moved pl : pool_ok pl → R (pl_agent pl) (pl_agent (exits config keypair pl)) ∧
                                    pool_ok (exits config keypair pl).
Proof.
  intros (Hi & _ & _). assert (R (pl_agent pl) (step config keypair st_restart (pl_agent pl))) as Hr
    by apply (c_restart (p:=p)).
  split; [exact Hr|]. apply started_ok. by apply (ov_stable (R:=R) _ _ Hr).
Qed.

Lemma after_turn_moved aw t pl pl' :
  R (pl_agent pl) (pl_agent pl') → pool_ok pl' →
  R (pl_agent pl) (pl_agent (after_turn config keypair aw t pl')) ∧ pool_ok (after_turn config keypair aw t pl').
Proof.
  intros Hr Ho. unfold after_turn. case_match; [|done]. destruct (exits_moved pl' Ho). split; [by etrans|done].
Qed.

Definition turn_permitted (u : Turn) : Prop :=
  match u with
  | turn_call c => permitted keypair p (as_step c)
  | turn_tool t relay args => permitted keypair p (st_process_of t relay args)
  | _ => True
  end.

Lemma take_turn_moved u pl :
  kept_by_sending keypair R → turn_permitted u →
  pool_ok pl → R (pl_agent pl) (pl_agent (take_turn config keypair u pl)) ∧ pool_ok (take_turn config keypair u pl).
Proof.
  intros Hsend Hok Hpl. destruct pl as [pr hs]. destruct Hpl as (Hi & Hs & Hh). cbn [pl_proc pl_handlers] in *.
  destruct u as [c|n|n| |t relay args]; cbn [take_turn pl_proc pl_handlers].
  - pose proof (launch_keeps c Hsend Hok pr Hi) as Hl. destruct (launch config keypair c pr) as [t pr'].
    destruct Hl as [Hr Ht]. apply after_turn_moved; [apply Hr|]. split; [by apply (Rp_stable pr)|].
    split; [by apply Hr|]. apply Forall_app. split; [done|]. by repeat constructor.
  - destruct (hs !! n) as [[aw [r|k]]|] eqn:E; [by split; [reflexivity|]| |by split; [reflexivity|]].
    pose proof (Forall_lookup_1 _ _ _ _ Hh E pr Hi) as Hk. cbn [h_thread] in Hk. destruct (k pr) as [t pr'].
    destruct Hk as [Hr Ht]. apply after_turn_moved; [apply Hr|]. split; [by apply (Rp_stable pr)|].
    split; [by apply Hr|]. by apply Forall_insert.
  - destruct (p_saves pr !! n) as [[r|k]|] eqn:E; [by split; [reflexivity|]| |by split; [reflexivity|]].
    pose proof (Forall_lookup_1 _ _ _ _ Hs E (p_agent pr) Hi) as Hk. unfold pl_agent. cbn [pl_proc].
    destruct (k (p_agent pr)) as [t s]. destruct Hk as [Hr Ht]. split; [exact Hr|].
    split; [by apply (ov_stable (R:=R) _ _ Hr)|]. split; [by apply Forall_insert|done].
  - by apply (exits_moved (mkPool pr hs)).
  - assert (R (p_agent pr) (step config keypair (st_process_of t relay args) (p_agent pr))) as Hr
      by (apply (moves_step config keypair R p); [by left|exact Hok]).
    destruct (exits_moved (started (step config keypair (st_process_of t relay args) (p_agent pr)))) as [Hr' Ho].
    { apply started_ok. by apply (ov_stable (R:=R) _ _ Hr). }
    split; [|exact Ho]. unfold pl_agent at 1. cbn [pl_proc]. by etrans.
Qed.

Lemma turns_moved us pl :
  kept_by_sending keypair R → Forall turn_permitted us → pool_ok pl → R (pl_agent pl) (pl_agent (turns config keypair us pl)) ∧ pool_ok (turns config keypair us pl).
Proof.
  intros Hsend Hus. revert pl. induction Hus as [|u us Hu _ IH]; intros pl Hpl; [by split; [reflexivity|]|].
  destruct (take_turn_moved u pl Hsend Hu Hpl) as [Hr Hpl']. destruct (IH _ Hpl') as [Hr' Hpl''].
  split; [by etrans|exact Hpl''].
Qed.
End kept.
