(* ===== verification/Rows.v ===== *)
(** The message table over the whole life of the skill.  What the store promises of
    its writes is a class; every step of [Steps] is verified against it once, and
    the uses are the facts about a stored message: it is never lost and nothing
    but its state ever changes, so an envelope that comes twice is stored once. *)
From S2P Require Import Prelude JsLib JsDate Platform Identity PermissionsManifest ConnectionStore.
From S2P Require Import MessageStore ActivityFeed World CircuitBreaker InboundRouter.
From S2P Require Import PermissionsEnforcer EnforcementPipeline Text Envelope ConnectionManager.
From S2P Require Import Args ArgsSpec PermissionsTool Delivery Crypto MessageManager Tools Steps.
From stdpp Require Import gmap.

(** [R] is kept by every write; a message is only inserted if [ok], and its state
    only set to what [may] says. *)
Class DbFrame (R : relation MessageDb) (ok : MessageRecord → Prop) (may : string → string → Prop) : Prop := {
  df_preorder :: PreOrder R;
  df_save m : ok m → moves R (saveMessage m);
  df_update now i st reason : may i st → moves R (updateState now i st reason);
  df_sequence a : moves R (nextSequence a)
}.

Section frame.
Context `{EN : Env, SH : Sha256, SQ : SqlEngine, SB : SqlBind, LO : Locale, B58 : Base58, B64 : Base64}.
Context `{UN : Unicode, WI : Wire, ED : Ed25519, NB : NaclBox}.
Context (config : CircuitBreakerConfig) (keypair : Keypair).
Context (R : relation MessageDb) (ok : MessageRecord → Prop) (may : string → string → Prop).
Context `{!DbFrame R ok may}.

Definition Rdb (s s' : Agent) : Prop := R (ag_db s) (ag_db s').
Definition db_permits : Permits := mkPermits (λ _ _ _, True) ok may (λ _, True) (λ _, True).

#[local] Instance Rdb_preorder : PreOrder Rdb.
Proof. unfold Rdb. split; [intros s; reflexivity|]. intros x y z H1 H2. by etrans. Qed.

Lemma df_same w w' : w_db w' = w_db w → world_rel Rdb w w'.
Proof. unfold world_rel, Rdb, ag_db. cbn. intros -> r. reflexivity. Qed.
Lemma df_ask {A} (f : nat → A) : moves (world_rel Rdb) (ask f).
Proof. apply moves_ask. intros w. by apply df_same. Qed.
Lemma df_store {A} (m : M ConnectionStore A) : moves (world_rel Rdb) (zoom storeL m).
Proof. apply (moves_zoom _ (λ _ _, True)); [done|]. intros; by apply df_same. Qed.
Lemma df_feed {A} (m : M (list ActivityRow) A) : moves (world_rel Rdb) (zoom feedL m).
Proof. apply (moves_zoom _ (λ _ _, True)); [done|]. intros; by apply df_same. Qed.
Lemma df_db {A} (m : M MessageDb A) : moves R m → moves (world_rel Rdb) (zoom dbL m).
Proof. intros Hm. apply (moves_zoom _ R); [done|]. intros w db H r. exact H. Qed.

Lemma df_record e : moves (world_rel Rdb) (w_record e).
Proof.
  unfold w_record, uuidv7, date_now.
  repeat (apply moves_bind; [apply _|apply df_ask|intros]). apply df_feed.
Qed.

#[export] Instance db_calls : Calls Rdb db_permits.
Proof.
  split.
  - apply _.
  - intros. apply df_ask.
  - intros. apply (moves_zoom _ (λ _ _, True)); [done|]. intros; by apply df_same.
  - intros. apply df_record.
  - apply df_store.
  - intros. apply df_store.
  - intros. by apply moves_trip; [apply _|..]; intros; [apply df_ask|apply df_store|apply df_store|apply df_record].
  - intros. apply df_store.
  - intros. apply df_store.
  - intros. apply df_store.
  - intros m Hm. by apply df_db, df_save.
  - intros. by apply df_db, df_update.
  - intros. apply df_db, df_sequence.
  - intros e _ s. rewrite send_run. unfold Rdb. destruct (connected _); reflexivity.
  - intros s. unfold Rdb. reflexivity.
  - intros own _ s. unfold Rdb. reflexivity.
  - intros s. unfold Rdb. reflexivity.
Qed.
#[export] Instance db_manager_calls : ManagerCalls Rdb db_permits.
Proof. split; [apply _|intros; apply df_store..|done]. Qed.

(** What a step may insert: what it sends, what its envelope brings. *)
Definition step_brings (st : Step) (m : MessageRecord) : Prop :=
  match st with st_message e => brings keypair e m | _ => False end.

(** The states it may give to stored messages. *)
Definition step_judges (st : Step) (j x : string) : Prop :=
  match st with
  | st_message e => judges keypair e j x
  | st_process m _ => j = m_id m
  | st_approve_message i action => j = i ∧ x = review_state action
  | _ => False
  end.

Context (ok_sent : ∀ params i th n now, ok (outbound_record params i th n now)).

Lemma df_sendMessage params : moves Rdb (sendMessage keypair params).
Proof using ok_sent DbFrame0 SQ. apply (moves_sendMessage keypair Rdb db_permits); [intros; apply ok_sent|done]. Qed.

Lemma df_step st :
  (∀ m, step_brings st m → ok m) → (∀ j x, step_judges st j x → may j x) →
  moves Rdb (exec config keypair st).
Proof using All.
  intros Hb Hj. apply (moves_step config keypair Rdb db_permits).
  - left. exact df_sendMessage.
  - destruct st; cbn in *; try done; auto. by destruct relay.
Qed.
End frame.

(** ** First use: a stored message only ever changes its state *)
Definition grows (db db' : MessageDb) : Prop :=
  ∀ j m, getMessage j db = Some m → ∃ st fr now, getMessage j db' = Some (set_state st fr now m).

Lemma set_state_self m : set_state (m_state m) (m_failureReason m) (m_updatedAt m) m = m.
Proof. by destruct m. Qed.

#[export] Instance grows_preorder : PreOrder grows.
Proof.
  split.
  - intros db j m Hm. exists (m_state m), (m_failureReason m), (m_updatedAt m). by rewrite set_state_self.
  - intros x y z H1 H2 j m Hm. destruct (H1 j m Hm) as (st & fr & now & Hy).
    destruct (H2 j _ Hy) as (st' & fr' & now' & Hz). by exists st', fr', now'.
Qed.

(** Inserting a row: the old rows come first. *)
Lemma getMessage_insert j m db :
  getMessage j (set_messages (λ l, l ++ [recordToRow m]) db) =
  match getMessage j db with Some old => Some old | None => if decide (m_id m = j) then Some (as_text m) else None end.
Proof.
  unfold getMessage. cbn [messages set_messages]. induction (messages db) as [|x l IH]; cbn.
  - case_decide; [rewrite bool_decide_eq_true_2 by done; cbn; by rewrite rowToRecord_recordToRow|].
    by rewrite bool_decide_eq_false_2.
  - by destruct (bool_decide _).
Qed.

Lemma grows_same db db' : messages db' = messages db → grows db db'.
Proof.
  intros E j m Hm. exists (m_state m), (m_failureReason m), (m_updatedAt m).
  rewrite set_state_self. unfold getMessage in *. by rewrite E.
Qed.
Lemma grows_insert m db : grows db (set_messages (λ l, l ++ [recordToRow m]) db).
Proof.
  intros j old Hj. exists (m_state old), (m_failureReason old), (m_updatedAt old).
  by rewrite set_state_self, getMessage_insert, Hj.
Qed.

#[export] Instance grows_frame : DbFrame grows (λ _, True) (λ _ _, True).
Proof.
  split; [apply _|..].
  - intros m _ db. unfold saveMessage, mbind, M_bind, gets, throw, modify.
    destruct (bool_decide _); [by apply grows_same|apply grows_insert].
  - intros now i st reason _ db j m Hm. rewrite getMessage_updateState, Hm. simpl.
    case_decide; [by eexists _, _, _|]. exists (m_state m), (m_failureReason m), (m_updatedAt m).
    by rewrite set_state_self.
  - intros a db. by apply grows_same.
Qed.

(** ** Second use: ids stay unique *)
Definition stays_unique (db db' : MessageDb) : Prop := ids_unique db → ids_unique db'.
#[export] Instance stays_unique_preorder : PreOrder stays_unique.
Proof. split; [by intros x H|]. intros x y z H1 H2 H. by apply H2, H1. Qed.
#[export] Instance stays_unique_frame : DbFrame stays_unique (λ _, True) (λ _ _, True).
Proof.
  split; [apply _|..].
  - intros m _ db Hu. destruct (saveMessage m db) as [r db'] eqn:E.
    by destruct (saveMessage_spec m db r db' Hu E) as [H _].
  - intros now i st reason _ db Hu. by apply updateState_unique.
  - intros a db Hu. exact Hu.
Qed.

Section theorems.
Context `{EN : Env, SH : Sha256, SQ : SqlEngine, SB : SqlBind, LO : Locale, B58 : Base58, B64 : Base64}.
Context `{UN : Unicode, WI : Wire, ED : Ed25519, NB : NaclBox}.
Context (config : CircuitBreakerConfig) (keypair : Keypair).

Lemma grows_step st s : grows (ag_db s) (ag_db (step config keypair st s)).
Proof. exact (df_step config keypair grows (λ _, True) (λ _ _, True) (λ _ _ _ _ _, I) st (λ _ _, I) (λ _ _ _, I) s). Qed.

Lemma reachable_frame (R : relation MessageDb) `{!DbFrame R (λ _, True) (λ _ _, True)} s0 tr s :
  reachable config keypair s0 tr s → R (ag_db s0) (ag_db s).
Proof.
  induction 1 as [|tr s st _ IH]; [reflexivity|]. etrans; [exact IH|].
  exact (df_step config keypair R (λ _, True) (λ _ _, True) (λ _ _ _ _ _, I) st (λ _ _, I) (λ _ _ _, I) s).
Qed.

(** A message, once stored, is there for good and stays what it was: after any
    sequence of operations, envelopes, tool runs and restarts it is found under
    its id with the same peer, direction, text, thread, reference, sequence
    number, attribution and time of arrival; only its state, failure reason
    and time of update may differ. *)
Theorem stored_message_immutable s0 tr s j m :
  reachable config keypair s0 tr s → getMessage j (ag_db s0) = Some m →
  ∃ st reason now, getMessage j (ag_db s) = Some (set_state st reason now m).
Proof. intros Hr. apply (reachable_frame grows s0 tr s Hr). Qed.

Theorem reachable_ids_unique s0 tr s :
  reachable config keypair s0 tr s → ids_unique (ag_db s0) → ids_unique (ag_db s).
Proof. intros Hr. apply (reachable_frame stays_unique s0 tr s Hr). Qed.

(** An envelope whose id is taken. *)
Lemma receive_taken e i s :
  open_message keypair e = Ok i → is_Some (getMessage (in_messageId i) (ag_db s)) →
  ∃ err, handleIncomingMessage config keypair e s = (Throw err, ticked s).
Proof.
  intros Ho Hi. unfold handleIncomingMessage. bind1. unfold lift at 1. rewrite Ho.
  rewrite (bind_run _ _ _ _ _ (now_ticked s)).
  destruct (column_text (ct_body (in_content i))) as [body|]; [|by eexists]. cbv zeta.
  set (m := inbound_record _ _ _ _).
  rewrite (bind_run _ _ _ _ _ (save_run_clash m (ticked s) ltac:(cbn; by apply not_eq_None_Some))).
  by eexists.
Qed.

(** C25. At most once: an envelope that was handled is refused whenever it comes again,
    after any further steps and restarts: the handler throws, and nothing but
    the clock has moved, so the message is not stored, judged, logged or
    confirmed a second time. *)
Theorem handled_at_most_once e s0 s1 tr s2 :
  fresh_ids (ag_world s0) → env_type e = MESSAGE →
  dispatch config keypair e s0 = (Ok tt, s1) → reachable config keypair s1 tr s2 →
  ∃ err, dispatch config keypair e s2 = (Throw err, ticked s2).
Proof.
  intros Hf Ht Hr Hreach. unfold dispatch in *. rewrite Ht in *.
  pose proof (receive_cases config keypair e s0 (Ok tt) s1 Hf Hr) as H.
  destruct (open_message keypair e) as [i|] eqn:Ho; [|by destruct H].
  destruct (column_text (ct_body (in_content i))); [|by destruct H].
  destruct (getMessage (in_messageId i) (ag_db s0)); [by destruct H|].
  cbv zeta in H. destruct H as ((now & H) & _).
  destruct (reachable_frame grows s1 tr s2 Hreach _ _ H) as (? & ? & ? & Hj).
  apply (receive_taken e i); [done|]. by eexists.
Qed.
End theorems.

(** ** The id is all that is checked *)
Section replay.
Context `{EN : Env, SH : Sha256, SQ : SqlEngine, SB : SqlBind, LO : Locale, B58 : Base58, B64 : Base64}.
Context `{UN : Unicode, UL : !UnicodeLaws, WI : Wire, ED : Ed25519, NB : NaclBox}.
Context (config : CircuitBreakerConfig) (keypair : Keypair).

(** The same sealed payload in an envelope with another message id. *)
Definition relabel (i : string) (e : Envelope) : Envelope :=
  mkEnvelope (env_version e) (env_fromAddress e) (env_toAddress e) (env_type e) (utf8_encode i)
    (env_timestamp e) (env_payload e).

Lemma open_relabel i e inc :
  open_message keypair e = Ok inc →
  open_message keypair (relabel i e) = Ok (mkIncoming (in_content inc) (in_sequence inc) i).
Proof using UL.
  unfold open_message. cbn [relabel env_payload env_messageId]. rewrite text_decode_encode.
  repeat case_match; intros; simplify_eq; done.
Qed.

(** A replay is a new message: the sealed payload of a message that is already
    stored, in an envelope with another id, opens, is stored once more with the
    same text and the same sequence number, and gets a verdict of its own; the
    sequence number and timestamp inside the encryption are never compared. *)
Theorem replay_under_new_id e inc body old i s :
  fresh_ids (ag_world s) → env_type e = MESSAGE →
  open_message keypair e = Ok inc → column_text (ct_body (in_content inc)) = Some body →
  getMessage (in_messageId inc) (ag_db s) = Some old → getMessage i (ag_db s) = None →
  let s' := (dispatch config keypair (relabel i e) s).2 in
  getMessage (in_messageId inc) (ag_db s') = Some old ∧
  ∃ m now, getMessage i (ag_db s') =
      Some (set_state (v_state (verdict_on config m s)) (v_reason (verdict_on config m s)) now (as_text m)) ∧
    m_connectionAddress m = env_fromAddress e ∧ m_body m = body ∧ m_sequence m = in_sequence inc.
Proof using UL.
  intros Hf Ht Ho Hb Hold Hi s'. subst s'. unfold dispatch. cbn [env_type relabel]. rewrite Ht.
  fold (relabel i e). destruct (handleIncomingMessage config keypair (relabel i e) s) as [r s'] eqn:Hr.
  pose proof (receive_cases config keypair _ s r s' Hf Hr) as H.
  rewrite (open_relabel i e inc Ho) in H. cbn [in_content in_messageId] in H. rewrite Hb, Hi in H.
  cbv zeta in H. destruct H as ((now & H) & Hrest & _). cbn [snd]. split.
  - rewrite Hrest, Hold; [done|]. intros E. by rewrite E, Hi in Hold.
  - eexists _, now. split; [exact H|]. done.
Qed.

(** The verdict on whoever is not an active peer. *)
Lemma verdict_refused m s :
  cstate <$> ag_conn (m_connectionAddress m) s ≠ Some active →
  (∀ c, ag_conn (m_connectionAddress m) s = Some c → no_switch c) →
  v_state (verdict_on config m s) = "failed".
Proof.
  intros Hna Hsw. unfold verdict_on, pipeline_verdict, switch_verdict, check_verdict.
  change (getConnection (m_connectionAddress m) (w_store (ag_world (stored m s))))
    with (ag_conn (m_connectionAddress m) s).
  destruct (ag_conn (m_connectionAddress m) s) as [c|] eqn:Hc; cbn [mbind option_bind]; [|done].
  destruct (Hsw c eq_refl) as [-> ->]. rewrite bool_decide_eq_false_2; [done|].
  intros Ha. apply Hna. cbn. by rewrite Ha.
Qed.

(** A message nobody asked for is answered: from an unknown, rejected, revoked or
    blocked sender it is stored as failed, and yet, once the handler has
    returned, a signed confirmation of its delivery has gone to that sender. *)
Theorem unknown_sender_confirmed e inc body own s s' :
  fresh_ids (ag_world s) →
  open_message keypair e = Ok inc → column_text (ct_body (in_content inc)) = Some body →
  getMessage (in_messageId inc) (ag_db s) = None →
  cstate <$> ag_conn (env_fromAddress e) s ≠ Some active →
  (∀ c, ag_conn (env_fromAddress e) s = Some c → no_switch c) →
  assignedAddress (ag_relay s) = Some own → own ≠ "" →
  handleIncomingMessage config keypair e s = (Ok tt, s') →
  (∃ m, getMessage (in_messageId inc) (ag_db s') = Some m ∧ m_state m = "failed") ∧
  ∃ t sg, sent (ag_relay s') = sent (ag_relay s) ++
            [confirm_envelope own (env_fromAddress e) (in_messageId inc) t sg] ∧
          signDeliveryConfirmation (utf8_encode (in_messageId inc)) t (privateKey keypair) = Ok sg.
Proof.
  intros Hf Ho Hb Hi Hna Hsw Hown Hne Hr.
  destruct (receive_run config keypair e inc body s _ _ Ho Hb Hf Hi Hr) as (w2 & (now & Hm) & _ & _ & _ & Hc).
  destruct (sendDeliveryConfirmation_run keypair _ _ _ _ _ Hc) as ((_ & W2 & _) & Hrel).
  split.
  - eexists. split; [unfold ag_db; rewrite W2; exact Hm|]. cbn [m_state set_state].
    by apply verdict_refused.
  - destruct Hrel as [[_ Hno]|(_ & _ & own' & t & sg & Hown' & _ & Hs & ->)].
    + specialize (Hno eq_refl). cbn in Hno. rewrite Hown in Hno. cbn in Hno.
      by rewrite bool_decide_eq_false_2 in Hno.
    + cbn in Hown'. rewrite Hown in Hown'. injection Hown' as <-. by exists t, sg.
Qed.
End replay.

(** ** Witnesses *)
Section witnesses.
Import Sample SampleText SampleBox SampleWire SampleEnv.
#[local] Existing Instance mm_env.

Lemma restarted : reachable DEFAULT_CIRCUIT_BREAKER_CONFIG bob bob_received [st_restart]
  (step DEFAULT_CIRCUIT_BREAKER_CONFIG bob st_restart bob_received).
Proof. apply (reach_step _ _ _ []), reach_start. Qed.

Lemma stored_message_immutable_witness :
  ∃ m st reason now, getMessage "0" (ag_db bob_received) = Some m ∧
    getMessage "0" (ag_db (step DEFAULT_CIRCUIT_BREAKER_CONFIG bob st_restart bob_received)) =
      Some (set_state st reason now m).
Proof.
  assert (∃ m, getMessage "0" (ag_db bob_received) = Some m) as [m Hm] by (eexists; vm_compute; reflexivity).
  destruct (stored_message_immutable DEFAULT_CIRCUIT_BREAKER_CONFIG bob bob_received [st_restart] _ "0" m
    restarted Hm) as (st & reason & now & H).
  exists m, st, reason, now. split; [exact Hm|exact H].
Defined.

Lemma handled_at_most_once_witness :
  ∃ err, (dispatch DEFAULT_CIRCUIT_BREAKER_CONFIG bob the_envelope
            (step DEFAULT_CIRCUIT_BREAKER_CONFIG bob st_restart bob_received)).1 = Throw err.
Proof.
  assert (dispatch DEFAULT_CIRCUIT_BREAKER_CONFIG bob the_envelope at_bob = (Ok tt, bob_received)) as H
    by (vm_compute; reflexivity).
  destruct (handled_at_most_once DEFAULT_CIRCUIT_BREAKER_CONFIG bob the_envelope at_bob bob_received
    [st_restart] _ (mm_fresh _ _) eq_refl H restarted) as [err E].
  exists err. rewrite E. reflexivity.
Defined.

Definition inner : Incoming := mkIncoming (mkContent (text_body "hello") human (Some "0") (Some "m0")) 1 "0".
Lemma opens : open_message bob the_envelope = Ok inner.
Proof. vm_compute. reflexivity. Qed.

(** Bob with the message stored, his log rotated. *)
Definition delivered : Agent := put_world (put_db (ag_db bob_received) (ag_world at_bob)) at_bob.

Lemma replay_under_new_id_witness :
  ∃ m now, getMessage "copy" (ag_db (dispatch DEFAULT_CIRCUIT_BREAKER_CONFIG bob (relabel "copy" the_envelope)
                                       delivered).2) =
    Some (set_state (v_state (verdict_on DEFAULT_CIRCUIT_BREAKER_CONFIG m delivered))
            (v_reason (verdict_on DEFAULT_CIRCUIT_BREAKER_CONFIG m delivered)) now (as_text m)) ∧ m_body m = "hello".
Proof.
  assert (∃ old, getMessage "0" (ag_db delivered) = Some old) as [old Hold] by (eexists; vm_compute; reflexivity).
  assert (getMessage "copy" (ag_db delivered) = None) as Hc by (vm_compute; reflexivity).
  destruct (replay_under_new_id DEFAULT_CIRCUIT_BREAKER_CONFIG bob the_envelope inner "hello" old "copy"
    delivered (mm_fresh _ _) eq_refl opens eq_refl Hold Hc) as (_ & m & now & H & _ & Hb & _).
  exists m, now. split; [exact H|exact Hb].
Defined.

(** Bob has rejected Alice. *)
Definition rejected : Agent :=
  mkAgent (world (mkConnection "pinch:a@h" None revoked "" full_manual None None None None None None
                    "2026-01-01T00:00:00.000Z" "2026-01-01T00:00:00.000Z" None) emptyDb)
          (mkRelay (Some "pinch:b@h") true []).

Lemma unknown_sender_confirmed_witness :
  ∃ m c, getMessage "0" (ag_db (handleIncomingMessage DEFAULT_CIRCUIT_BREAKER_CONFIG bob the_envelope rejected).2) =
           Some m ∧ m_state m = "failed" ∧
    sent (ag_relay (handleIncomingMessage DEFAULT_CIRCUIT_BREAKER_CONFIG bob the_envelope rejected).2) = [c].
Proof.
  destruct (handleIncomingMessage DEFAULT_CIRCUIT_BREAKER_CONFIG bob the_envelope rejected) as [r s'] eqn:E.
  assert (r = Ok tt) as -> by (apply (f_equal fst) in E; vm_compute in E; symmetry; exact E).
  assert (cstate <$> ag_conn (env_fromAddress the_envelope) rejected ≠ Some active) as Hna
    by (vm_compute; discriminate).
  assert (∀ c, ag_conn (env_fromAddress the_envelope) rejected = Some c → no_switch c) as Hsw
    by (intros c Hc; vm_compute in Hc; injection Hc as <-; split; reflexivity).
  destruct (unknown_sender_confirmed DEFAULT_CIRCUIT_BREAKER_CONFIG bob the_envelope inner "hello" "pinch:b@h"
    rejected s' (mm_fresh _ _) opens eq_refl eq_refl Hna Hsw eq_refl ltac:(discriminate) E)
    as ((m & Hm & Hst) & t & sg & Hs & _).
  exists m. eexists. split; [exact Hm|]. split; [exact Hst|exact Hs].
Defined.
End witnesses.
