(* ===== verification/Log.v ===== *)
(** The activity log over the whole life of the skill.  What the log is to the
    steps is a class: everything but [record] leaves it alone.  Its first use is
    that ids stay fresh; its second that the log is only appended to and is one hash
    chain, which the audit tool passes, when its entries are in the order of their
    times and ids, as they are in every state that can be reached if the clock and
    the ids never step back. *)
From S2P Require Import Prelude JsLib JsDate Platform Identity PermissionsManifest ConnectionStore.
From S2P Require Import MessageStore ActivityFeed AuditVerify World CircuitBreaker InboundRouter.
From S2P Require Import PermissionsEnforcer EnforcementPipeline Text Envelope ConnectionManager.
From S2P Require Import Args ArgsSpec PermissionsTool Delivery Crypto MessageManager Tools Steps Rows.
From Stdlib Require Import Ascii.
From stdpp Require Import gmap.

(** Kept while time passes, and by [record]. *)
Class FeedFrame `{EN : Env, SH : Sha256, SQ : SqlEngine} (R : relation World) : Prop := {
  ff_preorder :: PreOrder R;
  ff_same w w' : w_feed w' = w_feed w → w_tick w ≤ w_tick w' → R w w';
  ff_record e : moves R (w_record e)
}.

Section frame.
Context `{EN : Env, SH : Sha256, SQ : SqlEngine, SB : SqlBind, LO : Locale, B58 : Base58, B64 : Base64}.
Context `{UN : Unicode, WI : Wire, ED : Ed25519, NB : NaclBox}.
Context (config : CircuitBreakerConfig) (keypair : Keypair) (R : relation World) `{!FeedFrame R}.

Definition Rlog : relation Agent := λ s s', R (ag_world s) (ag_world s').
Definition log_permits : Permits :=
  mkPermits (λ _ _ _, True) (λ _, True) (λ _ _, True) (λ _, True) (λ _, True).

#[local] Instance Rlog_preorder : PreOrder Rlog.
Proof. unfold Rlog. split; [intros s; reflexivity|]. intros x y z H1 H2. by etrans. Qed.

Lemma ff_world {A} (m : M World A) : moves R m → moves (world_rel Rlog) m.
Proof. intros Hm w r. exact (Hm w). Qed.
Lemma ff_zoom {S A} (l : lens World S) (m : M S A) :
  (∀ w x, w_feed (put l x w) = w_feed w ∧ w_tick (put l x w) = w_tick w) →
  moves (world_rel Rlog) (zoom l m).
Proof.
  intros Hl. apply ff_world. apply (moves_zoom _ (λ _ _, True)); [done|]. intros w x _.
  destruct (Hl w x) as [E1 E2]. by apply ff_same; [|rewrite E2].
Qed.

#[local] Instance log_calls : Calls Rlog log_permits.
Proof.
  assert (∀ A (m : M ConnectionStore A), moves (world_rel Rlog) (zoom storeL m)) as Hs by (intros; by apply ff_zoom).
  assert (∀ A (m : M MessageDb A), moves (world_rel Rlog) (zoom dbL m)) as Hd by (intros; by apply ff_zoom).
  assert (∀ A (f : nat → A), moves (world_rel Rlog) (ask f)) as Ha.
  { intros A f. apply ff_world. intros w. apply ff_same; [done|]. cbn. lia. }
  assert (∀ e, moves (world_rel Rlog) (w_record e)) as Hr by (intros; apply ff_world, ff_record).
  split; try (intros; first [apply Hs|apply Hd]).
  - apply _.
  - exact Ha.
  - intros. by apply ff_zoom.
  - exact Hr.
  - intros. by apply moves_trip; [apply _|..].
  - intros e _ s. rewrite send_run. unfold Rlog. destruct (connected _); reflexivity.
  - intros s. by apply (ff_same (R:=R)).
  - intros own _ s. unfold Rlog. reflexivity.
  - intros s. unfold Rlog. reflexivity.
Qed.
#[local] Instance log_manager_calls : ManagerCalls Rlog log_permits.
Proof. split; [apply _|intros; by apply ff_zoom..|done]. Qed.

Lemma ff_step st s : R (ag_world s) (ag_world (step config keypair st s)).
Proof using FeedFrame0 SQ.
  revert s. apply (moves_step config keypair Rlog log_permits).
  - left. intros params. by apply (moves_sendMessage keypair Rlog log_permits).
  - destruct st; cbn; try done. by destruct relay.
Qed.

Lemma ff_reachable s0 tr s : reachable config keypair s0 tr s → R (ag_world s0) (ag_world s).
Proof using FeedFrame0 SQ.
  induction 1 as [|tr s st _ IH]; [reflexivity|]. etrans; [exact IH|apply ff_step].
Qed.
End frame.

(** ** First use: what is drawn is new *)
Section fresh.
Context `{EN : Env, SH : Sha256, SQ : SqlEngine, SB : SqlBind, LO : Locale, B58 : Base58, B64 : Base64}.
Context `{UN : Unicode, WI : Wire, ED : Ed25519, NB : NaclBox}.

Definition stays_fresh : relation World := λ w w', w_tick w ≤ w_tick w' ∧ (fresh_ids w → fresh_ids w').

#[export] Instance stays_fresh_frame : FeedFrame stays_fresh.
Proof.
  split.
  - split; [by split|]. intros x y z [L1 H1] [L2 H2]. split; [lia|auto].
  - intros w w' E L. split; [done|]. intros H. by apply (fresh_ids_tick w).
  - intros e w. split.
    + unfold w_record, uuidv7, date_now, zoom, mbind, M_bind, ask. cbn.
      destruct (record _ _ _ _) as [[]]; cbn; lia.
    + intros Hf. destruct (w_record_fresh e w Hf) as (ev & row & -> & _ & H). exact H.
Qed.

Lemma reachable_fresh config keypair s0 tr s :
  reachable config keypair s0 tr s → fresh_ids (ag_world s0) → fresh_ids (ag_world s).
Proof. intros Hr. apply (ff_reachable config keypair stays_fresh s0 tr s Hr). Qed.
End fresh.

(** ** Second use: the chain *)
Section log.
Context `{EN : Env, SH : Sha256, SQ : SqlEngine, SB : SqlBind, LO : Locale, B58 : Base58, B64 : Base64}.
Context `{UN : Unicode, WI : Wire, ED : Ed25519, NB : NaclBox}.
Context `{SHL : !Sha256Laws, SQL : !SqlLaws}.
Context (config : CircuitBreakerConfig) (keypair : Keypair).

Lemma chained_app l l' : chained (l ++ l') = chained l ++ chained l'.
Proof. apply filter_app. Qed.

(** *** Whatever the clock does: entries are only appended, and they are one chain if
    they are in the order of their times and ids *)
Definition one_chain (rows : list ActivityRow) : Prop :=
  StronglySorted key_lt rows → feed_ok rows ∧ chained rows = rows.
Definition links : relation World := λ w w',
  w_feed w `prefix_of` w_feed w' ∧ (one_chain (w_feed w) → one_chain (w_feed w')).

#[local] Instance links_preorder : PreOrder links.
Proof. split; [by intros w|]. intros x y z [P1 H1] [P2 H2]. split; [by etrans|auto]. Qed.

Lemma sorted_snoc rows r :
  StronglySorted key_lt (rows ++ [r]) → StronglySorted key_lt rows ∧ ∀ r', r' ∈ rows → key_lt r' r.
Proof.
  intros Hs. split; [by eapply StronglySorted_app_1_l|]. intros r' Hr.
  by eapply StronglySorted_app_1_elem_of; [exact Hs|exact Hr|apply list_elem_of_singleton].
Qed.

Lemma record_links i t e rows : let rows' := (record i t e rows).2 in
  rows `prefix_of` rows' ∧ (one_chain rows → one_chain rows').
Proof using SHL SQL.
  destruct (decide (i ∈ id <$> rows)) as [Hi|Hi].
  { unfold record, gets, mbind, M_bind. by rewrite bool_decide_eq_true_2. }
  destruct (record_run i t e rows Hi) as [ev E]. rewrite E. cbn. set (r := new_row _ _ _ _).
  split; [by apply prefix_app_r|]. intros H [Hs Hlt]%sorted_snoc. destruct (H Hs) as [Hok Hc].
  destruct (record_step i t e rows Hok) as (ev' & r' & E' & Hok' & _ & _ & Hc').
  { intros x Hx. exact (Hlt x Hx). }
  rewrite E in E'. assert (r = r') as <- by (apply (f_equal snd), app_inv_head in E'; by injection E').
  split; [done|]. by rewrite Hc', Hc.
Qed.

#[export] Instance links_frame : FeedFrame links.
Proof using SHL SQL.
  split; [apply _|..].
  - intros w w' E _. unfold links. by rewrite E.
  - intros e [t s d f ev]. unfold w_record, uuidv7, date_now, ask, zoom, mbind, M_bind, links. cbn.
    destruct (record_links (env_uuid t) (isoString (env_now (S t))) e f) as [H1 H2].
    by destruct (record _ _ _ _) as [[] f'].
Qed.

(** What follows on an empty log extends what was there, and passes the audit if its
    entries are in the order of their keys. *)
Lemma linked_log_verifies w0 w1 w2 tail :
  w_feed w0 = [] → links w0 w1 → links w1 w2 →
  match tail with Some n => (0 < n)%Z | None => True end →
  let rows := w_feed w2 in
  let entries := match tail with Some n => drop (length rows - Z.to_nat n) rows | None => rows end in
  w_feed w1 `prefix_of` rows ∧
  (StronglySorted key_lt rows →
   audit_verify tail rows = Valid (length rows) (length entries) (id <$> head entries) (id <$> last entries)).
Proof using SHL SQL.
  intros H0 [_ H1] [P H2] Ht rows entries. split; [exact P|]. intros Hs.
  assert (one_chain (w_feed w0)) as L0 by (rewrite H0; split; [apply feed_ok_nil|done]).
  destruct (H2 (H1 L0) Hs) as [Hok Hc]. rewrite (audit_verify_ok _ tail Hok Ht). cbv zeta. by rewrite Hc.
Qed.

(** *** When the clock and the ids never step back *)

(** What the log relies on: the clock does not run backwards and stays within the
    dates that print, and a later id is the greater one, which [uuidv7] documents
    of the ids of one process and which holds of two processes when the second
    starts a millisecond after the first has stopped. *)
Record orderly : Prop := {
  ord_clock : clock_monotone;
  ord_range n : iso_range (env_now n);
  ord_ids m n : m < n → String.ltb (env_uuid m) (env_uuid n) = true
}.
Context (env_orderly : orderly).

(** The draw of [record] at tick [n]: the id, then the time. *)
Definition draw (n : nat) (e : EventInput) : audit_entry := (env_uuid n, isoString (env_now (S n)), e).

(** The log is in order and chained, and whatever is recorded next comes last. *)
Definition logged (w : World) : Prop :=
  feed_ok (w_feed w) ∧
  ∀ r n e, r ∈ w_feed w → w_tick w ≤ n → key_lt r (row_of_draw (draw n e)).

Definition appends : relation World := λ w w',
  w_tick w ≤ w_tick w' ∧
  (logged w → logged w' ∧ ∃ new, w_feed w' = w_feed w ++ new ∧ chained new = new).

#[local] Instance appends_preorder : PreOrder appends.
Proof.
  split; [intros w; split; [done|]; intros; split; [done|exists []; by rewrite app_nil_r]|].
  intros x y z [L1 H1] [L2 H2]. split; [lia|]. intros [Hy (n1 & E1 & C1)]%H1.
  destruct (H2 Hy) as [Hz (n2 & E2 & C2)]. split; [done|]. exists (n1 ++ n2).
  rewrite E2, E1, app_assoc. split; [done|]. by rewrite chained_app, C1, C2.
Qed.
Lemma log_same w w' : w_feed w' = w_feed w → w_tick w ≤ w_tick w' → appends w w'.
Proof.
  intros E L. split; [done|]. intros [H1 H2]. unfold logged. rewrite E.
  split; [|exists []; by rewrite app_nil_r].
  split; [done|]. intros r n e Hr Hn. apply H2; [done|lia].
Qed.

(** A draw precedes every later one. *)
Lemma draw_order m n e f : S m < n → key_lt (row_of_draw (draw m e)) (row_of_draw (draw n f)).
Proof using env_orderly.
  destruct env_orderly as [Hc Hr Hi]. intros L. assert (m < n) as Lm by lia. pose proof (Hi m n Lm) as Hlt.
  unfold key_lt, key_asc, draw. cbn [row_of_draw created_at id].
  rewrite isoString_compare by apply Hr. split.
  - assert (env_now (S m) <= env_now (S n))%Z as Ht by (apply Hc; lia).
    destruct (env_now (S m) ?= env_now (S n))%Z eqn:E; [|done|by apply Z.compare_gt_iff in E; lia].
    unfold String.ltb, String.leb in *. by destruct (String.compare (env_uuid m) (env_uuid n)).
  - intros E. rewrite E in Hlt. unfold String.ltb in Hlt. by rewrite str_compare_refl in Hlt.
Qed.

Lemma w_record_log e : moves appends (w_record e).
Proof using env_orderly SHL SQL.
  intros [t s d f ev]. unfold w_record, uuidv7, date_now, ask, zoom, mbind, M_bind. cbn.
  split; [by destruct (record _ _ _ _) as [[]]; cbn; lia|]. intros [Hok Hlt]. cbn in *.
  destruct (record_step (env_uuid t) (isoString (env_now (S t))) e f Hok) as (x & r & Hrun & Hok' & Hi & Ht & Hc).
  { intros r Hr. exact (Hlt r t e Hr (Nat.le_refl t)). }
  rewrite Hrun. cbn. split; [|exists [r]; split; [done|]; rewrite chained_app in Hc; by apply app_inv_head in Hc].
  split; [done|]. cbn.
  intros r' n e' [Hr' | ->%list_elem_of_singleton]%elem_of_app Hn; [apply (Hlt r' n e'); [done|lia]|].
  assert (S t < n) as Hn' by (cbn in Hn; lia). pose proof (draw_order t n e e' Hn') as H. unfold key_lt, key_asc in *. cbn in *. by rewrite Hi, Ht.
Qed.

#[local] Instance appends_frame : FeedFrame appends.
Proof using env_orderly SHL SQL. split; [apply _|apply log_same|apply w_record_log]. Qed.

(** What follows on an empty log passes the audit, and extends what was there. *)
Lemma appended_log_verifies w0 w1 w2 tail :
  w_feed w0 = [] → appends w0 w1 → appends w1 w2 →
  match tail with Some n => (0 < n)%Z | None => True end →
  let rows := w_feed w2 in
  let entries := match tail with Some n => drop (length rows - Z.to_nat n) rows | None => rows end in
  w_feed w1 `prefix_of` rows ∧
  audit_verify tail rows = Valid (length rows) (length entries) (id <$> head entries) (id <$> last entries).
Proof using env_orderly SHL SQL.
  intros H0 [_ H1] [_ H2] Ht rows entries.
  assert (logged w0) as L0.
  { unfold logged. rewrite H0. split; [apply feed_ok_nil|]. intros r n e Hr. by apply not_elem_of_nil in Hr. }
  destruct (H1 L0) as [L1 (n1 & E1 & C1)], (H2 (proj1 (H1 L0))) as [[L2 _] (n2 & E2 & C2)].
  rewrite H0 in E1. cbn in E1. fold rows in E2, L2. split; [by exists n2|].
  assert (chained rows = rows) as Hc by (by rewrite E2, E1, chained_app, C1, C2).
  rewrite (audit_verify_ok rows tail L2 Ht). cbv zeta. by rewrite Hc.
Qed.

(** The log of a running skill always verifies: whatever operations, envelopes,
    tool runs and restarts have followed on an empty log, the audit tool passes
    over every entry, its first and last named, and over any number of the
    latest; and since the skill only appends, the log of any earlier state is
    a prefix of the later one, which an earlier export can be compared with. *)
Theorem running_log_verifies s0 tr1 s1 tr2 s2 tail :
  w_feed (ag_world s0) = [] →
  reachable config keypair s0 tr1 s1 → reachable config keypair s1 tr2 s2 →
  match tail with Some n => (0 < n)%Z | None => True end →
  let rows := w_feed (ag_world s2) in
  let entries := match tail with Some n => drop (length rows - Z.to_nat n) rows | None => rows end in
  w_feed (ag_world s1) `prefix_of` rows ∧
  audit_verify tail rows = Valid (length rows) (length entries) (id <$> head entries) (id <$> last entries).
Proof using env_orderly SHL SQL.
  intros H0 H1%(ff_reachable config keypair appends) H2%(ff_reachable config keypair appends).
  by apply (appended_log_verifies (ag_world s0)).
Qed.
End log.

(** ** Witness: a muted peer writes, before and after a restart *)
Section witnesses.
Import Sample SampleText SampleBox SampleWire SampleEnv.

Fixpoint unary (n : nat) : string := match n with 0 => "" | S n => String "i" (unary n) end.

Lemma unary_lt m n : m < n → String.ltb (unary m) (unary n) = true.
Proof.
  rewrite str_ltb_compare. revert n. induction m as [|m IH]; intros [|n] H; [lia|done|lia|].
  cbn. unfold Ascii.compare. rewrite N.compare_refl. apply IH. lia.
Qed.

(** Ids in unary; a clock that stops after a thousand readings. *)
#[local] Instance log_env : Env := {|
  env_now n := (1000 * Z.of_nat (Nat.min n 1000))%Z;
  env_uuid n := unary n;
  evaluatePolicy _ _ := None;
  checkInformationBoundary _ _ _ := None
|}.

Lemma log_env_orderly : orderly.
Proof.
  split; [intros m n Hl; cbn; lia|intros n; unfold iso_range; cbn; lia|apply unary_lt].
Qed.

(** Bob has muted Alice: every message of hers is one entry. *)
Definition at_muted : Agent :=
  mkAgent (world (mkConnection "pinch:a@h" (Some (base64_encode [Byte.x41])) active "" full_auto None None
                    (Some defaultPermissionsManifest) (Some true) None None
                    "2026-01-01T00:00:00.000Z" "2026-01-01T00:00:00.000Z" None) emptyDb)
          (mkRelay (Some "pinch:b@h") true []).

#[local] Abbreviation bobs_steps := (steps DEFAULT_CIRCUIT_BREAKER_CONFIG bob).
Definition before_restart : list Step := [st_save; st_message the_envelope].
Definition after_restart : list Step := [st_restart; st_message (relabel "copy" the_envelope)].
Definition muted_once : Agent := bobs_steps before_restart at_muted.

Lemma running_log_verifies_witness :
  ∃ i j, audit_verify None (w_feed (ag_world muted_once)) = Valid 1 1 (Some i) (Some i) ∧
    audit_verify None (w_feed (ag_world (bobs_steps after_restart muted_once))) = Valid 2 2 (Some i) (Some j).
Proof.
  destruct (running_log_verifies DEFAULT_CIRCUIT_BREAKER_CONFIG bob log_env_orderly at_muted
    before_restart muted_once after_restart (bobs_steps after_restart muted_once) None eq_refl
    (reachable_steps _ _ _ _) (reachable_steps _ _ _ _) I) as [_ H].
  eexists _, _. rewrite H. vm_compute. split; reflexivity.
Defined.
End witnesses.
