(* ===== verification/Skill.v ===== *)
(** What holds of the whole skill, from the frames of its steps: Full Auto was
    confirmed by a human, the store stays well-formed in memory and on disk, and
    the levels that occur are the declared ones. *)
From S2P Require Import Prelude JsLib JsDate Platform Identity PermissionsManifest ConnectionStore.
From S2P Require Import MessageStore ActivityFeed World CircuitBreaker InboundRouter.
From S2P Require Import PermissionsEnforcer EnforcementPipeline Text Envelope ConnectionManager.
From S2P Require Import Args ArgsSpec PermissionsTool Delivery Crypto MessageManager Tools Steps.
From stdpp Require Import gmap.

(** ** First use: Full Auto is only ever confirmed by a human *)

(** Full Auto in memory, or in the file the next process will load. *)
Definition full_auto_at (a : string) (l : list (string * Connection)) : Prop :=
  ∃ c, Obj.get a l = Some c ∧ autonomyLevel c = full_auto.
Definition armed (a : string) (st : ConnectionStore) : Prop :=
  full_auto_at a (connections (data st)) ∨
  ∃ d, file st = Json d ∧ full_auto_at a (connections d).

Definition no_gain (a : string) (st st' : ConnectionStore) : Prop := armed a st' → armed a st.

Definition unconfirmed (a b : string) (level : AutonomyLevel) (confirmed : option bool) : Prop :=
  ¬ (b = a ∧ level = full_auto ∧ confirmed = Some true).

Lemma live_level m c : autonomyLevel (with_live_manifest m c) = autonomyLevel c.
Proof. apply (live_standing m c). Qed.

Lemma no_gain_write a b c st :
  (b = a → autonomyLevel c = full_auto → armed a st) →
  no_gain a st (set_connections (Obj.set b c) st).
Proof.
  intros Hc [(c' & Hg & Hl)|Hf]; [|by right]. simpl in Hg. rewrite Obj.get_set in Hg.
  case_decide; [simplify_eq; by apply Hc|]. left. by exists c'.
Qed.

Lemma armed_mem a st c :
  getConnection a st = Some c → autonomyLevel c = full_auto → armed a st.
Proof. intros Hc Hl. left. by exists c. Qed.

#[export] Instance no_gain_preorder a : PreOrder (no_gain a).
Proof. split; [by intros st H|]. intros x y z H1 H2 H. by apply H1, H2. Qed.

Lemma no_gain_update a now b u :
  plain_level (upd_autonomyLevel u) = true → moves (no_gain a) (updateConnection now b u).
Proof.
  intros Hu st. destruct (getConnection b st) as [c|] eqn:E.
  - rewrite (updateConnection_run _ _ _ _ _ E). apply no_gain_write. intros -> Hl.
    apply (armed_mem _ _ _ E). simpl in Hl. by destruct (upd_autonomyLevel u) as [[]|]; simplify_eq/=.
  - by rewrite updateConnection_missing.
Qed.

Lemma no_gain_autonomy a now b level confirmed :
  unconfirmed a b level confirmed → moves (no_gain a) (setAutonomy now b level confirmed).
Proof.
  intros Hok st. destruct (getConnection b st) as [c|] eqn:E; [|by rewrite setAutonomy_missing].
  rewrite (setAutonomy_run _ _ _ _ _ _ E). case_decide as Hg; [done|]. apply no_gain_write.
  destruct (with_level_fields now level c) as [-> _]. intros -> ->. apply (armed_mem _ _ _ E).
  destruct (decide (autonomyLevel c = full_auto)) as [|Hne]; [done|exfalso].
  destruct (decide (confirmed = Some true)); [by apply Hok|by apply Hg].
Qed.

#[export] Instance no_gain_frame a : StoreFrame (no_gain a) (unconfirmed a).
Proof.
  split; [split; [apply _|..]|..].
  - intros st [H|(d & [= <-] & H)]; by left.
  - intros now b u Hu%settings_plain. by apply no_gain_update.
  - intros b m st. unfold edit_in_place. destruct (getConnection b st) as [c|] eqn:E; [|done].
    apply no_gain_write. intros -> Hl. apply (armed_mem _ _ _ E). by rewrite live_level in Hl.
  - intros now b level confirmed. apply no_gain_autonomy.
  - intros now st [(c & Hg & Hl)|(d & Hf & H)].
    + left. pose proof (expire_get now st a) as He. unfold getConnection in He at 1.
      rewrite Hg in He. destruct (getConnection a st) as [c0|] eqn:E; [|done].
      exists c0. split; [done|]. injection He as ->. simpl in Hl. by destruct (expired _ _).
    + right. exists d. split; [|done]. revert Hf. unfold expirePendingRequests.
      by destruct (expire_loop _ _).
  - assert (∀ l, full_auto_at a (Obj.map_values clear_passthrough l) → full_auto_at a l) as Hcl.
    { intros l (c & Hg & Hl). rewrite Obj.get_map_values in Hg.
      apply fmap_Some in Hg as (c0 & Hg & ->). exists c0. split; [done|].
      unfold clear_passthrough in Hl. by case_match. }
    intros st H. right. unfold openStore, load, clearPassthroughFlags, save, modify in H.
    unfold mbind, M_bind in H. simpl in H.
    destruct (file st) as [| |d] eqn:Ef; simpl in H;
      [by destruct H as [(? & ? & _)|(? & [= <-] & ? & ? & _)]..|].
    exists d. split; [done|]. by destruct H as [H|(d' & [= <-] & H)]; apply Hcl.
  - intros now b u. apply no_gain_update.
  - intros now i Hi st. unfold addConnection. case_match; [done|].
    apply no_gain_write. simpl. intros _ Hl. by destruct (in_autonomyLevel i) as [[]|]; simplify_eq/=.
Qed.

(** ** Second use: the store is well-formed, in memory and on disk *)
Definition file_wf (st : ConnectionStore) : Prop :=
  ∀ d, file st = Json d → store_wf (mkStore d NoFile).
Definition keeps_wf (st st' : ConnectionStore) : Prop :=
  store_wf st ∧ file_wf st → store_wf st' ∧ file_wf st'.

#[export] Instance keeps_wf_preorder : PreOrder keeps_wf.
Proof. split; [by intros st H|]. intros x y z H1 H2 H. by apply H2, H1. Qed.

Lemma keeps_wf_mem st st' :
  file st' = file st → (store_wf st → store_wf st') → keeps_wf st st'.
Proof. intros E H [Hm Hf]. split; [by apply H|]. intros d Hd. apply Hf. congruence. Qed.

Lemma keeps_wf_update now a u : moves keeps_wf (updateConnection now a u).
Proof.
  intros st. apply keeps_wf_mem; [|apply store_wf_update].
  destruct (getConnection a st) as [c|] eqn:E;
    [by rewrite (updateConnection_run _ _ _ _ _ E)|by rewrite updateConnection_missing].
Qed.

Lemma store_wf_write a c c' st :
  getConnection a st = Some c → peerAddress c' = peerAddress c → store_wf st →
  store_wf (set_connections (Obj.set a c') st).
Proof.
  intros Hc Hp Hwf. rewrite <- (store_wf_address _ _ _ Hwf Hc), <- Hp. by apply store_wf_set.
Qed.

Lemma clear_passthrough_address c : peerAddress (clear_passthrough c) = peerAddress c.
Proof. unfold clear_passthrough. by case_match. Qed.

#[export] Instance keeps_wf_frame : StoreFrame keeps_wf (λ _ _ _, True).
Proof.
  split; [split; [apply _|..]|..].
  - intros st [Hm Hf]. split; [done|]. by intros d [= <-].
  - intros now a u _. apply keeps_wf_update.
  - intros a m st. unfold edit_in_place. destruct (getConnection a st) as [c|] eqn:E; [|done].
    apply keeps_wf_mem; [done|]. apply (store_wf_write a c); [done|]. apply (live_standing m c).
  - intros now a level confirmed _ st.
    destruct (getConnection a st) as [c|] eqn:E; [|by rewrite setAutonomy_missing].
    rewrite (setAutonomy_run _ _ _ _ _ _ E). case_decide; [done|].
    apply keeps_wf_mem; [done|]. apply (store_wf_write a c); [done|]. unfold with_level. by case_match.
  - intros now st. apply keeps_wf_mem; [unfold expirePendingRequests; by destruct (expire_loop _ _)|].
    unfold expirePendingRequests. rewrite expire_loop_spec. simpl.
    apply (store_wf_map st (λ c, if expired (isoString now) c then revoke_expired (isoString now) c else c)).
    intros c. by case_match.
  - intros st [_ Hf].
    assert (store_wf (openStore (newStore (file st))).2) as Hw.
    { unfold openStore, load, clearPassthroughFlags, save, modify, mbind, M_bind.
      simpl. apply (store_wf_map (mkStore _ NoFile)); [apply clear_passthrough_address|].
      destruct (file st) as [| |d] eqn:Ef; [by split; [constructor|intros ? ? ?%not_elem_of_nil]..|].
      by apply (Hf d). }
    split; [done|]. by intros d [= <-].
  - intros now a u _. apply keeps_wf_update.
  - intros now i _ st. unfold addConnection. case_match; [done|].
    apply keeps_wf_mem; [done|]. intros H'. by apply store_wf_set.
Qed.

(** ** Third use: the levels that occur

    A set of levels that contains Full Manual and every level that [setAutonomy]
    is called with contains every level in memory and in the file. *)
Section levels.
Context (L : AutonomyLevel → Prop) (L_manual : L full_manual).

Definition levels_in : ConnectionStore → Prop := everywhere (λ _ c, L (autonomyLevel c)).
Definition keeps_levels : relation ConnectionStore := keeps (λ _ c, L (autonomyLevel c)).

Lemma plain_in (o : option AutonomyLevel) l : plain_level o = true → o = Some l → L l.
Proof. by intros Ho ->; destruct l. Qed.

Lemma assign_level_in u c now :
  plain_level (upd_autonomyLevel u) = true → L (autonomyLevel c) → L (autonomyLevel (assign c u now)).
Proof.
  intros Hu Hc. simpl. destruct (upd_autonomyLevel u) as [l|] eqn:E; [|done]. by apply (plain_in _ l Hu).
Qed.

#[export] Instance keeps_levels_frame : StoreFrame keeps_levels (λ _ level _, L level).
Proof.
  split; [apply keeps_frame; split|..].
  - intros a c u now Hu%settings_plain. by apply assign_level_in.
  - intros a c m. by rewrite live_level.
  - intros a c now level confirmed Hl _. by destruct (with_level_fields now level c) as [-> _].
  - done.
  - intros a c. unfold clear_passthrough. by case_match.
  - intros now a u Hu. apply keeps_update. intros c. by apply assign_level_in.
  - intros now i Hi st. unfold addConnection. case_match; [done|]. apply everywhere_write. intros _. simpl.
    destruct (in_autonomyLevel i) as [l|] eqn:E; [|done]. by apply (plain_in _ l Hi).
Qed.
End levels.

Section theorems.
Context `{EN : Env, SH : Sha256, SQ : SqlEngine, SB : SqlBind, LO : Locale, B58 : Base58, B64 : Base64}.
Context `{UN : Unicode, WI : Wire, ED : Ed25519, NB : NaclBox}.
Context (config : CircuitBreakerConfig) (keypair : Keypair).

(** The command line of pinch-autonomy confirms Full Auto for [a]. *)
Definition confirming_args (a : string) (t : Tool) (args : list string) : Prop :=
  t = pinch_autonomy ∧ ∃ p, autonomy_parseArgs args = Ok p ∧
    ua_address p = a ∧ ua_level p = full_auto ∧ ua_confirmed p = true.

(** The human confirmed Full Auto for [a]. *)
Definition confirms (a : string) (st : Step) : Prop :=
  match st with
  | st_tool t args | st_process_of t _ args => confirming_args a t args
  | st_setAutonomy b level confirmed => b = a ∧ level = full_auto ∧ confirmed = Some true
  | _ => False
  end.

Lemma tool_confirms_or_ok a t args : confirming_args a t args ∨ tool_ok (unconfirmed a) t args.
Proof.
  unfold confirming_args, tool_ok, unconfirmed.
  destruct (decide (t = pinch_autonomy)) as [->|]; [|by right].
  destruct (autonomy_parseArgs args) as [p|] eqn:E; [|by right].
  destruct (decide (ua_address p = a ∧ ua_level p = full_auto ∧ Some (ua_confirmed p) = Some true))
    as [(? & ? & [= ?])|Hn]; [left; eauto 8|right]. by intros _ p' [= <-].
Qed.

Lemma confirms_or_ok a st : confirms a st ∨ step_ok (unconfirmed a) st.
Proof.
  destruct st as [| | | | |t args|t relay args|b l c| | | | | | |]; simpl; auto using tool_confirms_or_ok.
  unfold unconfirmed. destruct (decide (b = a ∧ l = full_auto ∧ c = Some true)); auto.
Qed.

Lemma reachable_armed a s0 tr s :
  installed s0 → reachable config keypair s0 tr s → armed a (ag_store s) → Exists (confirms a) tr.
Proof.
  intros Hi. induction 1 as [|tr s st _ IH]; intros Ha.
  - rewrite Hi in Ha. destruct Ha as [(? & ? & _)|(? & ? & _)]; done.
  - apply Exists_app. destruct (confirms_or_ok a st) as [|Hok]; [right; by constructor|left].
    apply IH. apply (fr_step config keypair (no_gain a) (unconfirmed a) st Hok s Ha).
Qed.

(** Full Auto is always a human's decision: from a fresh installation, through
    any sequence of operations, envelopes, processed messages, tool runs and
    restarts, a connection is at Full Auto only if some earlier step set
    exactly that connection to Full Auto with an explicit confirmation. *)
Theorem full_auto_was_confirmed a s0 tr s c :
  installed s0 → reachable config keypair s0 tr s →
  ag_conn a s = Some c → autonomyLevel c = full_auto →
  Exists (confirms a) tr.
Proof. intros Hi Hr Hc Hl. eapply reachable_armed; [done..|]. by apply (armed_mem a _ c). Qed.

(** The store stays well-formed: after any sequence of steps from a fresh
    installation every address has one entry, filed under its own
    [peerAddress], in memory and in the file. *)
Theorem reachable_store_wf s0 tr s :
  installed s0 → reachable config keypair s0 tr s → store_wf (ag_store s) ∧ file_wf (ag_store s).
Proof.
  intros Hi. induction 1 as [|tr s st _ IH].
  - rewrite Hi. split; [|done]. split; [constructor|]. intros k c Hin. by apply not_elem_of_nil in Hin.
  - apply (fr_step config keypair keeps_wf (λ _ _ _, True) st); [by destruct st|done].
Qed.

(** The declared levels. *)
Definition declared (l : AutonomyLevel) : Prop := l ∈ VALID_LEVELS.
(** A step whose direct [setAutonomy] call is typed; a tool's level is text. *)
Definition typed_step (st : Step) : Prop :=
  match st with st_setAutonomy _ level _ => declared level | _ => True end.

Lemma autonomy_level_declared args p : autonomy_parseArgs args = Ok p → declared (ua_level p).
Proof.
  unfold autonomy_parseArgs, res_bind, required. destruct (scan _ _ _) as [f|]; [|done].
  case_bool_decide; [done|]. case_bool_decide; [done|].
  destruct (member level_name VALID_LEVELS (uf_level f)) as [l|] eqn:E; [|done].
  intros [= <-]. by apply (member_Some level_name VALID_LEVELS (uf_level f)).
Qed.

(** C35. Type soundness of the stored levels: although the tools read the level from
    text and the code only casts it, after any sequence of steps from a fresh
    installation every level in the store and in its file is one of the four
    declared ones, so no handler meets a level outside its type. *)
Theorem reachable_levels_declared s0 tr s :
  installed s0 → Forall typed_step tr → reachable config keypair s0 tr s →
  levels_in declared (ag_store s).
Proof.
  intros Hi Ht Hr. induction Hr as [|tr s st _ IH].
  - rewrite Hi. split; [constructor|done].
  - apply Forall_app in Ht as [Ht Hst%Forall_inv]. assert (declared full_manual) as Hm by by left.
    assert (∀ t args, tool_ok (λ _ level _, declared level) t args) as Htool
      by (intros t args _ p; apply autonomy_level_declared).
    pose proof (keeps_levels_frame declared Hm) as Hframe.
    assert (step_ok (λ _ level _, declared level) st) as Hok by (destruct st; simpl in *; auto).
    exact (fr_step config keypair (keeps_levels declared) _ st Hok s (IH Ht)).
Qed.

(** An intervention does not outlive the process that started it: after
    [pinch-intervene --start] the next start of the skill clears the flag, so
    the messages of the connection are routed by its autonomy level again. *)
Theorem intervention_lost_at_restart relay a s b c :
  ag_conn b (step config keypair st_restart
    (step config keypair (st_process_of pinch_intervene relay ["--start"; "--connection"; a]) s)) = Some c →
  truthy_bool (passthrough c) = false.
Proof.
  unfold step at 1. cbn [exec]. generalize (step config keypair
    (st_process_of pinch_intervene relay ["--start"; "--connection"; a]) s). intros s1.
  unfold restart, ag_conn, ag_store, openStore, load, clearPassthroughFlags, save, modify, mbind, M_bind.
  unfold getConnection. simpl. rewrite Obj.get_map_values. intros (c0 & _ & ->)%fmap_Some.
  unfold clear_passthrough. by destruct (truthy_bool (passthrough c0)) eqn:E.
Qed.
End theorems.

(** ** Witnesses *)
Section witnesses.
Import Sample SampleText SampleBox SampleWire SampleEnv.
#[local] Instance skill_env : Env := env None None.

Definition fresh_agent : Agent := mkAgent (mkWorld 0 (newStore NoFile) emptyDb [] ∅) offline.

(** A request arrives, is approved, and the human confirms Full Auto. *)
Definition story : list Step :=
  [st_op (op_receive a_request); st_relay_up "pinch:me@h"; st_op (op_approve peer_addr);
   st_tool pinch_autonomy ["--address"; peer_addr; "--level"; "full_auto"; "--confirmed"]].
Definition end_of_story : Agent :=
  fold_left (λ s st, step DEFAULT_CIRCUIT_BREAKER_CONFIG alice st s) story fresh_agent.

Lemma story_reachable : reachable DEFAULT_CIRCUIT_BREAKER_CONFIG alice fresh_agent story end_of_story.
Proof.
  unfold story, end_of_story. simpl fold_left.
  apply (reach_step _ _ _ [_; _; _]), (reach_step _ _ _ [_; _]), (reach_step _ _ _ [_]),
    (reach_step _ _ _ []), reach_start.
Qed.

Lemma full_auto_was_confirmed_witness : Exists (confirms peer_addr) story.
Proof.
  assert (∃ c, ag_conn peer_addr end_of_story = Some c ∧ autonomyLevel c = full_auto) as (c & Hc & Hl)
    by (eexists; split; vm_compute; reflexivity).
  exact (full_auto_was_confirmed DEFAULT_CIRCUIT_BREAKER_CONFIG alice peer_addr fresh_agent story
    end_of_story c eq_refl story_reachable Hc Hl).
Defined.

Lemma reachable_store_wf_witness : store_wf (ag_store end_of_story).
Proof.
  exact (proj1 (reachable_store_wf DEFAULT_CIRCUIT_BREAKER_CONFIG alice fresh_agent story
    end_of_story eq_refl story_reachable)).
Defined.

Lemma reachable_levels_declared_witness : levels_in declared (ag_store end_of_story).
Proof.
  refine (reachable_levels_declared DEFAULT_CIRCUIT_BREAKER_CONFIG alice fresh_agent story
    end_of_story eq_refl _ story_reachable). unfold story. repeat constructor.
Defined.

Definition saved_peer : Agent := step DEFAULT_CIRCUIT_BREAKER_CONFIG alice st_save (peer active online).
Definition intervened : Agent :=
  step DEFAULT_CIRCUIT_BREAKER_CONFIG alice st_restart
    (step DEFAULT_CIRCUIT_BREAKER_CONFIG alice
       (st_process_of pinch_intervene (relay_assigns "pinch:me@h") ["--start"; "--connection"; peer_addr]) saved_peer).

Lemma intervention_lost_at_restart_witness :
  ∃ c, ag_conn peer_addr intervened = Some c ∧ truthy_bool (passthrough c) = false.
Proof.
  assert (∃ c, ag_conn peer_addr intervened = Some c) as [c Hc] by (eexists; vm_compute; reflexivity).
  exists c. split; [exact Hc|].
  exact (intervention_lost_at_restart DEFAULT_CIRCUIT_BREAKER_CONFIG alice
    (relay_assigns "pinch:me@h") peer_addr saved_peer peer_addr c Hc).
Defined.
End witnesses.
