(* ===== verification/Schedules.v ===== *)
(** What holds of the running skill whatever the order of its turns, and what an
    unlucky order can do: instances of [Overlaps], and schedules. *)
From S2P Require Import Prelude Threads JsLib JsDate Platform Identity PermissionsManifest ConnectionStore.
From S2P Require Import StoreText Saving MessageStore ActivityFeed AuditVerify World CircuitBreaker InboundRouter.
From S2P Require Import PermissionsEnforcer EnforcementPipeline Text Envelope ConnectionManager.
From S2P Require Import Args PermissionsTool Delivery Crypto MessageManager Tools Steps Handlers Alone Concurrent.
From S2P Require Import Rows Log Skill.
From stdpp Require Import gmap.

Section instances.
Context `{EN : Env, SH : Sha256, SQ : SqlEngine, SB : SqlBind, LO : Locale, B58 : Base58, B64 : Base64}.
Context `{UN : Unicode, WI : Wire, ED : Ed25519, NB : NaclBox, NT : NumberText}.
Context (config : CircuitBreakerConfig) (keypair : Keypair).

Lemma store_rel_Ra (R : relation ConnectionStore) st st' : R st st' → store_rel (Ra R) st st'.
Proof. intros H s E. unfold Ra. rewrite E. by destruct s as [[] ]. Qed.

Lemma overwritten_json d f d' : overwritten d f = Json d' → d' = d.
Proof. intros E. destruct (overwritten_cases d f) as [H|(rest & _ & H)]; rewrite H in E; by simplify_eq. Qed.

(** ** Full Auto *)
#[export] Instance no_gain_overlaps a :
  Overlaps (Ra (no_gain a)) (store_permits (unconfirmed a)) (λ st, ¬ armed a st)
    (λ d, ¬ full_auto_at a (connections d)).
Proof.
  split.
  - apply _.
  - intros now b u Hu. apply fr_store; [apply _|]. by apply sf_settings.
  - intros s s' H Ha Ha'. by apply Ha, H.
  - intros st Ha Hd. apply Ha. by left.
  - intros st _. apply store_rel_Ra. intros [H|(d & E & _)]; [by left|done].
  - intros d st Hd _. apply store_rel_Ra. intros [H|(d' & E & H)]; [by left|].
    apply overwritten_json in E as ->. done.
Qed.

(** ** The store *)
#[export] Instance keeps_wf_overlaps :
  Overlaps (Ra keeps_wf) (store_permits (λ _ _ _, True)) (λ st, store_wf st ∧ file_wf st)
    (λ d, store_wf (mkStore d NoFile)).
Proof.
  split.
  - apply _.
  - intros now b u Hu. apply fr_store; [apply _|]. by apply sf_settings.
  - intros s s' H Hw. by apply H.
  - by intros st [Hm _].
  - intros st _. apply store_rel_Ra. intros [Hm _]. by split.
  - intros d st Hd _. apply store_rel_Ra. intros [Hm _]. split; [exact Hm|]. by intros d' ->%overwritten_json.
Qed.

(** ** The message table *)
#[export] Instance db_overlaps R ok may `{!DbFrame R ok may} :
  Overlaps (Rdb R) (db_permits ok may) (λ _, True) (λ _, True).
Proof.
  assert (∀ st st', store_rel (Rdb R) st st') as Hs.
  { intros st st' s _. unfold Rdb. assert (ag_db (with_store st' s) = ag_db s) as -> by by destruct s as [[] ]. reflexivity. }
  split; try done; [apply _|]. intros. by apply (df_store R ok may).
Qed.

(** ** The log *)
#[export] Instance log_overlaps R `{!FeedFrame R} : Overlaps (Rlog R) log_permits (λ _, True) (λ _, True).
Proof.
  assert (∀ st st', store_rel (Rlog R) st st') as Hs.
  { intros st st' s _. unfold Rlog. by apply (ff_same (R:=R)); destruct s as [[] ]. }
  split; try done; [by apply log_manager_calls|]. intros. by apply ff_zoom.
Qed.
End instances.

Lemma exists_or_forall {A} (P Q : A → Prop) l : (∀ x, P x ∨ Q x) → Exists P l ∨ Forall Q l.
Proof.
  intros H. induction l as [|x l IH]; [by right|].
  destruct (H x), IH; [by left; constructor..|left; by apply Exists_cons_tl|by right; constructor].
Qed.

Section theorems.
Context `{EN : Env, SH : Sha256, SQ : SqlEngine, SB : SqlBind, LO : Locale, B58 : Base58, B64 : Base64}.
Context `{UN : Unicode, WI : Wire, ED : Ed25519, NB : NaclBox, NT : NumberText}.
Context (config : CircuitBreakerConfig) (keypair : Keypair).

Definition turn_confirms (a : string) (u : Turn) : Prop :=
  match u with
  | turn_call c => confirms a (as_step c)
  | turn_tool t _ args => confirming_args a t args
  | _ => False
  end.

(** C2. Full Auto needs a human whatever the order of events: from a fresh
    installation, however calls, envelopes, suspended handlers and their saves
    are interleaved, wherever the process ends, and whatever tools run between
    two processes, a connection is at Full Auto only if one of the calls or a
    tool's command line set exactly that connection to Full Auto with an
    explicit confirmation. *)
Theorem full_auto_confirmed_in_any_order us a s0 c :
  installed s0 →
  ag_conn a (pl_agent (turns config keypair us (started s0))) = Some c → autonomyLevel c = full_auto →
  Exists (turn_confirms a) us.
Proof.
  intros Hi Hc Hl.
  destruct (exists_or_forall (turn_confirms a) (turn_permitted keypair (store_permits (unconfirmed a))) us)
    as [H|Hus]; [|exact H|exfalso].
  { intros [c'| | | |t relay args]; [|by right..|].
    - destruct (confirms_or_ok a (as_step c')); [by left|right]. by apply step_ok_permitted.
    - destruct (tool_confirms_or_ok a t args); [by left|right]. by apply step_ok_permitted. }
  assert (¬ armed a (ag_store s0)) as Hn by (rewrite Hi; by intros [(? & ? & _)|(? & ? & _)]).
  destruct (turns_moved config keypair (Ra (no_gain a)) (store_permits (unconfirmed a))
    (λ st, ¬ armed a st) (λ d, ¬ full_auto_at a (connections d)) us (started s0)
    (store_sends keypair (no_gain a) (unconfirmed a)) Hus (started_ok _ _ _ Hn)) as [Hr _].
  apply Hn, Hr. by apply (armed_mem a _ c).
Qed.

(** The store stays well-formed in any order, in memory and in the file. *)
Lemma store_wf_in_any_order us s0 :
  installed s0 →
  let st := ag_store (pl_agent (turns config keypair us (started s0))) in store_wf st ∧ file_wf st.
Proof.
  intros Hi. assert (store_wf (ag_store s0) ∧ file_wf (ag_store s0)) as Hw.
  { rewrite Hi. split; [|done]. split; [constructor|]. intros k c Hin. by apply not_elem_of_nil in Hin. }
  refine (proj1 (turns_moved config keypair (Ra keeps_wf) (store_permits (λ _ _ _, True))
    (λ st, store_wf st ∧ file_wf st) (λ d, store_wf (mkStore d NoFile)) us (started s0)
    (store_sends keypair keeps_wf (λ _ _ _, True)) _ (started_ok _ _ _ Hw)) Hw).
  apply Forall_true. intros [c| | | |]; try done; apply step_ok_permitted; by try destruct c.
Qed.

Lemma db_in_any_order (R : relation MessageDb) `{!DbFrame R (λ _, True) (λ _ _, True)} us1 us2 s0 :
  let pl1 := turns config keypair us1 (started s0) in
  R (ag_db (pl_agent pl1)) (ag_db (pl_agent (turns config keypair us2 pl1))).
Proof.
  assert (∀ us, Forall (turn_permitted keypair (db_permits (λ _, True) (λ _ _, True))) us) as Hus.
  { intros us. apply Forall_true. intros [[]| | | |? []]; by repeat split. }
  assert (kept_by_sending keypair (Rdb R)) as Hs
    by (intros params; by apply (df_sendMessage keypair R (λ _, True) (λ _ _, True))).
  refine (proj1 (turns_moved config keypair (Rdb R) (db_permits (λ _, True) (λ _ _, True)) (λ _, True) (λ _, True)
    us2 _ Hs (Hus us2) _)).
  exact (proj2 (turns_moved config keypair (Rdb R) (db_permits (λ _, True) (λ _ _, True)) (λ _, True) (λ _, True)
    us1 (started s0) Hs (Hus us1) (started_ok _ _ _ I))).
Qed.

(** C24. No order of events loses, doubles or rewrites a message: however handlers,
    sends, confirmations, saves, restarts and tools follow on each other, ids stay unique,
    and a message that is stored at one point is found at every later point
    with everything but its state as it was. *)
Theorem messages_kept_in_any_order us1 us2 s0 :
  ids_unique (ag_db s0) →
  let pl1 := turns config keypair us1 (started s0) in
  let db2 := ag_db (pl_agent (turns config keypair us2 pl1)) in
  ids_unique db2 ∧
  ∀ j m, getMessage j (ag_db (pl_agent pl1)) = Some m →
    ∃ st reason now, getMessage j db2 = Some (set_state st reason now m).
Proof.
  intros Hu. cbv zeta. split; [|apply (db_in_any_order grows us1 us2 s0)].
  rewrite <- turns_app. by apply (db_in_any_order stays_unique [] (us1 ++ us2) s0).
Qed.

Lemma log_in_any_order (R : relation World) `{!FeedFrame R} us1 us2 s0 :
  let pl1 := turns config keypair us1 (started s0) in
  R (ag_world (pl_agent pl1)) (ag_world (pl_agent (turns config keypair us2 pl1))).
Proof.
  assert (∀ us, Forall (turn_permitted keypair log_permits) us) as Hus.
  { intros us. apply Forall_true. intros [[]| | | |? []]; by repeat split. }
  assert (kept_by_sending keypair (Rlog R)) as Hs
    by (intros params; by apply (moves_sendMessage keypair (Rlog R) log_permits)).
  refine (proj1 (turns_moved config keypair (Rlog R) log_permits (λ _, True) (λ _, True) us2 _ Hs (Hus us2) _)).
  exact (proj2 (turns_moved config keypair (Rlog R) log_permits (λ _, True) (λ _, True)
    us1 (started s0) Hs (Hus us1) (started_ok _ _ _ I))).
Qed.

(** C27. The log is one chain in any order: on an empty log, whatever handlers, trips,
    reviews, saves, tools and ends of the process are interleaved, the log of any
    earlier point is a prefix of the later one, and the audit passes over every
    entry, and over any number of the latest, whenever the entries' times and ids
    grow in the order in which they were written.  That order can be read off the
    log itself; a clock that steps back breaks it, and then the audit need not
    pass ([activity-feed.ts] takes the entry with the latest time, not the last
    one written, for the previous one). *)
Theorem log_verifies_in_any_order `{SHL : !Sha256Laws, SQL : !SqlLaws} us1 us2 s0 tail :
  w_feed (ag_world s0) = [] →
  match tail with Some n => (0 < n)%Z | None => True end →
  let pl1 := turns config keypair us1 (started s0) in
  let rows := w_feed (ag_world (pl_agent (turns config keypair us2 pl1))) in
  let entries := match tail with Some n => drop (length rows - Z.to_nat n) rows | None => rows end in
  w_feed (ag_world (pl_agent pl1)) `prefix_of` rows ∧
  (StronglySorted key_lt rows →
   audit_verify tail rows = Valid (length rows) (length entries) (id <$> head entries) (id <$> last entries)).
Proof.
  intros H0 Ht. refine (linked_log_verifies (ag_world s0) _ _ tail H0 _ _ Ht).
  - exact (log_in_any_order links [] us1 s0).
  - exact (log_in_any_order links us1 us2 s0).
Qed.

(** ** A rejection that nobody handles *)

(** The envelope does not open, its text cannot be stored, or its id is taken. *)
Definition refused (e : Envelope) (s : Agent) : Prop :=
  match open_message keypair e with
  | Throw _ => True
  | Ok i => column_text (ct_body (in_content i)) = None ∨ is_Some (getMessage (in_messageId i) (ag_db s))
  end.

Lemma refused_throws e pr :
  env_type e = MESSAGE → refused e (p_agent pr) →
  ∃ err s, launch config keypair (call_message e) pr = (ended (Throw err), mkProc s (p_saves pr)) ∧
           (s = p_agent pr ∨ s = ticked (p_agent pr)).
Proof.
  intros Ht Hr. cbn [launch]. unfold dispatch_a, refused in *. rewrite Ht. unfold handleIncomingMessage_a.
  rewrite here_bind. unfold lift at 1. destruct (open_message keypair e) as [i|err]; [|by eauto].
  rewrite here_bind, now_ticked. destruct (column_text (ct_body (in_content i))) as [body|] eqn:Eb; [|destruct pr; by eauto].
  destruct Hr as [|Hr]; [done|]. cbv zeta. rewrite here_bind. cbn [p_agent p_saves].
  rewrite (save_run_clash _ (ticked (p_agent pr))); [by eauto|]. cbn. by apply not_eq_None_Some.
Qed.

(** C12. Anyone can end the process: nobody handles the rejection of the message
    handler, so one message that does not open, or a second copy of one that is
    stored, ends it.  Handlers waiting for the evaluator and saves under way are
    gone; a message one of them was to judge stays as it was stored and is not
    confirmed, and when it is delivered again the process ends again. *)
Theorem refused_message_ends_process e pl :
  env_type e = MESSAGE → refused e (pl_agent pl) →
  let pl' := take_turn config keypair (turn_call (call_message e)) pl in
  pl_handlers pl' = [] ∧ p_saves (pl_proc pl') = [] ∧
  ag_db (pl_agent pl') = ag_db (pl_agent pl) ∧ sent (ag_relay (pl_agent pl')) = sent (ag_relay (pl_agent pl)) ∧
  ag_store (pl_agent pl') = (openStore (newStore (file (ag_store (pl_agent pl))))).2 ∧
  ∀ e' i m, env_type e' = MESSAGE → open_message keypair e' = Ok i →
    getMessage (in_messageId i) (ag_db (pl_agent pl)) = Some m →
    let pl2 := take_turn config keypair (turn_call (call_message e')) pl' in
    pl_handlers pl2 = [] ∧ getMessage (in_messageId i) (ag_db (pl_agent pl2)) = Some m ∧
    sent (ag_relay (pl_agent pl2)) = sent (ag_relay (pl_agent pl)).
Proof.
  assert (∀ e pl, env_type e = MESSAGE → refused e (pl_agent pl) →
    ∃ t, take_turn config keypair (turn_call (call_message e)) pl =
      exits config keypair (started t) ∧
      (t = pl_agent pl ∨ t = ticked (pl_agent pl))) as Hgo.
  { clear e pl. intros e pl Ht Hr. destruct (refused_throws e (pl_proc pl) Ht Hr) as (err & s & El & Es).
    exists s. split; [|exact Es]. unfold take_turn. rewrite El. reflexivity. }
  intros Ht Hr pl'. destruct (Hgo e pl Ht Hr) as (t & E & Es).
  assert (pl_handlers pl' = [] ∧ p_saves (pl_proc pl') = [] ∧ ag_db (pl_agent pl') = ag_db (pl_agent pl) ∧
    sent (ag_relay (pl_agent pl')) = sent (ag_relay (pl_agent pl)) ∧
    ag_store (pl_agent pl') = (openStore (newStore (file (ag_store (pl_agent pl))))).2) as (H1 & H2 & H3 & H4 & H5)
    by (unfold pl'; rewrite E; destruct Es as [-> | ->]; done).
  split_and!; try done. intros e' i m Ht' Ho Hm pl2.
  assert (refused e' (pl_agent pl')) as Hr' by (unfold refused; rewrite Ho, H3; right; by eexists).
  destruct (Hgo e' pl' Ht' Hr') as (t' & E' & Es'). unfold pl2. rewrite E'.
  split; [done|]. rewrite <- Hm, <- H3, <- H4. by destruct Es' as [-> | ->].
Qed.

(** ** One handler over several turns *)
Definition turn_of (t : thread Proc unit) (pr : Proc) : thread Proc unit * Proc :=
  match t with suspended k => k pr | ended r => (ended r, pr) end.
Fixpoint turns_of (k : nat) (t : thread Proc unit) (pr : Proc) : thread Proc unit * Proc :=
  match k with O => (t, pr) | S k => let '(t', pr') := turn_of t pr in turns_of k t' pr' end.

(** The handler [n] of a pool, its caller waiting. *)
Definition runs_at (n : nat) (t : thread Proc unit) (pl : Pool) : Prop :=
  pl_handlers pl !! n = Some (mkHandler true t).
Definition put_handler (n : nat) (x : thread Proc unit * Proc) (pl : Pool) : Pool :=
  mkPool x.2 (<[n := mkHandler true x.1]> (pl_handlers pl)).

Lemma runs_at_put n t x pl : runs_at n t pl → runs_at n x.1 (put_handler n x pl).
Proof. intros H. apply list_lookup_insert_eq. by apply lookup_lt_is_Some; eexists. Qed.
Lemma runs_at_put_ne n m t x pl : n ≠ m → runs_at n t pl → runs_at n t (put_handler m x pl).
Proof. intros Hne H. unfold runs_at, put_handler. cbn. by rewrite list_lookup_insert_ne. Qed.
Lemma put_handler_twice n x y pl : put_handler n x (put_handler n y pl) = put_handler n x pl.
Proof. unfold put_handler. cbn. by rewrite list_insert_insert_eq. Qed.

Lemma resume_turn n t pl :
  runs_at n t pl → take_turn config keypair (turn_resume n) pl = put_handler n (turn_of t (pl_proc pl)) pl.
Proof.
  unfold runs_at, take_turn, put_handler. intros Hn. rewrite Hn. destruct t as [r|k]; cbn [turn_of fst snd].
  - rewrite list_insert_id by done. by destruct pl.
  - destruct (k (pl_proc pl)) as [t pr]. unfold after_turn, unhandled. by destruct t as [[]|].
Qed.
Lemma resume_turns k n t pl :
  runs_at n t pl →
  turns config keypair (replicate (S k) (turn_resume n)) pl = put_handler n (turns_of (S k) t (pl_proc pl)) pl.
Proof.
  revert t pl. induction k as [|k IH]; intros t pl Hn.
  - change (take_turn config keypair (turn_resume n) pl = put_handler n (turns_of 1 t (pl_proc pl)) pl).
    rewrite (resume_turn n t) by done. cbn [turns_of]. by destruct (turn_of t (pl_proc pl)).
  - change (turns config keypair (replicate (S (S k)) (turn_resume n)) pl) with
      (turns config keypair (replicate (S k) (turn_resume n)) (take_turn config keypair (turn_resume n) pl)).
    rewrite (resume_turn n t) by done.
    rewrite (IH (turn_of t (pl_proc pl)).1) by by eapply runs_at_put.
    rewrite put_handler_twice. f_equal. cbn [turns_of]. cbn [put_handler pl_proc].
    by destruct (turn_of t (pl_proc pl)) as [t' pr'].
Qed.

(** ** Saves that overlap *)
Definition cut (s : Agent) : Agent := with_store (put_file (NotJson "") (ag_store s)) s.
Definition wrote_text (d : StoreData) (s : Agent) : Agent :=
  with_store (put_file (overwritten d (file (ag_store s))) (ag_store s)) s.

(** An awaited save after three turns (the directory is there, the text is made,
    the file is opened and cut off), and at its end. *)
Definition save_started : thread Proc unit := (awaited_save (mkProc (mkAgent (mkWorld 0 (newStore NoFile) emptyDb [] ∅)
  (mkRelay None false [])) [])).1.
Definition save_writing (d : StoreData) : thread Proc unit :=
  pause (within_thread procL (within_thread agent_storeL
    (pause (suspended (λ st, (ended (Ok tt), put_file (overwritten d (file st)) st)))))).

Lemma awaited_save_starts pr : awaited_save pr = (save_started, pr).
Proof. by destruct pr as [[[t [d f] db fd ev] r] l]. Qed.
Lemma save_cuts pr :
  turns_of 3 save_started pr = (save_writing (data (ag_store (p_agent pr))), mkProc (cut (p_agent pr)) (p_saves pr)).
Proof. by destruct pr as [[[t [d f] db fd ev] r] l]. Qed.
Lemma save_writes d pr :
  turns_of 3 (save_writing d) pr = (ended (Ok tt), mkProc (wrote_text d (p_agent pr)) (p_saves pr)).
Proof. by destruct pr as [[[t [d' f] db fd ev] r] l]. Qed.

(** C13. A save is not atomic: the file is cut off before it is written.  When one
    message that does not open comes in at that moment, the process ends, and
    the next one starts with no connection at all, an empty store that it saves
    over what was left; the connections, with their blocks, keys and settings,
    are gone. *)
Theorem interrupted_save_forgets_all e s :
  env_type e = MESSAGE → (∃ err, open_message keypair e = Throw err) →
  let pl := turns config keypair
    (turn_call call_save :: replicate 3 (turn_resume 0) ++ [turn_call (call_message e)]) (started s) in
  ag_store (pl_agent pl) = mkStore emptyData (Json emptyData).
Proof.
  intros Ht [err Ho]. cbv zeta. unfold turns. cbn [foldl]. rewrite foldl_app.
  assert (take_turn config keypair (turn_call call_save) (started s) =
    mkPool (mkProc s []) [mkHandler true save_started]) as -> by by destruct s as [[t [d f] db fd ev] r].
  pose proof (resume_turns 2 0 save_started (mkPool (mkProc s []) [mkHandler true save_started]) eq_refl) as E.
  unfold turns in E. rewrite E, save_cuts. cbn [foldl p_agent p_saves pl_proc].
  match goal with |- context [take_turn _ _ _ ?pl] => set (pl0 := pl) end.
  destruct (refused_throws e (pl_proc pl0) Ht) as (msg & s' & El & Es).
  { unfold refused. by rewrite Ho. }
  unfold take_turn. rewrite El. unfold after_turn, unhandled. cbn [awaited_call negb].
  by destruct Es as [-> | ->]; destruct s as [[t [d f] db fd ev] r].
Qed.

(** A block, up to its save. *)
Lemma block_starts a c own s :
  ag_conn a s = Some c → assignedAddress (ag_relay s) = Some own → own ≠ "" → connected (ag_relay s) = true →
  ∃ s2 c2, launch config keypair (call_op (op_block a)) (mkProc s []) = (save_started, mkProc s2 []) ∧
    ag_conn a s2 = Some c2 ∧ cstate c2 = blocked.
Proof.
  intros Hc Ho Hne Hn. cbn [launch run_a]. unfold blockConnection_a. rewrite here_bind, ready_relay by
    (cbn; rewrite Ho; cbn; by rewrite bool_decide_eq_false_2).
  cbn [p_agent p_saves]. destruct (update_ok a (with_state blocked) s c Hc) as (s1 & Eu & Hw & Er & _).
  rewrite here_bind. cbn [p_agent p_saves]. rewrite Eu. rewrite here_bind. cbn [p_agent p_saves].
  rewrite send_run, Er, Hn, awaited_save_starts. eexists _, (assign c (with_state blocked) _).
  split; [reflexivity|]. split; [|reflexivity].
  transitivity (ag_conn a s1); [by destruct s1|]. rewrite Hw, decide_True by done. reflexivity.
Qed.

Lemma reopened a s d :
  file (ag_store s) = d →
  ag_conn a (step config keypair st_restart s) =
    match d with Json d => clear_passthrough <$> Obj.get a (connections d) | _ => None end.
Proof.
  intros <-. unfold step. cbn [exec]. unfold restart, ag_conn, ag_store, openStore, load, clearPassthroughFlags,
    save, modify, mbind, M_bind, getConnection. cbn.
  destruct (file (w_store (ag_world s))); cbn; [done..|]. by rewrite Obj.get_map_values.
Qed.

(** A save that is called while another is about to write [d]. *)
Lemma overlapping_saves c s s2 :
  launch config keypair c (mkProc (cut s) []) = (save_started, mkProc s2 []) → awaited_call c = true →
  let done := mkHandler true (ended (Ok tt)) in
  turns config keypair
    (turn_call call_save :: replicate 3 (turn_resume 0) ++ turn_call c ::
     replicate 6 (turn_resume 1) ++ replicate 3 (turn_resume 0)) (started s) =
  mkPool (mkProc (wrote_text (data (ag_store s)) (wrote_text (data (ag_store s2)) (cut s2))) []) [done; done].
Proof.
  intros El Ha done. change (?u :: ?us ++ ?v :: ?vs) with ([u] ++ us ++ [v] ++ vs). rewrite !turns_app.
  assert (turns config keypair [turn_call call_save] (started s) =
    mkPool (mkProc s []) [mkHandler true save_started]) as -> by by destruct s as [[t [d f] db fd ev] r].
  rewrite (resume_turns 2 0 save_started (mkPool (mkProc s []) _)), save_cuts by reflexivity.
  unfold put_handler at 1. cbn [fst snd pl_proc p_agent p_saves pl_handlers list_insert insert].
  assert (turns config keypair [turn_call c] (mkPool (mkProc (cut s) []) [mkHandler true (save_writing (data (ag_store s)))]) =
    mkPool (mkProc s2 []) [mkHandler true (save_writing (data (ag_store s))); mkHandler true save_started]) as ->.
  { unfold turns. cbn [foldl]. unfold take_turn. cbn [pl_proc]. rewrite El, Ha. reflexivity. }
  rewrite (resume_turns 5 1 save_started (mkPool (mkProc s2 []) _)) by reflexivity.
  assert (∀ pr, turns_of 6 save_started pr =
    (ended (Ok tt), mkProc (wrote_text (data (ag_store (p_agent pr))) (cut (p_agent pr))) (p_saves pr))) as ->
    by by intros [[[t [d' f] db fd ev] r] l].
  unfold put_handler at 1. cbn [fst snd pl_proc p_agent p_saves pl_handlers list_insert insert].
  rewrite (resume_turns 2 0 (save_writing (data (ag_store s)))), save_writes by reflexivity. reflexivity.
Qed.

(** C14. A block can be undone by an older save.  While one save has made its text
    and not yet written it, the human blocks a peer, and the call returns without an
    error and with the block in memory; then the older text is written over the
    one that was saved with the block.  From the next start on the peer is what it was
    before the block, or nobody is known at all. *)
Theorem older_save_undoes_block a c own s :
  ag_conn a s = Some c → assignedAddress (ag_relay s) = Some own → own ≠ "" → connected (ag_relay s) = true →
  let pl := turns config keypair
    (turn_call call_save :: replicate 3 (turn_resume 0) ++ turn_call (call_op (op_block a)) ::
     replicate 6 (turn_resume 1) ++ replicate 3 (turn_resume 0)) (started s) in
  pl_handlers pl = [mkHandler true (ended (Ok tt)); mkHandler true (ended (Ok tt))] ∧
  cstate <$> ag_conn a (pl_agent pl) = Some blocked ∧
  let next := pl_agent (take_turn config keypair turn_exit pl) in
  cstate <$> ag_conn a next = Some (cstate c) ∨ ag_conn a next = None.
Proof.
  intros Hc Ho Hne Hn.
  destruct (block_starts a c own (cut s)) as (s2 & c2 & El & Hc2 & Hb); [by destruct s as [[] ]..|].
  cbv zeta. rewrite (overlapping_saves _ s s2 El eq_refl). cbv zeta. split; [done|]. cbn [pl_agent pl_proc p_agent].
  split.
  - transitivity (cstate <$> ag_conn a s2); [by destruct s2 as [[t [d f] db fd ev] r]|]. rewrite Hc2. cbn. by rewrite Hb.
  - unfold take_turn, exits, pl_agent. cbn [pl_proc p_agent]. erewrite reopened; [|reflexivity].
    destruct (overwritten_cases (data (ag_store s)) (file (ag_store (wrote_text (data (ag_store s2)) (cut s2)))))
      as [E|(rest & _ & E)]; [left|right].
    + change (file _) with (overwritten (data (ag_store s)) (file (ag_store (wrote_text (data (ag_store s2)) (cut s2))))).
      rewrite E. change (Obj.get a (connections (data (ag_store s)))) with (ag_conn a s). rewrite Hc. cbn.
      by unfold clear_passthrough; case_match.
    + change (file _) with (overwritten (data (ag_store s)) (file (ag_store (wrote_text (data (ag_store s2)) (cut s2))))).
      by rewrite E.
Qed.
End theorems.

(** ** Witnesses *)
Section witnesses.
Import Sample SampleText SampleBox SampleWire SampleEnv SampleNumbers.
#[local] Existing Instance mm_env.

#[local] Abbreviation go kp us s := (turns DEFAULT_CIRCUIT_BREAKER_CONFIG kp us (started s)).

(** A request comes in while the human confirms Full Auto for an earlier one. *)
Definition confirmed_meanwhile : list Turn :=
  [turn_call (call_relay_up "pinch:me@h"); turn_call (call_op (op_receive a_request));
   turn_call (call_op (op_approve peer_addr)); turn_call (call_op (op_receive a_request));
   turn_call (call_op (op_approve peer_addr)); turn_resume 2; turn_call (call_setAutonomy peer_addr full_auto (Some true));
   turn_resume 1; turn_resume 2].

Lemma full_auto_confirmed_in_any_order_witness :
  Exists (turn_confirms peer_addr) confirmed_meanwhile.
Proof.
  assert (∃ c, ag_conn peer_addr (pl_agent (go alice confirmed_meanwhile fresh_agent)) = Some c ∧
    autonomyLevel c = full_auto) as (c & Hc & Hl) by (eexists; split; vm_compute; reflexivity).
  exact (full_auto_confirmed_in_any_order DEFAULT_CIRCUIT_BREAKER_CONFIG alice confirmed_meanwhile peer_addr
    fresh_agent c eq_refl Hc Hl).
Defined.

Definition first_turns : list Turn := [turn_call (call_message the_envelope)].
Definition copy_meanwhile : list Turn :=
  [turn_call (call_message (relabel "copy" the_envelope)); turn_resume 1; turn_resume 0; turn_resume 0; turn_exit].

Lemma messages_kept_in_any_order_witness :
  ∃ m st reason now,
    getMessage "0" (ag_db (pl_agent (go bob first_turns at_bob))) = Some m ∧
    getMessage "0" (ag_db (pl_agent (turns DEFAULT_CIRCUIT_BREAKER_CONFIG bob copy_meanwhile
      (go bob first_turns at_bob)))) = Some (set_state st reason now m).
Proof.
  assert (∃ m, getMessage "0" (ag_db (pl_agent (go bob first_turns at_bob))) = Some m) as [m Hm]
    by (eexists; vm_compute; reflexivity).
  assert (ids_unique (ag_db at_bob)) as Hu by constructor.
  destruct (messages_kept_in_any_order DEFAULT_CIRCUIT_BREAKER_CONFIG bob first_turns copy_meanwhile at_bob Hu)
    as [_ H].
  destruct (H "0" m Hm) as (st & reason & now & E). exists m, st, reason, now. split; [exact Hm|exact E].
Defined.

(** An envelope that does not open. *)
Definition junk : Envelope :=
  mkEnvelope 1 "pinch:x@h" "pinch:b@h" MESSAGE [] 0 (blockNotification (mkBlock "" "")).

Lemma refused_message_ends_process_witness :
  let pl' := take_turn DEFAULT_CIRCUIT_BREAKER_CONFIG bob (turn_call (call_message junk)) (go bob first_turns at_bob) in
  length (pl_handlers (go bob first_turns at_bob)) = 1 ∧ pl_handlers pl' = [] ∧
  ∃ m, getMessage "0" (ag_db (pl_agent (go bob first_turns at_bob))) = Some m ∧ m_state m = "delivered" ∧
       getMessage "0" (ag_db (pl_agent (take_turn DEFAULT_CIRCUIT_BREAKER_CONFIG bob
         (turn_call (call_message the_envelope)) pl'))) = Some m.
Proof.
  assert (∃ m, getMessage "0" (ag_db (pl_agent (go bob first_turns at_bob))) = Some m ∧ m_state m = "delivered")
    as (m & Hm & Hst) by (eexists; split; vm_compute; reflexivity).
  assert (refused bob junk (pl_agent (go bob first_turns at_bob))) as Hr by exact I.
  destruct (refused_message_ends_process DEFAULT_CIRCUIT_BREAKER_CONFIG bob junk (go bob first_turns at_bob)
    eq_refl Hr) as (H1 & _ & _ & _ & _ & H2).
  split; [vm_compute; reflexivity|]. split; [exact H1|]. exists m. split; [exact Hm|]. split; [exact Hst|].
  exact (proj1 (proj2 (H2 the_envelope inner m eq_refl opens Hm))).
Defined.

Lemma interrupted_save_forgets_all_witness :
  ag_conn peer_addr (peer active online) ≠ None ∧
  ag_store (pl_agent (go bob (turn_call call_save :: replicate 3 (turn_resume 0) ++ [turn_call (call_message junk)])
    (peer active online))) = mkStore emptyData (Json emptyData).
Proof.
  split; [vm_compute; discriminate|].
  exact (interrupted_save_forgets_all DEFAULT_CIRCUIT_BREAKER_CONFIG bob junk (peer active online) eq_refl
    (ex_intro _ _ eq_refl)).
Defined.

Lemma older_save_undoes_block_witness :
  ∃ c, ag_conn peer_addr (peer active online) = Some c ∧
    let pl := go bob (turn_call call_save :: replicate 3 (turn_resume 0) ++
      turn_call (call_op (op_block peer_addr)) :: replicate 6 (turn_resume 1) ++ replicate 3 (turn_resume 0))
      (peer active online) in
    cstate <$> ag_conn peer_addr (pl_agent pl) = Some blocked ∧
    let next := pl_agent (take_turn DEFAULT_CIRCUIT_BREAKER_CONFIG bob turn_exit pl) in
    cstate <$> ag_conn peer_addr next = Some (cstate c) ∨ ag_conn peer_addr next = None.
Proof.
  assert (∃ c, ag_conn peer_addr (peer active online) = Some c) as [c Hc] by (eexists; vm_compute; reflexivity).
  exists c. split; [exact Hc|].
  exact (proj2 (older_save_undoes_block DEFAULT_CIRCUIT_BREAKER_CONFIG bob peer_addr c "pinch:me@h"
    (peer active online) Hc eq_refl ltac:(discriminate) eq_refl)).
Defined.
End witnesses.

(** Two messages of a muted peer, and a restart while the second is handled. *)
Section log_witness.
Import Sample SampleText SampleBox SampleWire SampleNumbers.
#[local] Existing Instance log_env.

Definition muted_turns : list Turn := [turn_call (call_message the_envelope); turn_resume 0].
Definition more_turns : list Turn :=
  [turn_call (call_message (relabel "copy" the_envelope)); turn_resume 0; turn_exit].
#[local] Abbreviation logged_by us s := (w_feed (ag_world (pl_agent (turns DEFAULT_CIRCUIT_BREAKER_CONFIG bob us s)))).

Lemma log_verifies_in_any_order_witness :
  ∃ i j, audit_verify None (logged_by more_turns (turns DEFAULT_CIRCUIT_BREAKER_CONFIG bob muted_turns (started at_muted))) =
    Valid 2 2 (Some i) (Some j).
Proof.
  destruct (log_verifies_in_any_order DEFAULT_CIRCUIT_BREAKER_CONFIG bob muted_turns more_turns at_muted None
    eq_refl I) as [_ H].
  eexists _, _. rewrite H; [vm_compute; reflexivity|]. vm_compute. repeat constructor. discriminate.
Defined.
End log_witness.
