(* ===== verification/Trips.v ===== *)
(** The circuit breaker over the whole life of the skill: a connection is never
    found tripped without an entry in the log that says so, in memory or in the
    file the next process loads. *)
From S2P Require Import Prelude JsLib JsDate Platform Identity PermissionsManifest ConnectionStore.
From S2P Require Import MessageStore ActivityFeed World CircuitBreaker InboundRouter.
From S2P Require Import PermissionsEnforcer EnforcementPipeline Text Envelope ConnectionManager.
From S2P Require Import Args ArgsSpec PermissionsTool Delivery Crypto MessageManager Tools Steps Rows Log Skill.
From stdpp Require Import gmap pretty.

(** The log has an entry of a trip of [a]. *)
Definition trip_logged (rows : list ActivityRow) (a : string) : Prop :=
  ∃ row, row ∈ rows ∧ connection_address row = a ∧ event_type row = "circuit_breaker_tripped".
Definition shown (rows : list ActivityRow) (a : string) (c : Connection) : Prop :=
  truthy_bool (circuitBreakerTripped c) = true → trip_logged rows a.

Lemma shown_later rows new a c : shown rows a c → shown (rows ++ new) a c.
Proof. intros H Ht. destruct (H Ht) as (row & Hr & E). exists row. split; [apply elem_of_app; by left|done]. Qed.

(** What a write does to the flag. *)
Lemma shown_same rows a c c' :
  circuitBreakerTripped c' = circuitBreakerTripped c → shown rows a c → shown rows a c'.
Proof. unfold shown. by intros ->. Qed.
Lemma shown_assign rows a c u now : untripped u = true → shown rows a c → shown rows a (assign c u now).
Proof. unfold untripped, shown. simpl. by destruct (upd_circuitBreakerTripped u) as [[]|]. Qed.
Lemma shown_level rows a c now level : shown rows a (with_level now level c).
Proof. intros Ht. by destruct (with_level_fields now level c) as (_ & E & _); rewrite E in Ht. Qed.

Section trips.
Context `{EN : Env, SH : Sha256, SQ : SqlEngine, SB : SqlBind, LO : Locale, B58 : Base58, B64 : Base64}.
Context `{UN : Unicode, WI : Wire, ED : Ed25519, NB : NaclBox}.
Context (config : CircuitBreakerConfig) (keypair : Keypair).

Definition all_shown (w : World) : Prop := fresh_ids w ∧ everywhere (shown (w_feed w)) (w_store w).
Definition keeps_shown : relation World := λ w w', all_shown w → all_shown w'.
Definition Rtrip : relation Agent := λ s s', keeps_shown (ag_world s) (ag_world s').

#[local] Instance keeps_shown_preorder : PreOrder keeps_shown.
Proof. split; [by intros w H|]. intros x y z H1 H2 H. by apply H2, H1. Qed.
#[local] Instance Rtrip_preorder : PreOrder Rtrip.
Proof. unfold Rtrip. split; [intros s; reflexivity|]. intros x y z H1 H2. by etrans. Qed.

Lemma ts_world {A} (m : M World A) : moves keeps_shown m → moves (world_rel Rtrip) m.
Proof. intros Hm w r. exact (Hm w). Qed.
Lemma ts_same w w' :
  w_feed w' = w_feed w → w_store w' = w_store w → w_tick w ≤ w_tick w' → keeps_shown w w'.
Proof.
  intros Ef Es Ht [Hf Hs]. split; [by apply (fresh_ids_tick w)|]. by rewrite Ef, Es.
Qed.
Lemma ts_store {A} (m : M ConnectionStore A) :
  (∀ rows, moves (keeps (shown rows)) m) → moves (world_rel Rtrip) (zoom storeL m).
Proof.
  intros Hm. apply ts_world. intros w [Hf Hs]. specialize (Hm (w_feed w) (w_store w) Hs).
  unfold zoom. cbn. destruct (m (w_store w)) as [r st]. split; [exact Hf|exact Hm].
Qed.
Lemma ts_db {A} (m : M MessageDb A) : moves (world_rel Rtrip) (zoom dbL m).
Proof. apply ts_world, (moves_zoom _ (λ _ _, True)); [done|]. intros; by apply ts_same. Qed.

Lemma everywhere_shown_later rows new st :
  everywhere (shown rows) st → everywhere (shown (rows ++ new)) st.
Proof.
  intros [Hm Hf]. split; [|intros d Hd; specialize (Hf d Hd)]; eapply Forall_impl; try done;
    intros kv; apply shown_later.
Qed.

Lemma ts_record e : moves keeps_shown (w_record e).
Proof.
  intros w [Hf Hs]. destruct (w_record_fresh e w Hf) as (ev & row & -> & _ & Hf'). cbn.
  split; [exact Hf'|]. by apply everywhere_shown_later.
Qed.

(** The trip itself: the flag, the file and the entry. *)
Lemma ts_trip addr trigger n th win : moves keeps_shown (trip addr trigger n th win).
Proof.
  intros w [Hf Hs]. destruct (getConnection addr (w_store w)) as [c|] eqn:Hc.
  - rewrite (trip_run _ _ _ _ _ _ _ Hc).
    assert (fresh_ids (trip_world addr c w)) as Hf1 by (apply (fresh_ids_tick w); [done..|cbn; lia]).
    destruct (w_record_fresh (trip_event addr trigger n th win) _ Hf1) as (ev & row & Hr & Hl & Hf2).
    rewrite (bind_run _ _ _ _ _ Hr). cbn [mret M_ret snd]. split; [exact Hf2|]. cbn.
    assert (trip_logged (w_feed w ++ [row]) addr) as Ht.
    { exists row. split; [apply elem_of_app; right; by left|]. by destruct Hl as (-> & -> & _). }
    destruct (everywhere_shown_later (w_feed w) [row] _ Hs) as [Hm _].
    unfold saved_set, everywhere. cbn.
    assert (all_conns (shown (w_feed w ++ [row])) (Obj.set addr
      (tripped_conn (env_now (w_tick w)) (env_now (S (w_tick w))) c) (connections (data (w_store w))))) as Hw
      by (apply all_conns_set; [done|by intros _]).
    split; [exact Hw|]. by intros d [= <-].
  - unfold trip, w_updateConnection, date_now, ask, zoom, mbind, M_bind. cbn.
    rewrite updateConnection_missing by done. cbn. apply (ts_same w); [done..|cbn; lia|by split].
Qed.

#[local] Instance trip_calls : Calls Rtrip log_permits.
Proof.
  split.
  - apply _.
  - intros. apply ts_world. intros w. apply ts_same; [done..|cbn; lia].
  - intros. apply ts_world, (moves_zoom _ (λ _ _, True)); [done|]. intros; by apply ts_same.
  - intros. apply ts_world, ts_record.
  - apply ts_store. intros. apply keeps_save.
  - intros now a u _ Ht. apply ts_store. intros rows. apply keeps_update. intros c. by apply shown_assign.
  - intros. apply ts_world, ts_trip.
  - intros a m. apply ts_store. intros rows. apply keeps_edit. intros c.
    apply shown_same. unfold with_live_manifest. by case_match.
  - intros. apply ts_store. intros rows. apply keeps_level. intros c _. apply shown_level.
  - intros now. apply ts_store. intros rows. apply keeps_expire. intros a c. by apply shown_same.
  - intros. apply ts_db.
  - intros. apply ts_db.
  - intros. apply ts_db.
  - intros e _ s. rewrite send_run. unfold Rtrip. destruct (connected _); reflexivity.
  - intros s [Hf Hs]. split; [exact Hf|]. cbn. apply keeps_open; [|exact Hs].
    intros a c. apply shown_same. unfold clear_passthrough. by case_match.
  - intros own _ s. unfold Rtrip. reflexivity.
  - intros s. unfold Rtrip. reflexivity.
Qed.
#[local] Instance trip_manager_calls : ManagerCalls Rtrip log_permits.
Proof.
  split; [apply _|..|done].
  - intros now a u _ Ht. apply ts_store. intros rows. apply keeps_update. intros c. by apply shown_assign.
  - intros now i _. apply ts_store. intros rows st. unfold addConnection. case_match; [done|].
    apply everywhere_write. intros _. by unfold shown.
Qed.

Lemma trip_step st s : Rtrip s (step config keypair st s).
Proof.
  revert s. apply (moves_step config keypair Rtrip log_permits).
  - left. intros params. by apply (moves_sendMessage keypair Rtrip log_permits).
  - destruct st; cbn; try done. by destruct relay.
Qed.

(** C31. The human can always find out: from a fresh installation, after any sequence
    of operations, envelopes, processed messages, tool runs and restarts, a
    connection is marked as tripped, in memory or in the file, only if the
    activity log has the entry of a trip of exactly that connection. *)
Theorem tripped_is_logged s0 tr s a c :
  installed s0 → fresh_ids (ag_world s0) → reachable config keypair s0 tr s →
  ag_conn a s = Some c ∨ (∃ d, file (ag_store s) = Json d ∧ (a, c) ∈ connections d) →
  truthy_bool (circuitBreakerTripped c) = true →
  ∃ row, row ∈ w_feed (ag_world s) ∧ connection_address row = a ∧
         event_type row = "circuit_breaker_tripped".
Proof.
  intros Hi Hf Hr Hc. assert (all_shown (ag_world s)) as [_ He].
  { clear Hc. induction Hr as [|tr s st _ IH]; [|by apply trip_step, IH].
    split; [done|]. unfold installed, ag_store in Hi. rewrite Hi. split; [constructor|done]. }
  destruct Hc as [Hc|(d & Hd & Hin)].
  - exact (everywhere_get _ a (ag_store s) c He Hc).
  - destruct He as [_ Hfile]. specialize (Hfile d Hd). unfold all_conns in Hfile.
    rewrite Forall_forall in Hfile. exact (Hfile (a, c) Hin).
Qed.
End trips.

(** ** Witness: a message above the threshold of one, then a restart *)
Section witness.
Import Sample SampleText SampleBox SampleWire SampleEnv.
#[local] Existing Instance skill_env.

Definition flood : list Step :=
  [st_op (op_receive a_request); st_relay_up "pinch:me@h"; st_op (op_approve peer_addr);
   st_process router_message peer_addr; st_restart].
Definition flooded : Agent := steps pipe_config alice flood fresh_agent.

Lemma fresh_at_start : fresh_ids (ag_world fresh_agent).
Proof.
  split; cbn; [intros n _; apply not_elem_of_nil|]. intros m n E. by apply (inj pretty) in E.
Qed.
Lemma now_tripped : ∃ c, ag_conn peer_addr flooded = Some c ∧ truthy_bool (circuitBreakerTripped c) = true.
Proof. eexists; split; vm_compute; reflexivity. Qed.

Lemma tripped_is_logged_witness :
  ∃ row, row ∈ w_feed (ag_world flooded) ∧ connection_address row = peer_addr ∧
         event_type row = "circuit_breaker_tripped".
Proof.
  destruct now_tripped as (c & Hc & Ht).
  exact (tripped_is_logged pipe_config alice fresh_agent flood flooded peer_addr c eq_refl fresh_at_start
    (reachable_steps _ _ _ _) (or_introl Hc) Ht).
Defined.
End witness.
