(* ===== verification/ToolsSpec.v ===== *)
(** What the tools do as programs: pinch-autonomy from command line to file, the
    boundary a human adds and the next message, what pinch-activity hides, and
    the two URLs made from the relay's. *)
From S2P Require Import Prelude JsLib JsDate JsNumber Platform Identity PermissionsManifest ConnectionStore.
From S2P Require Import MessageStore Args ArgsSpec ActivityFeed AuditVerify World CircuitBreaker InboundRouter.
From S2P Require Import PermissionsEnforcer EnforcementPipeline Text Envelope ConnectionManager.
From S2P Require Import PermissionsTool Delivery RelayClient Crypto MessageManager Tools Skill.
From stdpp Require Import gmap.
From Stdlib Require Import Ascii.

Section tools_spec.
Context `{EN : Env, SH : Sha256, SQ : SqlEngine, SB : SqlBind, B58 : Base58, B64 : Base64, LO : Locale}.
Context `{UN : Unicode, WI : Wire, ED : Ed25519, NB : NaclBox}.
Context (keypair : Keypair).

(** ** pinch-autonomy *)
Definition effective_policy (p : AutonomyArgs) (c : Connection) : option string :=
  if truthy_str (ua_policy p) && bool_decide (ua_level p = auto_respond)
  then ua_policy p else autoRespondPolicy c.

Lemma gated_bool level confirmed c :
  bool_decide (level = full_auto) && bool_decide (autonomyLevel c ≠ full_auto) && negb confirmed =
  bool_decide (gated level (Some confirmed) c).
Proof.
  unfold gated. repeat case_bool_decide; destruct confirmed; simpl; naive_solver.
Qed.

Lemma update_agent addr u c t st db fd ev rl :
  getConnection addr st = Some c →
  update_ addr u (mkAgent (mkWorld t st db fd ev) rl) =
  (Ok (assign c u (isoString (env_now t))),
   mkAgent (mkWorld (S t) (set_connections (Obj.set addr (assign c u (isoString (env_now t)))) st) db fd ev) rl).
Proof.
  intros Hc. unfold update_, w_updateConnection, date_now, ask, zoom, mbind, M_bind. simpl.
  by rewrite (updateConnection_run _ _ _ _ _ Hc).
Qed.

(** pinch-autonomy, whatever the state: an unknown address and an upgrade to
    Full Auto without [--confirmed] print an error and change nothing; every
    other call sets the level of that connection, clears the breaker's flag,
    replaces the policy only when one is given for Auto Respond, writes the file
    and leaves the other connections, the messages and the log alone. *)
Theorem tool_autonomy_spec p s :
  let addr := ua_address p in
  let '(r, s') := tool_autonomy p s in
  match ag_conn addr s with
  | None => r = Ok (out_error ("Connection not found: " +:+ addr)) ∧ s' = s
  | Some c =>
      if decide (gated (ua_level p) (Some (ua_confirmed p)) c)
      then (∃ msg, r = Ok (out_error msg)) ∧ s' = s
      else ∃ c', is_ok r = true ∧ only_changes addr c' s s' ∧
             autonomyLevel c' = ua_level p ∧ truthy_bool (circuitBreakerTripped c') = false ∧
             cstate c' = cstate c ∧ autoRespondPolicy c' = effective_policy p c ∧
             file (ag_store s') = Json (data (ag_store s'))
  end.
Proof.
  intros addr. destruct (tool_autonomy p s) as [r s'] eqn:Hr. unfold tool_autonomy in Hr. fold addr in Hr.
  rewrite (bind_run _ _ _ _ _ (conn_run addr s)) in Hr.
  destruct (ag_conn addr s) as [c|] eqn:Hc; [|by injection Hr as <- <-].
  rewrite gated_bool in Hr. destruct (decide _) as [Hg|Hg].
  { rewrite bool_decide_eq_true_2 in Hr by done. injection Hr as <- <-. eauto. }
  rewrite bool_decide_eq_false_2 in Hr by done.
  destruct s as [[t st db fd ev] rl]. unfold ag_conn, ag_store in Hc. simpl in Hc.
  set (c1 := with_level (env_now t) (ua_level p) c) in *.
  set (st1 := set_connections (Obj.set addr c1) st) in *.
  assert (zoom worldL (now ← date_now; zoom storeL (setAutonomy now addr (ua_level p) (Some (ua_confirmed p))))
            (mkAgent (mkWorld t st db fd ev) rl) = (Ok c1, mkAgent (mkWorld (S t) st1 db fd ev) rl)) as H1.
  { unfold zoom at 1. simpl. unfold date_now, ask, mbind, M_bind, zoom. simpl.
    rewrite (setAutonomy_run _ _ _ _ _ _ Hc). by rewrite decide_False. }
  rewrite (bind_run _ _ _ _ _ H1) in Hr.
  destruct (with_level_fields (env_now t) (ua_level p) c) as (Hl & Ht & Hs & _ & Hp). fold c1 in Hl, Ht, Hs, Hp.
  assert (getConnection addr st1 = Some c1) as Hc1 by apply Obj.get_set_eq.
  assert (∀ a, a ≠ addr → Obj.get a (Obj.set addr c1 (connections (data st))) = Obj.get a (connections (data st)))
    as Ho by (intros; by apply Obj.get_set_ne).
  unfold effective_policy. destruct (truthy_str (ua_policy p) && _) eqn:Epol.
  - pose proof (update_agent addr (with_policy (default "" (ua_policy p))) c1 (S t) st1 db fd ev rl Hc1) as H2.
    rewrite (bind_run _ _ _ _ _ (bind_run _ (λ _, mret tt) _ _ _ H2)), saved_run in Hr.
    injection Hr as <- <-. eexists. split; [done|].
    split; [split; [apply Obj.get_set_eq|split; [|done]]|].
    + intros a Ha. unfold st1, ag_conn, ag_store, getConnection. simpl. by rewrite !Obj.get_set_ne by done.
    + split_and!; try done. simpl. apply andb_prop in Epol as [(q & -> & _)%truthy_str_Some _]. done.
  - rewrite (bind_run (mret tt) _ _ (Ok tt) _ eq_refl), saved_run in Hr. injection Hr as <- <-. exists c1. split; [done|].
    split; [split; [exact Hc1|split; [exact Ho|done]]|]. by split_and!.
Qed.

(** ** A boundary the human adds *)
Lemma restart_conn a s :
  ag_conn a (restart s).2 =
  clear_passthrough <$> (match file (ag_store s) with
                         | Json d => Obj.get a (connections d) | _ => None end).
Proof.
  unfold restart, ag_conn, ag_store, openStore, load, clearPassthroughFlags, save, modify, mbind, M_bind.
  unfold getConnection. simpl. rewrite Obj.get_map_values. by destruct (file (w_store (ag_world s))).
Qed.

Lemma clear_passthrough_manifest c : manifest_of (clear_passthrough c) = manifest_of c.
Proof. unfold clear_passthrough, manifest_of. by case_match. Qed.

(** The first question of the gate, when there are boundaries. *)
Lemma allowed_asks_boundaries body a w r w' c :
  check body a w = (Ok r, w') → allowed r = true → getConnection a (w_store w) = Some c →
  informationBoundaries (manifest_of c) ≠ [] →
  ∃ d, checkInformationBoundary (w_tick w) (informationBoundaries (manifest_of c)) body = Some d ∧
       d_action d = allow.
Proof.
  rewrite check_run. intros [= <- _] Hr Hc Hb. unfold check_verdict in Hr. rewrite Hc in Hr.
  case_bool_decide; [|done]. unfold questions in Hr. rewrite bool_decide_eq_true_2 in Hr by done.
  simpl in Hr. destruct (checkInformationBoundary _ _ _) as [d|]; [|done].
  exists d. split; [done|]. by case_bool_decide.
Qed.

(** A boundary a human adds takes effect: when
    [pinch-permissions --address a --add-boundary b] reports the update, then in
    the next process a message from [a] passes the gate only if the evaluator
    was asked about a list of boundaries that contains [b], and allowed it. *)
Theorem added_boundary_guards a b relay s m s1 body r w' :
  a ≠ "" →
  tool_run keypair pinch_permissions relay ["--address"; a; "--add-boundary"; b] s =
    (Ok (out_permissions (perm_updated a m)), s1) →
  check body a (ag_world (restart s1).2) = (Ok r, w') → allowed r = true →
  ∃ bs d, b ∈ bs ∧
    checkInformationBoundary (w_tick (ag_world (restart s1).2)) bs body = Some d ∧ d_action d = allow.
Proof.
  intros Ha Hrun Hcheck Hr. set (p := set_addBoundary (Some b) (set_address a no_args)).
  assert (tool_body keypair pinch_permissions ["--address"; a; "--add-boundary"; b] =
          Ok (o ← tool_permissions p; mret (out_permissions o))) as Hbody.
  { change (then_run (required a "--address is required" (Ok p))
      (λ p, o ← tool_permissions p; mret (out_permissions o)) =
      Ok (o ← tool_permissions p; mret (out_permissions o))).
    unfold required. by rewrite bool_decide_false. }
  unfold tool_run, lift in Hrun. rewrite (bind_run _ _ _ _ _ eq_refl), Hbody in Hrun. cbn [is_local] in Hrun.
  rewrite (bind_run bootstrapLocal _ _ (Ok tt) (restart s).2 eq_refl) in Hrun.
  destruct (tool_permissions p (restart s).2) as [o s2] eqn:Ep.
  destruct o as [o|e]; [|by rewrite (bind_run _ _ _ _ _ (bind_run _ _ _ _ _ Ep)) in Hrun].
  rewrite (bind_run _ _ _ (Ok (out_permissions o)) s2 (bind_run _ _ _ _ _ Ep)) in Hrun.
  injection Hrun as -> <-.
  apply tool_permissions_outcome in Ep. unfold permissions_outcome in Ep.
  destruct (ag_conn _ _) as [c|]; [|by destruct Ep].
  destruct Ep as (c' & (Hc' & _) & _ & Hv). case_bool_decide; [|by destruct Hv].
  destruct Hv as ([= Em] & Hm & Hf).
  assert (ag_conn a (restart (relay_down s2).2).2 = Some (clear_passthrough c')) as Hc2.
  { rewrite restart_conn. change (ag_store (relay_down s2).2) with (ag_store s2). rewrite Hf.
    exact (f_equal (fmap clear_passthrough) Hc'). }
  assert (b ∈ informationBoundaries (manifest_of (clear_passthrough c'))) as Hb.
  { rewrite clear_passthrough_manifest. unfold manifest_of at 1. rewrite Hm. simpl.
    by apply added_boundary. }
  destruct (allowed_asks_boundaries body a _ r w' _ Hcheck Hr Hc2) as (d & Hd & Hal);
    [by intros E; rewrite E in Hb; apply not_elem_of_nil in Hb|]. eauto.
Qed.
End tools_spec.

(** ** pinch-activity *)
Definition hidden_types : list string := ["message_received_muted"; "message_receive_muted"].

(** The events a query is for: its filters, and no muted ones unless asked for. *)
Definition shown (p : ActivityArgs) (r : ActivityRow) : Prop :=
  (truthy_str (aa_connection p) = true → Some (connection_address r) = aa_connection p) ∧
  (truthy_str (aa_type p) = true → Some (event_type r) = aa_type p) ∧
  (truthy_str (aa_since p) = true → String.leb (default "" (aa_since p)) (created_at r) = true) ∧
  (truthy_str (aa_until p) = true → String.leb (created_at r) (default "" (aa_until p)) = true) ∧
  (aa_includeMuted p = false → event_type r ∉ hidden_types).

Definition activity_query (p : ActivityArgs) (limit : Z) : EventQuery :=
  mkEventQuery (aa_connection p) (aa_type p) (aa_since p) (aa_until p)
    (if aa_includeMuted p then None else Some hidden_types) (Some limit).

Lemma implb_decide (b : bool) (P : Prop) `{Decision P} :
  (if b then bool_decide P else true) = true ↔ (b = true → P).
Proof. destruct b; rewrite ?bool_decide_eq_true; naive_solver. Qed.

Lemma implb_bool (b c : bool) : (if b then c else true) = true ↔ (b = true → c = true).
Proof. destruct b; naive_solver. Qed.

Lemma activity_where p limit r : event_where (activity_query p limit) r = true ↔ shown p r.
Proof.
  unfold event_where, activity_query, shown. cbn -[hidden_types].
  rewrite !andb_true_iff, !implb_decide, !implb_bool. unfold hidden_types at 1.
  destruct (aa_includeMuted p); simpl; rewrite ?bool_decide_eq_true; naive_solver.
Qed.

Section activity.
Context `{SH : Sha256, SL : SqlLaws, SB : SqlBind}.

(** pinch-activity prints at most [--limit] events, newest first, each of them
    logged, matching every filter given, and not a muted one unless
    [--include-muted]; with a large enough limit it misses none of these.  The
    event of a muted message, as the pipeline logs it, is one of those hidden. *)
Theorem activity_spec p s limit :
  sql_integer (aa_limit p) = Ok limit → (0 ≤ limit)%Z →
  let feed := w_feed (ag_world s) in
  (∀ addr i, in_eventType (muted_event addr i) ∈ hidden_types) ∧
  ∃ evs, tool_activity p s = (Ok (out_events evs (length evs)), s) ∧
    (Z.of_nat (length evs) ≤ limit)%Z ∧
    StronglySorted (λ a b, String.leb (ev_createdAt b) (ev_createdAt a) = true) evs ∧
    (∀ e, e ∈ evs → ∃ r, r ∈ feed ∧ shown p r ∧ e = rowToEvent r) ∧
    ((Z.of_nat (length feed) ≤ limit)%Z → ∀ r, r ∈ feed → shown p r → rowToEvent r ∈ evs).
Proof.
  intros Hl H0 feed. split; [intros; by left|].
  exists (getEvents (activity_query p limit) feed). split.
  { unfold tool_activity. rewrite (bind_run _ _ _ (Ok limit) s); [done|]. unfold lift. by rewrite Hl. }
  unfold getEvents. change (default 100%Z (q_limit (activity_query p limit))) with limit.
  set (rows := filter _ feed). set (leb := λ a b : ActivityRow, _).
  assert (∀ r, r ∈ rows ↔ shown p r ∧ r ∈ feed) as Hrows
    by (intros r; unfold rows; by rewrite list_elem_of_filter, activity_where).
  pose proof (order_by_perm leb rows) as Hp.
  pose proof (order_by_sorted leb rows (λ x y, str_leb_total _ _) (λ x y z H1 H2, str_leb_trans _ _ _ H2 H1)) as Hs.
  split_and!.
  - rewrite length_fmap. by apply sql_limit_length.
  - eapply StronglySorted_fmap, StronglySorted_sublist; [|apply sql_limit_sublist|exact Hs]. done.
  - intros e (r & -> & Hr)%list_elem_of_fmap. exists r.
    assert (r ∈ rows) as [? ?]%Hrows; [|done]. rewrite <- Hp. by eapply elem_of_sublist; [|apply sql_limit_sublist].
  - intros Hlen r Hr Hsh. apply list_elem_of_fmap. exists r. split; [done|].
    unfold sql_limit. rewrite (proj2 (Z.ltb_ge _ _)) by done. simpl.
    rewrite take_ge; [rewrite Hp; by apply Hrows|]. rewrite Hp. unfold rows.
    etrans; [apply length_filter|lia].
Qed.
End activity.

(** ** The relay's two URLs *)
Definition ws_scheme (tls : bool) : string := if tls then "wss://" else "ws://".
Definition http_scheme (tls : bool) : string := if tls then "https://" else "http://".

(** A host with an optional port: not empty, without a slash, and not [ws] itself. *)
Definition is_authority (h : string) : Prop :=
  h ≠ "" ∧ h ≠ "ws" ∧ str_forall (λ c, negb (is_slash c)) h = true.

Lemma authority_no_suffix (scheme h : string) :
  is_authority h → ends_with "/ws" (scheme +:+ "//" +:+ h) = false.
Proof.
  intros (Hne & Hws & Hs). rewrite ends_with_long by (destruct h; [done|simpl; lia]).
  change ("//" +:+ h) with (String "/" (String "/" h)). cbn [ends_with].
  rewrite !bool_decide_eq_false_2 by (intros E; simplify_eq). simpl.
  apply (ends_with_char (λ c, negb (is_slash c))); [done|exact Hs].
Qed.

Lemma authority_kept (a h : string) : is_authority h → drop_end is_slash (a +:+ h) = a +:+ h.
Proof.
  intros (Hne & _ & Hs). pose proof (drop_end_none is_slash h Hs) as E.
  by rewrite drop_end_app; rewrite E.
Qed.

Lemma slash_no_suffix t : ends_with "/ws" (t +:+ "/") = false.
Proof.
  induction t as [|c t IH]; [done|]. change (String c t +:+ "/") with (String c (t +:+ "/")).
  cbn [ends_with]. rewrite IH, orb_false_r. apply bool_decide_eq_false_2. intros [= _ E].
  destruct t as [|c1 [|c2 [|c3 t]]]; done.
Qed.

Lemma relayBaseUrl_scheme tls r :
  relayBaseUrl (ws_scheme tls +:+ r) = remove_suffix "/ws" (http_scheme tls +:+ r).
Proof. by destruct tls. Qed.

(** The tools derive the relay's two URLs from one setting, and for a host
    with or without the path [/ws] they fit together: the socket goes to
    [scheme://host/ws] and the registration to [http(s)://host], and spelling out
    [/ws] changes neither.  With a trailing slash the socket URL is the same
    but the registration base is not: it keeps the slash, and the [/ws]. *)
Theorem relay_urls_agree tls h :
  is_authority h →
  let url := ws_scheme tls +:+ h in
  let base := http_scheme tls +:+ h in
  socketUrl url = url +:+ "/ws" ∧ socketUrl (url +:+ "/ws") = url +:+ "/ws" ∧
  relayBaseUrl url = base ∧ relayBaseUrl (url +:+ "/ws") = base ∧
  socketUrl (url +:+ "/") = url +:+ "/ws" ∧ socketUrl (url +:+ "/ws/") = url +:+ "/ws" ∧
  relayBaseUrl (url +:+ "/") = base +:+ "/" ∧ relayBaseUrl (url +:+ "/ws/") = base +:+ "/ws/".
Proof.
  intros Hh url base.
  assert (ends_with "/ws" url = false) as Hu
    by (unfold url; destruct tls; [apply (authority_no_suffix "wss:")|apply (authority_no_suffix "ws:")]; done).
  assert (ends_with "/ws" base = false) as Hb
    by (unfold base; destruct tls; [apply (authority_no_suffix "https:")|apply (authority_no_suffix "http:")]; done).
  assert (drop_end is_slash url = url) as Hd by by apply authority_kept.
  assert (drop_end is_slash (url +:+ "/ws") = url +:+ "/ws") as Hw by by apply drop_end_app.
  assert (∀ r, relayBaseUrl (url +:+ r) = remove_suffix "/ws" (base +:+ r)) as Hr.
  { intros r. unfold url, base. rewrite !str_app_assoc. apply relayBaseUrl_scheme. }
  assert (socketUrl url = url +:+ "/ws") as Hs1 by (unfold socketUrl; by rewrite Hd, Hu).
  assert (socketUrl (url +:+ "/ws") = url +:+ "/ws") as Hs2
    by (unfold socketUrl; by rewrite Hw, ends_with_app).
  assert (∀ s, socketUrl (s +:+ "/") = socketUrl s) as Hs3
    by (intros s; unfold socketUrl; by rewrite drop_end_all).
  split_and!; try done.
  - unfold url. rewrite relayBaseUrl_scheme. by apply remove_suffix_none.
  - rewrite Hr. apply remove_suffix_app.
  - by rewrite Hs3.
  - change (url +:+ "/ws/") with (url +:+ ("/ws" +:+ "/")). by rewrite <- str_app_assoc, Hs3.
  - rewrite Hr. apply remove_suffix_none, slash_no_suffix.
  - rewrite Hr. apply remove_suffix_none. change ("/ws/") with ("/ws" +:+ "/").
    rewrite <- str_app_assoc. apply slash_no_suffix.
Qed.

Lemma relay_urls_agree_witness :
  relayBaseUrl "wss://relay.example.com/ws/" = "https://relay.example.com/ws/".
Proof.
  assert (is_authority "relay.example.com") as Hh by by split_and!.
  destruct (relay_urls_agree true "relay.example.com" Hh) as (_ & _ & _ & _ & _ & _ & _ & H). exact H.
Defined.

(** ** Witnesses *)
Section witnesses.
Import Sample SampleText SampleBox SampleWire SampleEnv.
#[local] Instance tools_env : Env := env None (Some (mkDecision allow conf_high "ok")).

Definition with_file : Agent := (save_ (peer active offline)).2.
Definition adding : list string := ["--address"; peer_addr; "--add-boundary"; "my finances"].
Definition added : res Output * Agent := tool_run alice pinch_permissions relay_unset adding with_file.

Lemma added_boundary_guards_witness :
  ∃ bs d, "my finances" ∈ bs ∧
    checkInformationBoundary (w_tick (ag_world (restart added.2).2)) bs (text_body "hello") = Some d ∧
    d_action d = allow.
Proof.
  assert (∃ m, added = (Ok (out_permissions (perm_updated peer_addr m)), added.2)) as [m Hm]
    by (eexists; vm_compute; reflexivity).
  assert (∃ r w', check (text_body "hello") peer_addr (ag_world (restart added.2).2) = (Ok r, w') ∧ allowed r = true)
    as (r & w' & Hc & Ha) by (do 2 eexists; split; vm_compute; reflexivity).
  exact (added_boundary_guards alice peer_addr "my finances" relay_unset with_file m added.2 (text_body "hello") r w'
    ltac:(discriminate) Hm Hc Ha).
Defined.

Definition muted_row : ActivityRow :=
  mkActivityRow "1" peer_addr "message_received_muted" None (Some "muted") None "2026" None
    (Some "message_receive_muted") None "" "".
Definition noted_row : ActivityRow :=
  mkActivityRow "2" peer_addr "connection_muted" None (Some "muted") None "2026" None
    (Some "connection_muted") None "" "".
Definition logged : Agent := mkAgent (mkWorld 0 (newStore NoFile) emptyDb [muted_row; noted_row] ∅) offline.
Definition asking : ActivityArgs := mkActivityArgs None None None None (num_of_Z 50) false.

Lemma activity_spec_witness :
  ∃ evs, tool_activity asking logged = (Ok (out_events evs (length evs)), logged) ∧
         rowToEvent noted_row ∈ evs.
Proof.
  assert (sql_integer (aa_limit asking) = Ok 50%Z) as Hl by (vm_compute; reflexivity).
  destruct (activity_spec asking logged 50 Hl ltac:(lia))
    as (_ & evs & H & _ & _ & _ & Hall).
  exists evs. split; [exact H|]. apply Hall; [vm_compute; discriminate|by right; left|].
  split_and!; try discriminate. intros _ Hin. unfold hidden_types in Hin. simpl in Hin.
  apply elem_of_cons in Hin as [Hin|[Hin|[]%not_elem_of_nil]%elem_of_cons]; discriminate.
Defined.
End witnesses.
