(* ===== verification/Network.v ===== *)
(** Several skills and the relay between them.  Every agent is the whole skill of
    [Steps]; the relay delivers what agents have sent, to the agent it is
    addressed to, in any order, any number of times or never.  The invariant
    says what an agent's connections mean for the peers they name: who asked,
    who approved, and whose key is stored. *)
From S2P Require Import Prelude JsLib JsDate Platform Identity PermissionsManifest ConnectionStore.
From S2P Require Import MessageStore ActivityFeed World CircuitBreaker InboundRouter.
From S2P Require Import PermissionsEnforcer EnforcementPipeline Text Envelope ConnectionManager.
From S2P Require Import Args ArgsSpec PermissionsTool Delivery Crypto MessageManager Tools Steps Interleaving.
From stdpp Require Import functions gmap pretty.

(** ** What an agent puts on the wire

    [wire Q x]: the agent's address is still the relay's for [x] or unset, and what
    was sent meanwhile satisfies [Q]. *)
Definition assigned_own (x : string) (r : Relay) : Prop :=
  assignedAddress r = None ∨ assignedAddress r = Some x.

Definition wire (Q : Envelope → Prop) (x : string) (s s' : Agent) : Prop :=
  (assigned_own x (ag_relay s) → assigned_own x (ag_relay s')) ∧
  ∀ e, e ∈ sent (ag_relay s') → e ∈ sent (ag_relay s) ∨ Q e.

(** The relay tells an agent only the agent's own address. *)
Definition own_relay (x : string) (st : Step) : Prop :=
  match st with
  | st_relay_up own | st_process_of _ (relay_assigns own) _ => own = x
  | _ => True
  end.

Section wire.
Context `{EN : Env, SH : Sha256, SQ : SqlEngine, SB : SqlBind, LO : Locale, B58 : Base58, B64 : Base64}.
Context `{UN : Unicode, WI : Wire, ED : Ed25519, NB : NaclBox}.
Context (config : CircuitBreakerConfig) (k : Keypair) (Q : Envelope → Prop) (x : string).
#[local] Abbreviation W := (wire Q x).

#[export] Instance wire_preorder : PreOrder W.
Proof.
  split; [split; auto|]. intros s1 s2 s3 [A1 S1] [A2 S2]. split; [auto|].
  intros e [He|]%S2; [by apply S1|by right].
Qed.

Lemma wire_world {A} (m : M World A) : moves W (zoom worldL m).
Proof. apply (moves_zoom _ (λ _ _, True)); [done|]. split; simpl; auto. Qed.
Lemma wire_any {A} (m : M World A) : moves (world_rel W) m.
Proof. intros w r. split; cbn; auto. Qed.
Lemma wire_send e : Q e → moves W (send_ e).
Proof.
  intros He s. rewrite send_run. destruct (connected _); [|reflexivity]. split; [done|].
  intros e' [?| ->%list_elem_of_singleton]%elem_of_app; auto.
Qed.

Definition wire_permits : Permits := mkPermits (λ _ _ _, True) (λ _, True) (λ _ _, True) Q (x =.).

#[local] Instance wire_calls : Calls W wire_permits.
Proof.
  split; try by intros; apply wire_any.
  - apply _.
  - exact wire_send.
  - split; simpl; [by left|auto].
  - intros own <-. split; simpl; [by right|auto].
  - split; simpl; auto.
Qed.

(** The confirmation a step answers with. *)
Definition step_answers (st : Step) (c : Envelope) : Prop :=
  match st with st_message e => answers k e c | _ => False end.

Lemma own_permitted st :
  (∀ c, step_answers st c → Q c) → own_relay x st → permitted k wire_permits st.
Proof using Type. destruct st; cbn; try done. by destruct relay. Qed.

Lemma wire_sendMessage params :
  (∀ from i now sealed, Q (message_envelope k from (recipient params) i now sealed)) →
  moves W (sendMessage k params).
Proof using SQ. intros Hq. by apply (moves_sendMessage k W wire_permits). Qed.

Lemma wire_unmanaged st :
  (∀ params, moves W (sendMessage k params)) ∨ mute_step st → (∀ c, step_answers st c → Q c) →
  unmanaged st = true → own_relay x st → moves W (exec config k st).
Proof using Type.
  intros Hs Hq Hu Hr. apply (moves_unmanaged config k W wire_permits); [done..|by apply own_permitted].
Qed.

(** The connection manager sends connection envelopes only. *)
Context (Q_connection : ∀ from to t p, connection_type t = true → Q (envelope from to t p)).

#[local] Instance wire_manager_calls : ManagerCalls W wire_permits.
Proof using Q_connection.
  split; [apply _|intros; apply wire_any..|exact Q_connection].
Qed.

(** A step that sends no message sends connection envelopes and what it answers. *)
Lemma wire_step st :
  (∀ params, moves W (sendMessage k params)) ∨ mute_step st → (∀ c, step_answers st c → Q c) →
  own_relay x st → moves W (exec config k st).
Proof using Q_connection.
  intros Hm Hq Hr. apply (moves_step config k W wire_permits); [done|by apply own_permitted].
Qed.
End wire.

(** ** What one agent keeps

    [Req x y]: [x] asked [y] for a connection; [App x y]: [x] approved [y];
    [Unb x y]: [x] unblocked [y]. *)
Section agent.
Context `{EN : Env, SH : Sha256, SQ : SqlEngine, SB : SqlBind, LO : Locale, B58 : Base58, B64 : Base64}.
Context `{B64L : !Base64Laws}.
Context `{UN : Unicode, WI : Wire, ED : Ed25519, NB : NaclBox}.
Context (config : CircuitBreakerConfig) (key : string → Keypair).
Context (Req App Unb : string → string → Prop).

Definition public (a : string) : bytes := publicKey (key a).

(** Connection messages say who sent them and with whose key. *)
Definition honest (x : string) (e : Envelope) : Prop :=
  match env_payload e with
  | connectionRequest q =>
      req_fromAddress q = x ∧ req_senderPublicKey q = public x ∧ Req x (env_toAddress e)
  | connectionResponse p =>
      rsp_fromAddress p = x ∧ rsp_accepted p = true ∧ rsp_responderPublicKey p = public x ∧
      App x (env_toAddress e) ∧ Req (env_toAddress e) x
  | _ => True
  end.

Definition consent (x y : string) : Prop := (Req x y ∧ App y x) ∨ (Req y x ∧ App x y).
Definition keyed (y : string) (c : Connection) : Prop :=
  peerPublicKey c = Some (base64_encode (public y)).

(** [c] is what [x] stores for [y]. *)
Definition meant (x y : string) (c : Connection) : Prop :=
  (truthy_str (peerPublicKey c) = false ∨ keyed y c) ∧
  (cstate c = pending_inbound → Req y x ∧ keyed y c) ∧
  (cstate c = active → Unb x y ∨ (consent x y ∧ keyed y c)).

Definition sound (x : string) (s : Agent) : Prop :=
  assigned_own x (ag_relay s) ∧ Forall (honest x) (sent (ag_relay s)) ∧
  everywhere (meant x) (ag_store s).

Context (x : string) (x_key : ∀ y, public y ≠ []).

Definition safe : relation Agent := λ s s', sound x s → sound x s'.
#[local] Instance safe_preorder : PreOrder safe.
Proof. split; [by intros s H|]. intros s1 s2 s3 H1 H2 H. by apply H2, H1. Qed.

(** *** The wire, apart from the connection manager *)
Definition benign (e : Envelope) : Prop :=
  match env_payload e with connectionRequest _ | connectionResponse _ => False | _ => True end.

(** *** The store *)
Lemma meant_closed_off y c c' :
  meant x y c → peerPublicKey c' = peerPublicKey c → cstate c' ∈ [revoked; blocked] → meant x y c'.
Proof.
  unfold meant, keyed. intros (Hk & _) -> Hs. split; [done|].
  by apply list_elem_of_In in Hs as [<-|[<-|[]]].
Qed.
Lemma meant_same y c c' :
  meant x y c → peerPublicKey c' = peerPublicKey c → cstate c' = cstate c → meant x y c'.
Proof. unfold meant, keyed. by intros H -> ->. Qed.

#[local] Instance meant_closed : Closed (meant x) (λ _ _ _, True).
Proof.
  split.
  - intros a c u now Hu. unfold settings_only in Hu. apply andb_prop in Hu as [_ Hu].
    destruct (upd_state u) eqn:E1, (upd_peerPublicKey u) eqn:E2; try done.
    intros H. apply (meant_same a c _ H); simpl; by rewrite ?E1, ?E2.
  - intros a c m H. by apply (meant_same a c _ H); unfold with_live_manifest; case_match.
  - intros a c now level confirmed _ H. apply (meant_same a c _ H); unfold with_level; by case_match.
  - intros a c now H. apply (meant_closed_off a c _ H); [done|set_solver].
  - intros a c H. apply (meant_same a c _ H); unfold clear_passthrough; by case_match.
Qed.

Lemma safe_split s s' : keeps (meant x) (ag_store s) (ag_store s') → wire benign x s s' → safe s s'.
Proof.
  intros Hk [Ha Hs] (H1 & H2 & H3). split; [by apply Ha|]. split; [|by apply Hk].
  rewrite Forall_forall in H2 |- *. intros e [He|He]%Hs; [by apply H2|].
  unfold benign, honest in *. by destruct (env_payload e).
Qed.
Lemma safe_unmanaged k st : unmanaged st = true → own_relay x st → moves safe (exec config k st).
Proof.
  intros Hu Hr s. apply safe_split; [|apply wire_unmanaged; [left; intros ps; by apply wire_sendMessage| |done..]].
  2:{ intros c. destruct st; try done. by intros (_ & i & own & t & sg & _ & ->). }
  apply (fr_unmanaged config k (keeps (meant x)) (λ _ _ _, True) st Hu). by destruct st.
Qed.

(** *** The connection manager *)
#[local] Abbreviation stored := (Ra (keeps (meant x))).

Lemma safe_world {A} (m : M World A) : moves (world_rel stored) m → moves safe (zoom worldL m).
Proof.
  intros Hm s. apply safe_split; [|apply wire_world]. apply (moves_world stored m Hm s).
Qed.
Lemma safe_save : moves safe save_.
Proof. apply safe_world. apply fr_store; [apply _|apply keeps_save]. Qed.
Lemma safe_now : moves safe now_.
Proof. apply safe_world. apply fr_ask; apply _. Qed.
Lemma safe_iso ms : moves safe (iso_ ms).
Proof. unfold iso_. case_match; [apply moves_ret|apply moves_throw]; apply _. Qed.
Lemma safe_send e : honest x e → moves safe (send_ e).
Proof.
  intros He s. rewrite send_run. destruct (connected _); [|reflexivity].
  intros (H1 & H2 & H3). split; [done|]. split; [|done]. cbn. by apply Forall_app_2; [|constructor].
Qed.
Lemma safe_update a u :
  (∀ c now, meant x a c → meant x a (assign c u now)) → moves safe (update_ a u).
Proof.
  intros Hu. apply safe_world. unfold w_updateConnection.
  apply moves_bind; [apply _|apply fr_ask; apply _|]. intros now. apply fr_store; [apply _|]. apply keeps_update. auto.
Qed.
Lemma safe_add i :
  (∀ now, meant x (in_peerAddress i) (new_connection i now)) → moves safe (add_ i).
Proof.
  intros Hi. apply safe_world. apply moves_bind; [apply _|apply fr_ask; apply _|].
  intros now. apply fr_store; [apply _|]. intros st. unfold addConnection. case_match; [done|].
    apply everywhere_write. intros _. apply Hi.
Qed.
Lemma safe_own {A} (k : string → M Agent A) : moves safe (k x) → moves safe (own_address ≫= k).
Proof.
  intros Hk s Hs. unfold mbind, M_bind. rewrite own_address_run.
  destruct (truthy_str _) eqn:E; [|done].
  destruct Hs as (Ha & Hs). destruct (Ha) as [Hn|Hx]; [by rewrite Hn in E|].
  rewrite Hx. by apply Hk.
Qed.
Lemma safe_conn {A} a (k : option Connection → M Agent A) :
  (∀ o, (∀ c, o = Some c → meant x a c) → moves safe (k o)) → moves safe (conn_ a ≫= k).
Proof.
  intros Hk s Hs. unfold mbind, M_bind. rewrite conn_run. apply Hk; [|done].
  intros c Hc. by apply (everywhere_get _ a (ag_store s)); [apply Hs|].
Qed.
Lemma safe_bind {A B} (m : M Agent A) (k : A → M Agent B) :
  moves safe m → (∀ a, moves safe (k a)) → moves safe (m ≫= k).
Proof. apply moves_bind, _. Qed.
Lemma safe_ret {A} (a : A) : moves safe (mret a).
Proof. apply moves_ret, _. Qed.
Lemma safe_throw {A} e : moves safe (throw (A:=A) e).
Proof. apply moves_throw, _. Qed.

Lemma meant_active a c :
  meant x a c → Unb x a ∨ (consent x a ∧ keyed a c) → ∀ now, meant x a (assign c (with_state active) now).
Proof. intros (Hk & _) H now. by split. Qed.

(** An operation of the agent, or the arrival of what an honest agent sent it. *)
Definition op_meant (op : Op) : Prop :=
  match op with
  | op_send a _ => Req x a
  | op_approve a => App x a
  | op_unblock a => Unb x a
  | op_receive e => ∃ b, honest b e ∧ env_toAddress e = x
  | op_reject _ | op_block _ | op_revoke _ => True
  end.

Create HintDb safe discriminated.
#[local] Hint Resolve safe_save safe_now safe_iso safe_ret safe_throw : safe.
Ltac safe_ops :=
  repeat first
    [ solve [auto with safe] | apply safe_own | apply safe_send; cbn; auto
    | apply safe_update; let Hc := fresh in intros ? ? Hc; apply (meant_closed_off _ _ _ Hc); [done|set_solver]
    | apply safe_bind; [|intros ?] | case_match ].

Lemma safe_sendRequest a m : Req x a → moves safe (sendRequest (Some (public x)) a m).
Proof.
  intros Hr. unfold sendRequest. safe_ops. apply safe_add. intros now. split; [by left|]. by split.
Qed.

Lemma sound_update_save a u c s :
  ag_conn a s = Some c → (∀ now, meant x a (assign c u now)) → sound x s →
  sound x ((_ ← update_ a u; save_) s).2.
Proof.
  intros Hc Hu Hs.
  assert (∃ c' s1, update_ a u s = (Ok c', s1) ∧ sound x s1) as (c' & s1 & Hr & Hs1).
  { destruct s as [[t st d f ev] r]. unfold update_, w_updateConnection, date_now, zoom, mbind, M_bind, ask.
    cbn. rewrite (updateConnection_run _ _ _ _ _ Hc). do 2 eexists. split; [reflexivity|].
    destruct Hs as (H1 & H2 & H3). split; [done|]. split; [done|]. cbn. by apply everywhere_write. }
  run1 Hr. by apply safe_save.
Qed.

Lemma safe_approve a : App x a → moves safe (approveRequest (Some (public x)) a).
Proof.
  intros Ha s Hs. unfold approveRequest. run1 (conn_run a s).
  destruct (ag_conn a s) as [c|] eqn:E; [|done]. case_bool_decide as Hp; [done|].
  assert (cstate c = pending_inbound) as Hin by by destruct (cstate c).
  assert (meant x a c) as Hm by (apply (everywhere_get _ a (ag_store s)); [apply Hs|done]).
  assert (Req a x ∧ keyed a c) as [Hreq Hk] by by apply Hm.
  bind1. rewrite own_address_run. destruct (truthy_str _) eqn:Ht; [|done].
  assert (Hown : default "" (assignedAddress (ag_relay s)) = x)
    by (destruct Hs as [[Hn|Hx] _]; [by rewrite Hn in Ht|by rewrite Hx]).
  rewrite Hown. bind1. set (e := envelope _ _ _ _).
  assert (honest x e) as Hh by by split_and!.
  pose proof (safe_send e Hh s Hs) as Hs1.
  rewrite send_run in Hs1 |- *. destruct (connected _); [|done].
  apply (sound_update_save a _ c); [done| |done]. apply meant_active; [done|]. right. by split; [right|].
Qed.

Lemma safe_unblock a : Unb x a → moves safe (unblockConnection a).
Proof.
  intros Hu. unfold unblockConnection. safe_ops. apply safe_update. intros c now Hc. apply meant_active; auto.
Qed.

Lemma safe_receive e b : honest b e → env_toAddress e = x → moves safe (handleEnvelope e).
Proof.
  intros He Hx. unfold handleEnvelope, handleIncomingRequest, handleIncomingResponse, handleIncomingRevoke.
  unfold honest in He. rewrite Hx in He.
  assert (Hkey : ∀ y, (match public y with [] => "" | k => base64_encode k end) = base64_encode (public y)).
  { intros y. pose proof (x_key y). by destruct (public y). }
  assert (Hne : ∀ y, base64_encode (public y) ≠ "") by (intros y; by apply base64_nonempty).
  destruct (env_type e); try apply safe_ret;
    destruct (env_payload e) as [| | | | | |q|p|v| | | | | | |]; try apply safe_ret.
  - destruct He as (-> & -> & Hr). rewrite Hkey. safe_ops; apply safe_add; intros now; cbn; by split; [right|].
  - destruct He as (-> & -> & -> & Ha & Hr). rewrite Hkey, bool_decide_eq_false_2 by apply Hne.
    safe_ops. apply safe_update. intros c now _. split; [by right|]. split; [done|]. right. by split; [left|].
  - apply safe_conn. intros [c|] _; safe_ops.
Qed.

Lemma safe_run op : op_meant op → moves safe (ConnectionManager.run (Some (public x)) op).
Proof.
  destruct op as [a m|a|a|a|a|a|e]; cbn [op_meant ConnectionManager.run]; intros H.
  - by apply safe_sendRequest.
  - by apply safe_approve.
  - unfold rejectRequest. apply safe_conn. intros [c|] _; safe_ops.
  - unfold blockConnection. safe_ops.
  - by apply safe_unblock.
  - unfold revokeConnection. safe_ops.
  - destruct H as (b & Hb & Hx). by apply (safe_receive e b).
Qed.

(** What an agent's own step says about its consent. *)
Definition tool_meant (t : Tool) (args : list string) : Prop :=
  match t with
  | pinch_connect => ∀ p, connect_parseArgs args = Ok p → Req x (ca_to p)
  | pinch_accept => ∀ a, parseConnectionArg args = Ok a → App x a
  | _ => True
  end.
Definition step_meant (st : Step) : Prop :=
  match st with
  | st_op op => op_meant op
  | st_tool t args | st_process_of t _ args => tool_meant t args
  | _ => True
  end.

Lemma safe_tool t args body :
  managing t = true → tool_meant t args → tool_body (key x) t args = Ok body → moves safe body.
Proof.
  destruct t; try done; unfold tool_body, then_run, res_bind; intros _ Hm; case_match; intros [= <-].
  all: unfold tool_accept, tool_connect, tool_reject; apply safe_bind; [|intros; apply safe_ret].
  - apply (safe_run (op_approve _)). by apply Hm.
  - apply (safe_run (op_send _ _)). by apply Hm.
  - by apply (safe_run (op_reject _)).
Qed.

Lemma safe_step st : step_meant st → own_relay x st → moves safe (exec config (key x) st).
Proof.
  intros Hm Hr. destruct (unmanaged st) eqn:Hu; [by apply safe_unmanaged|].
  destruct st; try done; cbn [unmanaged] in Hu; try apply negb_false_iff in Hu.
  - by apply safe_run.
  - apply moves_tool_in; [apply _|]. intros body. by apply safe_tool.
  - apply moves_tool_process; [apply _|..].
    + apply (safe_unmanaged (key x) st_restart); done.
    + apply (safe_unmanaged (key x) st_relay_down); done.
    + intros own ->. by apply (safe_unmanaged (key x) (st_relay_up own)).
    + intros body. by apply safe_tool.
Qed.
End agent.

Section peer_key.
Context `{SH : Sha256, B58 : Base58, B64 : Base64, B64L : !Base64Laws} (key : string → Keypair).

(** An address that carries a key carries its owner's. *)
Definition names_key (b : string) : Prop := ∀ k h, validateAddress b = Ok (k, h) → k = public key b.

Lemma sound_peer_key Req App Unb x s y k :
  sound key Req App Unb x s → names_key y →
  getPeerPublicKey y (ag_store s) = Some k → k = public key y.
Proof using B64L.
  intros (_ & _ & He) Ho. unfold getPeerPublicKey.
  destruct (truthy_str _) eqn:Ht.
  - destruct (getConnection y (ag_store s)) as [c|] eqn:Hc; [|done]. cbn in *.
    destruct (everywhere_get _ y (ag_store s) c He Hc) as ([Hf|Hk] & _); [by rewrite Hf in Ht|].
    unfold keyed in Hk. rewrite Hk. cbn. rewrite base64_roundtrip. by intros [= <-].
  - destruct (validateAddress y) as [[k' h]|] eqn:E; [|done]. intros [= <-]. by apply (Ho k' h).
Qed.
End peer_key.

(** Consent only grows. *)
Lemma everywhere_mono (P P' : string → Connection → Prop) st :
  (∀ a c, P a c → P' a c) → everywhere P st → everywhere P' st.
Proof.
  intros H [Hm Hf]. split; [|intros d Hd; specialize (Hf d Hd)]; eapply Forall_impl; eauto.
Qed.

Section mono.
Context `{B64 : Base64} (key : string → Keypair).
Context (Req App Unb Req' App' Unb' : string → string → Prop).
Hypothesis req_mono : ∀ a b, Req a b → Req' a b.
Hypothesis app_mono : ∀ a b, App a b → App' a b.
Hypothesis unb_mono : ∀ a b, Unb a b → Unb' a b.

Lemma honest_mono x e : honest key Req App x e → honest key Req' App' x e.
Proof using req_mono app_mono. unfold honest. destruct (env_payload e); naive_solver. Qed.
Lemma sound_mono x s : sound key Req App Unb x s → sound key Req' App' Unb' x s.
Proof using All.
  intros (H1 & H2 & H3). split; [done|]. split; [eapply Forall_impl; [done|apply honest_mono]|].
  eapply everywhere_mono; [|done]. unfold meant, consent, keyed. naive_solver.
Qed.
End mono.

(** ** The network *)
Abbreviation Net := (string → Agent) (only parsing).
Definition Label : Type := string * Step.

(** [x] asked [y] for a connection, approved or unblocked it, by an operation or by
    the tool that runs it. *)
Definition requests (x y : string) (l : Label) : Prop :=
  l.1 = x ∧ match l.2 with
  | st_op (op_send z _) => z = y
  | st_tool t args | st_process_of t _ args =>
      t = pinch_connect ∧ ∃ p, connect_parseArgs args = Ok p ∧ ca_to p = y
  | _ => False
  end.
Definition approves (x y : string) (l : Label) : Prop :=
  l.1 = x ∧ match l.2 with
  | st_op (op_approve z) => z = y
  | st_tool t args | st_process_of t _ args => t = pinch_accept ∧ parseConnectionArg args = Ok y
  | _ => False
  end.
Definition unblocks (x y : string) (l : Label) : Prop :=
  l.1 = x ∧ match l.2 with st_op (op_unblock z) => z = y | _ => False end.

Definition requested (tr : list Label) (x y : string) : Prop := Exists (requests x y) tr.
Definition approved (tr : list Label) (x y : string) : Prop := Exists (approves x y) tr.
Definition unblocked (tr : list Label) (x y : string) : Prop := Exists (unblocks x y) tr.

Section network.
Context `{SH : Sha256, SQ : SqlEngine, SB : SqlBind, LO : Locale, B58 : Base58, B64 : Base64}.
Context `{B64L : !Base64Laws}.
Context `{UN : Unicode, WI : Wire, ED : Ed25519, NB : NaclBox}.
Context (config : CircuitBreakerConfig) (env : string → Env) (key : string → Keypair).

(** One step of one agent, in its own environment and with its own keys. *)
Definition act (l : Label) (n : Net) : Net :=
  <[l.1 := step (EN := env l.1) config (key l.1) l.2 (n l.1)]> n.

(** The relay can hand [e] to [a]: some agent sent it, to [a]. *)
Definition deliverable (n : Net) (a : string) (e : Envelope) : Prop :=
  (∃ b, e ∈ sent (ag_relay (n b))) ∧ env_toAddress e = a.

Definition allowed (n : Net) (l : Label) : Prop :=
  own_relay l.1 l.2 ∧
  match l.2 with
  | st_op (op_receive e) | st_message e => deliverable n l.1 e
  | _ => True
  end.

(** An agent that has done nothing yet. *)
Definition newborn (s : Agent) : Prop :=
  installed s ∧ ag_db s = emptyDb ∧ ag_relay s = mkRelay None false [] ∧ w_feed (ag_world s) = [].

Inductive net_reachable : list Label → Net → Prop :=
| net_start n :
    (∀ a, newborn (n a)) →
    net_reachable [] n
| net_act tr n l :
    net_reachable tr n → allowed n l → net_reachable (tr ++ [l]) (act l n).

Context (has_key : ∀ a, public key a ≠ []).

Lemma did_before (P : Label → Prop) tr l : Exists P tr → Exists P (tr ++ [l]).
Proof. intros H. apply Exists_app. by left. Qed.
Lemma did_now (P : Label → Prop) tr l : P l → Exists P (tr ++ [l]).
Proof. intros H. apply Exists_app. right. by constructor. Qed.

Lemma sound_later tr l b s :
  sound key (requested tr) (approved tr) (unblocked tr) b s →
  sound key (requested (tr ++ [l])) (approved (tr ++ [l])) (unblocked (tr ++ [l])) b s.
Proof using Type. apply sound_mono; intros ? ?; apply did_before. Qed.

(** An allowed step means what the trace says of it. *)
Lemma label_meant tr n l :
  allowed n l → (∀ b, sound key (requested tr) (approved tr) (unblocked tr) b (n b)) →
  step_meant key (requested (tr ++ [l])) (approved (tr ++ [l])) (unblocked (tr ++ [l])) l.1 l.2.
Proof using Type.
  intros [_ Hd] IH. destruct l as [x st]. cbn in *.
  destruct st as [[]| | | | |t args|t relay args| | | | | | | |]; try destruct t; cbn in *; try done;
    intros; try (apply did_now; split; [done|]; cbn; by eauto).
  destruct Hd as [[b He] Hx]. exists b. split; [|done].
  destruct (sound_later tr (x, st_op (op_receive e)) b _ (IH b)) as (_ & Hh & _).
  rewrite Forall_forall in Hh. by apply Hh.
Qed.

Lemma net_sound tr n :
  net_reachable tr n →
  ∀ a, sound key (requested tr) (approved tr) (unblocked tr) a (n a).
Proof using B64L has_key.
  induction 1 as [n H0|tr n l _ IH Hl]; intros a.
  - destruct (H0 a) as (Hi & _ & Hr & _). unfold sound. rewrite Hi, Hr. split; [by left|].
    split; [constructor|]. split; [constructor|done].
  - unfold act. destruct (decide (l.1 = a)) as [<-|]; [|by rewrite fn_lookup_insert_ne; [apply sound_later|]].
    rewrite fn_lookup_insert.
    by apply (safe_step (EN := env l.1)); [done|apply (label_meant tr n)|apply Hl|apply sound_later].
Qed.

(** Every stored connection of every agent means what it says. *)
Lemma net_meant tr n a b c :
  net_reachable tr n → ag_conn b (n a) = Some c →
  meant key (requested tr) (approved tr) (unblocked tr) a b c.
Proof using All.
  intros Hn Hc. destruct (net_sound tr n Hn a) as (_ & _ & He). by apply (everywhere_get _ b (ag_store (n a))).
Qed.

Lemma keyed_peer b c st :
  getConnection b st = Some c → keyed key b c → getPeerPublicKey b st = Some (public key b).
Proof using B64L has_key.
  intros Hc Hk. unfold getPeerPublicKey, keyed in *. rewrite Hc. cbn. rewrite Hk. cbn.
  rewrite bool_decide_eq_false_2 by by apply base64_nonempty. cbn. by rewrite base64_roundtrip.
Qed.

(** C3. No relationship without both humans: whatever the agents do and in
    whatever order, how often or how late the relay delivers their envelopes,
    a connection is active only if one side asked for it and the other
    approved, and then the stored key is the peer's own; the one other way is
    that the agent's human unblocked that peer. *)
Theorem mutual_consent tr n a b c :
  net_reachable tr n → ag_conn b (n a) = Some c → cstate c = active →
  unblocked tr a b ∨
  ((requested tr a b ∧ approved tr b a) ∨ (requested tr b a ∧ approved tr a b)) ∧
  getPeerPublicKey b (ag_store (n a)) = Some (public key b).
Proof using All.
  intros Hn Hc Ha. destruct (net_meant tr n a b c Hn Hc) as (_ & _ & H).
  destruct (H Ha) as [Hu|[Hcons Hk]]; [by left|right]. split; [exact Hcons|].
  by apply (keyed_peer b c).
Qed.

(** C23. Whoever an agent seals a message for or checks a signature of, it uses
    that peer's own key: in every state the network reaches,
    [getPeerPublicKey] answers the key of the peer it is asked for or nothing. *)
Theorem keys_agree tr n a b :
  names_key key b → net_reachable tr n →
  getPeerPublicKey b (ag_store (n a)) ∈ [None; Some (public key b)].
Proof using All.
  intros Ho Hn. destruct (getPeerPublicKey b (ag_store (n a))) as [k|] eqn:E; [|by left].
  rewrite (sound_peer_key key _ _ _ a _ b k (net_sound tr n Hn a) Ho E). by right; left.
Qed.
End network.

(** ** The handshake, step by step *)
Section handshake.
Context `{EN : Env, SH : Sha256, B64 : Base64, B64L : !Base64Laws}.

(** A request arrives: a new pending connection with the requester's key. *)
Lemma request_arrives e q s :
  env_type e = CONNECTION_REQUEST → env_payload e = connectionRequest q →
  String.length (req_message q) ≤ 280 → req_senderPublicKey q ≠ [] →
  (0 < req_expiresAt q ≤ 8640000000000)%Z →
  ∃ c s', handleEnvelope e s = (Ok tt, s') ∧ ag_relay s' = ag_relay s ∧
    ag_conn (req_fromAddress q) s' = Some c ∧ cstate c = pending_inbound ∧ fresh_settings c ∧
    peerPublicKey c = Some (base64_encode (req_senderPublicKey q)).
Proof.
  intros Et Ep Hl Hk He. unfold handleEnvelope, handleIncomingRequest. rewrite Et, Ep.
  destruct (req_senderPublicKey q) as [|kb ks]; [done|].
  rewrite bool_decide_eq_true_2 by lia.
  assert (Hiso : ∀ t, (t ← iso_ (req_expiresAt q * 1000); mret (Some t)) t =
                      (Ok (Some (isoString (req_expiresAt q * 1000))), t)).
  { intros t. unfold iso_, toISOString. by rewrite (proj2 (andb_true_iff _ _)) by (rewrite !Z.leb_le; lia). }
  run1 (Hiso s).
  match goal with |- context [add_ ?x] => set (i := x) end.
  destruct (add_run i s) as (s1 & Er & _ & H).
  assert (too_long i = false) as Hno by (apply andb_false_intro2, Nat.ltb_ge; exact Hl).
  rewrite Hno in H. destruct H as (now & Hr & Hw). destruct (save_run s1) as (s2 & Hs & Hu & Er2 & _).
  exists (new_connection i now), s2. run1 Hr.
  split; [done|]. split; [congruence|]. split; [rewrite Hu, Hw; by rewrite decide_True|].
  split; [done|]. split; [by apply new_settings|done].
Qed.

(** An acceptance arrives: the connection is active with the key it carries. *)
Lemma acceptance_arrives e p s c :
  env_type e = CONNECTION_RESPONSE → env_payload e = connectionResponse p →
  rsp_accepted p = true → rsp_responderPublicKey p ≠ [] →
  ag_conn (rsp_fromAddress p) s = Some c →
  ∃ c' s', handleEnvelope e s = (Ok tt, s') ∧ ag_relay s' = ag_relay s ∧
    ag_conn (rsp_fromAddress p) s' = Some c' ∧ cstate c' = active ∧ keeps_settings c c' ∧
    peerPublicKey c' = Some (base64_encode (rsp_responderPublicKey p)).
Proof.
  intros Et Ep Ea Hk Hc. unfold handleEnvelope, handleIncomingResponse. rewrite Et, Ep, Ea.
  destruct (rsp_responderPublicKey p) as [|kb ks]; [done|].
  rewrite bool_decide_eq_false_2 by by apply base64_nonempty.
  match goal with |- context [update_ ?a ?u] => destruct (update_save a u s) as (s' & Er & H) end.
  rewrite Hc in H. destruct H as (now & Hr & Hw & _). eexists _, s'. cbv zeta. split; [exact Hr|].
  split; [done|]. split; [rewrite Hw; by rewrite decide_True|].
  split; [done|]. split; [apply assign_key_settings|done].
Qed.

Definition clock_sane (E : Env) : Prop := ∀ k, (0 ≤ @env_now E k ≤ 8000000000000000)%Z.

(** A request goes out. *)
Lemma request_sent k own b m s :
  relay_ready own s → String.length m ≤ 280 → clock_sane EN →
  ∃ q c s', sendRequest (Some k) b m s = (Ok tt, s') ∧
    sends (envelope own b CONNECTION_REQUEST (connectionRequest q)) s s' ∧
    req_fromAddress q = own ∧ req_message q = m ∧ req_senderPublicKey q = k ∧
    (0 < req_expiresAt q ≤ 8640000000000)%Z ∧ ag_conn b s' = Some c ∧ fresh_settings c.
Proof.
  intros Ha Hm Hclk. destruct (sendRequest (Some k) b m s) as [r s'] eqn:R.
  destruct (proj1 (sendRequest_spec _ _ _ _ _ _ R) own Ha Hm (Hclk _))
    as (-> & (c & Hc & _ & Hf & _) & _ & Hs).
  eexists _, c, s'. split; [done|]. split; [exact Hs|]. split_and!; try done; cbn;
    pose proof (Hclk (w_tick (ag_world s))); Z.to_euclidean_division_equations; lia.
Qed.

(** An approval: the acceptance goes out, and the connection is active as it was stored. *)
Lemma approval_sent k own a c s :
  relay_ready own s → ag_conn a s = Some c → cstate c = pending_inbound →
  ∃ now s', approveRequest (Some k) a s = (Ok tt, s') ∧
    sends (envelope own a CONNECTION_RESPONSE (connectionResponse (mkResponse own a true k))) s s' ∧
    ag_conn a s' = Some (assign c (with_state active) now).
Proof.
  intros Ha Hc Hp. destruct (approveRequest (Some k) a s) as [r s'] eqn:R.
  pose proof (approveRequest_spec _ _ _ _ _ R) as H. rewrite Hc in H.
  destruct (proj1 H own Hp Ha) as (-> & (now & Hn) & _ & _ & Hs). by exists now, s'.
Qed.
End handshake.

Section completes.
Context `{SH : Sha256, SQ : SqlEngine, SB : SqlBind, LO : Locale, B58 : Base58, B64 : Base64}.
Context `{B64L : !Base64Laws}.
Context `{UN : Unicode, WI : Wire, ED : Ed25519, NB : NaclBox}.
Context (config : CircuitBreakerConfig) (env : string → Env) (key : string → Keypair).
Context (has_key : ∀ a, public key a ≠ []).

Definition run_net (tr : list Label) (n : Net) : Net := fold_left (λ n l, act config env key l n) tr n.
Fixpoint all_allowed (tr : list Label) (n : Net) : Prop :=
  match tr with
  | [] => True
  | l :: tr => allowed n l ∧ all_allowed tr (act config env key l n)
  end.

Lemma act_self a st n : act config env key (a, st) n a = step (EN := env a) config (key a) st (n a).
Proof. unfold act. cbn. by rewrite fn_lookup_insert. Qed.
Lemma act_run a st n s0 r s :
  n a = s0 → exec (EN := env a) config (key a) st s0 = (r, s) → act config env key (a, st) n a = s.
Proof. intros <- H. rewrite act_self. unfold step. by rewrite H. Qed.
Lemma act_other a b st n : a ≠ b → act config env key (a, st) n b = n b.
Proof. intros H. unfold act. cbn. by rewrite fn_lookup_insert_ne. Qed.

(** [c] is active under [k], with the settings of a new connection. *)
Definition settled (y : string) (c : Connection) : Prop :=
  cstate c = active ∧ keyed key y c ∧ fresh_settings c.

Lemma fresh_kept c c' : keeps_settings c c' → fresh_settings c → fresh_settings c'.
Proof. unfold keeps_settings, fresh_settings. intuition congruence. Qed.

Lemma sends_in e s s' : sends e s s' → e ∈ sent (ag_relay s').
Proof. unfold sends. intros ->. cbn. set_solver. Qed.
Lemma sends_ready e own s s' : sends e s s' → relay_ready own s → relay_ready own s'.
Proof. unfold sends, relay_ready. by intros ->. Qed.

(** C16. The handshake completes: whatever the two agents knew of each other, when
    both are on the relay, one asks, the relay delivers, the other approves and
    the relay delivers, both connections are active, each with the other's own
    key, at Full Manual with the deny-all manifest. *)
Theorem handshake_completes a b m n :
  a ≠ b → relay_ready a (n a) → relay_ready b (n b) → String.length m ≤ 280 → clock_sane (env a) →
  ∃ e1 e2, let tr := [(a, st_op (op_send b m)); (b, st_op (op_receive e1));
                      (b, st_op (op_approve a)); (a, st_op (op_receive e2))] in
    all_allowed tr n ∧
    ∃ ca cb, ag_conn b (run_net tr n a) = Some ca ∧ settled b ca ∧
             ag_conn a (run_net tr n b) = Some cb ∧ settled a cb.
Proof using All.
  intros Hab Ha Hb Hm Hclk.
  destruct (request_sent (EN := env a) (public key a) a b m (n a) Ha Hm Hclk)
    as (q & c1 & s1 & R1 & S1 & Hq & Hqm & Hqk & Hqe & Hc1 & Hf1).
  destruct q as [qf qt qm qk qe]. cbn in Hq, Hqm, Hqk, Hqe. subst qf qm qk.
  set (q := mkRequest a qt m (public key a) qe) in *.
  set (e1 := envelope a b CONNECTION_REQUEST (connectionRequest q)) in *.
  destruct (request_arrives (EN := env b) e1 q (n b) eq_refl eq_refl Hm (has_key a) Hqe)
    as (c2 & s2 & R2 & Er2 & Hc2 & Hp2 & Hf2 & Hk2).
  assert (relay_ready b s2) as Hb2 by (unfold relay_ready in *; by rewrite Er2).
  destruct (approval_sent (EN := env b) (public key b) b a c2 s2 Hb2 Hc2 Hp2) as (now & s3 & R3 & S3 & Hc3).
  set (p := mkResponse b a true (public key b)) in *.
  set (e2 := envelope b a CONNECTION_RESPONSE (connectionResponse p)) in *.
  destruct (acceptance_arrives (EN := env a) e2 p s1 c1 eq_refl eq_refl eq_refl (has_key b) Hc1)
    as (c4 & s4 & R4 & _ & Hc4 & Ha4 & Hk4 & Hp4).
  exists e1, e2. cbv zeta.
  unfold run_net. cbn [fold_left all_allowed].
  pose proof (act_run a (st_op (op_send b m)) n _ _ _ eq_refl R1) as N1.
  set (n1 := act config env key (a, st_op (op_send b m)) n) in *.
  assert (N1b : n1 b = n b) by by apply act_other.
  pose proof (act_run b (st_op (op_receive e1)) n1 _ _ _ N1b R2) as N2.
  set (n2 := act config env key (b, st_op (op_receive e1)) n1) in *.
  pose proof (act_run b (st_op (op_approve a)) n2 _ _ _ N2 R3) as N3.
  set (n3 := act config env key (b, st_op (op_approve a)) n2) in *.
  assert (N3a : n3 a = s1) by (unfold n3, n2; by rewrite !act_other).
  pose proof (act_run a (st_op (op_receive e2)) n3 _ _ _ N3a R4) as N4.
  split.
  - split; [done|]. split.
    { split; [done|]. split; [|done]. exists a. rewrite N1. by apply (sends_in _ (n a)). }
    split; [done|]. split; [|done]. split; [done|]. split; [|done].
    exists b. rewrite N3. by apply (sends_in _ s2).
  - exists c4, (assign c2 (with_state active) now). rewrite N4, act_other, N3 by done.
    split; [exact Hc4|]. split; [split_and!; [done..|]; by apply (fresh_kept c1)|].
    split; [exact Hc3|]. split; [done|]. split; [done|]. by apply (fresh_kept c2).
Qed.
End completes.

(** ** Messages across the network *)
Section mail.
Context `{SH : Sha256, SQ : SqlEngine, SB : SqlBind, LO : Locale, B58 : Base58, B64 : Base64}.
Context `{B64L : !Base64Laws}.
Context `{UN : Unicode, UL : !UnicodeLaws, WI : Wire, WL : !WireLaws, ED : Ed25519, NB : NaclBox}.
Context `{EL : !Ed25519Laws, NL : !NaclLaws}.
Context (config : CircuitBreakerConfig) (env : string → Env) (key : string → Keypair).

Lemma net_assigned tr n a own :
  (∀ a, public key a ≠ []) → net_reachable config env key tr n →
  assignedAddress (ag_relay (n a)) = Some own → own = a.
Proof using B64L.
  intros Hk Hn Ho. destruct (net_sound config env key Hk tr n Hn a) as ([H|H] & _); congruence.
Qed.

(** C15. What one agent sends another is what arrives, from the handshake on: in any
    state the network has reached, a message that [a] has sent [b] (the call has
    returned, with the envelope on the wire and the row in the store), handed to
    [b] whenever it is new there, is stored by [b] under the same id, filed under [a], with the
    text, attribution, thread, reference and sequence number of [a]'s own row. *)
Theorem network_message_arrives tr n a params i sA' e m sB r sB' :
  let b := recipient params in
  (∀ x, public key x ≠ []) → keys_ok (key a) → keys_ok (key b) → names_key key b →
  clock_in_range (EN := env a) → net_reachable config env key tr n →
  sendMessage (EN := env a) (key a) params (n a) = (Ok i, sA') →
  sent (ag_relay sA') = sent (ag_relay (n a)) ++ [e] →
  messages (ag_db sA') = messages (ag_db (n a)) ++ [recordToRow m] → (0 ≤ m_sequence m < 2 ^ 53)%Z →
  fresh_ids (EN := env b) (ag_world sB) → getMessage i (ag_db sB) = None →
  handleIncomingMessage (EN := env b) config (key b) e sB = (r, sB') →
  ∃ m', getMessage i (ag_db sB') = Some m' ∧ m_direction m' = inbound ∧ m_connectionAddress m' = a ∧
    m_body m' = p_body params ∧ m_attribution m' = m_attribution m ∧ m_threadId m' = m_threadId m ∧
    m_replyTo m' = m_replyTo m ∧ m_sequence m' = m_sequence m.
Proof using All.
  intros b Hne HA HB Haddr Hclk Hn Hsend Hsent Hsaved Hseq Hf Hnew Hr.
  assert (getPeerPublicKey b (ag_store (n a)) = Some (publicKey (key b))) as Hk.
  { destruct (sendMessage_run _ _ _ _ _ Hsend) as [(err & [=] & _)|(m0 & e0 & s1 & Hc & _)].
    destruct Hc as (c & k & ? & ? & ? & ? & ? & ? & ? & ? & ? & ? & ? & Hc). cbv zeta in Hc.
    destruct Hc as (_ & _ & Hk & _).
    unfold b. rewrite Hk. f_equal. by apply (sound_peer_key key _ _ _ a _ b k (net_sound config env key Hne tr n Hn a)). }
  destruct (message_roundtrip (EN := env a) config (env b) (key a) (key b) params (n a) i sA' sB r sB' e m)
    as (Hown & _ & Hb & m' & Hm & Hd & Hc & Hb' & Ha' & Ht & Hp & Hs & _); [done..|].
  exists m'. rewrite Hc, Hb', Hb. split_and!; try done. by apply (net_assigned tr n a).
Qed.

(** Nothing ties an acceptance to the peer it speaks for: an envelope from any
    sender, with an acceptance that names a known peer and carries any key,
    makes that connection active, a blocked or revoked one included, with its
    settings kept, and from then on what the agent sends that peer is sealed
    for the holder of the key, who reads it. *)
Theorem spoofed_response_takes_mail (E : Env) kA kM e p s c :
  keys_ok kA → keys_ok kM → publicKey kM ≠ [] → clock_in_range (EN := E) →
  env_type e = CONNECTION_RESPONSE → env_payload e = connectionResponse p →
  rsp_accepted p = true → rsp_responderPublicKey p = publicKey kM →
  ag_conn (rsp_fromAddress p) s = Some c →
  ∃ c' s', handleEnvelope e s = (Ok tt, s') ∧ ag_conn (rsp_fromAddress p) s' = Some c' ∧
    cstate c' = active ∧ keeps_settings c c' ∧
    ∀ params i s'' x m, recipient params = rsp_fromAddress p →
      sendMessage kA params s' = (Ok i, s'') → sent (ag_relay s'') = sent (ag_relay s') ++ [x] →
      messages (ag_db s'') = messages (ag_db s') ++ [recordToRow m] → (0 ≤ m_sequence m < 2 ^ 53)%Z →
      ∃ mail, open_message kM x = Ok mail ∧ ct_body (in_content mail) = text_body (p_body params).
Proof using B64L UL WL EL NL.
  intros HA HM Hne Hclk Et Ep Ea Hk Hc.
  destruct (acceptance_arrives e p s c Et Ep Ea) as (c' & s' & R & _ & Hc' & Ha & Hs & Hpk); [by rewrite Hk|done|].
  exists c', s'. do 4 (split; [done|]). intros params i s'' x m Hto Hsend Hsent Hsaved Hseq.
  assert (getPeerPublicKey (recipient params) (ag_store s') = Some (publicKey kM)) as Hkey.
  { rewrite Hto, <- Hk. unfold getPeerPublicKey. unfold ag_conn in Hc'. rewrite Hc'. cbn. rewrite Hpk. cbn.
    rewrite bool_decide_eq_false_2 by (rewrite Hk; by apply base64_nonempty). cbn. by rewrite base64_roundtrip. }
  destruct (sent_open kA kM params s' i s'' x m) as (_ & _ & _ & Hb & _ & Ho); [done..|].
  eexists. split; [exact Ho|]. by rewrite <- Hb.
Qed.
End mail.

(** ** Witnesses *)
Section witnesses.
Import Sample SampleText SampleBox SampleWire SampleEnv.
#[local] Instance net_env : Env := mm_env.

Definition at_a : string := "pinch:a@h".
Definition at_b : string := "pinch:b@h".
(** The key in the address; the two agents' addresses carry none. *)
Definition pair_of (a : string) : Keypair :=
  match validateAddress a with
  | Ok (k, _) => mkKeypair k k
  | Throw _ => if decide (a = at_b) then bob else alice
  end.
Definition blank : Agent := mkAgent (mkWorld 0 (newStore NoFile) emptyDb [] ∅) (mkRelay None false []).
Definition nobody : Net := λ _, blank.
#[local] Abbreviation go := (run_net DEFAULT_CIRCUIT_BREAKER_CONFIG (λ _, net_env) pair_of).
#[local] Abbreviation ok := (all_allowed DEFAULT_CIRCUIT_BREAKER_CONFIG (λ _, net_env) pair_of).
#[local] Abbreviation reach := (net_reachable DEFAULT_CIRCUIT_BREAKER_CONFIG (λ _, net_env) pair_of).

Lemma address_key a k h : validateAddress a = Ok (k, h) → k ≠ [].
Proof.
  unfold validateAddress. repeat case_match; intros; simplify_eq.
  match goal with H : bool_decide (length ?l ≠ 36) = false |- _ =>
    apply bool_decide_eq_false, dec_stable in H; by destruct l end.
Qed.
Lemma pair_ok a : keys_ok (pair_of a).
Proof.
  unfold pair_of. destruct (validateAddress a) as [[k h]|] eqn:E; [|by case_decide].
  split; [done|]. by apply (address_key a k h).
Qed.
Lemma some_key a : public pair_of a ≠ [].
Proof. apply (pair_ok a). Qed.
Lemma all_named a : names_key pair_of a.
Proof. intros k h E. unfold public, pair_of. by rewrite E. Qed.

Definition both_up : list Label := [(at_a, st_relay_up at_a); (at_b, st_relay_up at_b)].
Definition the_request : Envelope :=
  envelope at_a at_b CONNECTION_REQUEST
    (connectionRequest (mkRequest at_a at_b "hi" (publicKey alice) 604800)).
Definition the_acceptance : Envelope :=
  envelope at_b at_a CONNECTION_RESPONSE
    (connectionResponse (mkResponse at_b at_a true (publicKey bob))).
Definition meeting : list Label :=
  both_up ++ [(at_a, st_op (op_send at_b "hi")); (at_b, st_op (op_receive the_request));
              (at_b, st_op (op_approve at_a)); (at_a, st_op (op_receive the_acceptance))].
Definition met : Net := go meeting nobody.

Lemma run_reachable tr tr' n : reach tr n → ok tr' n → reach (tr ++ tr') (go tr' n).
Proof.
  revert tr n. induction tr' as [|l tr' IH]; intros tr n Hn Ha; [by rewrite app_nil_r|].
  destruct Ha as [Hl Ha]. rewrite cons_middle, app_assoc. apply IH; [by constructor|done].
Qed.

Lemma met_reachable : reach meeting met.
Proof.
  apply (run_reachable [] meeting); [by constructor|].
  assert (∃ n, the_request ∈ sent (ag_relay (go (take 3 meeting) nobody n))) as Hr
    by (exists at_a; vm_compute; by left).
  assert (∃ n, the_acceptance ∈ sent (ag_relay (go (take 5 meeting) nobody n))) as Ha
    by (exists at_b; vm_compute; by left).
  repeat split; [exact Hr|exact Ha].
Qed.

(** No step of [meeting] is of the kind. *)
Ltac never :=
  let H := fresh in let H1 := fresh in let H2 := fresh in intros H;
  repeat (apply Exists_cons in H as [[H1 H2]|H]; [first [vm_compute in H1; discriminate H1|destruct H2]|]);
  apply Exists_nil in H; exact H.

Lemma mutual_consent_witness : requested meeting at_a at_b ∧ approved meeting at_b at_a.
Proof.
  assert (∃ c, ag_conn at_b (met at_a) = Some c ∧ cstate c = active) as (c & Hc & Ha)
    by (eexists; split; vm_compute; reflexivity).
  assert (¬ unblocked meeting at_a at_b) as Hu.
  { never. }
  assert (¬ requested meeting at_b at_a) as Hq.
  { never. }
  destruct (mutual_consent DEFAULT_CIRCUIT_BREAKER_CONFIG (λ _, net_env) pair_of some_key meeting met
    at_a at_b c met_reachable Hc Ha) as [H|[[H|[H _]] _]].
  - destruct (Hu H).
  - exact H.
  - destruct (Hq H).
Defined.

Lemma keys_agree_witness :
  getPeerPublicKey at_b (ag_store (met at_a)) ∈ [None; Some (publicKey bob)].
Proof.
  exact (keys_agree DEFAULT_CIRCUIT_BREAKER_CONFIG (λ _, net_env) pair_of some_key meeting met
    at_a at_b (all_named at_b) met_reachable).
Defined.

Lemma handshake_completes_witness :
  ∃ tr, ok tr (go both_up nobody) ∧
    ∃ c, ag_conn at_b (go tr (go both_up nobody) at_a) = Some c ∧ cstate c = active.
Proof.
  assert (relay_ready at_a (go both_up nobody at_a)) as Ha by (vm_compute; split_and!; [done..|done]).
  assert (relay_ready at_b (go both_up nobody at_b)) as Hb by (vm_compute; split_and!; [done..|done]).
  assert (clock_sane net_env) as Hc by (intros k; cbn; lia).
  destruct (handshake_completes DEFAULT_CIRCUIT_BREAKER_CONFIG (λ _, net_env) pair_of some_key
    at_a at_b "hi" (go both_up nobody) ltac:(discriminate) Ha Hb ltac:(cbn; lia) Hc)
    as (e1 & e2 & Hok & ca & _ & Hca & [Hact _] & _).
  eexists. split; [exact Hok|]. exists ca. split; [exact Hca|exact Hact].
Defined.

(** The first message after the handshake. *)
Definition greeting : SendMessageParams := mkSendParams at_b "hello" None None None (Some human).
Definition greeted : Agent := (sendMessage (pair_of at_a) greeting (met at_a)).2.
Definition the_mail : Envelope := default the_request (last (sent (ag_relay greeted))).
Definition mail_id : string := text_decode (env_messageId the_mail).
Definition mail_row : MessageRecord :=
  default (outbound_record greeting "" "" 0 "") (getMessage mail_id (ag_db greeted)).
Definition read_by_bob : res unit * Agent :=
  handleIncomingMessage DEFAULT_CIRCUIT_BREAKER_CONFIG (pair_of (recipient greeting)) the_mail (met at_b).

Lemma fresh_no_log w : w_feed w = [] → fresh_ids w.
Proof.
  intros E. split; [intros n _; rewrite E; apply not_elem_of_nil|].
  intros m n H. by apply (inj pretty) in H.
Qed.

Lemma greeting_sent :
  sendMessage (pair_of at_a) greeting (met at_a) = (Ok mail_id, greeted) ∧
  sent (ag_relay greeted) = sent (ag_relay (met at_a)) ++ [the_mail] ∧
  messages (ag_db greeted) = messages (ag_db (met at_a)) ++ [recordToRow mail_row] ∧
  (0 ≤ m_sequence mail_row < 2 ^ 53)%Z.
Proof. split_and!; by vm_compute. Qed.
Lemma bob_ready : fresh_ids (ag_world (met at_b)) ∧ getMessage mail_id (ag_db (met at_b)) = None.
Proof. split; [apply fresh_no_log|]; by vm_compute. Qed.
Lemma network_message_arrives_witness :
  ∃ m', getMessage mail_id (ag_db read_by_bob.2) = Some m' ∧ m_body m' = "hello" ∧
        m_connectionAddress m' = at_a.
Proof.
  destruct greeting_sent as (Hs & He & Hm & Hq). destruct bob_ready as [Hf Hi].
  unfold read_by_bob.
  destruct (handleIncomingMessage DEFAULT_CIRCUIT_BREAKER_CONFIG (pair_of (recipient greeting)) the_mail (met at_b))
    as [r sB'] eqn:E.
  destruct (network_message_arrives DEFAULT_CIRCUIT_BREAKER_CONFIG (λ _, net_env) pair_of meeting met
    at_a greeting mail_id greeted the_mail mail_row (met at_b) r sB' some_key (pair_ok at_a) (pair_ok at_b)
    (all_named at_b) mm_clock met_reachable Hs He Hm Hq Hf Hi E) as (m' & Hg & _ & Hc & Hb & _).
  exists m'. split; [exact Hg|]. split; [exact Hb|exact Hc].
Defined.

(** Mallory accepts in the name of a peer Alice has blocked. *)
Definition blocked_peer : Agent := peer blocked online.
Definition forged_yes : Envelope :=
  envelope "pinch:mallory@h" "pinch:me@h" CONNECTION_RESPONSE
    (connectionResponse (mkResponse peer_addr "pinch:me@h" true (publicKey mallory))).

Lemma spoofed_response_takes_mail_witness :
  ∃ c, ag_conn peer_addr (handleEnvelope forged_yes blocked_peer).2 = Some c ∧ cstate c = active ∧
    ∃ mail x, open_message mallory x = Ok mail ∧ ct_body (in_content mail) = text_body "secret" ∧
      x ∈ sent (ag_relay (sendMessage alice (mkSendParams peer_addr "secret" None None None None)
                            (handleEnvelope forged_yes blocked_peer).2).2).
Proof.
  destruct (spoofed_response_takes_mail net_env alice mallory forged_yes
    (mkResponse peer_addr "pinch:me@h" true (publicKey mallory)) blocked_peer
    (sample_connection blocked full_auto) alice_ok mallory_ok ltac:(discriminate) mm_clock
    eq_refl eq_refl eq_refl eq_refl eq_refl) as (c & s' & R & Hc & Ha & _ & Hmail).
  rewrite R. cbn [snd]. exists c. split; [exact Hc|]. split; [exact Ha|].
  apply (f_equal snd) in R. cbn [snd] in R. subst s'.
  set (s' := (handleEnvelope forged_yes blocked_peer).2) in *.
  set (params := mkSendParams peer_addr "secret" None None None None) in *.
  set (s'' := (sendMessage alice params s').2).
  set (x := default forged_yes (last (sent (ag_relay s'')))).
  set (i := text_decode (env_messageId x)).
  set (m := default mail_row (getMessage i (ag_db s''))).
  destruct (Hmail params i s'' x m) as (mail & Ho & Hb);
    [reflexivity|vm_compute; reflexivity..|vm_compute; split; [intros [=]|reflexivity]|].
  exists mail, x. split; [exact Ho|]. split; [exact Hb|]. vm_compute. by left.
Defined.
End witnesses.
