(* ===== verification/Authenticity.v ===== *)
(** What an agent holds from a peer is what that peer sent.  The invariant ties the
    envelopes on the wire to the rows of their senders, and the rows an agent
    received to the rows of the agents they name; it uses the soundness of the
    connections ([Network]) for the keys, and the frame of the message table
    ([Rows]) for everything that happens in between. *)
From stdpp Require Import functions gmap pretty.
From S2P Require Import Prelude JsLib JsDate Platform Identity PermissionsManifest ConnectionStore.
From S2P Require Import MessageStore ActivityFeed World CircuitBreaker InboundRouter.
From S2P Require Import PermissionsEnforcer EnforcementPipeline Text Envelope ConnectionManager.
From S2P Require Import Args ArgsSpec PermissionsTool Delivery Crypto MessageManager Tools Steps Rows Network.

(** What the receiver of a row's envelope reads. *)
Definition content_of (m : MessageRecord) : Incoming :=
  mkIncoming (mkContent (text_body (m_body m)) (default agent (m_attribution m)) (m_threadId m) (m_replyTo m))
    (m_sequence m) (m_id m).

(** Sequence numbers a JavaScript number holds exactly. *)
Definition seq_exact (m : MessageRecord) : Prop := (0 ≤ m_sequence m < 2 ^ 53)%Z.

(** Every tool invocation either sends nothing or is one [sendMessage]. *)
Lemma tool_sends `{EN : Env, SH : Sha256, SQ : SqlEngine, SB : SqlBind, LO : Locale, B58 : Base58, B64 : Base64}
    `{UN : Unicode, WI : Wire, ED : Ed25519, NB : NaclBox} (k : Keypair) t args :
  mute_tool t args ∨
  ∃ params (f : string → Output), tool_body k t args = Ok (i ← sendMessage k params; mret (f i)).
Proof.
  destruct t; try (by left); unfold tool_body, then_run, res_bind.
  - destruct (intervene_parseArgs args) as [p|] eqn:E.
    + unfold tool_intervene. destruct (ia_mode p) eqn:Em;
        [left; intros p' Hp'; rewrite E in Hp'; injection Hp' as <-; by rewrite Em..|right].
      eexists _, (λ i, _). reflexivity.
    + left. intros p' Hp'. by rewrite E in Hp'.
  - destruct (send_parseArgs args) as [p|] eqn:E; [right|by left; intros p; rewrite E].
    unfold tool_send. eexists _, (λ i, _). reflexivity.
Qed.

Section agent.
Context `{EN : Env, SH : Sha256, SQ : SqlEngine, SB : SqlBind, LO : Locale, B58 : Base58, B64 : Base64}.
Context `{B64L : !Base64Laws}.
Context `{UN : Unicode, UL : !UnicodeLaws, WI : Wire, WL : !WireLaws, ED : Ed25519, NB : NaclBox}.
Context `{EL : !Ed25519Laws, NL : !NaclLaws}.
Context (config : CircuitBreakerConfig) (key : string → Keypair).
Context (Req App Unb : string → string → Prop) (x : string).
Context (has_key : ∀ y, public key y ≠ []) (pairs : ∀ y, keys_ok (key y)) (named : ∀ y, names_key key y).
Context (clock : clock_in_range).

(** The row of its sender behind a message on the wire. *)
Definition row_behind (db : MessageDb) (e : Envelope) : Prop :=
  env_fromAddress e = x ∧
  ∃ m, getMessage (m_id m) db = Some m ∧ m_direction m = outbound ∧ m_connectionAddress m = env_toAddress e ∧
    (seq_exact m → open_message (key (env_toAddress e)) e = Ok (content_of m)).
Definition mailed (db : MessageDb) (e : Envelope) : Prop := env_type e = MESSAGE → row_behind db e.

Lemma row_behind_grows db db' e : grows db db' → row_behind db e → row_behind db' e.
Proof.
  intros Hg (Hx & m & Hm & Hd & Ha & Ho). split; [done|].
  destruct (Hg _ _ Hm) as (st & fr & now & Hm'). by exists (set_state st fr now m).
Qed.

Definition authentic (s : Agent) : Prop :=
  sound key Req App Unb x s ∧ Forall (mailed (ag_db s)) (sent (ag_relay s)).
Definition au : relation Agent := λ s s', authentic s → authentic s'.
#[local] Instance au_preorder : PreOrder au.
Proof. split; [by intros s H|]. intros s1 s2 s3 H1 H2 H. by apply H2, H1. Qed.

Definition no_mail (e : Envelope) : Prop := env_type e ≠ MESSAGE.

Lemma au_split s s' :
  safe key Req App Unb x s s' → grows (ag_db s) (ag_db s') → wire no_mail x s s' → au s s'.
Proof.
  intros Hs Hg [_ Hw] [H1 H2]. split; [by apply Hs|]. rewrite Forall_forall in H2 |- *.
  intros e [He|He]%Hw Ht; [|done]. eapply row_behind_grows; [exact Hg|]. by apply H2.
Qed.

Lemma au_mute st :
  step_meant key Req App Unb x st → mute_step st → own_relay x st → moves au (exec config (key x) st).
Proof using B64L has_key.
  intros Hm Hq Hr s. apply au_split.
  - by apply safe_step.
  - exact (grows_step config (key x) st s).
  - apply wire_step; [..|done]; [by intros ? ? []|by right|].
    intros c. destruct st; try done. by intros (_ & i & own & t & sg & _ & ->).
Qed.

(** A message goes out with its row in the store, sealed for the peer's own key. *)
Lemma behind_composed params s m e db :
  sound key Req App Unb x s → composed (key x) params s m e → getMessage (m_id m) db = Some m →
  row_behind db e.
Proof using All.
  intros Hs Hc Hdb.
  assert (Hk : getPeerPublicKey (recipient params) (ag_store s) = Some (public key (recipient params)) ∧
    assignedAddress (ag_relay s) = Some (env_fromAddress e) ∧ env_toAddress e = recipient params ∧
    m_direction m = outbound ∧ m_connectionAddress m = recipient params).
  { destruct Hc as (c & k & own & ? & ? & ? & ? & ? & ? & ? & ? & ? & ? & Hc). cbv zeta in Hc.
    destruct Hc as (_ & _ & Hk & Hown & _ & _ & _ & _ & _ & _ & -> & -> & _).
    split_and!; try done. by rewrite Hk, (sound_peer_key key Req App Unb x s _ k Hs (named _) Hk). }
  destruct Hk as (Hk & Hown & Hto & Hd & Ha). split.
  - destruct Hs as [[H|H] _]; rewrite Hown in H; congruence.
  - exists m. split_and!; [done..|by rewrite Ha|]. intros Hq. rewrite Hto.
    by destruct (open_composed (key x) (key (recipient params)) params s m e) as [_ Ho].
Qed.

Lemma au_sendMessage params : moves au (sendMessage (key x) params).
Proof using All.
  intros s [Hs Hm]. split.
  - pose proof (safe_unmanaged config key Req App Unb x has_key (key x) (st_sendMessage params) eq_refl I s Hs) as H.
    cbn [exec] in H. unfold mbind, M_bind in H. by destruct (sendMessage (key x) params s) as [[] ?].
  - assert (Hgrows : grows (ag_db s) (ag_db (sendMessage (key x) params s).2))
      by exact (df_sendMessage (key x) grows (λ _, True) (λ _ _, True) (λ _ _ _ _ _, I) params s).
    assert (Hold : ∀ e, e ∈ sent (ag_relay s) → mailed (ag_db (sendMessage (key x) params s).2) e).
    { intros e He Ht. eapply row_behind_grows; [exact Hgrows|]. rewrite Forall_forall in Hm. by apply Hm. }
    rewrite Forall_forall. destruct (sendMessage (key x) params s) as [r s'] eqn:E. cbn [snd] in *.
    destruct (sendMessage_run _ _ _ _ _ E) as [(err & _ & D)|(m & e & s1 & Hc & D & Hr)].
    + intros e He. apply Hold. destruct D as (_ & E2 & _). by rewrite E2 in He.
    + destruct D as (_ & E2 & _). rewrite save_send_run in Hr. case_bool_decide as Hid.
      { injection Hr as <- <-. intros e' He. apply Hold. by rewrite E2 in He. }
      destruct (connected (ag_relay s1)); injection Hr as <- <-; cbn [sent ag_relay put_relay with_db put_world];
        rewrite E2; [|by intros e' He; apply Hold].
      intros e' [He| ->%list_elem_of_singleton]%elem_of_app; [by apply Hold|]. intros _.
      apply (behind_composed params s m e); [done..|].
      etrans; [exact (getMessage_insert (m_id m) m (ag_db s1))|].
      by rewrite (proj2 (getMessage_None _ _) Hid), decide_True, (composed_text _ _ _ _ _ Hc).
Qed.

Lemma au_bind_ret {A B} (m : M Agent A) (f : A → B) : moves au m → moves au (a ← m; mret (f a)).
Proof. intros Hm. apply moves_bind; [apply _|done|]. intros a. apply moves_ret. apply _. Qed.

Lemma au_step st :
  step_meant key Req App Unb x st → own_relay x st → moves au (exec config (key x) st).
Proof using All.
  intros Hm Hr.
  assert (Hbody : ∀ t args, mute_tool t args ∨ ∀ body, tool_body (key x) t args = Ok body → moves au body).
  { intros t args. destruct (tool_sends (key x) t args) as [|(params & f & E)]; [by left|right].
    intros body Hb. rewrite E in Hb. injection Hb as <-. apply au_bind_ret, au_sendMessage. }
  destruct st as [op|params|e|m a|i act|t args|t relay args|a l c|a m|a n| | | |own|]; try by apply au_mute.
  - apply (au_bind_ret _ (λ _, tt)), au_sendMessage.
  - destruct (Hbody t args) as [|Hb]; [by apply au_mute|]. by apply moves_tool_in; [apply _|].
  - destruct (Hbody t args) as [|Hb]; [by apply au_mute|]. apply moves_tool_process; [apply _|..|done].
    + by apply (au_mute st_restart).
    + by apply (au_mute st_relay_down).
    + intros own ->. by apply (au_mute (st_relay_up own)).
Qed.
End agent.

(** ** What an agent has received *)
Section received.
Context (A : MessageRecord → Prop).
Context (A_state : ∀ m st reason now, A m → A (set_state st reason now m)) (A_text : ∀ m, A m → A (as_text m)).

Definition received (db : MessageDb) : Prop :=
  ∀ j m, getMessage j db = Some m → m_direction m = inbound → A m.
Definition keeps_received (db db' : MessageDb) : Prop := received db → received db'.

#[export] Instance received_frame :
  DbFrame keeps_received (λ m, m_direction m = inbound → A m) (λ _ _, True).
Proof using A_state A_text.
  split.
  - split; [by intros db H|]. intros d1 d2 d3 H1 H2 H. by apply H2, H1.
  - intros m Hm db H. unfold saveMessage, mbind, M_bind, gets, throw, modify.
    destruct (bool_decide _); [done|]. intros j m' Hj. cbn [snd] in Hj. rewrite getMessage_insert in Hj.
    destruct (getMessage j db) as [old|] eqn:E; [injection Hj as <-; by apply (H j)|].
    case_decide; [|done]. injection Hj as <-. intros Hd. by apply A_text, Hm.
  - intros now i st reason _ db H j m. rewrite getMessage_updateState.
    destruct (getMessage j db) as [old|] eqn:E; [|done]. intros [= <-].
    case_decide; intros Hd; [apply A_state|]; by apply (H j).
  - intros a db H. exact H.
Qed.
End received.

Section network.
Context `{SH : Sha256, SQ : SqlEngine, SB : SqlBind, LO : Locale, B58 : Base58, B64 : Base64}.
Context `{B64L : !Base64Laws}.
Context `{UN : Unicode, UL : !UnicodeLaws, WI : Wire, WL : !WireLaws, ED : Ed25519, NB : NaclBox}.
Context `{EL : !Ed25519Laws, NL : !NaclLaws}.
Context (config : CircuitBreakerConfig) (env : string → Env) (key : string → Keypair).
Context (has_key : ∀ y, public key y ≠ []) (pairs : ∀ y, keys_ok (key y)) (named : ∀ y, names_key key y).
Context (clock : ∀ a, clock_in_range (EN := env a)).

(** [m], at [b], is a message its peer has in its own store as sent to [b]. *)
Definition was_sent (n : Net) (b : string) (m : MessageRecord) : Prop :=
  ∃ m0, getMessage (m_id m) (ag_db (n (m_connectionAddress m))) = Some m0 ∧
    m_direction m0 = outbound ∧ m_connectionAddress m0 = b ∧
    m_body m = m_body m0 ∧ m_attribution m = Some (default agent (m_attribution m0)) ∧
    m_threadId m = m_threadId m0 ∧ m_replyTo m = m_replyTo m0 ∧ m_sequence m = m_sequence m0.

Definition net_grows (n n' : Net) : Prop := ∀ a, grows (ag_db (n a)) (ag_db (n' a)).
Definition exact_sequences (n : Net) : Prop :=
  ∀ a j m, getMessage j (ag_db (n a)) = Some m → m_direction m = outbound → seq_exact m.

Lemma exact_before n n' : net_grows n n' → exact_sequences n' → exact_sequences n.
Proof.
  intros Hg Hx a j m Hm Hd. destruct (Hg a j m Hm) as (st & fr & now & Hm').
  by apply (Hx a j _ Hm').
Qed.
Lemma was_sent_grows n n' b m : net_grows n n' → was_sent n b m → was_sent n' b m.
Proof.
  intros Hg (m0 & Hm & H). destruct (Hg _ _ _ Hm) as (st & fr & now & Hm').
  by exists (set_state st fr now m0).
Qed.
Lemma act_grows l n : net_grows n (act config env key l n).
Proof using Type.
  intros a. unfold act. destruct (decide (l.1 = a)) as [<-|]; [|by rewrite fn_lookup_insert_ne].
  rewrite fn_lookup_insert.
  exact (grows_step (EN := env l.1) config (key l.1) l.2 (n l.1)).
Qed.

Definition authentic_in (tr : list Label) (n : Net) (a : string) : Prop :=
  authentic key (requested tr) (approved tr) (unblocked tr) a (n a).

Lemma authentic_later tr l a s :
  authentic key (requested tr) (approved tr) (unblocked tr) a s →
  authentic key (requested (tr ++ [l])) (approved (tr ++ [l])) (unblocked (tr ++ [l])) a s.
Proof using Type. intros [H1 H2]. split; [by apply sound_later|done]. Qed.

Lemma net_authentic tr n : net_reachable config env key tr n → ∀ a, authentic_in tr n a.
Proof using All.
  induction 1 as [n H0|tr n l _ IH Hl]; intros a; unfold authentic_in.
  - split; [apply (net_sound config env key has_key [] n), net_start, H0|].
    destruct (H0 a) as (_ & _ & -> & _). constructor.
  - unfold act. destruct (decide (l.1 = a)) as [<-|]; [|by rewrite fn_lookup_insert_ne; [apply authentic_later, IH|]].
    rewrite fn_lookup_insert. apply (au_step (EN := env l.1)); [done|done|done|apply clock| |apply Hl|apply authentic_later, IH].
    apply (label_meant key tr n); [done|]. intros b. apply IH.
Qed.

(** What an envelope on the wire opens to is what its sender composed. *)
Lemma opens_to tr n b e i :
  net_reachable config env key tr n → exact_sequences n → deliverable n b e → env_type e = MESSAGE →
  open_message (key b) e = Ok i →
  ∃ m0, getMessage (m_id m0) (ag_db (n (env_fromAddress e))) = Some m0 ∧ m_direction m0 = outbound ∧
    m_connectionAddress m0 = b ∧ i = content_of m0.
Proof using All.
  intros Hn Hx [[c He] Hto] Ht Ho.
  destruct (net_authentic tr n Hn c) as [_ Hm]. rewrite Forall_forall in Hm.
  destruct (Hm e He Ht) as (Hc & m0 & Hm0 & Hd & Ha & Hopen).
  specialize (Hopen (Hx c _ m0 Hm0 Hd)). rewrite Hto, Ho in Hopen. injection Hopen as ->.
  exists m0. rewrite Hc. by split_and!; [..|congruence|].
Qed.

(** What an envelope on the wire brings its receiver was sent. *)
Lemma brought_was_sent tr n b e m :
  net_reachable config env key tr n → exact_sequences n → deliverable n b e →
  brings (key b) e m → was_sent n b m.
Proof using All.
  intros Hn Hx Hl (Ht & i & body & now & Ho & Hb & ->).
  destruct (opens_to tr n b e i Hn Hx Hl Ht Ho) as (m0 & Hm0 & Hd & Ha & ->).
  cbn in Hb. injection Hb as <-. exists m0. cbn. by split_and!.
Qed.

Lemma net_received tr n :
  net_reachable config env key tr n → exact_sequences n → ∀ b, received (was_sent n b) (ag_db (n b)).
Proof using All.
  induction 1 as [n H0|tr n l Hn IH Hl]; intros Hx b.
  - destruct (H0 b) as (_ & Hdb & _). intros j m Hm. by rewrite Hdb in Hm.
  - pose proof (act_grows l n) as Hg. pose proof (exact_before _ _ Hg Hx) as Hx0.
    assert (Hb : received (was_sent n b) (ag_db (act config env key l n b))).
    { unfold act. destruct (decide (l.1 = b)) as [<-|]; [|by rewrite fn_lookup_insert_ne; [apply IH|]].
      rewrite fn_lookup_insert.
      assert (DbFrame (keeps_received (was_sent n l.1)) (λ m, m_direction m = inbound → was_sent n l.1 m) (λ _ _, True))
        by (apply received_frame; [intros m ? ? ?; exact Datatypes.id|intros m; exact Datatypes.id]).
      refine (df_step (EN := env l.1) config (key l.1) _ _ _ _ l.2 _ (λ _ _ _, I) (n l.1) (IH Hx0 l.1)).
      - done.
      - intros m Hm _. destruct Hl as [_ Hl]. destruct (l.2); try done.
        by apply (brought_was_sent tr n l.1 e). }
    intros j m Hm Hd. eapply was_sent_grows; [exact Hg|]. by apply (Hb j).
Qed.

(** C6. No message is made up and none is altered: in every state the network
    reaches, whatever an agent has stored as received from a peer is in that
    peer's own store, sent to this agent under the same id with the same text,
    attribution, thread, reference and sequence number. *)
Theorem received_was_sent tr n b j m :
  net_reachable config env key tr n → exact_sequences n →
  getMessage j (ag_db (n b)) = Some m → m_direction m = inbound →
  was_sent n b m.
Proof using All. intros Hn Hx. apply (net_received tr n Hn Hx b). Qed.
End network.

(** ** Witness: the handshake, a message, its arrival *)
Section witness.
Import Sample SampleText SampleBox SampleWire.
#[local] Existing Instance net_env.
#[local] Abbreviation go := (run_net DEFAULT_CIRCUIT_BREAKER_CONFIG (λ _, net_env) pair_of).
#[local] Abbreviation reach := (net_reachable DEFAULT_CIRCUIT_BREAKER_CONFIG (λ _, net_env) pair_of).

Definition exchange : list Label := [(at_a, st_sendMessage greeting); (at_b, st_message the_mail)].
Definition exchanged : Net := go exchange met.

Lemma untouched tr n a : Forall (λ l, l.1 ≠ a) tr → go tr n a = n a.
Proof.
  revert n. induction tr as [|l tr IH]; intros n Ht; [done|]. apply Forall_cons in Ht as [Hl Ht].
  change (go (l :: tr) n) with (go tr (act DEFAULT_CIRCUIT_BREAKER_CONFIG (λ _, net_env) pair_of l n)).
  rewrite IH by done. unfold act. by rewrite fn_lookup_insert_ne.
Qed.

Lemma exchanged_reachable : reach (meeting ++ exchange) exchanged.
Proof.
  apply run_reachable; [exact met_reachable|]. split; [by split|]. split; [|done]. split; [done|].
  split; [|by vm_compute]. exists at_a. vm_compute. by repeat (apply list_elem_of_here || apply list_elem_of_further).
Qed.

Definition small (r : MessageRow) : bool := (0 <=? sequence r)%Z && (sequence r <? 2 ^ 53)%Z.
Definition between (tr : list Label) : bool :=
  forallb (λ l : Label, bool_decide (l.1 = at_a) || bool_decide (l.1 = at_b)) tr.
Lemma elsewhere tr n a : between tr = true → a ≠ at_a → a ≠ at_b → go tr n a = n a.
Proof.
  intros Ht Ha Hb. apply untouched. rewrite Forall_forall. intros l Hl.
  unfold between in Ht. rewrite forallb_forall in Ht. specialize (Ht l (proj1 (list_elem_of_In _ _) Hl)).
  apply orb_true_iff in Ht as [E%bool_decide_eq_true|E%bool_decide_eq_true]; congruence.
Qed.

(** The sequence numbers after the two have talked. *)
Lemma small_exact tr :
  between tr = true → forallb small (messages (ag_db (go tr met at_a))) = true →
  forallb small (messages (ag_db (go tr met at_b))) = true → exact_sequences (go tr met).
Proof.
  intros Ht Sa Sb a j m Hm _. unfold getMessage in Hm. apply fmap_Some in Hm as (r & [Hr _]%List.find_some & ->).
  assert (small r = true) as [H1 H2]%andb_prop.
  { rewrite forallb_forall in Sa, Sb.
    destruct (decide (a = at_a)) as [->|Ha]; [by apply Sa|].
    destruct (decide (a = at_b)) as [->|Hb]; [by apply Sb|].
    rewrite (elsewhere tr) in Hr by done. unfold met in Hr. by rewrite elsewhere in Hr. }
  apply Z.leb_le in H1. apply Z.ltb_lt in H2. by split.
Qed.

Lemma exchanged_exact : exact_sequences exchanged.
Proof. apply small_exact; by vm_compute. Qed.

Lemma received_was_sent_witness :
  ∃ m, getMessage mail_id (ag_db (exchanged at_b)) = Some m ∧ m_body m = "hello" ∧ was_sent exchanged at_b m.
Proof.
  assert (∃ m, getMessage mail_id (ag_db (exchanged at_b)) = Some m ∧ m_body m = "hello" ∧
               m_direction m = inbound) as (m & Hm & Hb & Hd) by (eexists; split_and!; vm_compute; reflexivity).
  exists m. split; [exact Hm|]. split; [exact Hb|].
  exact (received_was_sent DEFAULT_CIRCUIT_BREAKER_CONFIG (λ _, net_env) pair_of some_key pair_ok all_named
    (λ _, mm_clock) (meeting ++ exchange) exchanged at_b mail_id m exchanged_reachable exchanged_exact Hm Hd).
Defined.
End witness.
