(* ===== verification/EndToEnd.v ===== *)
(** The life of one agent inside the network, and what stood between a message and
    the agent when the message came in: the theorems of one agent's life
    ([Skill], [Log]) and of the network ([Network]), composed. *)
From stdpp Require Import functions gmap pretty.
From S2P Require Import Prelude JsLib JsDate Platform Identity PermissionsManifest ConnectionStore.
From S2P Require Import MessageStore ActivityFeed World CircuitBreaker InboundRouter.
From S2P Require Import PermissionsEnforcer EnforcementPipeline Text Envelope ConnectionManager.
From S2P Require Import Args ArgsSpec PermissionsTool Delivery Crypto MessageManager Tools Steps Rows Log Skill.
From S2P Require Import Network Authenticity.

(** The steps of one agent. *)
Definition own_steps (a : string) (tr : list Label) : list Step :=
  snd <$> filter (λ l : Label, l.1 = a) tr.

Lemma own_steps_app a tr l :
  own_steps a (tr ++ [l]) = own_steps a tr ++ if decide (l.1 = a) then [l.2] else [].
Proof. unfold own_steps. rewrite filter_app, fmap_app, filter_cons, filter_nil. by case_decide. Qed.

Lemma own_steps_exists (P : Step → Prop) a tr :
  Exists P (own_steps a tr) → Exists (λ l : Label, l.1 = a ∧ P l.2) tr.
Proof.
  rewrite !Exists_exists. intros (st & (l & -> & [Hl Hin]%list_elem_of_filter)%list_elem_of_fmap & HP).
  by exists l.
Qed.

Section projection.
Context `{SH : Sha256, SQ : SqlEngine, SB : SqlBind, LO : Locale, B58 : Base58, B64 : Base64}.
Context `{UN : Unicode, WI : Wire, ED : Ed25519, NB : NaclBox}.
Context (config : CircuitBreakerConfig) (env : string → Env) (key : string → Keypair).

(** An agent in the network lives the life of [Steps]. *)
Lemma net_projects tr n :
  net_reachable config env key tr n →
  ∃ n0, (∀ a, newborn (n0 a)) ∧
    ∀ a, reachable (EN := env a) config (key a) (n0 a) (own_steps a tr) (n a).
Proof.
  induction 1 as [n H0|tr n l _ (n0 & H0 & IH) _].
  - exists n. split; [done|]. intros a. constructor.
  - exists n0. split; [done|]. intros a. rewrite own_steps_app. unfold act. case_decide as E.
    + subst a. rewrite fn_lookup_insert. by constructor.
    + rewrite fn_lookup_insert_ne, app_nil_r by done. apply IH.
Qed.

Context (uuids : ∀ a i j, @env_uuid (env a) i = @env_uuid (env a) j → i = j).

Lemma net_fresh tr n a : net_reachable config env key tr n → fresh_ids (EN := env a) (ag_world (n a)).
Proof using uuids SQ.
  intros (n0 & H0 & H)%net_projects.
  apply (reachable_fresh (EN := env a) config (key a) _ _ _ (H a)).
  destruct (H0 a) as (_ & _ & _ & Hf). split; [|apply uuids]. intros i _. rewrite Hf. apply not_elem_of_nil.
Qed.
End projection.

(** ** A message that the agent reads *)

(** Every boundary question of the connection was answered [allow] for [text], the
    body the message carried. *)
Definition boundaries_pass (E : Env) (c : Connection) (text : BodyValue) : Prop :=
  ∃ t, ∀ k q, questions (manifest_of c) !! k = Some q →
    ∃ d, checkInformationBoundary (t + k) q text = Some d ∧ d_action d = allow.

(** The level lets a message through to the agent, or its policy does. *)
Definition level_passes (E : Env) (c : Connection) (a : string) (text : BodyValue) : Prop :=
  autonomyLevel c = full_auto ∨ autonomyLevel c = notify ∨
  autonomyLevel c = auto_respond ∧
  ∃ p t d, autoRespondPolicy c = Some p ∧ p ≠ "" ∧
    evaluatePolicy t (mkPolicyRequest p text a (nickname c)) = Some d ∧ d_action d = allow.

Section reading.
Context `{SH : Sha256, SQ : SqlEngine, SB : SqlBind, LO : Locale, B58 : Base58, B64 : Base64}.
Context `{B64L : !Base64Laws, UN : Unicode, WI : Wire, ED : Ed25519, NB : NaclBox}.
Context (config : CircuitBreakerConfig) (env : string → Env) (key : string → Keypair).
Context (has_key : ∀ y, public key y ≠ []).
Context (uuids : ∀ a i j, @env_uuid (env a) i = @env_uuid (env a) j → i = j).
#[local] Abbreviation go := (act config env key).

(** What stood between [m] and [b]'s agent in the state [n], reached by [tr]: an
    active connection that one human asked for and the other approved (or that
    [b]'s human unblocked), neither muted nor under intervention; every boundary
    of its manifest allowed the text; and its level let it through, Full Auto
    only if [b]'s human had confirmed it for exactly that peer. *)
Definition consented (tr : list Label) (n : Net) (b : string) (m : MessageRecord) : Prop :=
  let a := m_connectionAddress m in
  ∃ c, ag_conn a (n b) = Some c ∧ cstate c = active ∧
    (unblocked tr b a ∨ consent (requested tr) (approved tr) b a) ∧
    no_switch c ∧ boundaries_pass (env b) c (text_body (m_body m)) ∧
    level_passes (env b) c a (text_body (m_body m)) ∧
    (autonomyLevel c = full_auto → Exists (λ l, l.1 = b ∧ confirms a l.2) tr).

(** A message that is read on arrival, its body being text. *)
Lemma read_on_arrival tr n b e j m :
  net_reachable config env key tr n → env_type e = MESSAGE →
  getMessage j (ag_db (n b)) = None → getMessage j (ag_db (go (b, st_message e) n b)) = Some m →
  m_state m = "read_by_agent" →
  (∀ i, open_message (key b) e = Ok i → ∃ text, ct_body (in_content i) = text_body text) →
  consented tr n b m.
Proof using All.
  intros Hn Ht Hnone Hsome Hst Htext. unfold act in Hsome. cbn [fst snd] in Hsome. rewrite fn_lookup_insert in Hsome.
  unfold step in Hsome. cbn [exec] in Hsome. unfold dispatch in Hsome. rewrite Ht in Hsome.
  destruct (handleIncomingMessage (EN := env b) config (key b) e (n b)) as [r s'] eqn:Hr. cbn [snd] in Hsome.
  pose proof (net_fresh config env key uuids tr n b Hn) as Hf.
  destruct (received_read (EN := env b) config (key b) e (n b) r s' j m Hf Hr Hnone Hsome Hst)
    as (Ha & i & c & t & Ho & Hcol & Hc & Hact & Hsw & Hb & Hl).
  destruct (Htext i Ho) as [text Et]. rewrite Et in Hcol, Hb, Hl. injection Hcol as ->.
  unfold consented. rewrite Ha. exists c. split; [done|]. split; [done|]. split.
  - destruct (net_meant config env key has_key tr n b _ c Hn Hc) as (_ & _ & H).
    destruct (H Hact) as [|[]]; auto.
  - split; [done|]. split; [by exists t|]. split; [done|]. intros Hfa.
    destruct (net_projects config env key tr n Hn) as (n0 & H0 & Hp).
    apply own_steps_exists. eapply reachable_armed; [apply H0|apply Hp|].
    by apply (armed_mem _ _ c).
Qed.
End reading.
