(* ===== verification/Confirmed.v ===== *)
(** What a delivery confirmation is worth: in a network of agents a message stands
    as delivered in its sender's store only if its receiver has it.  Two
    invariants: every confirmation on the wire names a row its sender received,
    and the state of what an agent sent is only set by such a confirmation. *)
From stdpp Require Import functions gmap pretty.
From S2P Require Import Prelude JsLib JsDate Platform Identity PermissionsManifest ConnectionStore.
From S2P Require Import MessageStore ActivityFeed World CircuitBreaker InboundRouter.
From S2P Require Import PermissionsEnforcer EnforcementPipeline Text Envelope ConnectionManager.
From S2P Require Import Args ArgsSpec PermissionsTool Delivery Crypto MessageManager Tools Steps Rows Log.
From S2P Require Import Network Authenticity EndToEnd.

(** ** Who writes a state

    In the rows of one direction a write leaves the state as it was, or the row is
    new and its state [first], or [may] allowed it. *)
Section settles.
Context (dir : Direction) (first : string → Prop) (may : string → string → Prop).

Definition settles (db db' : MessageDb) : Prop := ∀ j m',
  getMessage j db' = Some m' → m_direction m' = dir →
  first (m_state m') ∨ may j (m_state m') ∨
  ∃ m, getMessage j db = Some m ∧ m_direction m = dir ∧ m_state m = m_state m' ∧
       m_connectionAddress m = m_connectionAddress m' ∧ m_body m = m_body m'.

Lemma settles_same db db' : (∀ j, getMessage j db' = getMessage j db) → settles db db'.
Proof. intros E j m' Hm' Hd. right; right. exists m'. by rewrite <- E. Qed.

#[export] Instance settles_frame : DbFrame settles (λ m, m_direction m = dir → first (m_state m)) may.
Proof.
  split.
  - split; [intros db; by apply settles_same|]. intros x y z H1 H2 j m' Hm' Hd.
    destruct (H2 j m' Hm' Hd) as [|[|(m & Hm & Hd' & Hst & Ha & Hb)]]; [by left|by right; left|].
    rewrite <- Hst, <- Ha, <- Hb. by apply H1.
  - intros m Hok db. unfold saveMessage, mbind, M_bind, gets, throw, modify.
    destruct (bool_decide _); [by apply settles_same|]. intros j m' Hj Hd. cbn [snd] in Hj.
    rewrite getMessage_insert in Hj. destruct (getMessage j db) as [old|] eqn:E.
    + injection Hj as ->. right; right. by exists m'.
    + case_decide; [|done]. injection Hj as <-. left. by apply Hok.
  - intros now i st reason Hmay db j m'. rewrite getMessage_updateState.
    destruct (getMessage j db) as [old|] eqn:E; [|done]. intros [= <-].
    case_decide as Ei; intros Hd; [|by right; right; exists old]. subst i. by right; left.
  - intros a db. by apply settles_same.
Qed.
End settles.

Section agent.
Context `{EN : Env, SH : Sha256, SQ : SqlEngine, SB : SqlBind, LO : Locale, B58 : Base58, B64 : Base64}.
Context `{UN : Unicode, UL : !UnicodeLaws, WI : Wire, ED : Ed25519, NB : NaclBox}.
Context (config : CircuitBreakerConfig) (k : Keypair) (x : string).

Lemma outbound_sent params i th n now : m_state (outbound_record params i th n now) = "sent".
Proof. done. Qed.

(** A confirmation on the wire names a row of its sender, received from the agent it
    goes to. *)
Definition confirm_true (db : MessageDb) (e : Envelope) : Prop :=
  env_type e = DELIVERY_CONFIRM →
  env_fromAddress e = x ∧ ∃ d m, env_payload e = deliveryConfirm d ∧ dc_state d = "delivered" ∧
    getMessage (text_decode (dc_messageId d)) db = Some m ∧ m_direction m = inbound ∧
    m_connectionAddress m = env_toAddress e.

Definition truthful (s : Agent) : Prop :=
  assigned_own x (ag_relay s) ∧ Forall (confirm_true (ag_db s)) (sent (ag_relay s)).

Lemma confirm_true_grows db db' e : grows db db' → confirm_true db e → confirm_true db' e.
Proof.
  intros Hg H Ht. destruct (H Ht) as (Hx & d & m & Ep & Hs & Hm & Hd & Ha).
  destruct (Hg _ _ Hm) as (st & fr & now & Hm'). split; [done|]. by exists d, (set_state st fr now m).
Qed.

Definition unconfirming (e : Envelope) : Prop := env_type e ≠ DELIVERY_CONFIRM.

Lemma truthful_split s s' : grows (ag_db s) (ag_db s') → wire unconfirming x s s' → truthful s → truthful s'.
Proof.
  intros Hg [Ha Hw] [H1 H2]. split; [by apply Ha|]. rewrite Forall_forall in H2 |- *.
  intros e [He|He]%Hw; [|by intros Ht]. eapply confirm_true_grows; [exact Hg|]. by apply H2.
Qed.

(** A step answers no message. *)
Lemma truthful_silent st s :
  (∀ c, ¬ step_answers k st c) → own_relay x st → truthful s → truthful (step config k st s).
Proof using SQ SB LO UN.
  intros Hq Hr. apply truthful_split; [apply grows_step|].
  apply wire_step; [by intros ? ? [] ?| |by intros c []%Hq|done].
  left. intros params. by apply wire_sendMessage.
Qed.

Lemma assigned_step st s :
  own_relay x st → assigned_own x (ag_relay s) → assigned_own x (ag_relay (step config k st s)).
Proof using SQ SB LO UN.
  intros Hr. apply (wire_step config k (λ _, True) x); [done| |done..].
  left. intros params. by apply wire_sendMessage.
Qed.

(** A message is answered once its row is there. *)
Lemma truthful_receive e s :
  fresh_ids (ag_world s) → env_type e = MESSAGE → truthful s → truthful (step config k (st_message e) s).
Proof using All.
  intros Hf Ht [H1 H2]. split; [by apply assigned_step|].
  pose proof (grows_step config k (st_message e) s) as Hg. revert Hg.
  unfold step. cbn [exec]. unfold dispatch. rewrite Ht.
  destruct (handleIncomingMessage config k e s) as [r s'] eqn:Hr. cbn [snd]. intros Hg.
  assert (Hold : ∀ c, c ∈ sent (ag_relay s) → confirm_true (ag_db s') c).
  { intros c Hc. eapply confirm_true_grows; [exact Hg|]. rewrite Forall_forall in H2. by apply H2. }
  pose proof (receive_cases config k e s r s' Hf Hr) as H. rewrite Forall_forall.
  destruct (open_message k e) as [i|]; [|by destruct H as [_ ->]].
  destruct (column_text (ct_body (in_content i))) as [body|]; [|by destruct H as [_ ->]].
  destruct (getMessage (in_messageId i) (ag_db s)); [by destruct H as [_ ->]|].
  cbv zeta in H. destruct H as ((now & Hm) & _ & _ & [->|(own & t & sg & Hown & _ & ->)]); [done|].
  intros c [Hc| ->%list_elem_of_singleton]%elem_of_app; [by apply Hold|]. intros _.
  split; [cbn; destruct H1 as [E|E]; rewrite Hown in E; congruence|]. eexists _, _. split; [reflexivity|]. split; [done|].
  cbn [dc_messageId]. rewrite text_decode_encode. by split_and!.
Qed.

Lemma truthful_step st s :
  fresh_ids (ag_world s) → own_relay x st → truthful s → truthful (step config k st s).
Proof using All.
  intros Hf Hr. destruct st as [| |e| | | | | | | | | | | |];
    try (apply truthful_silent; [by intros c []|done]).
  destruct (decide (env_type e = MESSAGE)) as [Ht|Hne]; [by apply truthful_receive|].
  apply truthful_silent; [by intros c [Ht _]|done].
Qed.

(** *** The rows of the sender *)
Lemma settles_step dir first st s :
  (dir = outbound → first "sent") → (∀ m, step_brings k st m → m_direction m = dir → first (m_state m)) →
  settles dir first (step_judges k st) (ag_db s) (ag_db (step config k st s)).
Proof using UN SB LO.
  intros Hsent Hb. revert s.
  apply (df_step config k (settles dir first (step_judges k st)) (λ m, m_direction m = dir → first (m_state m))
    (step_judges k st)); [|done..].
  intros params i th n now <-. by apply Hsent.
Qed.

(** Every outbound row is sent or has [held], and so the next step leaves it. *)
Context (held : string → string → Prop).
Definition accounted_for (db : MessageDb) : Prop := ∀ j m,
  getMessage j db = Some m → m_direction m = outbound →
  m_state m = "sent" ∨ m_state m = "delivered" ∧ held (m_connectionAddress m) j.

(** What a step may judge of an outbound row: a confirmation that is held. *)
Definition only_confirms (st : Step) (s : Agent) : Prop :=
  match st with
  | st_process _ _ => False
  | st_message e => env_type e = DELIVERY_CONFIRM → ∀ d m, env_payload e = deliveryConfirm d →
      getMessage (text_decode (dc_messageId d)) (ag_db (step config k st s)) = Some m →
      m_direction m = outbound →
      dc_state d = "delivered" ∧ held (m_connectionAddress m) (text_decode (dc_messageId d))
  | _ => True
  end.

Lemma accounted_step st s :
  fresh_ids (ag_world s) → only_confirms st s → accounted_for (ag_db s) →
  accounted_for (ag_db (step config k st s)).
Proof using UN SB LO.
  intros Hf Hc Ha j m' Hm' Hd.
  assert (∀ m, step_brings k st m → m_direction m = outbound → m_state m = "sent") as Hb.
  { intros m. destruct st; try done. by intros (_ & i & body & now & _ & _ & ->). }
  destruct (settles_step outbound (.= "sent") st s (λ _, eq_refl) Hb j m' Hm' Hd)
    as [|[Hj|(m & Hm & Hd' & <- & <- & _)]]; [by left| |by apply Ha].
  destruct st as [| |e|m a|i act| | | | | | | | | |]; try done; cbn [step_judges only_confirms] in *.
  - unfold judges in Hj. destruct (env_type e) eqn:Ht; try done.
    + destruct Hj as (i & Ho & ->). revert Hm'. unfold step. cbn [exec]. unfold dispatch. rewrite Ht.
      destruct (handleIncomingMessage config k e s) as [r s'] eqn:Hr. cbn [snd]. intros Hm'.
      pose proof (receive_cases config k e s r s' Hf Hr) as H. rewrite Ho in H.
      destruct (column_text (ct_body (in_content i))); [|destruct H as [_ ->]; by apply (Ha (in_messageId i))].
      destruct (getMessage (in_messageId i) (ag_db s)) eqn:E; [destruct H as [_ ->]; by apply (Ha (in_messageId i))|].
      cbv zeta in H. destruct H as ((now & H) & _). rewrite H in Hm'. by injection Hm' as <-.
    + destruct Hj as (d & Ep & -> & Est). destruct (Hc eq_refl d m' Ep Hm' Hd) as [Hs Hh].
      right. by rewrite Est.
  - destruct Hj as [-> Hst]. revert Hm'. unfold step. cbn [exec]. unfold zoom, mbind, M_bind.
    destruct (approveMessage i act (view worldL s)) as [r w'] eqn:Hr.
    destruct (approveMessage_spec i act _ r w' Hr) as (_ & _ & H). cbn [snd].
    change (getMessage i (w_db (view worldL s))) with (getMessage i (ag_db s)) in H. intros Hr'.
    assert (Hm' : getMessage i (w_db w') = Some m') by (by destruct r). clear Hr'.
    destruct (getMessage i (ag_db s)) as [m|] eqn:E; [|destruct H as [_ ->]; by apply (Ha i)].
    case_decide as He; [|destruct H as [_ ->]; by apply (Ha i)].
    destruct H as (now & _ & H). rewrite H in Hm'. injection Hm' as <-. cbn in Hd.
    destruct (Ha i m E Hd) as [Hs|[Hs _]]; by rewrite Hs in He.
Qed.
End agent.

Section network.
Context `{SH : Sha256, SQ : SqlEngine, SB : SqlBind, LO : Locale, B58 : Base58, B64 : Base64}.
Context `{B64L : !Base64Laws}.
Context `{UN : Unicode, UL : !UnicodeLaws, WI : Wire, WL : !WireLaws, ED : Ed25519, NB : NaclBox}.
Context `{EL : !Ed25519Laws, NL : !NaclLaws}.
Context (config : CircuitBreakerConfig) (env : string → Env) (key : string → Keypair).
Context (has_key : ∀ y, public key y ≠ []) (pairs : ∀ y, keys_ok (key y)) (named : ∀ y, names_key key y).
Context (clock : ∀ a, clock_in_range (EN := env a)).
Context (uuids : ∀ a i j, @env_uuid (env a) i = @env_uuid (env a) j → i = j).
#[local] Abbreviation reach := (net_reachable config env key).

Lemma net_truthful tr n a : reach tr n → truthful a (n a).
Proof using UL uuids.
  intros Hn. revert a. induction Hn as [n H0|tr n l Hn IH Hl]; intros a.
  - destruct (H0 a) as (_ & _ & Hr & _). unfold truthful. rewrite Hr. split; [by left|constructor].
  - unfold act. destruct (decide (l.1 = a)) as [<-|]; [|by rewrite fn_lookup_insert_ne].
    rewrite fn_lookup_insert. apply (truthful_step (EN := env l.1)); [|apply Hl|apply IH].
    by apply (net_fresh config env key uuids tr).
Qed.

(** A confirmation that can arrive: who sent it has the message. *)
Lemma confirm_honest tr n x e :
  reach tr n → deliverable n x e → env_type e = DELIVERY_CONFIRM →
  ∃ d c m, env_payload e = deliveryConfirm d ∧ dc_state d = "delivered" ∧
    getMessage (text_decode (dc_messageId d)) (ag_db (n c)) = Some m ∧ m_direction m = inbound ∧
    m_connectionAddress m = x.
Proof using UL uuids.
  intros Hn [[c He] <-] Ht. destruct (net_truthful tr n c Hn) as [_ Htr]. rewrite Forall_forall in Htr.
  destruct (Htr e He Ht) as (_ & d & m & Ep & Hs & Hm & Hd & Ha). by exists d, c, m.
Qed.

(** The receiver's row of the message [j] from [a]. *)
Definition held_at (n : Net) (a b j : string) : Prop :=
  ∃ m, getMessage j (ag_db (n b)) = Some m ∧ m_direction m = inbound ∧ m_connectionAddress m = a.

Lemma held_grows n n' a b j : net_grows n n' → held_at n a b j → held_at n' a b j.
Proof.
  intros Hg (m & Hm & H). destruct (Hg b j m Hm) as (st & fr & now & Hm').
  by exists (set_state st fr now m).
Qed.

(** The pipeline runs in the message handler only. *)
Definition piped (l : Label) : Prop := match l.2 with st_process _ _ => False | _ => True end.

Lemma accounted_mono (held held' : string → string → Prop) db :
  (∀ b j, held b j → held' b j) → accounted_for held db → accounted_for held' db.
Proof. intros H Ha j m Hm Hd. destruct (Ha j m Hm Hd) as [|[]]; [by left|right; auto]. Qed.

Lemma net_accounted tr n :
  reach tr n → exact_sequences n → Forall piped tr → ∀ a, accounted_for (held_at n a) (ag_db (n a)).
Proof using All.
  induction 1 as [n H0|tr n l Hn IH Hl]; intros Hx Hp a.
  - destruct (H0 a) as (_ & Hdb & _). intros j m Hm. by rewrite Hdb in Hm.
  - pose proof (act_grows config env key l n) as Hg. pose proof (exact_before _ _ Hg Hx) as Hx0.
    apply Forall_app in Hp as [Hp Hpl%Forall_inv]. specialize (IH Hx0 Hp).
    set (n' := act config env key l n) in *.
    assert (Hold : accounted_for (held_at n' a) (ag_db (n a))).
    { eapply accounted_mono; [|apply IH]. intros b j. by apply held_grows. }
    unfold n', act. destruct (decide (l.1 = a)) as [<-|]; [|by rewrite fn_lookup_insert_ne].
    rewrite fn_lookup_insert. apply (accounted_step (EN := env l.1)); [by apply (net_fresh config env key uuids tr)| |done].
    unfold piped in Hpl. destruct l as [x st]. destruct st as [| |e| | | | | | | | | | | |]; try done.
    cbn [fst snd] in *. intros Ht d m Ep Hm Hd.
    destruct (confirm_honest tr n x e Hn (proj2 Hl) Ht) as (d' & c & m1 & Ep' & Hs & Hm1 & Hd1 & Ha1).
    rewrite Ep in Ep'. injection Ep' as <-.
    destruct (net_received config env key has_key pairs named clock tr n Hn Hx0 c _ m1 Hm1 Hd1)
      as (m0 & Hm0 & _ & Hc & _).
    rewrite Ha1, (getMessage_id _ _ _ Hm1) in Hm0.
    destruct (grows_step (EN := env x) config (key x) (st_message e) (n x) _ m0 Hm0) as (st' & fr & now & Hm').
    rewrite Hm in Hm'. injection Hm' as ->. cbn [m_connectionAddress set_state]. rewrite Hc.
    split; [done|]. eapply (held_grows n); [exact Hg|]. exists m1. rewrite Ha1. by split_and!.
Qed.

(** C9. A message that stands as delivered was delivered: in every state the network
    reaches, if an agent's sent message is marked delivered, then the store of
    the agent it was sent to holds it, received from this agent, under the same
    id, with the same text and sequence number; and a sent message is never in
    any third state. *)
Theorem delivered_was_stored tr n a j m :
  reach tr n → exact_sequences n → Forall piped tr →
  getMessage j (ag_db (n a)) = Some m → m_direction m = outbound →
  m_state m = "sent" ∨
  m_state m = "delivered" ∧
  ∃ m', getMessage j (ag_db (n (m_connectionAddress m))) = Some m' ∧ m_direction m' = inbound ∧
    m_connectionAddress m' = a ∧ m_body m' = m_body m ∧ m_sequence m' = m_sequence m.
Proof using All.
  intros Hn Hx Hp Hm Hd.
  destruct (net_accounted tr n Hn Hx Hp a j m Hm Hd) as [|[Hs (m' & Hm' & Hd' & Ha')]]; [by left|right].
  split; [done|]. exists m'. split; [done|]. split; [done|]. split; [done|].
  destruct (net_received config env key has_key pairs named clock tr n Hn Hx _ j m' Hm' Hd')
    as (m0 & Hm0 & _ & _ & Hb & _ & _ & _ & Hq).
  rewrite Ha', (getMessage_id _ _ _ Hm'), Hm in Hm0. by injection Hm0 as <-.
Qed.
End network.

(** ** Witness: a message, its arrival, its confirmation *)
Section witness.
Import Sample SampleText SampleBox SampleWire.
#[local] Existing Instance net_env.
#[local] Abbreviation go := (run_net DEFAULT_CIRCUIT_BREAKER_CONFIG (λ _, net_env) pair_of).
#[local] Abbreviation reach := (net_reachable DEFAULT_CIRCUIT_BREAKER_CONFIG (λ _, net_env) pair_of).

Lemma uuids_once (a : string) i j : env_uuid i = env_uuid j → i = j.
Proof. intros E. by apply (inj pretty) in E. Qed.

Definition the_receipt : Envelope := default the_request (last (sent (ag_relay (exchanged at_b)))).
Definition receipt_back : list Label := [(at_a, st_message the_receipt)].
#[local] Abbreviation confirmed := (go receipt_back exchanged).

Lemma confirmed_run : confirmed = go (exchange ++ receipt_back) met.
Proof. unfold run_net. by rewrite fold_left_app. Qed.

Lemma confirmed_reachable : reach (meeting ++ exchange ++ receipt_back) confirmed.
Proof.
  rewrite app_assoc. apply run_reachable; [exact exchanged_reachable|]. split; [|done]. split; [done|].
  split; [|by vm_compute]. exists at_b. vm_compute. by repeat (apply list_elem_of_here || apply list_elem_of_further).
Qed.
Lemma confirmed_exact : exact_sequences confirmed.
Proof. rewrite confirmed_run. apply small_exact; by vm_compute. Qed.
Lemma all_piped : Forall piped (meeting ++ exchange ++ receipt_back).
Proof. repeat constructor. Qed.
Lemma now_delivered :
  ∃ m, getMessage mail_id (ag_db (confirmed at_a)) = Some m ∧ m_direction m = outbound ∧
       m_state m = "delivered" ∧ m_connectionAddress m = at_b.
Proof. eexists; split_and!; vm_compute; reflexivity. Qed.

Lemma delivered_was_stored_witness :
  ∃ m m', getMessage mail_id (ag_db (confirmed at_a)) = Some m ∧ m_state m = "delivered" ∧
    getMessage mail_id (ag_db (confirmed at_b)) = Some m' ∧ m_body m' = m_body m.
Proof.
  destruct now_delivered as (m & Hm & Hd & Hs & Ha).
  destruct (delivered_was_stored DEFAULT_CIRCUIT_BREAKER_CONFIG (λ _, net_env) pair_of some_key pair_ok
    all_named (λ _, mm_clock) uuids_once (meeting ++ exchange ++ receipt_back) confirmed at_a mail_id m
    confirmed_reachable confirmed_exact all_piped Hm Hd) as [H|(_ & m' & Hm' & _ & _ & Hb & _)].
  - rewrite Hs in H. discriminate H.
  - rewrite Ha in Hm'. exists m, m'. split; [exact Hm|]. split; [exact Hs|]. split; [exact Hm'|exact Hb].
Defined.
End witness.
