(* ===== verification/Consent.v ===== *)
(** Why a message is in an agent's hands.  In every state the network reaches each
    message that counts as read by the agent has an explanation in what happened
    before: it came in when everybody had consented ([EndToEnd]), or the human
    handed it over. *)
From stdpp Require Import functions gmap pretty.
From S2P Require Import Prelude JsLib JsDate Platform Identity PermissionsManifest ConnectionStore.
From S2P Require Import MessageStore ActivityFeed World CircuitBreaker InboundRouter.
From S2P Require Import PermissionsEnforcer EnforcementPipeline Text Envelope ConnectionManager.
From S2P Require Import Args ArgsSpec PermissionsTool Delivery Crypto MessageManager Tools Steps Rows Log Skill.
From S2P Require Import Network Authenticity EndToEnd Confirmed.

(** An envelope never touches a row that is there, unless it is a confirmation. *)
Lemma receive_keeps `{EN : Env, SH : Sha256, SQ : SqlEngine, B58 : Base58, B64 : Base64}
    `{UN : Unicode, WI : Wire, ED : Ed25519, NB : NaclBox} config k e s j m :
  fresh_ids (ag_world s) → env_type e = MESSAGE → getMessage j (ag_db s) = Some m →
  getMessage j (ag_db (dispatch config k e s).2) = Some m.
Proof.
  intros Hf Ht Hm. unfold dispatch. rewrite Ht.
  destruct (handleIncomingMessage config k e s) as [r s'] eqn:Hr. cbn [snd].
  pose proof (receive_cases config k e s r s' Hf Hr) as H.
  destruct (open_message k e) as [i|]; [|by destruct H as [_ ->]].
  destruct (column_text (ct_body (in_content i))); [|by destruct H as [_ ->]].
  destruct (getMessage (in_messageId i) (ag_db s)) eqn:E; [by destruct H as [_ ->]|].
  cbv zeta in H. destruct H as (_ & Hrest & _). rewrite Hrest; [done|]. intros ->. by rewrite Hm in E.
Qed.

Lemma message_or_not st :
  (∃ e, st = st_message e ∧ env_type e = MESSAGE) ∨ (∀ e, st = st_message e → env_type e ≠ MESSAGE).
Proof.
  destruct st as [| |e| | | | | | | | | | | |]; try by right.
  destruct (decide (env_type e = MESSAGE)); [left; by exists e|right]. by intros e' [= <-].
Qed.

Section consent.
Context `{SH : Sha256, SQ : SqlEngine, SB : SqlBind, LO : Locale, B58 : Base58, B64 : Base64}.
Context `{B64L : !Base64Laws}.
Context `{UN : Unicode, UL : !UnicodeLaws, WI : Wire, WL : !WireLaws, ED : Ed25519, NB : NaclBox}.
Context `{EL : !Ed25519Laws, NL : !NaclLaws}.
Context (config : CircuitBreakerConfig) (env : string → Env) (key : string → Keypair).
Context (has_key : ∀ y, public key y ≠ []) (pairs : ∀ y, keys_ok (key y)) (named : ∀ y, names_key key y).
Context (clock : ∀ a, clock_in_range (EN := env a)).
Context (uuids : ∀ a i j, @env_uuid (env a) i = @env_uuid (env a) j → i = j).
#[local] Abbreviation reach := (net_reachable config env key).
#[local] Abbreviation run := (run_net config env key).

(** [b]'s human gave the message [j] to the agent. *)
Definition handed_over (tr : list Label) (b j : string) : Prop :=
  (b, st_approve_message j agent_handle) ∈ tr.

(** The message came in, [n1] being the state then, with everybody's consent. *)
Definition came_consented (tr : list Label) (n : Net) (b : string) (m : MessageRecord) : Prop :=
  ∃ tr1 e tr2 n1, tr = tr1 ++ (b, st_message e) :: tr2 ∧ reach tr1 n1 ∧
    n = run ((b, st_message e) :: tr2) n1 ∧ consented env tr1 n1 b m.

Definition explained (tr : list Label) (n : Net) (b j : string) (m : MessageRecord) : Prop :=
  handed_over tr b j ∨ came_consented tr n b m.

Lemma explained_later tr n l b j m :
  explained tr n b j m → explained (tr ++ [l]) (act config env key l n) b j m.
Proof.
  intros [H|(tr1 & e & tr2 & n1 & -> & Hr & -> & Hc)]; [left; apply elem_of_app; by left|right].
  exists tr1, e, (tr2 ++ [l]), n1. rewrite <- app_assoc. split; [done|]. split; [done|]. split; [|done].
  unfold run_net. cbn [fold_left]. by rewrite fold_left_app.
Qed.

Lemma explained_ext tr n b j m m' :
  m_connectionAddress m = m_connectionAddress m' → m_body m = m_body m' →
  explained tr n b j m → explained tr n b j m'.
Proof.
  intros Ea Eb [H|(tr1 & e & tr2 & n1 & E & Hr & En & Hc)]; [by left|right].
  exists tr1, e, tr2, n1. split_and!; [done..|]. unfold consented in *. by rewrite <- Ea, <- Eb.
Qed.

Definition all_explained (tr : list Label) (n : Net) (b : string) : Prop := ∀ j m,
  getMessage j (ag_db (n b)) = Some m → m_direction m = inbound → m_state m = "read_by_agent" →
  explained tr n b j m.

(** A step of [b] other than a message coming in. *)
Lemma explained_step tr n b st :
  reach tr n → allowed n (b, st) → piped (b, st) → (∀ e, st = st_message e → env_type e ≠ MESSAGE) →
  all_explained tr n b → all_explained (tr ++ [(b, st)]) (act config env key (b, st) n) b.
Proof using UL uuids.
  intros Hn Hl Hp Hne IH j m'. unfold act. cbn [fst snd]. rewrite fn_lookup_insert. intros Hm' Hd Hst.
  assert (Hb : ∀ m, step_brings (key b) st m → m_direction m = inbound → False).
  { intros m. destruct st; try done. intros [Ht _]. by destruct (Hne e eq_refl). }
  destruct (settles_step (EN := env b) config (key b) inbound (λ _, False) st (n b) ltac:(done) Hb j m' Hm' Hd)
    as [[]|[Hj|(m & Hm & Hd' & Es & Ea & Eb)]].
  2:{ change (<[b:=step (EN := env b) config (key b) st (n b)]> n) with (act config env key (b, st) n).
      apply explained_later, (explained_ext _ _ _ _ m); [done..|]. apply IH; [done..|congruence]. }
  destruct st as [| |e|m a|i action| | | | | | | | | |]; try done; cbn [step_judges] in Hj.
  - unfold judges in Hj. destruct (env_type e) eqn:Ht; try done; [by destruct (Hne e eq_refl)|].
    destruct Hj as (d & Ep & _ & Ed).
    destruct (confirm_honest config env key uuids tr n b e Hn (proj2 Hl) Ht) as (d' & _ & _ & Ep' & Hs & _).
    rewrite Ep in Ep'. injection Ep' as <-. by rewrite Hs, Hst in Ed.
  - destruct Hj as [-> Er]. rewrite Hst in Er. destruct action; [|done].
    left. apply elem_of_app. right. by left.
Qed.

Lemma net_explained tr n :
  reach tr n → exact_sequences n → Forall piped tr → ∀ b, all_explained tr n b.
Proof using All.
  induction 1 as [n H0|tr n l Hn IH Hl]; intros Hx Hp b.
  - destruct (H0 b) as (_ & Hdb & _). intros j m Hm. by rewrite Hdb in Hm.
  - apply Forall_app in Hp as [Hp Hpl%Forall_inv]. pose proof (exact_before _ _ (act_grows config env key l n) Hx) as Hx0.
    specialize (IH Hx0 Hp). destruct l as [x st].
    destruct (decide (x = b)) as [->|Hxb].
    2:{ intros j m Hm Hd Hst. apply explained_later, IH; [|done..].
        unfold act in Hm. by rewrite fn_lookup_insert_ne in Hm. }
    destruct (message_or_not st) as [(e & -> & Ht)|Hne]; [|by apply explained_step].
    intros j m Hm Hd Hst. destruct (getMessage j (ag_db (n b))) as [old|] eqn:Hold.
    + pose proof (net_fresh config env key uuids tr n b Hn) as Hf.
      pose proof (receive_keeps (EN := env b) config (key b) e (n b) j old Hf Ht Hold) as Hk.
      unfold act in Hm. cbn [fst snd] in Hm. rewrite fn_lookup_insert in Hm.
      change (getMessage j (ag_db (dispatch (EN := env b) config (key b) e (n b)).2) = Some m) in Hm.
      rewrite Hk in Hm. injection Hm as ->. by apply explained_later, IH.
    + right. exists tr, e, [], n. split; [done|]. split; [done|]. split; [done|].
      apply (read_on_arrival config env key has_key uuids tr n b e j m); [done..|]. intros i Ho.
      destruct (opens_to config env key has_key pairs named clock tr n b e i Hn Hx0 (proj2 Hl) Ht Ho)
        as (m0 & _ & _ & _ & ->). by eexists.
Qed.

(** C1. An agent only ever reads with everybody's consent.  In any network of agents,
    whatever they do and whatever the relay delivers, delays or repeats: if a
    message that [b] received is in the state of being read by the agent, then
    the peer it names has sent it to [b] as it is stored; and either [b]'s human
    handed it to the agent, or it had come in over an active connection that
    one human asked for and the other approved (or that [b]'s human unblocked),
    unmuted and not under intervention, every boundary of its manifest allowed
    the text, and its level let it through: by a policy that allowed it, as
    Notify, or as Full Auto, which [b]'s human had confirmed for that peer. *)
Theorem agent_reads_with_consent tr n b j m :
  reach tr n → exact_sequences n → Forall piped tr →
  getMessage j (ag_db (n b)) = Some m → m_direction m = inbound → m_state m = "read_by_agent" →
  was_sent n b m ∧ (handed_over tr b j ∨ came_consented tr n b m).
Proof using All.
  intros Hn Hx Hp Hm Hd Hst. split.
  - by apply (net_received config env key has_key pairs named clock tr n Hn Hx b j m).
  - by apply (net_explained tr n Hn Hx Hp b j m).
Qed.
End consent.

(** ** Witness: the handshake, Full Auto confirmed, a message *)
Section witness.
Import Sample SampleText SampleBox SampleWire.
#[local] Existing Instance net_env.
#[local] Abbreviation go := (run_net DEFAULT_CIRCUIT_BREAKER_CONFIG (λ _, net_env) pair_of).
#[local] Abbreviation reach := (net_reachable DEFAULT_CIRCUIT_BREAKER_CONFIG (λ _, net_env) pair_of).

Definition trusting : list Label :=
  [(at_b, st_setAutonomy at_a full_auto (Some true)); (at_a, st_sendMessage greeting);
   (at_b, st_message the_mail)].
Definition trusted : Net := go trusting met.

Lemma trusted_reachable : reach (meeting ++ trusting) trusted.
Proof.
  apply run_reachable; [exact met_reachable|]. do 2 (split; [by split|]). split; [|done]. split; [done|].
  split; [|by vm_compute]. exists at_a. vm_compute. by repeat (apply list_elem_of_here || apply list_elem_of_further).
Qed.
Lemma trusted_exact : exact_sequences trusted.
Proof. apply small_exact; by vm_compute. Qed.
Lemma trusted_piped : Forall piped (meeting ++ trusting).
Proof. repeat constructor. Qed.
Lemma now_read :
  ∃ m, getMessage mail_id (ag_db (trusted at_b)) = Some m ∧ m_direction m = inbound ∧
       m_state m = "read_by_agent" ∧ m_connectionAddress m = at_a.
Proof. eexists; split_and!; vm_compute; reflexivity. Qed.
Lemma not_handed : ¬ handed_over (meeting ++ trusting) at_b mail_id.
Proof.
  unfold handed_over. intros H.
  repeat (apply elem_of_cons in H as [H|H]; [discriminate H|]). by apply not_elem_of_nil in H.
Qed.

Lemma agent_reads_with_consent_witness :
  ∃ m, getMessage mail_id (ag_db (trusted at_b)) = Some m ∧ m_state m = "read_by_agent" ∧
    was_sent trusted at_b m ∧
    came_consented DEFAULT_CIRCUIT_BREAKER_CONFIG (λ _, net_env) pair_of (meeting ++ trusting) trusted at_b m.
Proof.
  destruct now_read as (m & Hm & Hd & Hs & _).
  destruct (agent_reads_with_consent DEFAULT_CIRCUIT_BREAKER_CONFIG (λ _, net_env) pair_of some_key pair_ok
    all_named (λ _, mm_clock) uuids_once (meeting ++ trusting) trusted at_b mail_id m
    trusted_reachable trusted_exact trusted_piped Hm Hd Hs) as [Hw [H|H]].
  - destruct (not_handed H).
  - exists m. split; [exact Hm|]. split; [exact Hs|]. split; [exact Hw|exact H].
Defined.
End witness.
