(* ===== verification/CrossLanguage.v ===== *)
(** [tests/cross-language]: the two programs that seal and open a message for the
    Go side of the tests.  Bytes go in and out as hexadecimal text. *)
From S2P Require Import Prelude JsLib JsNumber Envelope Delivery World Crypto Identity MessageManager.
From Stdlib Require Import Ascii.
Local Open Scope nat_scope.

(** ** Hexadecimal text *)

(** [parseInt(s, 16)]; [None] is NaN. *)
Fixpoint hex_prefix (s : string) : string :=
  match s with
  | String c s' => if (digit_val c <? 16)%Z then String c (hex_prefix s') else ""
  | EmptyString => ""
  end.
Definition strip_0x (s : string) : string :=
  match s with
  | String "0" (String "x" s') | String "0" (String "X" s') => s'
  | _ => s
  end.
Definition parseInt16 (s : string) : option Z :=
  let '(neg, s) := read_sign (trim_start s) in
  match hex_prefix (strip_0x s) with
  | EmptyString => None
  | ds => Some (if neg : bool then - digits_val 16 0 ds else digits_val 16 0 ds)%Z
  end.

(** A number stored into a [Uint8Array]: NaN is 0, anything else taken modulo 256. *)
Definition to_uint8 (n : option Z) : Byte.byte :=
  default Byte.x00 (Byte.of_N (Z.to_N (default 0 n mod 256)%Z)).

(** The [for] loop: [i] counts the pairs; a write past the end is ignored. *)
Definition hexToBytes (hex : string) : bytes :=
  foldl (λ bytes i, <[i := to_uint8 (parseInt16 (String.substring (2 * i) 2 hex))]> bytes)
    (replicate (String.length hex / 2) Byte.x00) (seq 0 ((String.length hex + 1) / 2)).

(** [b.toString(16).padStart(2, "0")] *)
Definition byte_hex (b : Byte.byte) : string :=
  let n := N.to_nat (Byte.to_N b) in
  let s := if n <? 16 then hex_lower n else hex_lower (n / 16) +:+ hex_lower (n mod 16) in
  if String.length s <? 2 then "0" +:+ s else s.
Definition bytesToHex (bs : bytes) : string := join "" (byte_hex <$> bs).

(** ** The programs *)
Class SeedKeys : Type := { crypto_sign_seed_keypair : bytes → res Keypair }.
(** A seed of 32 bytes gives a key pair. *)
Class SeedLaws `{SeedKeys, Ed25519} : Prop := {
  seed_pair seed : length seed = 32 → ∃ kp, crypto_sign_seed_keypair seed = Ok kp ∧ keys_ok kp
}.

(** The parsed JSON of the standard input. *)
Record EncryptInput : Type := mkEncryptInput {
  ei_seed_sender : string; ei_seed_recipient : string; ei_plaintext : string
}.
Record DecryptInput : Type := mkDecryptInput {
  di_seed_sender : string; di_seed_recipient : string; di_sealed : string
}.

Section programs.
Context `{NaclBox, SeedKeys}.

Definition encrypt_main (input : EncryptInput) : M World string :=
  let plaintext := hexToBytes (ei_plaintext input) in
  senderKp ← lift (crypto_sign_seed_keypair (hexToBytes (ei_seed_sender input)));
  recipientKp ← lift (crypto_sign_seed_keypair (hexToBytes (ei_seed_recipient input)));
  senderX25519Priv ← lift (ed25519PrivToX25519 (privateKey senderKp));
  recipientX25519Pub ← lift (ed25519PubToX25519 (publicKey recipientKp));
  sealed ← encrypt plaintext recipientX25519Pub senderX25519Priv;
  mret (json_object [("sealed", json_string (bytesToHex sealed))]).

Definition decrypt_main (input : DecryptInput) : M World string :=
  let sealed := hexToBytes (di_sealed input) in
  senderKp ← lift (crypto_sign_seed_keypair (hexToBytes (di_seed_sender input)));
  recipientKp ← lift (crypto_sign_seed_keypair (hexToBytes (di_seed_recipient input)));
  senderX25519Pub ← lift (ed25519PubToX25519 (publicKey senderKp));
  recipientX25519Priv ← lift (ed25519PrivToX25519 (privateKey recipientKp));
  plaintext ← lift (decrypt sealed senderX25519Pub recipientX25519Priv);
  mret (json_object [("plaintext", json_string (bytesToHex plaintext))]).
End programs.

(** ** The text is read back *)
Lemma byte_hex_two b : ∃ c d, byte_hex b = String c (String d "").
Proof. destruct b; eexists _, _; reflexivity. Qed.
Lemma byte_hex_read b : to_uint8 (parseInt16 (byte_hex b)) = b.
Proof. destruct b; reflexivity. Qed.

Lemma bytesToHex_cons b bs : bytesToHex (b :: bs) = byte_hex b +:+ bytesToHex bs.
Proof. unfold bytesToHex. destruct bs; cbn; [by rewrite str_app_nil_r|done]. Qed.

Lemma bytesToHex_length bs : String.length (bytesToHex bs) = 2 * length bs.
Proof.
  induction bs as [|b bs IH]; [done|]. rewrite bytesToHex_cons.
  destruct (byte_hex_two b) as (c & d & ->). cbn [String.length String.append length]. rewrite str_length_app, IH. cbn. lia.
Qed.

Lemma substring_byte bs i b :
  bs !! i = Some b → String.substring (2 * i) 2 (bytesToHex bs) = byte_hex b.
Proof.
  revert i. induction bs as [|x bs IH]; intros i Hi; [done|]. rewrite bytesToHex_cons.
  destruct (byte_hex_two x) as (c & d & E). destruct i as [|i].
  - injection Hi as ->. rewrite E. cbn. by destruct (bytesToHex bs).
  - rewrite E. replace (2 * S i) with (S (S (2 * i))) by lia. apply IH, Hi.
Qed.

(** Writing the first [n] indices. *)
Lemma fill_lookup {A} (g : nat → A) l n j :
  n ≤ length l →
  foldl (λ l i, <[i := g i]> l) l (seq 0 n) !! j = if decide (j < n) then Some (g j) else l !! j.
Proof.
  intros Hn. assert (∀ m, length (foldl (λ l i, <[i := g i]> l) l (seq 0 m)) = length l) as Hlen.
  { induction m as [|m IH]; [done|]. rewrite seq_S, foldl_app. cbn. by rewrite length_insert. }
  induction n as [|n IH]; [done|]. specialize (IH ltac:(lia)). rewrite seq_S, foldl_app. cbn [foldl].
  destruct (decide (n = j)) as [->|Hne].
  - rewrite list_lookup_insert_eq by (rewrite Hlen; lia). by rewrite decide_True by lia.
  - rewrite list_lookup_insert_ne, IH by done. repeat case_decide; (done || lia).
Qed.

Lemma hexToBytes_bytesToHex bs : hexToBytes (bytesToHex bs) = bs.
Proof.
  unfold hexToBytes. rewrite bytesToHex_length.
  replace (2 * length bs / 2) with (length bs) by (rewrite Nat.mul_comm, Nat.div_mul; lia).
  replace ((2 * length bs + 1) / 2) with (length bs)
    by (apply (Nat.div_unique _ _ _ 1); lia).
  apply list_eq. intros j.
  rewrite (fill_lookup (λ i, to_uint8 (parseInt16 (String.substring (2 * i) 2 (bytesToHex bs)))))
    by (by rewrite length_replicate).
  case_decide as Hj.
  - destruct (lookup_lt_is_Some_2 bs j Hj) as [b Hb]. by rewrite Hb, (substring_byte bs j b Hb), byte_hex_read.
  - by rewrite !lookup_ge_None_2 by (rewrite ?length_replicate; lia).
Qed.

Section theorems.
Context `{EN : Env, ED : Ed25519, NB : NaclBox, NL : !NaclLaws, SK : SeedKeys, SL : !SeedLaws}.

(** What the one program seals the other opens: for any two seeds of 32 bytes and
    any plaintext, [encrypt.ts] prints a sealed text, and [decrypt.ts], given
    that text and the same seeds, prints the plaintext. *)
Theorem cross_language_roundtrip s r p w :
  length s = 32 → length r = 32 →
  ∃ sealed w',
    encrypt_main (mkEncryptInput (bytesToHex s) (bytesToHex r) (bytesToHex p)) w =
      (Ok (json_object [("sealed", json_string sealed)]), w') ∧
    decrypt_main (mkDecryptInput (bytesToHex s) (bytesToHex r) sealed) w' =
      (Ok (json_object [("plaintext", json_string (bytesToHex p))]), w').
Proof.
  intros (ks & Es & Hs)%seed_pair (kr & Er & Hr)%seed_pair.
  destruct (decrypt_encrypt _ _ _ _ (randombytes_buf (w_tick w) crypto_box_NONCEBYTES) p Hs Hr
    (random_length _ _)) as (xpk & xsk & xpk' & xsk' & c & E1 & E2 & E3 & E4 & Ec & Ed).
  exists (bytesToHex c), (put_tick (S (w_tick w)) w).
  unfold encrypt_main, decrypt_main, encrypt, lift, ask, mbind, M_bind.
  cbn [ei_seed_sender ei_seed_recipient ei_plaintext di_seed_sender di_seed_recipient di_sealed].
  by rewrite !hexToBytes_bytesToHex, Es, Er, E1, E2, E3, E4, Ec, Ed.
Qed.
End theorems.

Example hex_mixed : hexToBytes "0aFf" = [Byte.x0a; Byte.xff]. Proof. reflexivity. Qed.
Example hex_odd : hexToBytes "abc" = [Byte.xab]. Proof. reflexivity. Qed.
Example hex_junk : hexToBytes "0xzz-1" = [Byte.x00; Byte.x00; Byte.xff]. Proof. reflexivity. Qed.

(** ** Witness *)
Section witness.
Import SampleBox SampleEnv.
#[local] Instance cl_env : Env := env None None.
#[local] Instance seeds : SeedKeys := {|
  crypto_sign_seed_keypair seed :=
    if length seed =? 32 then Ok (mkKeypair seed seed) else Throw "invalid seed length"
|}.
#[local] Instance seeds_ok : SeedLaws.
Proof.
  split. intros seed Hl. exists (mkKeypair seed seed). cbn. rewrite Hl. split; [reflexivity|].
  split; [reflexivity|]. cbn. by intros ->.
Qed.

Lemma cross_language_roundtrip_witness :
  ∃ sealed w', (decrypt_main (mkDecryptInput (bytesToHex (replicate 32 Byte.x01))
    (bytesToHex (replicate 32 Byte.x02)) sealed) w').1 = Ok (json_object [("plaintext", json_string "6869")]).
Proof.
  destruct (cross_language_roundtrip (replicate 32 Byte.x01) (replicate 32 Byte.x02) [Byte.x68; Byte.x69]
    (mkWorld 0 (ConnectionStore.newStore ConnectionStore.NoFile) MessageStore.emptyDb [] ∅)
    eq_refl eq_refl) as (sealed & w' & _ & H).
  exists sealed, w'. exact (f_equal fst H).
Defined.
End witness.
