(* ===== verification/RelayStore.v ===== *)
(** The relay's stores (relay/internal/store, Go): blocks and the queue of messages
    for agents that are not connected, over bbolt.  The queue refines a bounded
    first-in-first-out list whose entries expire.

    Go's strings and byte slices used as keys are Rocq strings, one character per
    byte. *)
From S2P Require Import Prelude JsLib JsDate Delivery.
From stdpp Require Import functions gmap.
From Stdlib Require Import Ascii.

(** ** bbolt: a bucket maps keys to values, and a cursor walks it in byte order.
    [Put] and [CreateBucketIfNotExists] refuse keys that are blank or too long. *)
Class Bolt : Type := {
  cursor : ∀ {V : Type}, gmap string V → list (string * V);
  key_fits : string → bool
}.
Class BoltLaws `{Bolt} : Prop := {
  cursor_perm {V} (b : gmap string V) : cursor b ≡ₚ map_to_list b;
  cursor_sorted {V} (b : gmap string V) : StronglySorted (λ x y, String.ltb x.1 y.1 = true) (cursor b);
  key_fits_small k : (0 < Z.of_nat (String.length k) ≤ 32768)%Z → key_fits k = true
}.

(** ** blockstore.go *)
Abbreviation Blocks := (gmap string string).
Definition block_key (blockerAddr blockedAddr : string) : string := blockerAddr +:+ ":" +:+ blockedAddr.

Section blocks.
Context `{Bolt}.

Definition Block (blockerAddr blockedAddr : string) : M Blocks unit := λ b,
  let key := block_key blockerAddr blockedAddr in
  if key_fits key then (Ok tt, <[key := "1"]> b) else (Throw "key refused", b).
Definition Unblock (blockerAddr blockedAddr : string) : M Blocks unit :=
  modify (delete (block_key blockerAddr blockedAddr)).
Definition IsBlocked (blockerAddr senderAddr : string) (b : Blocks) : bool :=
  bool_decide (is_Some (b !! block_key blockerAddr senderAddr)).
End blocks.

(** ** messagequeue.go *)
Record queuedMessage : Type := mkQueued {
  EnqueuedAt : Z;
  SenderAddr : string;
  q_Envelope : list Byte.byte
}.
(** A recipient's bucket: the counter of [NextSequence], and under each key what
    [json.Unmarshal] makes of the value, [None] when it is not a message. *)
Record SubBucket : Type := mkSub {
  sequence : Z;
  items : gmap string (option queuedMessage)
}.
Abbreviation Queues := (gmap string SubBucket).
Record QueueEntry : Type := mkEntry {
  e_Key : string;
  e_Envelope : list Byte.byte;
  e_SenderAddr : string
}.
Record QueueConfig : Type := mkQueueConfig {
  maxPerAgent : nat;
  ttl : Z                       (** nanoseconds *)
}.

Definition key_of_bytes (bs : list Byte.byte) : string := String.string_of_list_byte bs.
(** [binary.BigEndian.PutUint64] twice. *)
Definition encodeKey (timestampNanos seq : Z) : string :=
  key_of_bytes (setBigInt64 timestampNanos ++ setBigInt64 seq).

Definition ErrQueueFull : string := "message queue: recipient queue is full".

Section queue.
Context `{Bolt} (mq : QueueConfig).

Definition emptySub : SubBucket := mkSub 0 ∅.
Definition sub_of (recipientAddr : string) (q : Queues) : SubBucket := default emptySub (q !! recipientAddr).

(** A transaction that fails changes nothing. *)
Definition Enqueue (now : Z) (recipientAddr senderAddr : string) (envelope : list Byte.byte)
    : M Queues unit := λ q,
  if negb (key_fits recipientAddr) then (Throw "bucket name refused", q)
  else
    let sub := sub_of recipientAddr q in
    if maxPerAgent mq <=? size (items sub) then (Throw ErrQueueFull, q)
    else
      let seq := ((sequence sub + 1) mod 2 ^ 64)%Z in
      let key := encodeKey now seq in
      let val := mkQueued now senderAddr envelope in
      if key_fits key then (Ok tt, <[recipientAddr := mkSub seq (<[key := Some val]> (items sub))]> q)
      else (Throw "key refused", q).

Definition is_expired (now : Z) (m : queuedMessage) : bool := (ttl mq <? now - EnqueuedAt m)%Z.

(** The loop over the cursor, up to [n] entries. *)
Fixpoint flush_scan (now : Z) (n : nat) (l : list (string * option queuedMessage)) : list QueueEntry :=
  match n, l with
  | O, _ | _, [] => []
  | S n', (k, None) :: l' => flush_scan now n l'
  | S n', (k, Some msg) :: l' =>
      if is_expired now msg then flush_scan now n l'
      else mkEntry k (q_Envelope msg) (SenderAddr msg) :: flush_scan now n' l'
  end.
Definition FlushBatch (now : Z) (recipientAddr : string) (batchSize : nat) (q : Queues) : list QueueEntry :=
  match q !! recipientAddr with
  | None => []
  | Some sub => flush_scan now batchSize (cursor (items sub))
  end.

Definition Remove (recipientAddr key : string) (q : Queues) : Queues :=
  match q !! recipientAddr with
  | None => q
  | Some sub => <[recipientAddr := mkSub (sequence sub) (delete key (items sub))]> q
  end.

Definition Count (recipientAddr : string) (q : Queues) : nat :=
  match q !! recipientAddr with None => 0 | Some sub => size (items sub) end.

(** The two passes over a recipient's bucket. *)
Definition expired_keys (now : Z) (l : list (string * option queuedMessage)) : list string :=
  omap (λ kv, match kv.2 with
              | None => Some kv.1
              | Some msg => if is_expired now msg then Some kv.1 else None
              end) l.
Definition sweep_sub (now : Z) (sub : SubBucket) : SubBucket :=
  mkSub (sequence sub) (foldl (λ b k, delete k b) (items sub) (expired_keys now (cursor (items sub)))).
(** The number of entries removed, over all recipients. *)
Definition Sweep (now : Z) : M Queues nat := λ q,
  (Ok (map_fold (λ _ sub total, length (expired_keys now (cursor (items sub))) + total) 0 q), sweep_sub now <$> q).
End queue.

(** ** Keys sort as time, then number *)
#[local] Open Scope Z_scope.

Lemma ascii_of_byte_compare x y :
  Ascii.compare (ascii_of_byte x) (ascii_of_byte y) = (Z_of_byte x ?= Z_of_byte y).
Proof.
  unfold Ascii.compare, Z_of_byte. rewrite <- N2Z.inj_compare.
  by destruct x, y.
Qed.

Lemma be_value_from acc bs : fold_left (λ acc b, acc * 256 + Z_of_byte b) bs acc = acc * 256 ^ Z.of_nat (length bs) + be_value bs.
Proof.
  revert acc. unfold be_value. induction bs as [|b bs IH]; intros acc; cbn [fold_left length]; [lia|].
  rewrite IH, (IH (0 * 256 + _)). rewrite Nat2Z.inj_succ, Z.pow_succ_r by lia. lia.
Qed.
Lemma be_value_cons b bs : be_value (b :: bs) = Z_of_byte b * 256 ^ Z.of_nat (length bs) + be_value bs.
Proof. unfold be_value at 1. cbn [fold_left]. rewrite be_value_from. lia. Qed.
Lemma be_value_app a b : be_value (a ++ b) = be_value a * 256 ^ Z.of_nat (length b) + be_value b.
Proof. unfold be_value at 1. rewrite fold_left_app. apply be_value_from. Qed.
Lemma be_value_range bs : 0 ≤ be_value bs < 256 ^ Z.of_nat (length bs).
Proof.
  induction bs as [|b bs IH]; [by cbn|]. rewrite be_value_cons. cbn [length].
  rewrite Nat2Z.inj_succ, Z.pow_succ_r by lia. pose proof (Z_of_byte_range b). nia.
Qed.

Lemma key_of_bytes_cons x a : key_of_bytes (x :: a) = String (ascii_of_byte x) (key_of_bytes a).
Proof. reflexivity. Qed.
Lemma key_compare a b :
  length a = length b → String.compare (key_of_bytes a) (key_of_bytes b) = (be_value a ?= be_value b).
Proof.
  revert b. induction a as [|x a IH]; intros [|y b] Hl; try done. injection Hl as Hl.
  rewrite !key_of_bytes_cons. cbn [String.compare]. rewrite ascii_of_byte_compare.
  rewrite !be_value_cons, <- Hl. pose proof (be_value_range a). pose proof (be_value_range b) as Hb. rewrite <- Hl in Hb.
  rewrite (IH _ Hl).
  destruct (Z.compare_spec (Z_of_byte x) (Z_of_byte y)) as [->|Hlt|Hgt].
  - destruct (Z.compare_spec (be_value a) (be_value b)) as [->|Hlt|Hgt];
      [by rewrite Z.compare_refl|symmetry; apply Z.compare_lt_iff; lia|symmetry; apply Z.compare_gt_iff; lia].
  - symmetry. apply Z.compare_lt_iff. nia.
  - symmetry. apply Z.compare_gt_iff. nia.
Qed.

Lemma encodeKey_compare t s t' s' :
  0 ≤ t < 2 ^ 64 → 0 ≤ t' < 2 ^ 64 → 0 ≤ s < 2 ^ 64 → 0 ≤ s' < 2 ^ 64 →
  String.compare (encodeKey t s) (encodeKey t' s') = clex (t ?= t') (s ?= s').
Proof.
  intros Ht Ht' Hs Hs'. unfold encodeKey. rewrite key_compare by done.
  rewrite !be_value_app, !setBigInt64_length, !be_value_setBigInt64, !Z.mod_small by done.
  change (256 ^ Z.of_nat 8) with (2 ^ 64).
  destruct (Z.compare_spec t t') as [->|Hlt|Hgt]; cbn [clex].
  - destruct (Z.compare_spec s s') as [->|Hlt|Hgt];
      [by rewrite Z.compare_refl|apply Z.compare_lt_iff; lia|apply Z.compare_gt_iff; lia].
  - apply Z.compare_lt_iff. nia.
  - apply Z.compare_gt_iff. nia.
Qed.
#[local] Close Scope Z_scope.

(** ** A cursor over an updated bucket *)
Section cursor.
Context `{BoltLaws} {V : Type}.
Implicit Types (b : gmap string V) (k : string).

Abbreviation before := (λ x y : string * V, String.ltb x.1 y.1 = true).

Lemma ltb_antisym k k' : String.ltb k k' = true → String.ltb k' k = true → False.
Proof. rewrite !str_ltb_compare, (String.compare_antisym k k'). by destruct (String.compare k' k). Qed.
Lemma ltb_irrefl k : String.ltb k k ≠ true.
Proof. rewrite str_ltb_compare. by rewrite str_compare_refl. Qed.

(** Sorted with the right entries is the cursor. *)
Lemma cursor_unique b l : l ≡ₚ map_to_list b → StronglySorted before l → cursor b = l.
Proof.
  intros Hp Hs. apply (StronglySorted_unique_strong before); [|apply cursor_sorted|done|by rewrite cursor_perm].
  intros x y _ _ H1 H2. by destruct (ltb_antisym _ _ H1 H2).
Qed.
Lemma cursor_empty : cursor (∅ : gmap string V) = [].
Proof. apply cursor_unique; [by rewrite map_to_list_empty|constructor]. Qed.
Lemma elem_of_cursor b k v : (k, v) ∈ cursor b ↔ b !! k = Some v.
Proof. by rewrite cursor_perm, elem_of_map_to_list. Qed.
Lemma cursor_NoDup b : NoDup (cursor b).*1.
Proof. rewrite cursor_perm. apply NoDup_fst_map_to_list. Qed.
Lemma cursor_length b : length (cursor b) = size b.
Proof. by rewrite cursor_perm, length_map_to_list. Qed.

Lemma cursor_insert_last b k v :
  Forall (λ x, String.ltb x.1 k = true) (cursor b) → cursor (<[k := v]> b) = cursor b ++ [(k, v)].
Proof.
  intros Hk. assert (b !! k = None) as Hn.
  { destruct (b !! k) as [v'|] eqn:E; [|done]. apply elem_of_cursor in E.
    rewrite Forall_forall in Hk. by destruct (ltb_irrefl k (Hk _ E)). }
  apply cursor_unique.
  - by rewrite map_to_list_insert, cursor_perm, Permutation_app_comm.
  - apply StronglySorted_app_2; [apply cursor_sorted|by repeat constructor|].
    intros x y Hx ->%list_elem_of_singleton. rewrite Forall_forall in Hk. by apply Hk.
Qed.

Lemma StronglySorted_filter {A} (R : relation A) (P : A → Prop) `{∀ x, Decision (P x)} l :
  StronglySorted R l → StronglySorted R (filter P l).
Proof.
  induction 1 as [|x l Hs IH Hx]; [constructor|]. rewrite filter_cons. case_decide; [|done].
  constructor; [done|]. rewrite Forall_forall in Hx |- *. intros y [_ Hy]%list_elem_of_filter. by apply Hx.
Qed.
Lemma filter_ext_in {A} (P Q : A → Prop) `{∀ x, Decision (P x), ∀ x, Decision (Q x)} (l : list A) :
  (∀ x, x ∈ l → P x ↔ Q x) → filter P l = filter Q l.
Proof.
  induction l as [|x l IH]; intros Hl; [done|]. rewrite !filter_cons.
  rewrite IH by (intros y Hy; apply Hl; by right). specialize (Hl x ltac:(left)).
  repeat case_decide; tauto || done.
Qed.
Lemma cursor_delete b k : cursor (delete k b) = filter (λ x, x.1 ≠ k) (cursor b).
Proof.
  apply cursor_unique; [|apply StronglySorted_filter, cursor_sorted].
  apply NoDup_Permutation.
  - apply NoDup_filter. rewrite cursor_perm. apply NoDup_map_to_list.
  - apply NoDup_map_to_list.
  - intros [k' v]. rewrite list_elem_of_filter, elem_of_cursor, elem_of_map_to_list, lookup_delete_Some. cbn.
    naive_solver.
Qed.
Lemma cursor_delete_all ks b :
  cursor (foldl (λ b k, delete k b) b ks) = filter (λ x, x.1 ∉ ks) (cursor b).
Proof.
  revert b. induction ks as [|k ks IH]; intros b; cbn [foldl].
  - symmetry. rewrite (list_filter_iff _ (λ _, True)) by set_solver. induction (cursor b); [done|].
    rewrite filter_cons. by f_equal/=.
  - rewrite IH, cursor_delete, list_filter_filter. apply list_filter_iff. intros x. set_solver.
Qed.
End cursor.

(** ** The specification: a first-in-first-out list per recipient *)
Inductive QueueOp : Type :=
| q_enqueue (now : Z) (to from : string) (envelope : list Byte.byte)
| q_count (to : string)
| q_drain (now : Z) (to : string) (n : nat)
| q_sweep (now : Z).
Inductive QueueOut : Type :=
| out_enqueued (r : res unit) | out_count (n : nat) | out_sent (es : list (list Byte.byte)) | out_swept (n : nat).

Section refinement.
Context `{BL : BoltLaws} (mq : QueueConfig).

Abbreviation Fifo := (gmap string (list queuedMessage)).

(** The first [n] that have not expired, and what stays. *)
Fixpoint fifo_take (now : Z) (n : nat) (l : list queuedMessage) : list queuedMessage * list queuedMessage :=
  match n, l with
  | O, _ | _, [] => ([], l)
  | S n', m :: l' =>
      if is_expired mq now m then let '(taken, stay) := fifo_take now n l' in (taken, m :: stay)
      else let '(taken, stay) := fifo_take now n' l' in (m :: taken, stay)
  end.
Definition fifo_step (op : QueueOp) (f : Fifo) : QueueOut * Fifo :=
  match op with
  | q_enqueue now to from e =>
      let l := default [] (f !! to) in
      if negb (key_fits to) then (out_enqueued (Throw "bucket name refused"), f)
      else if maxPerAgent mq <=? length l then (out_enqueued (Throw ErrQueueFull), f)
      else (out_enqueued (Ok tt), <[to := l ++ [mkQueued now from e]]> f)
  | q_count to => (out_count (length (default [] (f !! to))), f)
  | q_drain now to n =>
      match f !! to with
      | None => (out_sent [], f)
      | Some l => let '(taken, stay) := fifo_take now n l in (out_sent (q_Envelope <$> taken), <[to := stay]> f)
      end
  | q_sweep now =>
      (out_swept (map_fold (λ _ l total, length (filter (λ m, is_expired mq now m = true) l) + total) 0 f),
       filter (λ m, is_expired mq now m = false) <$> f)
  end.

(** The code.  [q_drain] is a batch of [flushQueuedMessages]: each entry is removed
    once it was sent. *)
Definition queue_step (op : QueueOp) (q : Queues) : QueueOut * Queues :=
  match op with
  | q_enqueue now to from e => let '(r, q') := Enqueue mq now to from e q in (out_enqueued r, q')
  | q_count to => (out_count (Count to q), q)
  | q_drain now to n =>
      let es := FlushBatch mq now to n q in
      (out_sent (e_Envelope <$> es), foldl (λ q e, Remove to (e_Key e) q) q es)
  | q_sweep now => let '(r, q') := Sweep mq now q in (out_swept (match r with Ok n => n | Throw _ => 0 end), q')
  end.

Fixpoint run_ops {S} (step : QueueOp → S → QueueOut * S) (ops : list QueueOp) (s : S) : list QueueOut * S :=
  match ops with
  | [] => ([], s)
  | op :: ops => let '(o, s) := step op s in let '(os, s) := run_ops step ops s in (o :: os, s)
  end.

Definition contents (sub : SubBucket) : list queuedMessage := omap snd (cursor (items sub)).
Definition fifo_of (q : Queues) : Fifo := contents <$> q.

(** *** Draining and sweeping, whatever is in the bucket *)
Definition left_of (es : list QueueEntry) (l : list (string * option queuedMessage)) : list queuedMessage :=
  omap snd (filter (λ x, x.1 ∉ e_Key <$> es) l).

Lemma flush_scan_keys now n l k : k ∈ e_Key <$> flush_scan mq now n l → k ∈ l.*1.
Proof.
  revert n. induction l as [|[k' [m|]] l IH]; intros [|n]; cbn [flush_scan]; try (by intros ?%not_elem_of_nil).
  - destruct (is_expired mq now m); cbn; [intros ?%IH; by right|].
    intros [->|Hk]%elem_of_cons; [by left|right; by eapply IH].
  - intros ?%IH. by right.
Qed.
Lemma left_cons_other k v es l : k ∉ e_Key <$> es → left_of es ((k, v) :: l) = omap snd [(k, v)] ++ left_of es l.
Proof. intros Hk. unfold left_of. rewrite filter_cons_True by done. by destruct v. Qed.

Lemma left_of_nil l : left_of [] l = omap snd l.
Proof.
  unfold left_of. f_equal. induction l as [|x l IH]; [done|]. rewrite filter_cons_True by apply not_elem_of_nil.
  by f_equal.
Qed.
Lemma fifo_take_0 now l : fifo_take now 0 l = ([], l).
Proof. by destruct l. Qed.
Lemma flush_scan_0 now l : flush_scan mq now 0 l = [].
Proof. by destruct l as [|[? []]]. Qed.

Lemma flush_scan_fifo now n l :
  NoDup l.*1 →
  let es := flush_scan mq now n l in
  fifo_take now n (omap snd l) =
    (fst (fifo_take now n (omap snd l)), left_of es l) ∧
  e_Envelope <$> es = q_Envelope <$> fst (fifo_take now n (omap snd l)).
Proof.
  revert n. induction l as [|[k v] l IH]; intros n Hnd; cbn zeta; [by destruct n|].
  apply NoDup_cons in Hnd as [Hk Hnd]. destruct n as [|n].
  { rewrite fifo_take_0, flush_scan_0, left_of_nil. done. }
  assert (∀ n', k ∉ e_Key <$> flush_scan mq now n' l) as Hout by (intros n' ?%flush_scan_keys; done).
  destruct v as [m|]; cbn [flush_scan].
  - change (omap snd ((k, Some m) :: l)) with (m :: omap snd l). cbn [fifo_take].
    destruct (is_expired mq now m).
    + destruct (IH (S n) Hnd) as [E1 E2]. rewrite E1, left_cons_other by done. cbn [fst app omap list_omap snd]. by split.
    + destruct (IH n Hnd) as [E1 E2]. rewrite E1. cbn [fst fmap list_fmap e_Envelope e_Key]. rewrite E2.
      split; [|done]. f_equal. unfold left_of. rewrite filter_cons_False by (cbn; set_solver).
      f_equal. apply filter_ext_in. intros [k' v'] Hin%(list_elem_of_fmap_2 fst). cbn in *. set_solver.
  - change (omap snd ((k, None) :: l)) with (omap snd l).
    destruct (IH (S n) Hnd) as [E1 E2]. split; [|exact E2]. rewrite E1 at 1. by rewrite left_cons_other.
Qed.

Lemma drain_items to es q sub :
  q !! to = Some sub →
  foldl (λ q e, Remove to (e_Key e) q) q es =
  <[to := mkSub (sequence sub) (foldl (λ b k, delete k b) (items sub) (e_Key <$> es))]> q.
Proof.
  revert q sub. induction es as [|e es IH]; intros q sub Hq; cbn [foldl fmap list_fmap].
  - destruct sub as [n b]. by rewrite insert_id.
  - unfold Remove at 2. rewrite Hq. erewrite IH by apply lookup_insert_eq. cbn [sequence items].
    by rewrite insert_insert_eq.
Qed.

Lemma drain_contents now n sub :
  let es := flush_scan mq now n (cursor (items sub)) in
  contents (mkSub (sequence sub) (foldl (λ b k, delete k b) (items sub) (e_Key <$> es))) =
    (fifo_take now n (contents sub)).2 ∧
  e_Envelope <$> es = q_Envelope <$> (fifo_take now n (contents sub)).1.
Proof.
  destruct (flush_scan_fifo now n (cursor (items sub)) (cursor_NoDup _)) as [E1 E2]. cbv zeta. split; [|exact E2].
  unfold contents. cbn [items]. rewrite cursor_delete_all, E1. reflexivity.
Qed.

Lemma expired_keys_in now l k : k ∈ expired_keys mq now l → k ∈ l.*1.
Proof.
  unfold expired_keys. rewrite list_elem_of_omap. intros ([k' v] & Hin%(list_elem_of_fmap_2 fst) & E). cbn in *.
  destruct v as [m|]; [destruct (is_expired mq now m)|]; naive_solver.
Qed.
Lemma sweep_list now l :
  NoDup l.*1 →
  omap snd (filter (λ x, x.1 ∉ expired_keys mq now l) l) = filter (λ m, is_expired mq now m = false) (omap snd l).
Proof.
  induction l as [|[k v] l IH]; intros Hnd; [done|]. apply NoDup_cons in Hnd as [Hk Hnd].
  assert (k ∉ expired_keys mq now l) as Hn by (by intros ?%expired_keys_in).
  assert (∀ ks : list string, (∀ k', k' ∈ ks ↔ k' = k ∨ k' ∈ expired_keys mq now l) →
    filter (λ x, x.1 ∉ ks) l = filter (λ x, x.1 ∉ expired_keys mq now l) l) as Hks.
  { intros ks Hks. apply filter_ext_in. intros [k' v'] Hin%(list_elem_of_fmap_2 fst). cbn in *.
    rewrite Hks. split; [naive_solver|]. intros H1 [->|H2]; [done|naive_solver]. }
  destruct v as [m|].
  - change (omap snd ((k, Some m) :: l)) with (m :: omap snd l). rewrite (filter_cons _ m).
    unfold expired_keys. cbn [omap list_omap snd fst]. destruct (is_expired mq now m) eqn:E.
    + rewrite filter_cons_False by (cbn; set_solver). rewrite decide_False by done.
      rewrite Hks; [by apply IH|]. intros k'. apply elem_of_cons.
    + rewrite filter_cons_True by done. rewrite decide_True by done.
      change (omap snd ((k, Some m) :: ?x)) with (m :: omap snd x). f_equal. by apply IH.
  - unfold expired_keys. cbn [omap list_omap snd fst]. rewrite filter_cons_False by (cbn; set_solver).
    rewrite Hks; [by apply IH|]. intros k'. apply elem_of_cons.
Qed.
Lemma sweep_contents now sub :
  contents (sweep_sub mq now sub) = filter (λ m, is_expired mq now m = false) (contents sub).
Proof. unfold contents, sweep_sub. cbn [items]. rewrite cursor_delete_all. by apply sweep_list, cursor_NoDup. Qed.

Lemma map_fold_ext_in {A B} (f g : string → A → B → B) b (m : gmap string A) :
  (∀ k x y, m !! k = Some x → f k x y = g k x y) → map_fold f b m = map_fold g b m.
Proof.
  intros Hfg. rewrite !map_fold_foldr.
  assert (∀ kx, kx ∈ map_to_list m → m !! kx.1 = Some kx.2) as Hm by (by intros [k x] ?%elem_of_map_to_list).
  induction (map_to_list m) as [|[k x] l IH]; [done|]. cbn. rewrite IH by (intros; apply Hm; by right).
  apply Hfg, (Hm (k, x)). by left.
Qed.

(** *** What the operations keep *)

(** An entry under the key of its time and number, up to the time [now] and the
    number [top]. *)
Definition entry_ok (now top : Z) (kv : string * option queuedMessage) : Prop :=
  ∃ s m, kv = (encodeKey (EnqueuedAt m) s, Some m) ∧ (0 ≤ s ≤ top)%Z ∧ (0 ≤ EnqueuedAt m ≤ now)%Z.
Definition sub_ok (now n : Z) (sub : SubBucket) : Prop :=
  Forall (entry_ok now (sequence sub)) (cursor (items sub)) ∧ (0 ≤ sequence sub ≤ n)%Z.
Definition queues_ok (now n : Z) (q : Queues) : Prop := map_Forall (λ _, sub_ok now n) q.

Lemma entry_ok_mono now now' top top' kv :
  (now ≤ now')%Z → (top ≤ top')%Z → entry_ok now top kv → entry_ok now' top' kv.
Proof. intros ?? (s & m & -> & ? & ?). exists s, m. split; [done|]. lia. Qed.
Lemma sub_ok_mono now now' n n' sub : (now ≤ now')%Z → (n ≤ n')%Z → sub_ok now n sub → sub_ok now' n' sub.
Proof. intros Hn Hs [Hf ?]. split; [|lia]. eapply Forall_impl; [exact Hf|]. intros kv. by apply entry_ok_mono. Qed.
Lemma queues_ok_mono now now' n n' q : (now ≤ now')%Z → (n ≤ n')%Z → queues_ok now n q → queues_ok now' n' q.
Proof. intros Hn Hs Hq to sub Hsub. eapply sub_ok_mono; [done..|by eapply Hq]. Qed.
Lemma sub_ok_empty now n : (0 ≤ n)%Z → sub_ok now n emptySub.
Proof. intros Hn. split; [|done]. cbn [items emptySub]. by rewrite cursor_empty. Qed.
Lemma sub_ok_delete now n sub ks :
  sub_ok now n sub → sub_ok now n (mkSub (sequence sub) (foldl (λ b k, delete k b) (items sub) ks)).
Proof.
  intros [Hf Hs]. split; [|done]. cbn [items sequence]. rewrite cursor_delete_all. apply Forall_forall.
  intros kv [_ Hkv]%list_elem_of_filter. rewrite Forall_forall in Hf. by apply Hf.
Qed.

(** Nothing in the bucket is other than a message. *)
Lemma contents_size now n sub : sub_ok now n sub → length (contents sub) = size (items sub).
Proof.
  intros [Hf _]. rewrite <- cursor_length. unfold contents. induction Hf as [|kv l (s & m & -> & _) _ IH]; [done|].
  cbn. by rewrite IH.
Qed.
Lemma expired_count now n t sub :
  sub_ok now n sub →
  length (expired_keys mq t (cursor (items sub))) = length (filter (λ m, is_expired mq t m = true) (contents sub)).
Proof.
  intros [Hf _]. unfold contents, expired_keys. induction Hf as [|kv l (s & m & -> & _) _ IH]; [done|].
  cbn [omap list_omap snd fst]. rewrite filter_cons. destruct (is_expired mq t m) eqn:E; cbn; by rewrite IH.
Qed.

(** A new message goes to the end. *)
Lemma enqueue_sub now n t from e sub :
  sub_ok now n sub → (0 ≤ now ≤ t)%Z → (t < 2 ^ 63)%Z → (n + 1 < 2 ^ 64)%Z →
  let seq := ((sequence sub + 1) mod 2 ^ 64)%Z in
  let sub' := mkSub seq (<[encodeKey t seq := Some (mkQueued t from e)]> (items sub)) in
  contents sub' = contents sub ++ [mkQueued t from e] ∧ sub_ok t (n + 1) sub'.
Proof.
  intros [Hf Hs] Ht Ht' Hn seq. assert (seq = (sequence sub + 1)%Z) as Es by (apply Z.mod_small; lia). clearbody seq. subst seq.
  assert (Forall (λ x, String.ltb x.1 (encodeKey t (sequence sub + 1)) = true) (cursor (items sub))) as Hlast.
  { eapply Forall_impl; [exact Hf|]. intros kv (s & m & -> & ? & ?). cbn [fst]. apply str_ltb_compare.
    rewrite encodeKey_compare by lia. unfold clex.
    destruct (Z.compare_spec (EnqueuedAt m) t); [apply Z.compare_lt_iff; lia|done|lia]. }
  cbv zeta. unfold contents, sub_ok. cbn [items sequence]. rewrite cursor_insert_last by exact Hlast. split; [exact (omap_app snd _ [(_, Some _)])|].
  split; [|lia]. apply Forall_app. split.
  - eapply Forall_impl; [exact Hf|]. intros kv. apply entry_ok_mono; lia.
  - apply Forall_singleton. exists (sequence sub + 1)%Z, (mkQueued t from e). split; [reflexivity|]. cbn [EnqueuedAt]. lia.
Qed.

Definition op_time (op : QueueOp) : option Z :=
  match op with q_enqueue t _ _ _ | q_drain t _ _ | q_sweep t => Some t | q_count _ => None end.

Lemma fifo_get to q : fifo_of q !! to = contents <$> q !! to.
Proof. apply lookup_fmap. Qed.

(** One operation does to the queues what the specification does to the lists. *)
Lemma queue_step_refines op now n q :
  queues_ok now n q → (n + 1 < 2 ^ 64)%Z → (0 ≤ n)%Z → (0 ≤ now)%Z →
  match op_time op with Some t => (now ≤ t < 2 ^ 63)%Z | None => True end →
  let '(o, q') := queue_step op q in
  fifo_step op (fifo_of q) = (o, fifo_of q') ∧ queues_ok (default now (op_time op)) (n + 1) q'.
Proof.
  intros Hq Hn Hn0 Hnow Ht. assert (∀ to, sub_ok now n (sub_of to q)) as Hsub.
  { intros to. unfold sub_of. destruct (q !! to) eqn:E; cbn; [by eapply Hq|by apply sub_ok_empty]. }
  assert (∀ to, default [] (fifo_of q !! to) = contents (sub_of to q)) as Hget.
  { intros to. rewrite fifo_get. unfold sub_of. destruct (q !! to); [done|]. unfold contents. cbn. by rewrite cursor_empty. }
  destruct op as [t to from e|to|t to k|t]; cbn [op_time from_option id] in *; cbn [queue_step fifo_step].
  - unfold Enqueue. rewrite Hget, (contents_size now n) by done.
    destruct (key_fits to); cbn [negb]; [|split; [done|eapply queues_ok_mono; [..|done]; lia]].
    destruct (_ <=? _); [split; [done|eapply queues_ok_mono; [..|done]; lia]|].
    rewrite key_fits_small by (vm_compute; done).
    destruct (enqueue_sub now n t from e (sub_of to q)) as [Ec Hok]; [done|lia|lia|lia|]. split.
    + f_equal. unfold fifo_of. by rewrite fmap_insert, Ec.
    + apply map_Forall_insert_2; [done|]. eapply queues_ok_mono; [..|done]; lia.
  - split; [|eapply queues_ok_mono; [..|done]; lia]. f_equal. f_equal. rewrite Hget, (contents_size now n) by done.
    unfold Count, sub_of. by destruct (q !! to).
  - unfold FlushBatch. rewrite fifo_get. destruct (q !! to) as [sub|] eqn:E; cbn [fmap option_fmap option_map].
    + rewrite (drain_items to _ q sub E). destruct (drain_contents t k sub) as [Ec Eo].
      rewrite (surjective_pairing (fifo_take t k (contents sub))), <- Eo. split.
      * f_equal. unfold fifo_of. by rewrite fmap_insert, Ec.
      * apply map_Forall_insert_2; [|eapply queues_ok_mono; [..|done]; lia].
        apply sub_ok_delete. eapply sub_ok_mono; [..|by eapply Hq]; lia.
    + cbn. split; [done|eapply queues_ok_mono; [..|done]; lia].
  - unfold Sweep. split.
    + f_equal.
      * f_equal. unfold fifo_of. rewrite map_fold_fmap. apply map_fold_ext_in. intros to sub total E. cbn.
        by rewrite <- (expired_count now n t sub) by (by eapply Hq).
      * unfold fifo_of. rewrite <- !map_fmap_compose. apply map_fmap_ext. intros to sub _. cbn. by rewrite sweep_contents.
    + intros to sub'. rewrite lookup_fmap. intros (sub & E & ->)%fmap_Some.
      apply sub_ok_delete. eapply sub_ok_mono; [..|by eapply Hq]; lia.
Qed.

(** Times in order, as nanoseconds that fit 63 bits. *)
Fixpoint timely (now : Z) (ops : list QueueOp) : Prop :=
  match ops with
  | [] => True
  | op :: ops =>
      match op_time op with
      | Some t => (now ≤ t < 2 ^ 63)%Z ∧ timely t ops
      | None => timely now ops
      end
  end.

Lemma run_ops_refines ops now n q :
  queues_ok now n q → timely now ops → (0 ≤ n)%Z → (0 ≤ now)%Z → (n + Z.of_nat (length ops) < 2 ^ 64)%Z →
  let '(os, q') := run_ops queue_step ops q in run_ops fifo_step ops (fifo_of q) = (os, fifo_of q').
Proof.
  revert now n q. induction ops as [|op ops IH]; intros now n q Hq Ht Hn Hnow Hlen; [done|].
  cbn [run_ops timely length] in *.
  pose proof (queue_step_refines op now n q Hq ltac:(lia) Hn Hnow) as Hstep.
  assert (match op_time op with Some t => (now ≤ t < 2 ^ 63)%Z | None => True end ∧
    timely (default now (op_time op)) ops ∧ (0 ≤ default now (op_time op))%Z) as (H1 & H2 & H3).
  { destruct (op_time op); cbn; [destruct Ht; split; [done|split; [done|lia]]|done]. }
  specialize (Hstep H1). destruct (queue_step op q) as [o q1]. destruct Hstep as [-> Hq1].
  specialize (IH _ _ _ Hq1 H2 ltac:(lia) H3 ltac:(lia)).
  destruct (run_ops queue_step ops q1) as [os q']. by rewrite IH.
Qed.

(** *** The cap *)
Definition within_cap (q : Queues) : Prop := ∀ to, Count to q ≤ maxPerAgent mq.

Lemma size_delete_all (ks : list string) (b : gmap string (option queuedMessage)) :
  size (foldl (λ b k, delete k b) b ks) ≤ size b.
Proof.
  revert b. induction ks as [|k ks IH]; intros b; cbn; [done|]. etrans; [apply IH|].
  rewrite map_size_delete. destruct (b !! k); unfold id; lia.
Qed.
Lemma enqueue_cap now to from e q : within_cap q → within_cap (Enqueue mq now to from e q).2.
Proof.
  intros Hc to'. specialize (Hc to'). revert Hc. unfold Count, Enqueue. destruct (key_fits to); [|done].
  cbn [negb]. destruct (_ <=? _) eqn:E; [done|]. destruct (key_fits (encodeKey _ _)); [|done]. cbn [snd]. intros Hc.
  destruct (decide (to = to')) as [<-|Hne]; [rewrite lookup_insert_eq|by rewrite lookup_insert_ne].
  apply Nat.leb_gt in E. cbn [items]. rewrite map_size_insert. destruct (items (sub_of to q) !! _); unfold id; lia.
Qed.
Lemma remove_cap to k q : within_cap q → within_cap (Remove to k q).
Proof.
  intros Hc to'. specialize (Hc to'). revert Hc. unfold Count, Remove. destruct (q !! to) as [sub|] eqn:E; [|done].
  destruct (decide (to = to')) as [<-|Hne]; [rewrite E, lookup_insert_eq|by rewrite lookup_insert_ne].
  cbn [items]. intros Hc. etrans; [apply (size_delete_all [k])|done].
Qed.
Lemma sweep_cap now q : within_cap q → within_cap (Sweep mq now q).2.
Proof.
  intros Hc to'. specialize (Hc to'). revert Hc. unfold Count, Sweep. cbn [snd]. rewrite lookup_fmap.
  destruct (q !! to') as [sub|]; [|done]. cbn [fmap option_fmap option_map sweep_sub items]. intros Hc.
  etrans; [apply size_delete_all|done].
Qed.

Lemma queue_step_cap op q : within_cap q → within_cap (queue_step op q).2.
Proof.
  intros Hc. destruct op as [t to from e|to|t to k|t]; cbn [queue_step]; [|done|..].
  - pose proof (enqueue_cap t to from e q Hc). by destruct (Enqueue mq t to from e q).
  - cbn [snd]. generalize (FlushBatch mq t to k q). intros es. revert q Hc.
    induction es as [|e es IH]; intros q Hc; [done|]. cbn [foldl]. apply IH. by apply remove_cap.
  - pose proof (sweep_cap t q Hc). by destruct (Sweep mq t q).
Qed.
Lemma run_ops_cap ops q : within_cap q → within_cap (run_ops queue_step ops q).2.
Proof.
  revert q. induction ops as [|op ops IH]; intros q Hq; [done|]. cbn [run_ops].
  pose proof (queue_step_cap op q Hq) as H1. destruct (queue_step op q) as [o q1]. specialize (IH q1 H1).
  by destruct (run_ops queue_step ops q1).
Qed.

(** C8. The relay's queue is a bounded first-in-first-out list for each recipient: any
    sequence of enqueuing, counting, draining in batches and sweeping, at times in
    order, gives the results that the same operations give on plain lists (append
    at the end, refused when full; the oldest that have not expired are taken;
    sweeping keeps the rest in order), and no queue outgrows its cap. *)
Theorem queue_refines_fifo ops :
  timely 0 ops → (Z.of_nat (length ops) < 2 ^ 64)%Z →
  let '(os, q) := run_ops queue_step ops ∅ in
  run_ops fifo_step ops ∅ = (os, fifo_of q) ∧ ∀ to, Count to q ≤ maxPerAgent mq.
Proof.
  intros Ht Hl. pose proof (run_ops_refines ops 0 0 ∅ (map_Forall_empty _) Ht ltac:(lia) ltac:(lia) Hl) as Hr.
  assert (within_cap (run_ops queue_step ops ∅).2) as Hc.
  { apply run_ops_cap. intros to. unfold Count. rewrite lookup_empty. lia. }
  destruct (run_ops queue_step ops ∅) as [os q]. split; [exact Hr|exact Hc].
Qed.
End refinement.

(** ** A concrete engine *)
Module SampleBolt.
#[export] Instance bolt : Bolt := {|
  cursor V b := stable_sort (λ x y, String.leb x.1 y.1) (map_to_list b);
  key_fits k := bool_decide (0 < Z.of_nat (String.length k) ≤ 32768)%Z
|}.
#[export] Instance bolt_laws : BoltLaws.
Proof.
  split.
  - intros V b. apply stable_sort_perm.
  - intros V b. cbn.
    assert (NoDup (stable_sort (λ x y : string * V, String.leb x.1 y.1) (map_to_list b)).*1) as Hnd
      by (rewrite stable_sort_perm; apply NoDup_fst_map_to_list).
    assert (StronglySorted (λ x y, String.leb x.1 y.1 = true)
      (stable_sort (λ x y : string * V, String.leb x.1 y.1) (map_to_list b))) as Hs.
    { apply stable_sort_sorted; [intros; apply str_leb_total|intros x y z; apply str_leb_trans]. }
    induction Hs as [|x l Hs IH Hx]; [constructor|]. apply NoDup_cons in Hnd as [Hin Hnd].
    constructor; [by apply IH|]. rewrite Forall_forall in Hx |- *. intros y Hy. specialize (Hx y Hy).
    rewrite str_ltb_leb. destruct (String.leb y.1 x.1) eqn:E; [|done]. destruct Hin.
    rewrite (str_leb_antisym _ _ Hx E). by apply list_elem_of_fmap_2.
  - intros k Hk. by apply bool_decide_eq_true_2.
Qed.
End SampleBolt.

Import SampleBolt.
Lemma queue_refines_fifo_witness :
  let ops := [q_enqueue 5 "b" "a" [Byte.x01]; q_enqueue 5 "b" "c" [Byte.x02]; q_enqueue 6 "b" "a" [Byte.x03];
              q_drain 7 "b" 1; q_enqueue 20 "b" "a" [Byte.x04]; q_count "b"; q_sweep 21; q_drain 21 "b" 50] in
  let mq := mkQueueConfig 2 10 in
  (run_ops (fifo_step mq) ops ∅).1 = (run_ops (queue_step mq) ops ∅).1 ∧
  (run_ops (queue_step mq) ops ∅).1 =
    [out_enqueued (Ok tt); out_enqueued (Ok tt); out_enqueued (Throw ErrQueueFull); out_sent [[Byte.x01]];
     out_enqueued (Ok tt); out_count 2; out_swept 1; out_sent [[Byte.x04]]].
Proof.
  intros ops mq. split; [|vm_compute; reflexivity].
  pose proof (queue_refines_fifo mq ops ltac:(vm_compute; intuition congruence) ltac:(vm_compute; reflexivity)) as H.
  destruct (run_ops (queue_step mq) ops ∅) as [os q]. destruct H as [-> _]. reflexivity.
Defined.
