(* ===== verification/RelayAuth.v ===== *)
(** How the relay authenticates a client (relay/internal/auth, relay/internal/identity,
    Go), and that the two programs agree: the relay admits the client of RelayClient
    under the address that the client's own check gives its key.

    Go's strings are byte sequences: a Rocq string has one character per byte.  The
    strings both sides exchange here are ASCII, where that is the text itself. *)
From S2P Require Import Prelude JsLib Platform Identity Text Envelope Delivery RelayClient.
From stdpp Require Import pretty.
From Stdlib Require Import Ascii.

(** ** The libraries: mr-tron/base58, crypto/ed25519, and Go's protobuf *)
Class GoLibs : Type := {
  base58_Encode : bytes → string;
  base58_Decode : string → res bytes;
  ed25519_Verify : bytes → bytes → bytes → bool;       (* public key, message, signature *)
  proto_Marshal : Envelope → res bytes;
  proto_Unmarshal : bytes → res Envelope
}.

(** The strings of the messages of the handshake. *)
Definition ascii_text (s : string) : bool := str_forall (λ c, N.ltb (N_of_ascii c) 128) s.
Definition payload_strings (p : Payload) : list string :=
  match p with
  | authChallenge c => [ch_relayHost c]
  | authResponse _ => []
  | authResult r => [res_errorMessage r; res_assignedAddress r]
  | _ => []
  end.
Definition handshake_message (e : Envelope) : Prop :=
  env_type e ∈ [AUTH_CHALLENGE; AUTH_RESPONSE; AUTH_RESULT] ∧
  Forall (λ s, ascii_text s = true) (env_fromAddress e :: env_toAddress e :: payload_strings (env_payload e)).

(** ** identity.go *)
(** [copy(dst[i:], src)]: as much as fits. *)
Definition go_copy (src : bytes) (off : nat) (dst : bytes) : bytes :=
  let n := Nat.min (length src) (length dst - off) in
  take off dst ++ take n src ++ drop (off + n) dst.

(** [addressRegex]: the same expression, but Go's [.] is any character but a line feed. *)
Definition go_dot (c : ascii) : bool := negb (bool_decide (c = "010"%char)).
Definition addressRegex (addr : string) : option (string * string) :=
  rest ← strip "pinch:" addr;
  let '(payload, rest) := span is_base58 rest in
  host ← strip "@" rest;
  if bool_decide (payload ≠ "") && bool_decide (host ≠ "") && str_forall go_dot host
  then Some (payload, host) else None.

Section identity.
Context `{Sha256, GoLibs} (quote : string → string).   (* [%q] *)

Definition GenerateAddress (pubKey : bytes) (relayHost : string) : string :=
  let checksum := take 4 (sha256 pubKey) in
  (* copy(payload[:32], pubKey) writes into the first 32 bytes only *)
  let payload := go_copy pubKey 0 (replicate 32 Byte.x00) ++ replicate 4 Byte.x00 in
  let payload := go_copy checksum 32 payload in
  "pinch:" +:+ base58_Encode payload +:+ "@" +:+ relayHost.

Definition ParseAddress (addr : string) : res (string * string) :=
  match addressRegex addr with
  | None => Throw ("invalid address format: " +:+ quote addr)
  | Some (payload, host) => Ok (payload, host)
  end.

Definition ValidateAddress (addr : string) : res (bytes * string) :=
  match ParseAddress addr with
  | Throw err => Throw err
  | Ok (payload, host) =>
      match base58_Decode payload with
      | Throw err => Throw ("invalid base58 in address: " +:+ err)
      | Ok decoded =>
          if bool_decide (length decoded ≠ 36)
          then Throw ("invalid address payload length: expected 36, got " +:+ pretty (length decoded))
          else
            let pubKey := take 32 decoded in
            let checksum := take 4 (drop 32 decoded) in
            let expectedChecksum := take 4 (sha256 pubKey) in
            if bool_decide (checksum ≠ expectedChecksum) then Throw "address checksum mismatch"
            else Ok (pubKey, host)
      end
  end.
End identity.

(** ** auth.go *)
Definition NonceSize : nat := 32.
Definition challengeVersion : Z := 1.
Definition signPrefix : string := "pinch-auth-v1".

Definition ErrResponseTimeout : string := "authentication response timeout".
Definition ErrChallengeExpired : string := "authentication challenge expired".
Definition ErrInvalidMessageType : string := "invalid authentication message type".
Definition ErrInvalidNonce : string := "invalid authentication nonce".
Definition ErrInvalidSignature : string := "invalid authentication signature".

Definition go_bytes (s : string) : bytes := String.list_byte_of_string s.
Definition SignPayload (relayHost : string) (nonce : bytes) : bytes :=
  go_bytes signPrefix ++ [Byte.x00] ++ go_bytes relayHost ++ [Byte.x00] ++ nonce.

(** Instants are nanoseconds; [UnixMilli] rounds down. *)
Definition UnixMilli (t : Z) : Z := (t / 1000000)%Z.
Definition default_ttl (d : Z) : Z := if (d <=? 0)%Z then 10000000000%Z else d.

(** What [conn.Read] gives. *)
Inductive ReadOutcome : Type :=
| read_timeout
| read_failed (err : string)
| read_message (binary : bool) (data : bytes).

Section auth.
Context `{Sha256, GoLibs} (type_name : MessageType → string).

Definition VerifyChallenge (pubKey payload signature : bytes) : bool :=
  bool_decide (length pubKey = 32) && bool_decide (length signature = 64) && ed25519_Verify pubKey payload signature.
Definition DeriveAddress (pubKey : bytes) (relayHost : string) : string := GenerateAddress pubKey relayHost.

Definition auth_challenge (relayHost : string) (nonce : bytes) (issuedAt expiresAt : Z) : Envelope :=
  mkEnvelope challengeVersion "" "" AUTH_CHALLENGE [] (UnixMilli issuedAt)
    (authChallenge (mkAuthChallenge challengeVersion nonce (UnixMilli issuedAt) (UnixMilli expiresAt) relayHost)).

(** The checks of the response, in their order. *)
Definition check_response (relayHost : string) (nonce : bytes) (expiresAt now : Z) (responseBytes : bytes)
    : res (bytes * string) :=
  match proto_Unmarshal responseBytes with
  | Throw err => Throw ("decode auth response: " +:+ err)
  | Ok env =>
      if bool_decide (env_type env ≠ AUTH_RESPONSE)
      then Throw (ErrInvalidMessageType +:+ ": got " +:+ type_name (env_type env))
      else match env_payload env with
      | authResponse ar =>
          if bool_decide (ar_version ar ≠ challengeVersion)
          then Throw (ErrInvalidMessageType +:+ ": unsupported version " +:+ pretty (ar_version ar))
          else if bool_decide (length (ar_publicKey ar) ≠ 32)
          then Throw (ErrInvalidSignature +:+ ": expected 32-byte public key, got " +:+ pretty (length (ar_publicKey ar)))
          else if bool_decide (length (ar_signature ar) ≠ 64)
          then Throw (ErrInvalidSignature +:+ ": expected 64-byte signature, got " +:+ pretty (length (ar_signature ar)))
          else if bool_decide (length (ar_nonce ar) ≠ length nonce)
          then Throw (ErrInvalidNonce +:+ ": expected " +:+ pretty (length nonce) +:+ "-byte nonce, got "
                      +:+ pretty (length (ar_nonce ar)))
          else if bool_decide (expiresAt < now)%Z then Throw ErrChallengeExpired
          else if bool_decide (ar_nonce ar ≠ nonce) then Throw ErrInvalidNonce
          else if negb (VerifyChallenge (ar_publicKey ar) (SignPayload relayHost nonce) (ar_signature ar))
          then Throw ErrInvalidSignature
          else Ok (ar_publicKey ar, DeriveAddress (ar_publicKey ar) relayHost)
      | _ => Throw (ErrInvalidMessageType +:+ ": missing auth_response payload")
      end
  end.

(** [issuedAt] and [now] are the two calls of [nowFn]; [nonce] is what
    [GenerateChallenge] draws; [write] is [conn.Write] and [read] what the client
    sends before the timeout. *)
Definition Authenticate (relayHost : string) (challengeTTL : Z) (nonce : res bytes) (issuedAt : Z)
    (write : bytes → res unit) (read : ReadOutcome) (now : Z) : res (bytes * string) :=
  match nonce with
  | Throw err => Throw ("generate auth nonce: " +:+ err)
  | Ok nonce =>
      let expiresAt := (issuedAt + default_ttl challengeTTL)%Z in
      match proto_Marshal (auth_challenge relayHost nonce issuedAt expiresAt) with
      | Throw err => Throw ("marshal auth challenge: " +:+ err)
      | Ok challengeBytes =>
          match write challengeBytes with
          | Throw err => Throw ("send auth challenge: " +:+ err)
          | Ok _ =>
              match read with
              | read_timeout => Throw ErrResponseTimeout
              | read_failed err => Throw ("read auth response: " +:+ err)
              | read_message false _ => Throw (ErrInvalidMessageType +:+ ": expected binary, got 1")
              | read_message true data => check_response relayHost nonce expiresAt now data
              end
          end
      end
  end.
End auth.

(** [sendAuthResult] of cmd/pinchd/main.go *)
Definition auth_result (success : bool) (assignedAddress errorMessage : string) : Envelope :=
  envelope "" "" AUTH_RESULT (authResult (mkAuthResult success errorMessage assignedAddress)).

(** ** What the two sides' libraries have in common

    base58 is one encoding, protobuf one format, and signatures of one verify with
    the other.  [toBinary] is the client's encoder.  The encoders take every
    message of the handshake whose strings are text and whose integers have their
    width. *)
Definition int64 (z : Z) : Prop := (- 2 ^ 63 ≤ z < 2 ^ 63)%Z.

Class Interop `{GoLibs, Base58, Protobuf, Ed25519} (toBinary : Envelope → res bytes) : Prop := {
  same_base58 bs : base58_Encode bs = bs58_encode bs;
  same_decode s bs : s ≠ "" → base58_Decode s = Ok bs ↔ bs58_decode s = Some bs;
  verifies pk sk payload sg :
    ed_pair pk sk → crypto_sign_detached payload sk = Ok sg →
    length sg = 64 ∧ ed25519_Verify pk payload sg = true;
  marshalled e bs : handshake_message e → proto_Marshal e = Ok bs → fromBinary bs = Ok e;
  unmarshalled e bs : handshake_message e → toBinary e = Ok bs → proto_Unmarshal bs = Ok e;
  challenge_marshals host nonce issuedAt expiresAt :
    ascii_text host = true → int64 (UnixMilli issuedAt) → int64 (UnixMilli expiresAt) →
    ∃ bs, proto_Marshal (auth_challenge host nonce issuedAt expiresAt) = Ok bs;
  response_encodes pk sg nonce : ∃ bs, toBinary (auth_response pk sg nonce) = Ok bs;
  result_marshals success addr err :
    ascii_text addr = true → ascii_text err = true → ∃ bs, proto_Marshal (auth_result success addr err) = Ok bs
}.

(** ** The two sides agree on addresses *)
Section agreement.
Context `{SHL : Sha256Laws, B58L : Base58Laws, PB : Protobuf, LO : Lower, ED : Ed25519, ED_L : !Ed25519Laws, GO : GoLibs}.
Context (toBinary : Envelope → res bytes) `{!Interop toBinary}.

Lemma same_address pubKey host :
  length pubKey = 32 → generateAddress pubKey host = Ok (GenerateAddress pubKey host).
Proof using B58L SHL toBinary Interop0.
  intros Hk. unfold generateAddress, GenerateAddress.
  assert (length (take 4 (sha256 pubKey)) = 4) as Hc by (rewrite length_take, sha256_length; lia).
  rewrite payload_layout by done. rewrite same_base58. do 5 f_equal.
  unfold go_copy. rewrite Hk, length_replicate. change (32 `min` (32 - 0)) with 32.
  cbn [Nat.add]. rewrite (drop_ge (replicate 32 _)), take_0, app_nil_l, app_nil_r by (rewrite length_replicate; lia).
  rewrite (take_ge pubKey) by lia. rewrite length_app, Hk, length_replicate, Hc.
  rewrite take_app_length' by done. change (4 `min` (32 + 4 - 32)) with 4. rewrite (take_ge (take 4 _)) by lia.
  rewrite drop_ge by (rewrite length_app, length_replicate; lia). by rewrite app_nil_r.
Qed.

Lemma dots_are_go_dots s : str_forall is_dot s = true → str_forall go_dot s = true.
Proof using Type.
  induction s as [|c s IH]; [done|]. cbn. unfold is_dot at 1, go_dot at 1.
  destruct (bool_decide (c = "010"%char)); cbn; [done|]. by intros [_ ?]%andb_prop; apply IH.
Qed.

(** The skill's expression is the relay's, on hosts without line terminators. *)
Lemma regexes_agree addr payload host :
  ADDRESS_REGEX addr = Some (payload, host) ↔
  addressRegex addr = Some (payload, host) ∧ str_forall is_dot host = true.
Proof using Type.
  unfold ADDRESS_REGEX, addressRegex. destruct (strip "pinch:" addr) as [rest|]; [|by split; [|intros []]].
  cbn [mbind option_bind]. destruct (span is_base58 rest) as [p r].
  destruct (strip "@" r) as [h|]; [|by split; [|intros []]]. cbn [mbind option_bind].
  destruct (bool_decide (p ≠ "") && bool_decide (h ≠ "")); cbn [andb]; [|by split; [|intros []]].
  pose proof (dots_are_go_dots h) as Hd.
  destruct (str_forall is_dot h) eqn:E; cbn [andb].
  - rewrite Hd by done. split; [|tauto]. intros [= <- <-]. done.
  - split; [done|]. destruct (str_forall go_dot h); [|by intros []]. intros [[= <- <-] H']. congruence.
Qed.
Lemma addressRegex_payload addr payload host : addressRegex addr = Some (payload, host) → payload ≠ "".
Proof using Type.
  unfold addressRegex. destruct (strip "pinch:" addr) as [rest|]; [|done]. cbn [mbind option_bind].
  destruct (span is_base58 rest) as [p r]. destruct (strip "@" r) as [h|]; [|done]. cbn [mbind option_bind].
  destruct (bool_decide (p ≠ "")) eqn:E; [|done]. cbn [andb]. case_match; [|done].
  intros [= <- _]. by apply bool_decide_eq_true in E.
Qed.

(** C11. The two programs agree on addresses, though each has its own check
    ([identity.ts], [identity.go]): the skill takes a text for the address of a
    key at a host exactly when the relay does, for every host without a line
    terminator, which only Go's expression lets through. *)
Theorem validateAddress_agrees quote addr key host :
  validateAddress addr = Ok (key, host) ↔
  ValidateAddress quote addr = Ok (key, host) ∧ str_forall is_dot host = true.
Proof using All.
  unfold validateAddress, ValidateAddress, ParseAddress.
  destruct (addressRegex addr) as [[payload h]|] eqn:Eg.
  - pose proof (addressRegex_payload _ _ _ Eg) as Hne. pose proof (regexes_agree addr payload h) as Hr.
    destruct (str_forall is_dot h) eqn:Ed.
    + rewrite (proj2 Hr) by done. destruct (bs58_decode payload) as [decoded|] eqn:Eb.
      * rewrite (proj2 (same_decode _ _ Hne) Eb). case_bool_decide; [by split; [|intros []]|]. cbv zeta.
        destruct (decide (take 4 (drop 32 decoded) = take 4 (sha256 (take 32 decoded)))) as [Ec|Ec].
        -- rewrite bool_decide_eq_true_2, bool_decide_eq_false_2 by tauto. split; [|tauto]. by intros [= <- <-].
        -- rewrite bool_decide_eq_false_2, bool_decide_eq_true_2 by tauto. by split; [|intros []].
      * destruct (base58_Decode payload) as [bs|] eqn:Eb'; [|by split; [|intros []]].
        apply (same_decode _ _ Hne) in Eb'. congruence.
    + destruct (ADDRESS_REGEX addr) as [[p' h']|] eqn:Et.
      { apply regexes_agree in Et as [Et ?]. rewrite Eg in Et. injection Et as -> ->. congruence. }
      split; [done|]. intros [Hv Hd]. exfalso. destruct (base58_Decode payload) as [bs|]; [|done].
      case_bool_decide; [done|]. cbv zeta in Hv. case_bool_decide; [done|]. injection Hv as _ ->. congruence.
  - destruct (ADDRESS_REGEX addr) as [[p' h']|] eqn:Et; [|by split; [|intros []]].
    apply regexes_agree in Et as [Et ?]. congruence.
Qed.

(** *** The signed bytes *)
Lemma utf8_ascii s : ascii_text s = true → utf8_encode s = go_bytes s.
Proof using Type.
  induction s as [|c s IH]; [done|]. unfold ascii_text. cbn [str_forall]. intros [Hc Hs]%andb_prop.
  change (utf8_encode (String c s)) with (utf8_char c ++ utf8_encode s). rewrite (IH Hs).
  change (go_bytes (String c s)) with ([byte_of_ascii c] ++ go_bytes s). f_equal.
  destruct c as [[] [] [] [] [] [] [] []]; try done; discriminate Hc.
Qed.
Lemma same_payload host nonce :
  ascii_text host = true → buildSignPayload host nonce = Some (SignPayload host nonce).
Proof using Type. intros Hh. rewrite buildSignPayload_eq, (utf8_ascii host Hh). reflexivity. Qed.

(** ** The relay admits the client *)
Context (pk sk : bytes) (clientHost : string) (heartbeatInterval pongTimeout : Z) (autoReconnect : bool).
Context (case_name : Payload → string) (type_name : MessageType → string).
Abbreviation client_on := (on_event pk sk clientHost heartbeatInterval pongTimeout autoReconnect case_name).

(** The client answers the relay's challenge, and its answer passes every check. *)
Lemma answer_passes host nonce issuedAt expiresAt cb t :
  ed_pair pk sk → length pk = 32 → length nonce = 32 → host ≠ "" → ascii_text host = true →
  (clientHost ≠ "" → toLowerCase host = toLowerCase clientHost) →
  proto_Marshal (auth_challenge host nonce issuedAt expiresAt) = Ok cb →
  ∃ sg, let r := auth_response pk sg nonce in let c := (client_on (ev_message t (raw_Buffer cb) true) connecting).2 in
    c = mkClient awaiting_result None true true false None 0 false [r] [] false ∧
    ∀ rb now, toBinary r = Ok rb → (now ≤ expiresAt)%Z →
      check_response type_name host nonce expiresAt now rb = Ok (pk, GenerateAddress pk host).
Proof using All.
  intros Hp Hpk Hnonce Hne Ha Hlow Hcb. destruct (ed_sign pk sk (SignPayload host nonce) Hp) as [sg Hsg].
  assert (fromBinary cb = Ok (auth_challenge host nonce issuedAt expiresAt)) as Hfrom.
  { apply marshalled; [|done]. split; [set_solver|]. by repeat constructor. }
  exists sg. cbv zeta.
  assert ((client_on (ev_message t (raw_Buffer cb) true) connecting).2 =
    mkClient awaiting_result None true true false None 0 false [auth_response pk sg nonce] [] false) as ->.
  { cbn [on_event normalizeRawData]. unfold on_message, or_fail, respondToAuthChallenge. cbn [mbind M_bind gets].
    unfold mbind, M_bind, gets, lift. cbn [authState connecting negb]. rewrite Hfrom.
    cbn [env_type env_payload auth_challenge ch_nonce ch_relayHost].
    rewrite bool_decide_eq_false_2 by (rewrite Hnonce; tauto). rewrite bool_decide_eq_false_2 by done.
    assert (bool_decide (clientHost ≠ "") && bool_decide (toLowerCase host ≠ toLowerCase clientHost) = false) as ->.
    { case_bool_decide as Hc; [|done]. cbn. apply bool_decide_eq_false_2. rewrite (Hlow Hc). tauto. }
    rewrite (same_payload host nonce Ha), Hsg. reflexivity. }
  split; [done|]. intros rb now Hrb Hnow. unfold check_response.
  rewrite (unmarshalled (auth_response pk sg nonce) rb); [|split; [set_solver|by repeat constructor]|done].
  destruct (verifies pk sk _ sg Hp Hsg) as [Hlen Hv].
  cbn [env_type env_payload auth_response envelope ar_version ar_publicKey ar_signature ar_nonce].
  rewrite bool_decide_eq_false_2 by (intros H'; by apply H'). rewrite bool_decide_eq_false_2 by (intros H'; by apply H').
  rewrite bool_decide_eq_false_2 by tauto. rewrite bool_decide_eq_false_2 by tauto.
  rewrite bool_decide_eq_false_2 by tauto. rewrite bool_decide_eq_false_2 by lia.
  rewrite bool_decide_eq_false_2 by tauto.
  unfold VerifyChallenge. rewrite Hv, !bool_decide_eq_true_2 by done. reflexivity.
Qed.

Lemma ascii_app s t : ascii_text (s +:+ t) = ascii_text s && ascii_text t.
Proof using Type.
  induction s as [|c s IH]; [done|]. change (String c s +:+ t) with (String c (s +:+ t)).
  unfold ascii_text in *. cbn [str_forall]. by rewrite IH, andb_assoc.
Qed.
Lemma base58_ascii s : str_forall is_base58 s = true → ascii_text s = true.
Proof using Type.
  unfold ascii_text. induction s as [|c s IH]; [done|]. cbn [str_forall]. intros [Hc Hs]%andb_prop.
  rewrite (IH Hs), andb_true_r. destruct c as [[] [] [] [] [] [] [] []]; done || discriminate Hc.
Qed.
Lemma address_ascii pubKey host : ascii_text host = true → ascii_text (GenerateAddress pubKey host) = true.
Proof using All.
  intros Hh. unfold GenerateAddress. rewrite !ascii_app, Hh, same_base58.
  rewrite (base58_ascii (bs58_encode _)) by apply bs58_alphabet. reflexivity.
Qed.

(** C17. The relay admits the skill.  With a relay whose host is an ASCII name, the one
    the client expects if it expects one: the relay's challenge makes the skill's
    client, once connected, send exactly one response; if that arrives before
    the challenge expires, every check of the relay passes and the relay gives the
    client the address that the skill's own check reads back as this key at this
    host; and the relay's result makes [connect] resolve with that address. *)
Theorem relay_admits_client host ttl nonce issuedAt t t' now :
  ed_pair pk sk → length pk = 32 → length nonce = NonceSize →
  host ≠ "" → ascii_text host = true → str_forall is_dot host = true →
  (clientHost ≠ "" → toLowerCase host = toLowerCase clientHost) →
  let expiresAt := (issuedAt + default_ttl ttl)%Z in
  int64 (UnixMilli issuedAt) → int64 (UnixMilli expiresAt) → (now ≤ expiresAt)%Z →
  let addr := GenerateAddress pk host in
  ∃ cb rb mb,
    proto_Marshal (auth_challenge host nonce issuedAt expiresAt) = Ok cb ∧
    proto_Marshal (auth_result true addr "") = Ok mb ∧
    let c1 := (client_on (ev_message t (raw_Buffer cb) true) connecting).2 in
    toBinary <$> c_sent c1 = [Ok rb] ∧
    (∀ write, write cb = Ok tt →
       Authenticate type_name host ttl (Ok nonce) issuedAt write (read_message true rb) now = Ok (pk, addr)) ∧
    validateAddress addr = Ok (pk, host) ∧
    let c2 := (client_on (ev_message t' (raw_Buffer mb) true) c1).2 in
    authenticated c2 = true ∧ c_assignedAddress c2 = Some addr ∧ settled c2 = Some None.
Proof using All.
  intros Hp Hpk Hnonce Hne Ha Hd Hlow expiresAt Hi He Hnow addr.
  destruct (challenge_marshals host nonce issuedAt expiresAt Ha Hi He) as [cb Hcb].
  destruct (result_marshals true addr "" (address_ascii pk host Ha) eq_refl) as [mb Hmb].
  destruct (answer_passes host nonce issuedAt expiresAt cb t Hp Hpk Hnonce Hne Ha Hlow Hcb)
    as (sg & Hc1 & Hpass).
  destruct (response_encodes pk sg nonce) as [rb Hrb]. exists cb, rb, mb. split; [done|]. split; [done|].
  cbv zeta. rewrite Hc1. cbn [c_sent fmap list_fmap]. rewrite Hrb. split; [done|]. split; [|split].
  - intros write Hw. unfold Authenticate. fold expiresAt. rewrite Hcb, Hw. by apply Hpass.
  - destruct (address_roundtrip_of pk host Hpk Hne Hd) as (a & Hg & Hv).
    rewrite (same_address pk host Hpk) in Hg. injection Hg as <-. exact Hv.
  - assert (fromBinary mb = Ok (auth_result true addr "")) as Hfrom.
    { apply marshalled; [|done]. split; [set_solver|]. repeat constructor. by apply address_ascii. }
    cbn [on_event normalizeRawData]. unfold on_message, or_fail. unfold mbind, M_bind, gets, lift.
    cbn [authState negb]. rewrite Hfrom. done.
Qed.

(** C18. Who is admitted under an address holds its key: when the relay admits a client,
    it read, before its challenge expired, a response with this challenge's nonce
    and a signature that verifies under the key over the bytes of this relay's
    host and this nonce; no other host or nonce has these bytes, and the address
    is the one that reads back as that key at this host. *)
Theorem admitted_holds_key host ttl nonce issuedAt write read now key addr :
  length nonce = NonceSize → host ≠ "" → str_forall is_dot host = true →
  Authenticate type_name host ttl (Ok nonce) issuedAt write read now = Ok (key, addr) →
  ∃ data e ar, read = read_message true data ∧ proto_Unmarshal data = Ok e ∧ env_payload e = authResponse ar ∧
    ar_publicKey ar = key ∧ ar_nonce ar = nonce ∧ (now ≤ issuedAt + default_ttl ttl)%Z ∧
    ed25519_Verify key (SignPayload host nonce) (ar_signature ar) = true ∧
    validateAddress addr = Ok (key, host) ∧
    ∀ host' nonce', length nonce' = NonceSize → SignPayload host' nonce' = SignPayload host nonce →
      host' = host ∧ nonce' = nonce.
Proof using B58L SHL toBinary Interop0.
  intros Hnonce Hne Hd. unfold Authenticate. cbv zeta.
  destruct (proto_Marshal _) as [cb|]; [|done]. destruct (write cb); [|done].
  destruct read as [| |[] data]; try done. unfold check_response.
  destruct (proto_Unmarshal data) as [e|] eqn:Eu; [|done]. case_bool_decide; [done|].
  destruct (env_payload e) as [| | | |ar| | | | | | | | | | |] eqn:Ep; try done.
  case_bool_decide; [done|]. case_bool_decide as Hk; [done|]. case_bool_decide; [done|].
  case_bool_decide; [done|]. case_bool_decide as Hx; [done|]. case_bool_decide as Hn; [done|].
  destruct (VerifyChallenge _ _ _) eqn:Ev; [|done]. intros [= <- <-].
  exists data, e, ar. split_and!; try done; [lia|..].
  - unfold VerifyChallenge in Ev. by apply andb_prop in Ev as [_ ?].
  - destruct (address_roundtrip_of (ar_publicKey ar) host Hk Hne Hd) as (ad & Hg & Hv).
    rewrite (same_address _ host Hk) in Hg. injection Hg as <-. exact Hv.
  - intros host' nonce' Hn' E. unfold SignPayload in E.
    apply app_inv_head, app_inv_head in E. rewrite !(app_assoc _ [Byte.x00]) in E.
    apply app_inj_2 in E as [E ->]; [|congruence]. apply app_inj_2 in E as [E _]; [|done]. split; [|done].
    rewrite <- (String.string_of_list_byte_of_string host'), <- (String.string_of_list_byte_of_string host).
    unfold go_bytes in E. by rewrite E.
Qed.
End agreement.

(** ** Witnesses *)
Module SampleRelay.
Import Sample SampleBytes.
#[export] Instance envelope_eq_dec : EqDecision Envelope.
Proof.
  assert (EqDecision EncryptedPayload) by solve_decision. assert (EqDecision PlaintextPayload) by solve_decision.
  assert (EqDecision Handshake) by solve_decision. assert (EqDecision Heartbeat) by solve_decision.
  assert (EqDecision AuthChallenge) by solve_decision. assert (EqDecision AuthResponse) by solve_decision.
  assert (EqDecision AuthResult) by solve_decision. assert (EqDecision ConnectionRequest) by solve_decision.
  assert (EqDecision ConnectionResponse) by solve_decision. assert (EqDecision ConnectionRevoke) by solve_decision.
  assert (EqDecision BlockNotification) by solve_decision. assert (EqDecision UnblockNotification) by solve_decision.
  assert (EqDecision DeliveryConfirm) by solve_decision. assert (EqDecision QueueStatus) by solve_decision.
  assert (EqDecision QueueFull) by solve_decision. assert (EqDecision RateLimited) by solve_decision.
  assert (EqDecision Payload) by solve_decision. solve_decision.
Defined.

(** Signatures of 64 bytes, and a format for the messages of the handshake. *)
Definition resize (n : nat) (bs : bytes) : bytes := take n (bs ++ replicate n Byte.x00).
Definition the_key : bytes := replicate 32 Byte.x42.
Definition the_nonce : bytes := replicate 32 Byte.x41.
#[export] Instance ed : Ed25519 := {|
  crypto_sign_detached payload sk := Ok (resize 64 (sk ++ payload));
  crypto_sign_verify_detached sg payload pk := Ok (bool_decide (sg = resize 64 (pk ++ payload)));
  ed_pair pk sk := pk = sk
|}.
#[export] Instance ed_laws : Ed25519Laws.
Proof.
  split; simpl; [by eauto|]. intros pk sk payload sg -> [= <-]. by rewrite bool_decide_eq_true_2.
Qed.

Definition the_challenge : Envelope := auth_challenge "h" the_nonce 0 10000000000.
Definition the_response : Envelope :=
  auth_response the_key (resize 64 (the_key ++ SignPayload "h" the_nonce)) the_nonce.
Definition the_address : string := "pinch:" +:+ encode (the_key ++ take 4 (sha256 the_key)) +:+ "@h".
Definition the_result : Envelope := auth_result true the_address "".
Definition raw_message (e : Envelope) : bytes :=
  match env_payload e with
  | authChallenge c =>
      Byte.x01 :: setBigInt64 (ch_issuedAtMs c) ++ setBigInt64 (ch_expiresAtMs c)
                  ++ esc (ch_nonce c) ++ go_bytes (ch_relayHost c)
  | authResponse r => Byte.x02 :: esc (ar_publicKey r) ++ esc (ar_signature r) ++ ar_nonce r
  | authResult r =>
      (if res_success r then Byte.x03 else Byte.x04) :: esc (go_bytes (res_errorMessage r))
        ++ go_bytes (res_assignedAddress r)
  | _ => []
  end.
Definition challenge_ms (host : string) (nonce : bytes) (issuedAtMs expiresAtMs : Z) : Envelope :=
  mkEnvelope challengeVersion "" "" AUTH_CHALLENGE [] issuedAtMs
    (authChallenge (mkAuthChallenge challengeVersion nonce issuedAtMs expiresAtMs host)).
Definition read_raw (bs : bytes) : option Envelope :=
  match bs with
  | Byte.x01 :: bs =>
      '(nonce, host) ← unesc (drop 16 bs);
      Some (challenge_ms (String.string_of_list_byte host) nonce (signed64 (be_value (take 8 bs)))
              (signed64 (be_value (take 8 (drop 8 bs)))))
  | Byte.x02 :: bs =>
      '(pk, bs) ← unesc bs; '(sg, nonce) ← unesc bs; Some (auth_response pk sg nonce)
  | Byte.x03 :: bs =>
      '(err, addr) ← unesc bs;
      Some (auth_result true (String.string_of_list_byte addr) (String.string_of_list_byte err))
  | Byte.x04 :: bs =>
      '(err, addr) ← unesc bs;
      Some (auth_result false (String.string_of_list_byte addr) (String.string_of_list_byte err))
  | _ => None
  end.
Definition write_one (e : Envelope) : res bytes :=
  if decide (read_raw (raw_message e) = Some e) then Ok (raw_message e) else Throw "not of a handshake".
Definition read_one (bs : bytes) : res Envelope :=
  match read_raw bs with Some e => Ok e | None => Throw "premature EOF" end.
Lemma read_write_one e bs : write_one e = Ok bs → read_one bs = Ok e.
Proof. unfold write_one, read_one. case_decide as E; intros [= <-]. by rewrite E. Qed.
Lemma write_one_ok e : read_raw (raw_message e) = Some e → ∃ bs, write_one e = Ok bs.
Proof. unfold write_one. intros E. rewrite decide_True by done. by eexists. Qed.

Lemma read_challenge host nonce issuedAtMs expiresAtMs :
  int64 issuedAtMs → int64 expiresAtMs →
  let e := challenge_ms host nonce issuedAtMs expiresAtMs in read_raw (raw_message e) = Some e.
Proof.
  intros Hi Hx. unfold raw_message, challenge_ms.
  cbn [env_payload ch_issuedAtMs ch_expiresAtMs ch_nonce ch_relayHost read_raw].
  set (a := setBigInt64 issuedAtMs). set (b := setBigInt64 expiresAtMs).
  assert (length a = 8 ∧ length (a ++ b) = 16) as [La Lb] by (rewrite length_app; done).
  rewrite (app_assoc a b), (drop_app_length' (a ++ b) _ 16) by (symmetry; exact Lb). rewrite unesc_esc.
  cbn [mbind option_bind]. rewrite <- (app_assoc a b), (drop_app_length' a) by (symmetry; exact La).
  unfold a, b. rewrite !read_int64 by done.
  unfold go_bytes. by rewrite String.string_of_list_byte_of_string.
Qed.

#[export] Instance handshake_messages : Protobuf := {| fromBinary := read_one |}.
#[export] Instance lower_id : Lower := {| toLowerCase s := s |}.
#[export] Instance go_libs : GoLibs := {|
  base58_Encode := encode;
  base58_Decode s := match decode s with Some bs => Ok bs | None => Throw "invalid character" end;
  ed25519_Verify pk payload sg := bool_decide (sg = resize 64 (pk ++ payload));
  proto_Marshal := write_one;
  proto_Unmarshal := read_one
|}.
#[export] Instance interop : Interop write_one.
Proof.
  split; cbn.
  - done.
  - intros s bs _. destruct (decode s); split; by intros [= ->].
  - intros pk sk payload sg -> [= <-]. split; [|by apply bool_decide_eq_true_2].
    unfold resize. rewrite length_take, length_app, length_replicate. lia.
  - intros e bs _. apply read_write_one.
  - intros e bs _. apply read_write_one.
  - intros host nonce i x _ Hi Hx. apply write_one_ok, read_challenge; done.
  - intros pk sg nonce. apply write_one_ok. cbn. rewrite unesc_esc. cbn. by rewrite unesc_esc.
  - intros success addr err _ _. apply write_one_ok.
    destruct success; unfold raw_message, auth_result;
      cbn [env_payload envelope res_success res_errorMessage res_assignedAddress read_raw];
      rewrite unesc_esc; cbn [mbind option_bind]; unfold go_bytes; by rewrite !String.string_of_list_byte_of_string.
Qed.
End SampleRelay.

Section witnesses.
Import Sample SampleRelay.
#[local] Abbreviation client_after evs :=
  (run_events the_key the_key "h" 25000 7000 false (λ _, "other") evs connecting).

Lemma validateAddress_agrees_witness :
  ValidateAddress (λ s, s) the_address = Ok (the_key, "h").
Proof.
  assert (validateAddress the_address = Ok (the_key, "h")) as H by (vm_compute; reflexivity).
  exact (proj1 (proj1 (validateAddress_agrees write_one (λ s, s) the_address the_key "h") H)).
Defined.

Lemma relay_admits_client_witness :
  ∃ cb mb, let c := client_after [ev_message 1 (raw_Buffer cb) true; ev_message 2 (raw_Buffer mb) true] in
    authenticated c = true ∧ c_assignedAddress c = Some (GenerateAddress the_key "h").
Proof.
  destruct (relay_admits_client write_one the_key the_key "h" 25000 7000 false (λ _, "other") (λ _, "other")
    "h" 0 the_nonce 0 1 2 9)
    as (cb & rb & mb & _ & _ & _ & _ & _ & H1 & H2 & _);
    [done..|by split|by split|done|].
  exists cb, mb. split; [exact H1|exact H2].
Defined.

Lemma admitted_holds_key_witness :
  validateAddress the_address = Ok (the_key, "h") ∧ (9 ≤ 0 + default_ttl 0)%Z.
Proof.
  destruct (admitted_holds_key write_one (λ _, "other") "h" 0 the_nonce 0 (λ _, Ok tt) (read_message true (raw_message the_response)) 9
    the_key the_address) as (data & e & ar & _ & _ & _ & _ & _ & Ht & _ & Hv & _);
    [vm_compute; done..|].
  split; [exact Hv|exact Ht].
Defined.
End witnesses.
