(* ===== verification/RelayRegistry.v ===== *)
(** Who may use a relay in locked mode (relay/internal/store/keyregistry.go, and
    [registerHandler], [claimHandler] and [wsHandler] of relay/cmd/pinchd/main.go): an
    agent registers its key and gets a claim code, a human redeems the code, and
    from then on the key is admitted.  Every transaction is a turn of its own; the
    requests that are under way interleave between them. *)
From S2P Require Import Prelude Threads JsLib Platform Identity Envelope Delivery RelayClient RelayStore RelayAuth.
From stdpp Require Import functions gmap.
From Stdlib Require Import Ascii.

(** ** encoding/base64: [StdEncoding] *)
Definition base64_alphabet : list ascii :=
  String.list_ascii_of_string "ABCDEFGHIJKLMNOPQRSTUVWXYZabcdefghijklmnopqrstuvwxyz0123456789+/".
Definition base64_char (n : Z) : ascii := default "="%char (base64_alphabet !! Z.to_nat n).
Definition base64_digit (c : ascii) : option Z :=
  Z.of_nat ∘ fst <$> list_find (c =.) base64_alphabet.

Fixpoint base64_encoded (bs : bytes) : list ascii :=
  match bs with
  | [] => []
  | [a] =>
      let v := (Z_of_byte a * 65536)%Z in
      [base64_char (v / 262144); base64_char (v / 4096 mod 64); "="%char; "="%char]
  | [a; b] =>
      let v := (Z_of_byte a * 65536 + Z_of_byte b * 256)%Z in
      [base64_char (v / 262144); base64_char (v / 4096 mod 64); base64_char (v / 64 mod 64); "="%char]
  | a :: b :: c :: rest =>
      let v := (Z_of_byte a * 65536 + Z_of_byte b * 256 + Z_of_byte c)%Z in
      base64_char (v / 262144) :: base64_char (v / 4096 mod 64) :: base64_char (v / 64 mod 64) ::
        base64_char (v mod 64) :: base64_encoded rest
  end%Z.
Definition base64_EncodeToString (bs : bytes) : string := String.string_of_list_ascii (base64_encoded bs).

(** Groups of four characters; bits that are left over in the last are ignored. *)
Definition ErrCorrupt : string := "illegal base64 data".
Definition base64_triple (x y z w : Z) : bytes :=
  let v := (x * 262144 + y * 4096 + z * 64 + w)%Z in
  [byte_of_Z (v / 65536); byte_of_Z (v / 256 mod 256); byte_of_Z (v mod 256)].
Fixpoint base64_decoded (l : list ascii) : res bytes :=
  match l with
  | [] => Ok []
  | a :: b :: c :: d :: rest =>
      match base64_digit a, base64_digit b, base64_digit c, base64_digit d with
      | Some x, Some y, Some z, Some w =>
          match base64_decoded rest with
          | Ok bs => Ok (base64_triple x y z w ++ bs)
          | Throw err => Throw err
          end
      | Some x, Some y, Some z, None =>
          if bool_decide (d = "="%char ∧ rest = []) then Ok (take 2 (base64_triple x y z 0)) else Throw ErrCorrupt
      | Some x, Some y, None, None =>
          if bool_decide (c = "="%char ∧ d = "="%char ∧ rest = []) then Ok (take 1 (base64_triple x y 0 0))
          else Throw ErrCorrupt
      | _, _, _, _ => Throw ErrCorrupt
      end
  | _ => Throw ErrCorrupt
  end.
(** Line breaks are skipped wherever they are. *)
Definition is_break (c : ascii) : bool := bool_decide (c = "010"%char ∨ c = "013"%char).
Definition base64_DecodeString (s : string) : res bytes :=
  base64_decoded (filter (λ c, is_break c = false) (String.list_ascii_of_string s)).

Lemma base64_char_spec n : (0 ≤ n < 64)%Z →
  base64_digit (base64_char n) = Some n ∧ is_break (base64_char n) = false.
Proof.
  intros Hn. assert (Forall (λ k, base64_digit (base64_char (Z.of_nat k)) = Some (Z.of_nat k) ∧
    is_break (base64_char (Z.of_nat k)) = false) (seq 0 64)) as Hall.
  { cbn [seq]. repeat (constructor; [split; vm_compute; reflexivity|]). constructor. }
  rewrite Forall_forall in Hall. specialize (Hall (Z.to_nat n)). rewrite Z2Nat.id in Hall by lia.
  apply Hall, elem_of_seq. lia.
Qed.
Lemma base64_triple_spec a b c :
  let v := (Z_of_byte a * 65536 + Z_of_byte b * 256 + Z_of_byte c)%Z in
  base64_triple (v / 262144) (v / 4096 mod 64) (v / 64 mod 64) (v mod 64) = [a; b; c].
Proof.
  intros v. unfold base64_triple.
  assert ((v / 262144) * 262144 + (v / 4096 mod 64) * 4096 + (v / 64 mod 64) * 64 + v mod 64 = v)%Z as ->.
  { Z.to_euclidean_division_equations. lia. }
  pose proof (Z_of_byte_range a). pose proof (Z_of_byte_range b). pose proof (Z_of_byte_range c).
  assert (v / 65536 = Z_of_byte a)%Z as -> by (unfold v; Z.to_euclidean_division_equations; lia).
  assert (v / 256 mod 256 = Z_of_byte b)%Z as -> by (unfold v; Z.to_euclidean_division_equations; lia).
  assert (v mod 256 = Z_of_byte c)%Z as -> by (unfold v; Z.to_euclidean_division_equations; lia).
  by rewrite !byte_of_Z_of_byte.
Qed.

Lemma base64_decode_encoded bs :
  base64_decoded (base64_encoded bs) = Ok bs ∧ Forall (λ c, is_break c = false) (base64_encoded bs).
Proof.
  assert (∀ n bs, length bs ≤ n → base64_decoded (base64_encoded bs) = Ok bs ∧
    Forall (λ c, is_break c = false) (base64_encoded bs)) as Hall; [|by eapply Hall].
  clear. induction n as [|n IH]; intros bs Hn; [by destruct bs; [|simpl in Hn; lia]|].
  destruct bs as [|a [|b [|c rest]]]; [done|..]; cbn [base64_encoded base64_decoded];
    pose proof (Z_of_byte_range a); try pose proof (Z_of_byte_range b); try pose proof (Z_of_byte_range c).
  - pose proof (base64_triple_spec a Byte.x00 Byte.x00) as Ht. cbv zeta in Ht. change (Z_of_byte Byte.x00) with 0%Z in Ht.
    rewrite Z.mul_0_l, !Z.add_0_r in Ht. set (v := (Z_of_byte a * 65536)%Z) in *.
    destruct (base64_char_spec (v / 262144)) as [-> ?]; [unfold v; Z.to_euclidean_division_equations; lia|].
    destruct (base64_char_spec (v / 4096 mod 64)) as [-> ?]; [apply Z.mod_pos_bound; lia|].
    assert (v / 64 mod 64 = 0)%Z as E1 by (unfold v; Z.to_euclidean_division_equations; lia).
    assert (v mod 64 = 0)%Z as E2 by (unfold v; Z.to_euclidean_division_equations; lia). rewrite E1, E2 in Ht.
    split; [by rewrite Ht|by repeat constructor].
  - pose proof (base64_triple_spec a b Byte.x00) as Ht. cbv zeta in Ht. change (Z_of_byte Byte.x00) with 0%Z in Ht.
    rewrite Z.add_0_r in Ht. set (v := (Z_of_byte a * 65536 + Z_of_byte b * 256)%Z) in *.
    destruct (base64_char_spec (v / 262144)) as [-> ?]; [unfold v; Z.to_euclidean_division_equations; lia|].
    destruct (base64_char_spec (v / 4096 mod 64)) as [-> ?]; [apply Z.mod_pos_bound; lia|].
    destruct (base64_char_spec (v / 64 mod 64)) as [-> ?]; [apply Z.mod_pos_bound; lia|].
    assert (v mod 64 = 0)%Z as E2 by (unfold v; Z.to_euclidean_division_equations; lia). rewrite E2 in Ht.
    split; [by rewrite Ht|by repeat constructor].
  - pose proof (base64_triple_spec a b c) as Ht. cbv zeta in Ht.
    set (v := (Z_of_byte a * 65536 + Z_of_byte b * 256 + Z_of_byte c)%Z) in *.
    destruct (base64_char_spec (v / 262144)) as [-> ?]; [unfold v; Z.to_euclidean_division_equations; lia|].
    destruct (base64_char_spec (v / 4096 mod 64)) as [-> ?]; [apply Z.mod_pos_bound; lia|].
    destruct (base64_char_spec (v / 64 mod 64)) as [-> ?]; [apply Z.mod_pos_bound; lia|].
    destruct (base64_char_spec (v mod 64)) as [-> ?]; [apply Z.mod_pos_bound; lia|].
    destruct (IH rest) as [-> ?]; [simpl in Hn; lia|]. split; [by rewrite Ht|by repeat constructor].
Qed.

Lemma go_base64_roundtrip bs : base64_DecodeString (base64_EncodeToString bs) = Ok bs.
Proof.
  unfold base64_DecodeString, base64_EncodeToString. rewrite String.list_ascii_of_string_of_list_ascii.
  destruct (base64_decode_encoded bs) as [Hd Hb]. rewrite JsLib.filter_id; [done|]. exact Hb.
Qed.
Lemma base64_inj bs bs' : base64_EncodeToString bs = base64_EncodeToString bs' → bs = bs'.
Proof. intros E. apply (f_equal base64_DecodeString) in E. rewrite !go_base64_roundtrip in E. congruence. Qed.

(** ** keyregistry.go *)
Record pendingEntry : Type := mkPending {
  pe_PubKeyB64 : string;
  pe_Address : string;
  pe_RegisteredAt : Z           (* seconds *)
}.
(** The two buckets; a pending entry that does not decode is [None]. *)
Record KeyRegistry : Type := mkRegistry {
  pending_registry : gmap string (option pendingEntry);
  key_registry : gmap string string
}.
Definition NewKeyRegistry : KeyRegistry := mkRegistry ∅ ∅.

Definition ErrClaimNotFound : string := "claim code not found or expired".
Definition errClaimCodeCollision : string := "claim code collision".
Definition errClaimCodeExhausted : string := "failed to generate unique claim code".
Definition maxClaimCodeGenerationAttempts : nat := 8.

Definition hex_EncodeToString (bs : bytes) : string :=
  String.concat "" ((λ b, let n := Z.to_nat (Z_of_byte b) in hex_lower (n / 16) +:+ hex_lower (n mod 16)) <$> bs).
(** [random] is what [rand.Read] gives for the four bytes. *)
Definition claimCodeGenerator (random : res bytes) : res string :=
  match random with Ok code => Ok (hex_EncodeToString code) | Throw err => Throw err end.

(** [db.Update]: an error rolls the transaction back, and is a value to the caller. *)
Definition transaction {S A} (m : M S A) : M S (res A) := λ s,
  match m s with (Ok a, s') => (Ok (Ok a), s') | (Throw err, _) => (Ok (Throw err), s) end.

Section registry.
Context `{Bolt}.

Definition put_pending (claimCode : string) (entry : pendingEntry) : M KeyRegistry unit := λ r,
  if bool_decide (is_Some (pending_registry r !! claimCode)) then (Throw errClaimCodeCollision, r)
  else if key_fits claimCode
  then (Ok tt, mkRegistry (<[claimCode := Some entry]> (pending_registry r)) (key_registry r))
  else (Throw "key refused", r).

(** The loop, with [n] attempts left; [random k] is the draw of attempt [k]. *)
Fixpoint register_attempts (random : nat → res bytes) (entry : pendingEntry) (n : nat)
    : Async KeyRegistry (res string) :=
  match n with
  | O => mret (Throw errClaimCodeExhausted)
  | S n' =>
      match claimCodeGenerator (random (maxClaimCodeGenerationAttempts - n)) with
      | Throw genErr => mret (Throw genErr)
      | Ok claimCode =>
          r ← atomic (transaction (put_pending claimCode entry));
          match r with
          | Ok _ => mret (Ok claimCode)
          | Throw err =>
              if bool_decide (err = errClaimCodeCollision) then register_attempts random entry n'
              else mret (Throw err)
          end
      end
  end.
(** [now] is in nanoseconds. *)
Definition RegisterPending (now : Z) (random : nat → res bytes) (pubKeyB64 addr : string)
    : Async KeyRegistry (res string) :=
  register_attempts random (mkPending pubKeyB64 addr (now / 1000000000)) maxClaimCodeGenerationAttempts.

Definition Claim (claimCode : string) : M KeyRegistry string := λ r,
  match pending_registry r !! claimCode with
  | None => (Throw ErrClaimNotFound, r)
  | Some None => (Throw "malformed entry", r)
  | Some (Some entry) =>
      if key_fits (pe_PubKeyB64 entry)
      then (Ok (pe_Address entry),
            mkRegistry (delete claimCode (pending_registry r))
              (<[pe_PubKeyB64 entry := pe_Address entry]> (key_registry r)))
      else (Throw "key refused", r)
  end.

Definition IsApproved (pubKeyB64 : string) (r : KeyRegistry) : bool :=
  bool_decide (is_Some (key_registry r !! pubKeyB64)).

Definition swept (cutoff : Z) (e : option pendingEntry) : bool :=
  match e with None => true | Some e => (pe_RegisteredAt e <=? cutoff)%Z end.
Definition SweepPending (ttl now : Z) (r : KeyRegistry) : KeyRegistry :=
  let cutoff := ((now - ttl) / 1000000000)%Z in
  let toDelete := (filter (λ kv, swept cutoff kv.2 = true) (cursor (pending_registry r))).*1 in
  mkRegistry (foldl (λ b k, delete k b) (pending_registry r) toDelete) (key_registry r).
End registry.

(** ** The two handlers *)
Inductive Body (A : Type) : Type :=
| body_unreadable
| body_not_json
| body_read (req : A).
Arguments body_unreadable {A}.
Arguments body_not_json {A}.
Arguments body_read {A} req.

Inductive Response : Type :=
| rs_error (status : Z) (message : string)
| rs_pending (addr claim_code : string)
| rs_approved (addr : string).

Section handlers.
Context `{Sha256, GoLibs, Bolt}.
(** [locked] is whether a Turnstile secret is configured; then there is a verifier. *)
Context (relayPublicHost : string) (locked : bool).

Definition register_response (addr : string) (claimCode : res string) : Response :=
  match claimCode with
  | Throw _ => rs_error 500 "internal error"
  | Ok claimCode => rs_pending addr claimCode
  end.
Definition registerHandler (allowed : bool) (now : Z) (random : nat → res bytes) (body : Body string)
    : Async KeyRegistry Response :=
  if negb allowed then mret (rs_error 429 "rate limit exceeded")
  else match body with
  | body_unreadable => mret (rs_error 400 "failed to read body")
  | body_not_json => mret (rs_error 400 "invalid JSON")
  | body_read PublicKey =>
      if bool_decide (PublicKey = "") then mret (rs_error 400 "public_key is required")
      else match base64_DecodeString PublicKey with
      | Throw _ => mret (rs_error 400 "public_key must be standard base64")
      | Ok pubKeyBytes =>
          if bool_decide (length pubKeyBytes ≠ 32) then mret (rs_error 400 "public_key must be 32 bytes (Ed25519)")
          else
            let addr := DeriveAddress pubKeyBytes relayPublicHost in
            claimCode ← RegisterPending now random PublicKey addr;
            mret (register_response addr claimCode)
      end
  end.

Definition claim_response (r : res string) : Response :=
  match r with
  | Ok addr => rs_approved addr
  | Throw err =>
      if bool_decide (err = ErrClaimNotFound) then rs_error 404 "claim code not found or expired"
      else rs_error 500 "internal error"
  end.
(** [verified] is what [verifier.Verify] says of a token. *)
Definition claimHandler (verified : string → res bool) (body : Body (string * string))
    : Async KeyRegistry Response :=
  if negb locked then mret (rs_error 404 "404 page not found")
  else match body with
  | body_unreadable => mret (rs_error 400 "failed to read body")
  | body_not_json => mret (rs_error 400 "invalid JSON")
  | body_read (ClaimCode, TurnstileToken) =>
      if bool_decide (TurnstileToken = "") then mret (rs_error 400 "turnstile_token is required")
      else match verified TurnstileToken with
      | Throw _ => mret (rs_error 500 "verification failed")
      | Ok false => mret (rs_error 403 "turnstile verification failed")
      | Ok true =>
          if bool_decide (ClaimCode = "") then mret (rs_error 400 "claim_code is required")
          else r ← atomic (transaction (Claim ClaimCode)); mret (claim_response r)
      end
  end.

(** [wsHandler] up to [NewClient]: who is let in. *)
Definition admission (r : KeyRegistry) (authenticated : res (bytes * string)) : res (bytes * string) :=
  match authenticated with
  | Throw _ => Throw "authentication failed"
  | Ok (pubKey, addr) =>
      if locked && negb (IsApproved (base64_EncodeToString pubKey) r) then Throw "key not registered"
      else Ok (pubKey, addr)
  end.

(** ** Requests that interleave *)
Inductive Request : Type :=
| rq_register (allowed : bool) (now : Z) (random : nat → res bytes) (body : Body string)
| rq_claim (verified : string → res bool) (body : Body (string * string)).
Definition serve (rq : Request) : Async KeyRegistry Response :=
  match rq with
  | rq_register allowed now random body => registerHandler allowed now random body
  | rq_claim verified body => claimHandler verified body
  end.

(** [requests] are all requests so far, with what is left of them or their answer. *)
Record Office : Type := mkOffice {
  registry : KeyRegistry;
  requests : list (Request * thread KeyRegistry Response)
}.
Definition new_office : Office := mkOffice NewKeyRegistry [].
Inductive OfficeMove : Type :=
| om_request (rq : Request)
| om_continue (i : nat)
| om_sweep (now : Z).

Definition office_move (ttl : Z) (s : Office) (m : OfficeMove) : Office :=
  match m with
  | om_request rq =>
      let '(t, r) := serve rq (registry s) in mkOffice r (requests s ++ [(rq, t)])
  | om_continue i =>
      match requests s !! i with
      | Some (rq, suspended k) => let '(t, r) := k (registry s) in mkOffice r (<[i := (rq, t)]> (requests s))
      | _ => s
      end
  | om_sweep now => mkOffice (SweepPending ttl now (registry s)) (requests s)
  end.
Definition run_office (ttl : Z) (ms : list OfficeMove) (s : Office) : Office := foldl (office_move ttl) s ms.
End handlers.

(** ** What a turn of a request does *)
Section office.
Context `{SHA : Sha256, GO : GoLibs, BL : BoltLaws} (host : string) (locked : bool) (ttl : Z).

(** The request registers the key [k], whose address is [a]. *)
Definition registers (rq : Request) (k a : string) : Prop :=
  ∃ allowed now random pk, rq = rq_register allowed now random (body_read k) ∧
    base64_DecodeString k = Ok pk ∧ length pk = 32 ∧ a = DeriveAddress pk host.
(** It redeems [code], from a human that Turnstile has verified. *)
Definition redeems (rq : Request) (code : string) : Prop :=
  ∃ verified token, rq = rq_claim verified (body_read (code, token)) ∧ verified token = Ok true ∧
    token ≠ "" ∧ code ≠ "" ∧ locked = true.

Definition with_pending (code : string) (e : pendingEntry) (r : KeyRegistry) : KeyRegistry :=
  mkRegistry (<[code := Some e]> (pending_registry r)) (key_registry r).
Definition claimed (code : string) (e : pendingEntry) (r : KeyRegistry) : KeyRegistry :=
  mkRegistry (delete code (pending_registry r)) (<[pe_PubKeyB64 e := pe_Address e]> (key_registry r)).

(** A turn that leaves [t] changes nothing, unless it is the last of a request that succeeds. *)
Definition effect (rq : Request) (r : KeyRegistry) (t : thread KeyRegistry Response) (r' : KeyRegistry) : Prop :=
  match t with
  | suspended _ => r' = r
  | ended (Throw _) => False
  | ended (Ok (rs_pending a code)) =>
      ∃ k at_, registers rq k a ∧ pending_registry r !! code = None ∧ r' = with_pending code (mkPending k a at_) r
  | ended (Ok (rs_approved a)) =>
      ∃ code e, redeems rq code ∧ pending_registry r !! code = Some (Some e) ∧ a = pe_Address e ∧ r' = claimed code e r
  | ended (Ok (rs_error _ _)) =>
      r' = r ∧ ∀ code e, redeems rq code → pending_registry r !! code = Some (Some e) → key_fits (pe_PubKeyB64 e) = false
  end.
Fixpoint proper (rq : Request) (t : thread KeyRegistry Response) : Prop :=
  match t with
  | ended _ => True
  | suspended k => ∀ r, match k r with (t', r') => effect rq r t' r' ∧ proper rq t' end
  end.
Definition proper_from (rq : Request) (m : Async KeyRegistry Response) : Prop :=
  ∀ r, match m r with (t', r') => effect rq r t' r' ∧ proper rq t' end.

Lemma attempts_proper rq random k a at_ n :
  registers rq k a →
  proper_from rq (c ← register_attempts random (mkPending k a at_) n; mret (register_response a c)).
Proof.
  intros Hrq. assert (∀ code, ¬ redeems rq code) as Hno.
  { intros code (v & t & E & _). destruct Hrq as (? & ? & ? & ? & E' & _). congruence. }
  induction n as [|n IH]; intros r.
  - cbn. split; [|done]. split; [done|]. intros code e Hr. by destruct (Hno code).
  - cbn [register_attempts]. destruct (claimCodeGenerator _) as [code|err].
    2:{ cbn. split; [|done]. split; [done|]. intros code e Hr. by destruct (Hno code). }
    cbn -[put_pending]. split; [done|]. intros r'. unfold sync, transaction, put_pending.
    case_bool_decide as Hc; [exact (IH r')|]. destruct (key_fits code).
    + cbn. split; [|done]. exists k, at_. split; [done|]. split; [by apply eq_None_not_Some|done].
    + cbn. split; [|done]. split; [done|]. intros code' e Hr. by destruct (Hno code').
Qed.
Lemma serve_proper rq : proper_from rq (serve host locked rq).
Proof.
  assert (∀ rq status msg r, (∀ code, ¬ redeems rq code) →
    effect rq r (ended (Ok (rs_error status msg))) r ∧ proper rq (ended (Ok (rs_error status msg)))) as Herr.
  { intros rq' status msg r Hno. split; [|done]. split; [done|]. intros code e Hr. by destruct (Hno code). }
  destruct rq as [allowed now random body|verified body]; intros r; cbn [serve].
  - assert (∀ code, ¬ redeems (rq_register allowed now random body) code) as Hno by (intros code (v & t & E & _); discriminate E).
    unfold registerHandler. destruct (negb allowed); [by apply Herr|].
    destruct body as [| |k]; [by apply Herr..|]. case_bool_decide; [by apply Herr|].
    destruct (base64_DecodeString k) as [pk|err] eqn:E; [|by apply Herr].
    case_bool_decide as Hl; [by apply Herr|].
    apply attempts_proper. exists allowed, now, random, pk. split; [done|]. split; [done|]. split; [lia|done].
  - unfold claimHandler.
    destruct locked eqn:El; cbn [negb]; [|apply Herr; intros code (v & t & _ & _ & _ & _ & El'); congruence].
    destruct body as [| |[code token]]; [apply Herr; by intros code (v & t & [= _ E] & _)..|].
    case_bool_decide as Ht; [apply Herr; intros code' (v & t & [= -> -> ->] & _ & Ht' & _); done|].
    destruct (verified token) as [[]|err] eqn:Ev;
      [|apply Herr; intros code' (v & t & [= -> -> ->] & Hv & _); congruence..].
    case_bool_decide as Hc; [apply Herr; intros code' (v & t & [= -> -> ->] & _ & _ & Hc' & _); done|].
    split; [done|]. intros r'. unfold sync, transaction, Claim.
    destruct (pending_registry r' !! code) as [[e|]|] eqn:Ep; [destruct (key_fits (pe_PubKeyB64 e)) eqn:Ek|..]; cbn;
      (split; [|done]).
    + exists code, e. split; [|done]. exists verified, token. done.
    + split; [done|]. intros code' e' (v & t & [= -> -> ->] & _) E. congruence.
    + split; [done|]. intros code' e' (v & t & [= -> -> ->] & _) E. congruence.
    + split; [done|]. intros code' e' (v & t & [= -> -> ->] & _) E. congruence.
Qed.

(** ** What a run of requests keeps *)
Abbreviation run ms s := (run_office host locked ttl ms s).
Definition answered (s : Office) (rq : Request) (rsp : Response) : Prop :=
  ∃ i, requests s !! i = Some (rq, ended (Ok rsp)).
Definition all_proper (s : Office) : Prop := Forall (λ x, proper x.1 x.2) (requests s).

Lemma sweep_lookup now r code :
  pending_registry (SweepPending ttl now r) !! code =
  match pending_registry r !! code with
  | Some x => if swept ((now - ttl) / 1000000000) x then None else Some x
  | None => None
  end.
Proof.
  unfold SweepPending. cbn [pending_registry].
  set (ks := (filter _ _).*1). assert (∀ (b : gmap string (option pendingEntry)) ks,
    foldl (λ b k, delete k b) b ks !! code = if decide (code ∈ ks) then None else b !! code) as Hd.
  { clear. intros b ks. revert b. induction ks as [|k ks IH]; intros b; [done|]. cbn [foldl]. rewrite IH.
    destruct (decide (code ∈ ks)); [by rewrite decide_True by (by right)|].
    destruct (decide (code = k)) as [->|Hne]; [rewrite decide_True by (by left); apply lookup_delete_eq|].
    rewrite decide_False by (intros [|]%elem_of_cons; done). by apply lookup_delete_ne. }
  rewrite Hd. clear Hd.
  assert (code ∈ ks ↔ ∃ x, pending_registry r !! code = Some x ∧ swept ((now - ttl) / 1000000000) x = true) as Hks.
  { unfold ks. rewrite list_elem_of_fmap. split.
    - intros ((c & x) & -> & [Hs Hin]%list_elem_of_filter). exists x. split; [|exact Hs].
      rewrite cursor_perm in Hin. by apply elem_of_map_to_list in Hin.
    - intros (x & Hx & Hs). exists (code, x). split; [done|]. apply list_elem_of_filter. split; [exact Hs|].
      rewrite cursor_perm. by apply elem_of_map_to_list. }
  case_decide as Hin.
  - apply Hks in Hin as (x & -> & ->). done.
  - destruct (pending_registry r !! code) as [x|]; [|done].
    destruct (swept _ x) eqn:Es; [|done]. destruct Hin. apply Hks. by exists x.
Qed.

(** A move is a sweep, nothing, or one turn of one request. *)
Lemma office_move_cases s m :
  all_proper s →
  let s' := office_move host locked ttl s m in
  all_proper s' ∧
  ((∃ now, m = om_sweep now ∧ s' = mkOffice (SweepPending ttl now (registry s)) (requests s)) ∨ s' = s ∨
   ∃ i rq t, effect rq (registry s) t (registry s') ∧ requests s' !! i = Some (rq, t) ∧
     (∀ j rq' r, requests s !! j = Some (rq', ended r) → requests s' !! j = Some (rq', ended r)) ∧
     (∀ j x, requests s' !! j = Some x → j = i ∨ requests s !! j = Some x)).
Proof.
  intros Hp s'. destruct m as [rq|i|now]; cbn [office_move] in s'.
  - pose proof (serve_proper rq (registry s)) as Hrq. unfold s'. destruct (serve host locked rq (registry s)) as [t r].
    destruct Hrq as [He Ht]. split.
    { unfold all_proper. cbn [requests]. apply Forall_app. split; [exact Hp|]. by apply Forall_singleton. }
    right; right. exists (length (requests s)), rq, t. cbn [registry requests]. split; [exact He|].
    split; [by apply list_lookup_middle|]. split.
    + intros j rq' x Hj. rewrite lookup_app_l; [done|]. by eapply lookup_lt_Some.
    + intros j x. rewrite lookup_snoc_Some. intros [[_ ?]|[-> _]]; auto.
  - unfold s'. destruct (requests s !! i) as [[rq [r|k]]|] eqn:Ei; [by split; [|right; left]| |by split; [|right; left]].
    pose proof (Forall_lookup_1 _ _ _ _ Hp Ei (registry s)) as Hk. cbn in Hk.
    destruct (k (registry s)) as [t r]. destruct Hk as [He Ht]. split.
    { unfold all_proper. cbn [requests]. by apply Forall_insert. }
    right; right. exists i, rq, t. cbn [registry requests]. split; [exact He|].
    pose proof (lookup_lt_Some _ _ _ Ei) as Hlt. split; [by apply list_lookup_insert_eq|]. split.
    + intros j rq' x Hj. rewrite list_lookup_insert_ne; [done|]. intros ->. congruence.
    + intros j x. destruct (decide (i = j)) as [->|Hne]; [by left|]. rewrite list_lookup_insert_ne by done. by right.
  - split; [exact Hp|]. left. by exists now.
Qed.

(** Every pending entry and every approved key has its requests. *)
Record accounted (s : Office) : Prop := {
  ac_proper : all_proper s;
  ac_pending code e : pending_registry (registry s) !! code = Some (Some e) →
    ∃ rq, answered s rq (rs_pending (pe_Address e) code) ∧ registers rq (pe_PubKeyB64 e) (pe_Address e);
  ac_approved k a : key_registry (registry s) !! k = Some a →
    ∃ code rq rq', answered s rq (rs_pending a code) ∧ registers rq k a ∧
      answered s rq' (rs_approved a) ∧ redeems rq' code
}.
Lemma accounted_move s m : accounted s → accounted (office_move host locked ttl s m).
Proof.
  intros [Hp Hpe Hap]. destruct (office_move_cases s m Hp) as [Hp' Hc]. cbv zeta in Hc.
  set (s' := office_move host locked ttl s m) in *. clearbody s'.
  destruct Hc as [(now & _ & ->)|[->|(i & rq & t & He & Hi & Hkeep & _)]]; [|by split|].
  { split; [exact Hp'| |exact Hap]. cbn [registry]. intros code e. rewrite sweep_lookup.
    destruct (pending_registry (registry s) !! code) as [x|] eqn:E; [|done]. destruct (swept _ x); [done|].
    intros [= ->]. by apply Hpe. }
  assert (∀ rq rsp, answered s rq rsp → answered s' rq rsp) as Ha by (intros rq' rsp (j & Hj); exists j; by apply Hkeep).
  assert (registry s' = registry s → accounted s') as Hsame.
  { intros E. split; [exact Hp'|..]; rewrite E.
    - intros code e Hx. destruct (Hpe code e Hx) as (q & ? & ?). exists q. auto.
    - intros k a Hx. destruct (Hap k a Hx) as (c & q & q' & ? & ? & ? & ?). exists c, q, q'. auto 6. }
  destruct t as [[[st msg|a code|a]|err]|k]; cbn in He; [by apply Hsame, (proj1 He)| | |done|by apply Hsame].
  - destruct He as (k & at_ & Hr & Hnone & E). split; [exact Hp'|..]; rewrite E; cbn.
    + intros code' e. rewrite lookup_insert_Some. intros [[<- [= <-]]|[_ Hx]]; cbn.
      * exists rq. split; [by exists i|exact Hr].
      * destruct (Hpe code' e Hx) as (q & ? & ?). exists q. auto.
    + intros k' a' Hx. destruct (Hap k' a' Hx) as (c & q & q' & ? & ? & ? & ?). exists c, q, q'. auto 6.
  - destruct He as (code & e & Hr & Hpend & -> & E). destruct (Hpe code e Hpend) as (q & Hq & Hqr).
    split; [exact Hp'|..]; rewrite E; cbn.
    + intros code' e'. rewrite lookup_delete_Some. intros [_ Hx]. destruct (Hpe code' e' Hx) as (q' & ? & ?). exists q'. auto.
    + intros k' a'. rewrite lookup_insert_Some. intros [[<- <-]|[_ Hx]].
      * exists code, q, rq. split; [by apply Ha|]. split; [exact Hqr|]. split; [by exists i|exact Hr].
      * destruct (Hap k' a' Hx) as (c & q1 & q' & ? & ? & ? & ?). exists c, q1, q'. auto 6.
Qed.
Lemma accounted_run ms : accounted (run ms new_office).
Proof.
  assert (∀ s, accounted s → accounted (run ms s)) as Hrun.
  { induction ms as [|m ms IH]; intros s Hs; [done|]. by apply IH, accounted_move. }
  apply Hrun. split; [by apply Forall_nil| |]; intros ? ?; cbn; by rewrite lookup_empty.
Qed.
End office.

(** ** Who is admitted *)
Lemma base64_length bs : length (base64_encoded bs) ≤ 2 * length bs + 4.
Proof.
  assert (∀ n bs, length bs ≤ n → length (base64_encoded bs) ≤ 2 * length bs + 4) as Hall; [|by eapply Hall].
  clear. induction n as [|n IH]; intros bs Hn; [destruct bs; cbn in *; lia|].
  destruct bs as [|a [|b [|c rest]]]; [cbn; lia..|]. cbn [base64_encoded length] in *. specialize (IH rest). lia.
Qed.
Lemma key_length bs : Z.of_nat (String.length (base64_EncodeToString bs)) = Z.of_nat (length (base64_encoded bs)).
Proof.
  unfold base64_EncodeToString. f_equal. induction (base64_encoded bs) as [|c l IH]; [done|]. cbn. by rewrite IH.
Qed.
Lemma base64_positive bs : bs ≠ [] → 0 < length (base64_encoded bs).
Proof. by destruct bs as [|a [|b [|c rest]]]; [|cbn; lia..]. Qed.

Section admission.
Context `{SHA : Sha256, GO : GoLibs, BL : BoltLaws} (host : string) (ttl : Z).
Abbreviation run ms s := (run_office host true ttl ms s).

Lemma authenticated_address type_name challengeTTL nonce issuedAt write read now pk addr :
  Authenticate type_name host challengeTTL nonce issuedAt write read now = Ok (pk, addr) → addr = DeriveAddress pk host.
Proof.
  unfold Authenticate, check_response. repeat case_match; try done. by intros [= <- <-].
Qed.

(** C19. In locked mode nobody gets in without a human: whatever requests for
    registration and redemption come in, and however they and the sweeps interleave, a
    client that the relay admits, under the address that its own signature proved, has
    registered this very key, has been given a claim code for this address, and
    somebody whom Turnstile verified has redeemed this code. *)
Theorem locked_mode_admits_approved ms type_name challengeTTL nonce issuedAt write read now pk addr :
  let s := run ms new_office in
  admission true (registry s) (Authenticate type_name host challengeTTL nonce issuedAt write read now) = Ok (pk, addr) →
  ∃ code rq rq',
    answered s rq (rs_pending addr code) ∧ registers host rq (base64_EncodeToString pk) addr ∧
    answered s rq' (rs_approved addr) ∧ redeems true rq' code.
Proof.
  intros s. unfold admission. destruct (Authenticate _ _ _ _ _ _ _ _) as [[pk' addr']|err] eqn:Ea; [|done].
  apply authenticated_address in Ea. unfold IsApproved. case_bool_decide as Hk; [|done]. intros [= <- <-].
  destruct Hk as [a Hk]. destruct (ac_approved _ _ _ (accounted_run host true ttl ms) _ _ Hk)
    as (code & rq & rq' & H1 & (al & t & rand & pk & Erq & Hd & Hl & ->) & H3 & H4).
  rewrite go_base64_roundtrip in Hd. injection Hd as <-. rewrite Ea.
  exists code, rq, rq'. split; [exact H1|]. split; [|by split].
  exists al, t, rand, pk'. split; [exact Erq|]. by rewrite go_base64_roundtrip.
Qed.

(** The entry [e] of [code] is pending, or its key is approved, which it is as soon
    as one of the requests after the first [n] that redeem the code is answered. *)
Record redeemable (n : nat) (code : string) (e : pendingEntry) (s : Office) : Prop := {
  rd_proper : all_proper host true s;
  rd_entry : pending_registry (registry s) !! code = Some (Some e) ∨
    is_Some (key_registry (registry s) !! pe_PubKeyB64 e);
  rd_answered i rq rsp : n ≤ i → requests s !! i = Some (rq, ended (Ok rsp)) → redeems true rq code →
    is_Some (key_registry (registry s) !! pe_PubKeyB64 e)
}.
Lemma redeems_same rq code code' : redeems true rq code → redeems true rq code' → code = code'.
Proof. intros (v & t & -> & _) (v' & t' & E & _). congruence. Qed.
Lemma insert_is_Some (b : gmap string string) k k' a : is_Some (b !! k) → is_Some (<[k' := a]> b !! k).
Proof. intros Hs. rewrite lookup_insert_is_Some'. by right. Qed.

Lemma redeemable_move n code e s m :
  key_fits (pe_PubKeyB64 e) = true →
  (∀ now, m = om_sweep now → (now - ttl) / 1000000000 < pe_RegisteredAt e)%Z →
  redeemable n code e s → redeemable n code e (office_move host true ttl s m).
Proof.
  intros Hfit Hsw [Hp He Ha]. destruct (office_move_cases host true ttl s m Hp) as [Hp' Hc]. cbv zeta in Hc.
  set (s' := office_move host true ttl s m) in *. clearbody s'.
  destruct Hc as [(now & -> & ->)|[->|(i & rq & t & Hef & Hi & _ & Hnew)]]; [|by split|].
  { split; [exact Hp'| |exact Ha]. cbn [registry]. rewrite sweep_lookup. destruct He as [->|He]; [left|by right].
    cbn [swept]. specialize (Hsw now eq_refl). by rewrite (proj2 (Z.leb_gt _ _)). }
  (* the entry, and the answer of [i] *)
  assert ((∀ k, is_Some (key_registry (registry s) !! k) → is_Some (key_registry (registry s') !! k)) ∧
    (pending_registry (registry s') !! code = Some (Some e) ∨
     is_Some (key_registry (registry s') !! pe_PubKeyB64 e)) ∧
    (∀ r, t = ended r → redeems true rq code → is_Some (key_registry (registry s') !! pe_PubKeyB64 e)))
    as (Hmono & He' & Hans).
  { destruct t as [[[st msg|a c|a]|err]|k]; cbn in Hef.
    - destruct Hef as [-> Herr]. split; [done|]. split; [done|]. intros ? _ Hr. destruct He as [Hpe|]; [|done].
      rewrite (Herr code e Hr Hpe) in Hfit. done.
    - destruct Hef as (k & at_ & (al & now & rand & pk & -> & _) & Hnone & ->). cbn. split; [done|]. split.
      + destruct He as [Hpe|]; [left|by right]. rewrite lookup_insert_ne; [done|]. intros ->. congruence.
      + intros ? _ (v & tok & Eq & _). discriminate Eq.
    - destruct Hef as (c & e' & Hr & Hpe' & -> & ->). cbn. split; [intros k; apply insert_is_Some|].
      destruct (decide (c = code)) as [->|Hne].
      + assert (is_Some (<[pe_PubKeyB64 e' := pe_Address e']> (key_registry (registry s)) !! pe_PubKeyB64 e)) as Hs.
        { destruct He as [Hpe|He]; [|by apply insert_is_Some]. rewrite Hpe in Hpe'. injection Hpe' as <-.
          rewrite lookup_insert_eq. by eexists. }
        split; [by right|by intros].
      + split; [|intros ? _ Hr'; by destruct Hne, (redeems_same _ _ _ Hr Hr')].
        destruct He as [Hpe|He]; [left; by rewrite lookup_delete_ne|right; by apply insert_is_Some].
    - done.
    - rewrite Hef. split; [done|]. split; done. }
  split; [exact Hp'|exact He'|]. intros j rq' rsp Hj Hrq Hr.
  destruct (Hnew j _ Hrq) as [->|Hold]; [|by eapply Hmono, Ha].
  rewrite Hi in Hrq. injection Hrq as -> ->. by eapply Hans.
Qed.

(** A code that is redeemed in time lets its key in: from a state where the code is
    pending for a key, whatever other requests and sweeps interleave, as long as no
    sweep finds the entry too old: once any request that redeems the code has its
    answer, the key is admitted, then and forever. *)
Theorem redeemed_key_admitted ms0 ms code e pk addr j rq rsp :
  let s0 := run ms0 new_office in
  let s := run ms s0 in
  pending_registry (registry s0) !! code = Some (Some e) → pe_PubKeyB64 e = base64_EncodeToString pk →
  (∀ now, om_sweep now ∈ ms → (now - ttl) / 1000000000 < pe_RegisteredAt e)%Z →
  length (requests s0) ≤ j → requests s !! j = Some (rq, ended (Ok rsp)) → redeems true rq code →
  admission true (registry s) (Ok (pk, addr)) = Ok (pk, addr).
Proof.
  intros s0 s Hp He Hsw Hj Hrq Hred.
  destruct (accounted_run host true ttl ms0) as [Hprop Hpe _]. fold s0 in Hprop, Hpe.
  assert (key_fits (pe_PubKeyB64 e) = true) as Hfit.
  { destruct (Hpe code e Hp) as (q & _ & (al & t & rand & pk' & _ & Hd & Hl & _)).
    rewrite He in Hd |- *. rewrite go_base64_roundtrip in Hd. injection Hd as <-.
    apply key_fits_small. rewrite key_length. pose proof (base64_length pk).
    pose proof (base64_positive pk ltac:(by intros ->)). lia. }
  assert (∀ s1, redeemable (length (requests s0)) code e s1 → redeemable (length (requests s0)) code e (run ms s1)) as Hall.
  { clear -Hfit Hsw BL. induction ms as [|m ms IH]; intros s1 Hs; [done|].
    apply IH; [intros now Hn; apply Hsw; by right|]. apply redeemable_move; [done| |done].
    intros now ->. apply Hsw. by left. }
  destruct (Hall s0) as [_ _ Hdone]; [split; [exact Hprop|by left|]|].
  { intros i q r Hi Hq. apply lookup_lt_Some in Hq. lia. }
  cbn. unfold IsApproved. rewrite bool_decide_eq_true_2; [done|]. rewrite <- He. by eapply Hdone.
Qed.
End admission.

(** ** Witnesses *)
Section witnesses.
Import Sample SampleBolt SampleRelay.
(** [public_key] is registered with the code 01020304, which is redeemed. *)
Definition registered_and_redeemed (public_key : string) : list OfficeMove :=
  [om_request (rq_register true 5000000000 (λ _, Ok [Byte.x01; Byte.x02; Byte.x03; Byte.x04]) (body_read public_key));
   om_continue 0;
   om_request (rq_claim (λ _, Ok true) (body_read ("01020304", "token"))); om_sweep 6000000000; om_continue 1].

Definition sample_moves : list OfficeMove := registered_and_redeemed (base64_EncodeToString the_key).

Lemma locked_mode_admits_approved_witness :
  ∃ code rq rq',
    answered (run_office "h" true 9000000000 sample_moves new_office) rq (rs_pending the_address code) ∧
    registers "h" rq (base64_EncodeToString the_key) the_address ∧
    answered (run_office "h" true 9000000000 sample_moves new_office) rq' (rs_approved the_address) ∧
    redeems true rq' code.
Proof.
  assert (admission true (registry (run_office "h" true 9000000000 sample_moves new_office))
    (Authenticate (λ _, "other") "h" 0 (Ok the_nonce) 0 (λ _, Ok tt) (read_message true (raw_message the_response)) 9) =
    Ok (the_key, the_address)) as E by (vm_compute; reflexivity).
  exact (locked_mode_admits_approved "h" 9000000000 _ _ _ _ _ _ _ _ _ _ E).
Defined.

Definition sample_registered : list OfficeMove := take 2 sample_moves.
Definition sample_redeemed : list OfficeMove := drop 2 sample_moves.
Lemma redeemed_key_admitted_witness :
  admission true (registry (run_office "h" true 9000000000 sample_redeemed
    (run_office "h" true 9000000000 sample_registered new_office))) (Ok (the_key, the_address)) = Ok (the_key, the_address).
Proof.
  assert (pending_registry (registry (run_office "h" true 9000000000 sample_registered new_office)) !! "01020304" =
    Some (Some (mkPending (base64_EncodeToString the_key) the_address 5))) as Hp by (vm_compute; reflexivity).
  assert (∃ rq, requests (run_office "h" true 9000000000 sample_redeemed
    (run_office "h" true 9000000000 sample_registered new_office)) !! 1 = Some (rq, ended (Ok (rs_approved the_address))) ∧
    redeems true rq "01020304") as (rq & Hrq & Hr).
  { eexists. split; [vm_compute; reflexivity|]. exists (λ _, Ok true), "token". repeat split; discriminate. }
  assert (length (requests (run_office "h" true 9000000000 sample_registered new_office)) ≤ 1) as Hl
    by (vm_compute; apply le_n).
  assert (∀ now, om_sweep now ∈ sample_redeemed →
    (now - 9000000000) / 1000000000 < pe_RegisteredAt (mkPending (base64_EncodeToString the_key) the_address 5))%Z as Hs.
  { intros now Hn. apply list_elem_of_In in Hn. cbn [In sample_redeemed sample_moves registered_and_redeemed drop] in Hn.
    repeat (destruct Hn as [Hn|Hn]; [try discriminate Hn; injection Hn as <-; reflexivity|]). destruct Hn. }
  exact (redeemed_key_admitted "h" 9000000000 _ _ _ _ the_key the_address 1 rq _ Hp eq_refl Hs Hl Hrq Hr).
Defined.

(** A key that is sent with a line break is registered and approved, for the address
    of the key, but not admitted: it is filed under the text it was sent as. *)
Example broken_line_shuts_out :
  let s := run_office "h" true 9000000000
    (registered_and_redeemed (base64_EncodeToString the_key +:+ String "010"%char "")) new_office in
  (λ x, match x.2 with ended r => Some r | _ => None end) <$> requests s =
    [Some (Ok (rs_pending the_address "01020304")); Some (Ok (rs_approved the_address))] ∧
  admission true (registry s) (Ok (the_key, the_address)) = Throw "key not registered".
Proof. vm_compute. done. Qed.
End witnesses.
