(* ===== verification/RelayHub.v ===== *)
(** The relay's hub (relay/internal/hub, Go): clients, rate limits, routing, and the
    flush of queued messages, as goroutines that interleave at every access to
    what they share.

    A goroutine is a [thread] over the [Hub]; [atomic] is one access to it (a lock
    section, a transaction of the database, an operation on a channel or on an
    atomic flag), and between two accesses the others run.  A send on a closed
    channel panics, and a panic of any goroutine ends the process. *)
From S2P Require Import Prelude Threads JsLib Platform Envelope RelayStore RelayAuth.
From stdpp Require Import functions gmap pretty.

(** ** What comes from outside *)
(** golang.org/x/time/rate: a limiter is asked at an instant. *)
Class RateLimit : Type := {
  Limiter : Type;
  NewLimiter : Limiter;                      (* with the configured rate and burst *)
  limiter_Allow : Z → Limiter → bool * Limiter
}.
(** [time.Now()], by the number of readings so far. *)
Class Clock : Type := { clock : nat → Z }.

(** ** client.go *)
Definition sendBufferSize : nat := 256.

(** [written] is what [WritePump] and [sendAuthResult] have put on the socket, and
    [registered] the answer of [Register], once it is there. *)
Record Client : Type := mkClient {
  address : string;
  send : list bytes;
  closed : bool;
  cancelled : bool;
  flushing : bool;
  registered : option bool;
  written : list bytes
}.
Definition NewClient (address : string) : Client := mkClient address [] false false false None [].

Definition put_send (l : list bytes) (c : Client) : Client :=
  mkClient (address c) l (closed c) (cancelled c) (flushing c) (registered c) (written c).
Definition close_and_cancel (c : Client) : Client :=
  mkClient (address c) (send c) true true (flushing c) (registered c) (written c).
Definition Close (c : Client) : Client :=
  mkClient (address c) (send c) (closed c) true (flushing c) (registered c) (written c).
Definition put_flushing (v : bool) (c : Client) : Client :=
  mkClient (address c) (send c) (closed c) (cancelled c) v (registered c) (written c).
Definition put_registered (v : bool) (c : Client) : Client :=
  mkClient (address c) (send c) (closed c) (cancelled c) (flushing c) (Some v) (written c).
Definition put_written (l : list bytes) (c : Client) : Client :=
  mkClient (address c) (send c) (closed c) (cancelled c) (flushing c) (registered c) l.

(** ** hub.go *)
Definition maxEnvelopeSize : nat := 64 * 1024.
Definition flushBatchSize : nat := 50.

Section hub.
Context `{GO : GoLibs, BO : Bolt, RL : RateLimit, CK : Clock} (config : QueueConfig).

(** The hub with its stores.  A client is the index it has in [conns], and a limiter the
    one it has in [objects], which it keeps when the table lets go of it; [to_flush]
    are the goroutines that [go h.flushQueuedMessages(client)] has yet to start. *)
Record Hub : Type := mkHub {
  clients : gmap string nat;
  conns : list Client;
  blockStore : Blocks;
  mq : Queues;
  limiters : gmap string nat;
  objects : list Limiter;
  to_flush : list nat;
  ticks : nat;
  panicked : bool
}.
Definition newHub (blocks : Blocks) (queues : Queues) : Hub := mkHub ∅ [] blocks queues ∅ [] [] 0 false.

Definition put_clients (m : gmap string nat) (h : Hub) : Hub :=
  mkHub m (conns h) (blockStore h) (mq h) (limiters h) (objects h) (to_flush h) (ticks h) (panicked h).
Definition put_conns (l : list Client) (h : Hub) : Hub :=
  mkHub (clients h) l (blockStore h) (mq h) (limiters h) (objects h) (to_flush h) (ticks h) (panicked h).
Definition put_blocks (b : Blocks) (h : Hub) : Hub :=
  mkHub (clients h) (conns h) b (mq h) (limiters h) (objects h) (to_flush h) (ticks h) (panicked h).
Definition put_mq (q : Queues) (h : Hub) : Hub :=
  mkHub (clients h) (conns h) (blockStore h) q (limiters h) (objects h) (to_flush h) (ticks h) (panicked h).
Definition put_limiters (m : gmap string nat) (l : list Limiter) (h : Hub) : Hub :=
  mkHub (clients h) (conns h) (blockStore h) (mq h) m l (to_flush h) (ticks h) (panicked h).
Definition put_to_flush (l : list nat) (h : Hub) : Hub :=
  mkHub (clients h) (conns h) (blockStore h) (mq h) (limiters h) (objects h) l (ticks h) (panicked h).
Definition tick (h : Hub) : Hub :=
  mkHub (clients h) (conns h) (blockStore h) (mq h) (limiters h) (objects h) (to_flush h) (S (ticks h)) (panicked h).
Definition panic (h : Hub) : Hub :=
  mkHub (clients h) (conns h) (blockStore h) (mq h) (limiters h) (objects h) (to_flush h) (ticks h) true.
Definition on_client (c : nat) (f : Client → Client) (h : Hub) : Hub := put_conns (alter f c (conns h)) h.

Definition address_of (c : nat) (h : Hub) : string := default "" (address <$> conns h !! c).

Definition read_clock : M Hub Z := λ h, (Ok (clock (ticks h)), tick h).
Definition in_mq {A} (m : M Queues A) : M Hub A := λ h, let '(r, q) := m (mq h) in (r, put_mq q h).
Definition in_blocks {A} (m : M Blocks A) : M Hub A := λ h, let '(r, b) := m (blockStore h) in (r, put_blocks b h).

(** *** ratelimit.go: the table is read under its lock, and the limiter, which has a
    lock of its own, is asked after that; it may be off the table by then *)
Definition lookup_limiter (address : string) : M Hub nat := λ h,
  match limiters h !! address with
  | Some limiter => (Ok limiter, h)
  | None => (Ok (length (objects h)),
             put_limiters (<[address := length (objects h)]> (limiters h)) (objects h ++ [NewLimiter]) h)
  end.
Definition ask_limiter (limiter : nat) : M Hub bool := λ h,
  let '(allowed, l) := limiter_Allow (clock (ticks h)) (default NewLimiter (objects h !! limiter)) in
  (Ok allowed, put_limiters (limiters h) (<[limiter := l]> (objects h)) (tick h)).
Definition Allow (address : string) : Async Hub bool :=
  limiter ← atomic (lookup_limiter address); atomic (ask_limiter limiter).
Definition RateLimiter_Remove (address : string) : M Hub unit :=
  modify (λ h, put_limiters (delete address (limiters h)) (objects h) h).

(** *** [Client.Send]: a full buffer drops, a closed channel panics *)
Definition Send (c : nat) (data : bytes) : M Hub unit := λ h,
  match conns h !! c with
  | None => (Ok tt, h)
  | Some cl =>
      if closed cl then (Throw "send on closed channel", panic h)
      else if length (send cl) <? sendBufferSize
      then (Ok tt, on_client c (put_send (send cl ++ [data])) h)
      else (Ok tt, h)
  end.
Definition IsFlushing (c : nat) : M Hub bool := gets (λ h, default false (flushing <$> conns h !! c)).
Definition SetFlushing (c : nat) (v : bool) : M Hub unit := modify (on_client c (put_flushing v)).

(** *** The relay's own messages; what does not marshal is not sent *)
Definition send_notice (c : nat) (e : Envelope) : M Hub unit :=
  match proto_Marshal e with Ok data => Send c data | Throw _ => mret tt end.

Definition int32 (n : nat) : Z := ((Z.of_nat n + 2 ^ 31) mod 2 ^ 32 - 2 ^ 31)%Z.
Definition queue_status (pendingCount : Z) : Envelope :=
  envelope "" "" QUEUE_STATUS (queueStatus (mkQueueStatus pendingCount)).
Definition rate_limited : Envelope :=
  envelope "" "" RATE_LIMITED (rateLimited (mkRateLimited 1000 "per-connection rate limit exceeded")).
Definition queue_full (recipientAddress : string) : Envelope :=
  envelope "" "" QUEUE_FULL
    (queueFull (mkQueueFull recipientAddress "recipient message queue is full (limit: 1000)")).

Definition sendQueueStatus (c : nat) (pendingCount : Z) : M Hub unit := send_notice c (queue_status pendingCount).
Definition sendRateLimited (c : nat) : M Hub unit := send_notice c rate_limited.
Definition sendQueueFull (c : nat) (recipientAddress : string) : M Hub unit := send_notice c (queue_full recipientAddress).

(** *** [RouteMessage] *)
Definition LookupClient (addr : string) : M Hub (option nat) := gets (λ h, clients h !! addr).

(** [h.mq.Enqueue(...)]; only a full queue is reported to the sender. *)
Definition enqueue (from : nat) (fromAddress toAddress : string) (data : bytes) : Async Hub unit :=
  r ← atomic (now ← read_clock;
              in_mq (λ q, let '(r, q') := Enqueue config now toAddress fromAddress data q in (Ok r, q')));
  match r with
  | Throw err => if bool_decide (err = ErrQueueFull) then atomic (sendQueueFull from toAddress) else mret tt
  | Ok _ => mret tt
  end.

(** The check of the block list and the delivery. *)
Definition deliver (from : nat) (fromAddress toAddress : string) (data : bytes) : Async Hub unit :=
  if bool_decide (toAddress = "") then mret tt
  else
    blocked ← atomic (gets (λ h, IsBlocked toAddress fromAddress (blockStore h)));
    if blocked : bool then mret tt
    else
      recipient ← atomic (LookupClient toAddress);
      match recipient with
      | None => enqueue from fromAddress toAddress data
      | Some recipient =>
          flushing ← atomic (IsFlushing recipient);
          if flushing : bool then enqueue from fromAddress toAddress data
          else atomic (Send recipient data)
      end.

(** [from.Address()] does not change. *)
Definition route_envelope (from : nat) (fromAddress : string) (data : bytes) : Async Hub unit :=
  allowed ← Allow fromAddress;
  if negb (allowed : bool) then atomic (sendRateLimited from)
  else if maxEnvelopeSize <? length data then mret tt
  else match proto_Unmarshal data with
  | Throw err => async_throw err
  | Ok env =>
      match env_type env with
      | BLOCK_NOTIFICATION =>
          match env_payload env with
          | blockNotification bn => atomic (in_blocks (Block fromAddress (blk_blockedAddress bn)))
          | _ => mret tt
          end
      | UNBLOCK_NOTIFICATION =>
          match env_payload env with
          | unblockNotification un => atomic (in_blocks (Unblock fromAddress (ubl_unblockedAddress un)))
          | _ => mret tt
          end
      | _ => deliver from fromAddress (env_toAddress env) data
      end
  end.
Definition RouteMessage (from : nat) (data : bytes) : Async Hub unit := λ h, route_envelope from (address_of from h) data h.

(** *** [flushQueuedMessages]: one round of its loop; [false] is the [return], which
    clears the flag.  The pause between two rounds is the wait for the next. *)
Fixpoint flush_entries (c : nat) (entries : list QueueEntry) : Async Hub unit :=
  match entries with
  | [] => mret tt
  | entry :: rest =>
      atomic (Send c (e_Envelope entry));;
      atomic (modify (λ h, put_mq (Remove (address_of c h) (e_Key entry) (mq h)) h));;
      flush_entries c rest
  end.
Definition flush_returns (c : nat) : Async Hub bool := atomic (SetFlushing c false);; mret false.
Definition client_entries (c : nat) (now : Z) (h : Hub) : list QueueEntry :=
  match conns h !! c with
  | None => []
  | Some cl => FlushBatch config now (address cl) flushBatchSize (mq h)
  end.
Definition flush_round (c : nat) : Async Hub bool :=
  gone ← atomic (gets (λ h, default true (cancelled <$> conns h !! c)));
  if gone : bool then flush_returns c
  else
    entries ← atomic (now ← read_clock; gets (client_entries c now));
    match entries with
    | [] => flush_returns c
    | _ => flush_entries c entries;; mret true
    end.

(** *** [Run]: the cases of its [select] *)
Definition accept_or_refuse (c : nat) : M Hub bool := λ h,
  match address <$> conns h !! c with
  | None => (Ok false, h)
  | Some addr =>
      match clients h !! addr with
      | Some existing =>
          if bool_decide (existing ≠ c) then (Ok false, on_client c (put_registered false) h)
          else (Ok true, on_client c (put_registered true) h)
      | None => (Ok true, on_client c (put_registered true) (put_clients (<[addr := c]> (clients h)) h))
      end
  end.
Definition run_register (c : nat) : Async Hub unit :=
  addr ← sync (gets (address_of c));
  accepted ← atomic (accept_or_refuse c);
  if negb accepted then mret tt
  else
    count ← atomic (gets (λ h, Count addr (mq h)));
    if 0 <? count then
      atomic (sendQueueStatus c (int32 count));;
      atomic (SetFlushing c true);;
      atomic (modify (λ h, put_to_flush (to_flush h ++ [c]) h))
    else mret tt.

Definition remove_client (c : nat) : M Hub unit := modify (λ h,
  let addr := address_of c h in
  if bool_decide (clients h !! addr = Some c)
  then on_client c close_and_cancel (put_clients (delete addr (clients h)) h) else h).
Definition run_unregister (c : nat) : Async Hub unit :=
  addr ← sync (gets (address_of c));
  atomic (remove_client c);;
  atomic (RateLimiter_Remove addr).

(** [ctx.Done()]: every client of the table is closed. *)
Definition run_stop : M Hub unit := modify (λ h,
  put_clients ∅ (map_fold (λ _ c h, on_client c close_and_cancel h) h (clients h))).
End hub.
