(* ===== verification/RelayServer.v ===== *)
(** The running relay (cmd/pinchd/main.go and the goroutines of relay/internal/hub):
    a pool of goroutines around one hub, moved by connections, envelopes and the
    scheduler in any order.  A relation between hubs that every single access
    keeps is kept by every run ([HubFrame]). *)
From S2P Require Import Prelude Threads JsLib Platform Envelope RelayStore RelayAuth RelayHub.
From stdpp Require Import functions gmap.

(** ** The moves *)
Inductive Move : Type :=
| mv_connect (address : string)      (* NewClient, and the hub takes the register request *)
| mv_hub
| mv_start (c : nat) (written : bool)
| mv_read (c : nat) (data : bytes)
| mv_reader (c : nat)
| mv_read_fails (c : nat)
| mv_write (c : nat) (written : bool)
| mv_writer_ends (c : nat)
| mv_unregister (c : nat)
| mv_flush
| mv_flusher (n : nat)
| mv_sweep
| mv_signal
| mv_stop.

Definition is_ended {S A} (t : thread S A) : bool := match t with ended _ => true | suspended _ => false end.

Section server.
Context `{GO : GoLibs, BO : Bolt, RL : RateLimit, CK : Clock} (config : QueueConfig).

(** ** The goroutines *)

(** [hub_run] is the case of its [select] the hub's goroutine is in; [pending] are
    the clients whose [wsHandler] waits for [Register]; [readers] are the running
    [ReadPump]s with what is left of their call of [RouteMessage]; [leaving] are
    the clients for which somebody is in [Unregister]. *)
Record Server : Type := mkServer {
  hub : Hub;
  hub_run : thread Hub unit;
  signalled : bool;
  stopped : bool;
  pending : gset nat;
  readers : gmap nat (thread Hub unit);
  writers : gset nat;
  leaving : gset nat;
  flushers : list (nat * thread Hub bool)
}.

Definition started_server (blocks : Blocks) (queues : Queues) : Server :=
  mkServer (newHub blocks queues) (ended (Ok tt)) false false ∅ ∅ ∅ ∅ [].

Definition put_hub (h : Hub) (s : Server) : Server :=
  mkServer h (hub_run s) (signalled s) (stopped s) (pending s) (readers s) (writers s) (leaving s) (flushers s).
Definition put_run (x : thread Hub unit * Hub) (s : Server) : Server :=
  mkServer x.2 x.1 (signalled s) (stopped s) (pending s) (readers s) (writers s) (leaving s) (flushers s).
Definition put_reader (c : nat) (x : thread Hub unit * Hub) (s : Server) : Server :=
  mkServer x.2 (hub_run s) (signalled s) (stopped s) (pending s) (<[c := x.1]> (readers s)) (writers s) (leaving s) (flushers s).
Definition put_flusher (n c : nat) (x : thread Hub bool * Hub) (s : Server) : Server :=
  mkServer x.2 (hub_run s) (signalled s) (stopped s) (pending s) (readers s) (writers s) (leaving s)
    (<[n := (c, x.1)]> (flushers s)).

(** [sendAuthResult]; what does not marshal counts as not written. *)
Definition write_result (c : nat) (e : Envelope) (h : Hub) : Hub :=
  match proto_Marshal e with
  | Ok data => on_client c (λ cl, put_written (written cl ++ [data]) cl) h
  | Throw _ => h
  end.
Definition marshals (e : Envelope) : bool := is_ok (proto_Marshal e).

(** The rest of [wsHandler] once [Register] has answered; [sent] is whether the
    result could be written. *)
Definition start_client (c : nat) (sent : bool) (s : Server) : Server :=
  let h := hub s in
  match conns h !! c ≫= registered with
  | None => s
  | Some true =>
      let result := auth_result true (address_of c h) "" in
      if sent && marshals result
      then mkServer (write_result c result h) (hub_run s) (signalled s) (stopped s) (pending s ∖ {[c]})
             (<[c := ended (Ok tt)]> (readers s)) ({[c]} ∪ writers s) (leaving s) (flushers s)
      else mkServer h (hub_run s) (signalled s) (stopped s) (pending s ∖ {[c]}) (readers s) (writers s)
             ({[c]} ∪ leaving s) (flushers s)
  | Some false =>
      let h := on_client c Close h in
      let h := if sent then write_result c (auth_result false "" "address already connected") h else h in
      mkServer h (hub_run s) (signalled s) (stopped s) (pending s ∖ {[c]}) (readers s) (writers s) (leaving s) (flushers s)
  end.

(** [WritePump] takes the next message; a failed write ends it. *)
Definition write_next (c : nat) (sent : bool) (s : Server) : Server :=
  match send <$> conns (hub s) !! c with
  | Some (data :: rest) =>
      let h := on_client c (put_send rest) (hub s) in
      if sent then put_hub (on_client c (λ cl, put_written (written cl ++ [data]) cl) h) s
      else mkServer h (hub_run s) (signalled s) (stopped s) (pending s) (readers s) (writers s ∖ {[c]}) (leaving s) (flushers s)
  | _ => s
  end.

Definition hub_idle (s : Server) : bool := is_ended (hub_run s) && negb (stopped s).

Definition server_move (m : Move) (s : Server) : Server :=
  match m with
  | mv_connect addr =>
      if hub_idle s then
        let c := length (conns (hub s)) in
        let client := if signalled s then Close (NewClient addr) else NewClient addr in
        let h := put_conns (conns (hub s) ++ [client]) (hub s) in
        let s := put_run (run_register c h) s in
        mkServer (hub s) (hub_run s) (signalled s) (stopped s) ({[c]} ∪ pending s) (readers s) (writers s) (leaving s) (flushers s)
      else s
  | mv_hub => match hub_run s with suspended k => put_run (k (hub s)) s | _ => s end
  | mv_start c sent => if decide (c ∈ pending s) then start_client c sent s else s
  | mv_read c data =>
      match readers s !! c with
      | Some (ended _) => put_reader c (RouteMessage config c data (hub s)) s
      | _ => s
      end
  | mv_reader c =>
      match readers s !! c with Some (suspended k) => put_reader c (k (hub s)) s | _ => s end
  | mv_read_fails c =>
      match readers s !! c with
      | Some (ended _) =>
          mkServer (hub s) (hub_run s) (signalled s) (stopped s) (pending s) (delete c (readers s)) (writers s)
            ({[c]} ∪ leaving s) (flushers s)
      | _ => s
      end
  | mv_write c sent => if decide (c ∈ writers s) then write_next c sent s else s
  | mv_writer_ends c =>
      match conns (hub s) !! c with
      | Some cl =>
          if cancelled cl || (closed cl && bool_decide (send cl = []))
          then mkServer (hub s) (hub_run s) (signalled s) (stopped s) (pending s) (readers s) (writers s ∖ {[c]}) (leaving s) (flushers s)
          else s
      | None => s
      end
  | mv_unregister c =>
      if hub_idle s && bool_decide (c ∈ leaving s) then
        let s := put_run (run_unregister c (hub s)) s in
        mkServer (hub s) (hub_run s) (signalled s) (stopped s) (pending s) (readers s) (writers s) (leaving s ∖ {[c]}) (flushers s)
      else s
  | mv_flush =>
      match to_flush (hub s) with
      | [] => s
      | c :: rest =>
          let '(t, h) := flush_round config c (put_to_flush rest (hub s)) in
          mkServer h (hub_run s) (signalled s) (stopped s) (pending s) (readers s) (writers s) (leaving s)
            (flushers s ++ [(c, t)])
      end
  | mv_flusher n =>
      match flushers s !! n with
      | Some (c, suspended k) => put_flusher n c (k (hub s)) s
      | Some (c, ended (Ok true)) => put_flusher n c (flush_round config c (hub s)) s
      | _ => s
      end
  | mv_sweep =>
      put_hub ((now ← read_clock; in_mq (Sweep config now)) (hub s)).2 s
  | mv_signal =>
      mkServer (put_conns (Close <$> conns (hub s)) (hub s)) (hub_run s) true (stopped s) (pending s) (readers s)
        (writers s) (leaving s) (flushers s)
  | mv_stop =>
      if hub_idle s && signalled s
      then mkServer (run_stop (hub s)).2 (hub_run s) true true (pending s) (readers s) (writers s) (leaving s) (flushers s)
      else s
  end.

(** Nothing moves in a process that has panicked. *)
Definition take_move (m : Move) (s : Server) : Server :=
  if panicked (hub s) then s else server_move m s.
Definition run_server (ms : list Move) (s : Server) : Server := foldl (λ s m, take_move m s) s ms.

Lemma run_server_app ms ms' s : run_server (ms ++ ms') s = run_server ms' (run_server ms s).
Proof. apply foldl_app. Qed.
End server.

(** ** What every single access keeps, every run keeps *)
Section atomic.
Context `{RL : RateLimit} (I : Hub → Prop) (R : relation Hub) `{!PreOrder R} (stable : ∀ h h', R h h' → I h → I h').

Lemma keeps_atomic {A} (m : M Hub A) : (∀ h, I h → R h (m h).2) → async_keeps I R (atomic m).
Proof using PreOrder0.
  intros Hm h H. split; [reflexivity|]. intros h1 H1. specialize (Hm h1 H1). unfold sync. by destruct (m h1).
Qed.
(** What an access finds out, for the rest. *)
Lemma keeps_atomic_bind {A B} (m : M Hub A) (Q : A → Prop) (f : A → Async Hub B) :
  (∀ h, I h → R h (m h).2) → (∀ h a, I h → (m h).1 = Ok a → Q a) → (∀ a, Q a → async_keeps I R (f a)) →
  async_keeps I R (a ← atomic m; f a).
Proof using PreOrder0 stable.
  intros Hm HQ Hf h H. split; [reflexivity|]. intros h1 H1. specialize (Hm h1 H1). specialize (HQ h1).
  unfold sync. destruct (m h1) as [[a|err] h2]; cbn [fst snd] in *.
  - specialize (Hf a (HQ a H1 eq_refl) h2 (stable _ _ Hm H1)). cbn [and_then]. destruct (f a h2) as [t h3].
    destruct Hf. split; [by etrans|done].
  - by split.
Qed.
End atomic.

(** The messages the relay makes itself. *)
Definition is_notice `{GoLibs} (data : bytes) : Prop :=
  ∃ e, proto_Marshal e = Ok data ∧ env_type e ∈ [QUEUE_STATUS; RATE_LIMITED; QUEUE_FULL; AUTH_RESULT].

(** The obligations: [accepted to data] is what may be queued or delivered to an
    address, [sendable c data] what may be sent to a client, [B to from] the blocks
    that [I] says are in the store, [fits] the clients there may be, and [leaves]
    whether clients are taken out of the table. *)
Class HubFrame `{GO : GoLibs, BO : Bolt, RL : RateLimit, CK : Clock} (config : QueueConfig)
    (I : Hub → Prop) (R : relation Hub) (accepted : string → bytes → Prop) (sendable : nat → bytes → Prop)
    (B : string → string → Prop) (fits : list Client → Prop) (leaves : Prop) : Prop := {
  hf_pre :: PreOrder R;
  hf_stable h h' : R h h' → I h → I h';
  hf_tick h : I h → R h (tick h);
  hf_limiters m l h : I h → R h (put_limiters m l h);
  hf_to_flush l h : I h → R h (put_to_flush l h);
  hf_flushing c v h : I h → R h (on_client c (put_flushing v) h);
  hf_accept c h : I h → R h (accept_or_refuse c h).2;
  hf_block a b h : I h → R h (in_blocks (Block a b) h).2;
  hf_unblock a b h : I h → (∀ t f, B t f → block_key a b ≠ block_key t f) → R h (in_blocks (Unblock a b) h).2;
  hf_blocked t f h : I h → B t f → IsBlocked t f (blockStore h) = true;
  hf_enqueue now to from data h :
    I h → accepted to data → R h (put_mq (Enqueue config now to from data (mq h)).2 h);
  hf_dequeue addr k h : I h → R h (put_mq (Remove addr k (mq h)) h);
  hf_sweep now h : I h → R h (put_mq (Sweep config now (mq h)).2 h);
  hf_send c data h : I h → sendable c data → R h (Send c data h).2;
  hf_notice c data : is_notice data → sendable c data;
  hf_routed to c data h : I h → clients h !! to = Some c → accepted to data → sendable c data;
  hf_queued c now e h : I h → e ∈ client_entries config c now h → sendable c (e_Envelope e);
  hf_new addr b h :
    let client := if b : bool then Close (NewClient addr) else NewClient addr in
    I h → fits (conns h ++ [client]) → R h (put_conns (conns h ++ [client]) h);
  hf_close c h : I h → R h (on_client c Close h);
  hf_result c data h : I h → is_notice data → R h (on_client c (λ cl, put_written (written cl ++ [data]) cl) h);
  hf_pop c data rest sent h :
    I h → send <$> conns h !! c = Some (data :: rest) →
    R h (on_client c (if sent : bool then λ cl, put_written (written cl ++ [data]) (put_send rest cl) else put_send rest) h);
  hf_signal h : I h → R h (put_conns (Close <$> conns h) h);
  hf_leave c h : leaves → I h → R h (remove_client c h).2;
  hf_stop h : leaves → I h → R h (run_stop h).2
}.

Section frame.
Context `{GO : GoLibs, BO : Bolt, RL : RateLimit, CK : Clock} (config : QueueConfig).
Context (I : Hub → Prop) (R : relation Hub) (accepted : string → bytes → Prop) (sendable : nat → bytes → Prop).
Context (B : string → string → Prop) (fits : list Client → Prop) (leaves : Prop).
Context `{HF : !HubFrame config I R accepted sendable B fits leaves}.

Abbreviation kept m := (async_keeps I R m).

Lemma f_bind {A C} (m : Async Hub A) (f : A → Async Hub C) : kept m → (∀ a, kept (f a)) → kept (m ≫= f).
Proof using HF. apply keeps_bind; [apply _|apply hf_stable]. Qed.
Lemma f_ret {A} (a : A) : kept (mret a).
Proof using HF. apply keeps_ret, _. Qed.
Lemma f_throw {A} err : kept (async_throw (A:=A) err).
Proof using HF. apply keeps_throw, _. Qed.
Lemma f_gets {A C} (g : Hub → A) (f : A → Async Hub C) : (∀ a, kept (f a)) → kept (a ← sync (gets g); f a).
Proof using HF. intros Hf. apply (keeps_gets I R g (λ _, True)); [done|]. intros a _. apply Hf. Qed.
Lemma f_atomic {A} (m : M Hub A) : (∀ h, I h → R h (m h).2) → kept (atomic m).
Proof using HF. apply keeps_atomic, _. Qed.
Lemma f_atomic_bind {A C} (m : M Hub A) (Q : A → Prop) (f : A → Async Hub C) :
  (∀ h, I h → R h (m h).2) → (∀ h a, I h → (m h).1 = Ok a → Q a) → (∀ a, Q a → kept (f a)) →
  kept (a ← atomic m; f a).
Proof using HF. apply keeps_atomic_bind; [apply _|apply hf_stable]. Qed.
Lemma f_look {A C} (g : Hub → A) (Q : A → Prop) (f : A → Async Hub C) :
  (∀ h, I h → Q (g h)) → (∀ a, Q a → kept (f a)) → kept (a ← atomic (gets g); f a).
Proof using HF. intros Hg. apply f_atomic_bind; [intros; reflexivity|]. by intros h a H [= <-]; apply Hg. Qed.

Lemma send_notice_kept c e h :
  env_type e ∈ [QUEUE_STATUS; RATE_LIMITED; QUEUE_FULL; AUTH_RESULT] → I h → R h (send_notice c e h).2.
Proof using HF.
  intros He Hi. unfold send_notice. destruct (proto_Marshal e) as [data|] eqn:E; [|reflexivity].
  apply (hf_send (sendable:=sendable)); [done|]. apply (hf_notice (R:=R)). by exists e.
Qed.

Lemma enqueue_kept from f to data : accepted to data → kept (enqueue config from f to data).
Proof using HF.
  intros Ha. apply (f_bind (atomic _)).
  - apply f_atomic. intros h Hi. unfold mbind, M_bind, read_clock, in_mq. cbn.
    destruct (Enqueue _ _ _ _ _ _) as [r q] eqn:E. cbn [snd]. transitivity (tick h); [by apply (hf_tick (R:=R))|].
    assert (I (tick h)) as Ht by (apply (hf_stable h); [by apply (hf_tick (R:=R))|done]).
    pose proof (hf_enqueue (clock (ticks h)) to f data (tick h) Ht Ha) as He. cbn [mq tick] in He. by rewrite E in He.
  - intros [|err]; [apply f_ret|]. destruct (bool_decide _); [|apply f_ret].
    apply f_atomic. intros h Hi. apply send_notice_kept; [set_solver|done].
Qed.

(** What may be read from a client at [from]. *)
Definition read_ok (from : string) (data : bytes) : Prop :=
  ∀ env, proto_Unmarshal data = Ok env →
  match env_type env with
  | BLOCK_NOTIFICATION => True
  | UNBLOCK_NOTIFICATION =>
      match env_payload env with
      | unblockNotification un => ∀ t f, B t f → block_key from (ubl_unblockedAddress un) ≠ block_key t f
      | _ => True
      end
  | _ => B (env_toAddress env) from ∨ accepted (env_toAddress env) data
  end.

Lemma deliver_kept from f to data : B to f ∨ accepted to data → kept (deliver config from f to data).
Proof using HF.
  intros Hok. unfold deliver. destruct (bool_decide _); [apply f_ret|].
  apply (f_look _ (λ b, B to f → b = true)); [intros h Hi Hb; by apply (hf_blocked (R:=R))|].
  intros [] Hb; [apply f_ret|]. assert (accepted to data) as Ha by (destruct Hok as [H|]; [by specialize (Hb H)|done]).
  apply (f_look _ (λ r, ∀ c, r = Some c → sendable c data)).
  { intros h Hi c Hc. by apply (hf_routed (R:=R) to c data h). }
  intros [c|] Hc; [|by apply enqueue_kept]. apply (f_look _ (λ _, True)); [done|].
  intros [] _; [by apply enqueue_kept|]. apply f_atomic. intros h Hi. apply (hf_send (sendable:=sendable)); auto.
Qed.

Lemma allow_kept addr : kept (Allow addr).
Proof using HF.
  unfold Allow. apply f_bind; [|intros limiter]; apply f_atomic; intros h Hi.
  - unfold lookup_limiter. destruct (limiters h !! addr); [reflexivity|]. by apply (hf_limiters (R:=R)).
  - unfold ask_limiter. destruct (limiter_Allow _ _) as [ok l]. cbn [snd].
    transitivity (tick h); [by apply (hf_tick (R:=R))|]. apply (hf_limiters (R:=R)).
    apply (hf_stable h); [by apply (hf_tick (R:=R))|done].
Qed.

Lemma route_kept c f data : read_ok f data → kept (route_envelope config c f data).
Proof using HF.
  intros Hok. unfold route_envelope. apply f_bind; [apply allow_kept|].
  intros []; cbn [negb]; [|apply f_atomic; intros h Hi; apply send_notice_kept; [set_solver|done]].
  destruct (maxEnvelopeSize <? length data); [apply f_ret|].
  destruct (proto_Unmarshal data) as [env|err] eqn:E; [|apply f_throw]. specialize (Hok env E).
  destruct (env_type env) eqn:Et; try (apply deliver_kept; exact Hok).
  - destruct (env_payload env); try apply f_ret. apply f_atomic. intros h Hi. by apply (hf_block (R:=R)).
  - destruct (env_payload env) eqn:Ep; try apply f_ret. apply f_atomic. intros h Hi. by apply (hf_unblock (R:=R)).
Qed.

Lemma flush_kept c : kept (flush_round config c).
Proof using HF.
  assert (kept (flush_returns c)) as Hret.
  { apply f_bind; [|intros; apply f_ret]. apply f_atomic. intros h Hi. by apply (hf_flushing (R:=R)). }
  unfold flush_round. apply (f_look _ (λ _, True)); [done|]. intros [] _; [exact Hret|].
  apply (f_atomic_bind _ (Forall (λ e, sendable c (e_Envelope e)))).
  - intros h Hi. by apply (hf_tick (R:=R)).
  - intros h es Hi [= <-]. apply Forall_forall. intros e He.
    apply (hf_queued (R:=R) c (clock (ticks h)) e (tick h)); [|done].
    apply (hf_stable h); [by apply (hf_tick (R:=R))|done].
  - intros es Hes. assert (kept (flush_entries c es)) as Hk.
    { induction Hes as [|e es He _ IH]; cbn [flush_entries]; [apply f_ret|]. apply f_bind.
      - apply f_atomic. intros h Hi. by apply (hf_send (sendable:=sendable)).
      - intros _. apply f_bind; [|done]. apply f_atomic. intros h Hi. by apply (hf_dequeue (R:=R)). }
    destruct es; [exact Hret|]. apply f_bind; [exact Hk|intros; apply f_ret].
Qed.

Lemma register_kept c : kept (run_register c).
Proof using HF.
  unfold run_register. apply f_gets. intros addr. apply f_bind.
  { apply f_atomic. intros h Hi. by apply (hf_accept (R:=R)). }
  intros []; cbn [negb]; [|apply f_ret]. apply (f_look _ (λ _, True)); [done|]. intros n _.
  destruct (0 <? n); [|apply f_ret]. apply f_bind; [|intros _; apply f_bind; [|intros _]]; apply f_atomic; intros h Hi.
  - apply send_notice_kept; [set_solver|done].
  - by apply (hf_flushing (R:=R)).
  - by apply (hf_to_flush (R:=R)).
Qed.
Lemma unregister_kept c : leaves → kept (run_unregister c).
Proof using HF.
  intros Hl. unfold run_unregister. apply f_gets. intros addr. apply f_bind; [|intros _]; apply f_atomic; intros h Hi.
  - by apply (hf_leave (R:=R)).
  - by apply (hf_limiters (R:=R)).
Qed.

(** *** The pool *)
Definition server_ok (s : Server) : Prop :=
  I (hub s) ∧ turns_keep I R (hub_run s) ∧ map_Forall (λ _, turns_keep I R) (readers s) ∧
  Forall (λ x, turns_keep I R x.2) (flushers s).

Definition move_ok (m : Move) (s : Server) : Prop :=
  match m with
  | mv_connect addr => hub_idle s = true →
      fits (conns (hub s) ++ [if signalled s then Close (NewClient addr) else NewClient addr])
  | mv_read c data => read_ok (address_of c (hub s)) data
  | mv_unregister _ | mv_stop => leaves
  | _ => True
  end.

Abbreviation goes s s' := (R (hub s) (hub s') ∧ server_ok s').

Lemma goes_refl s : server_ok s → goes s s.
Proof using HF. by split. Qed.

Lemma result_kept c e h :
  env_type e = AUTH_RESULT → I h → R h (write_result c e h).
Proof using HF.
  intros Ht Hi. unfold write_result. destruct (proto_Marshal e) as [data|] eqn:E; [|reflexivity].
  apply (hf_result (R:=R)); [done|]. exists e. split; [done|]. rewrite Ht. set_solver.
Qed.

Lemma start_goes c sent s : server_ok s → goes s (start_client c sent s).
Proof using HF.
  intros (Hi & Hr & Hrd & Hf). unfold start_client. destruct (conns (hub s) !! c ≫= registered) as [[]|]; [| |by split].
  - destruct (sent && _).
    + assert (R (hub s) (write_result c (auth_result true (address_of c (hub s)) "") (hub s))) as Hw
        by by apply result_kept.
      split; [exact Hw|]. split; [by apply (hf_stable _ _ Hw)|]. split; [done|]. split; [|done].
      by apply map_Forall_insert_2.
    + by split.
  - set (h := on_client c Close (hub s)). assert (R (hub s) h) as Hc by by apply (hf_close (R:=R)).
    assert (I h) as Hh by by apply (hf_stable _ _ Hc). cbv zeta.
    assert (R (hub s) (if sent then write_result c (auth_result false "" "address already connected") h else h)) as Hw.
    { destruct sent; [|done]. etrans; [exact Hc|]. by apply result_kept. }
    split; [exact Hw|]. split; [by apply (hf_stable _ _ Hw)|done].
Qed.

Lemma alter_twice {A} (f g : A → A) i (l : list A) : alter f i (alter g i l) = alter (f ∘ g) i l.
Proof using Type. revert i. induction l as [|x l IH]; intros [|i]; cbn; [done..|]. f_equal. apply IH. Qed.
Lemma write_goes c sent s : server_ok s → goes s (write_next c sent s).
Proof using HF.
  intros (Hi & Hr & Hrd & Hf). unfold write_next. destruct (send <$> conns (hub s) !! c) as [[|data rest]|] eqn:E;
    [by split| |by split]. pose proof (hf_pop (R:=R) c data rest sent (hub s) Hi E) as Hp. destruct sent; cbv zeta.
  - assert (on_client c (λ cl, put_written (written cl ++ [data]) cl) (on_client c (put_send rest) (hub s)) =
      on_client c (λ cl, put_written (written cl ++ [data]) (put_send rest cl)) (hub s)) as ->.
    { unfold on_client. cbn. unfold put_conns. cbn. by rewrite alter_twice. }
    split; [exact Hp|]. split; [by apply (hf_stable _ _ Hp)|done].
  - split; [exact Hp|]. split; [by apply (hf_stable _ _ Hp)|done].
Qed.

Lemma server_move_goes m s : move_ok m s → server_ok s → goes s (server_move config m s).
Proof using HF.
  intros Hm Hs. pose proof Hs as (Hi & Hr & Hrd & Hf). destruct m as [addr| |c sent|c data|c|c|c sent|c|c| |n| | |];
    cbn [server_move move_ok] in *.
  - destruct (hub_idle s); [|by apply goes_refl].
    pose proof (hf_new (R:=R) addr (signalled s) (hub s) Hi (Hm eq_refl)) as Hn. cbv zeta.
    pose proof (register_kept (length (conns (hub s))) _ (hf_stable _ _ Hn Hi)) as Hk.
    destruct (run_register _ _) as [t h]. destruct Hk as [H1 H2].
    assert (R (hub s) h) as H3 by by etrans. split; [exact H3|]. split; [by apply (hf_stable _ _ H3)|done].
  - destruct (hub_run s) as [|k]; [by apply goes_refl|]. specialize (Hr (hub s) Hi). destruct (k (hub s)) as [t h].
    destruct Hr as [H1 H2]. split; [exact H1|]. split; [by apply (hf_stable _ _ H1)|done].
  - destruct (decide _); [by apply start_goes|by apply goes_refl].
  - destruct (readers s !! c) as [[r|]|] eqn:E; [|by apply goes_refl..].
    pose proof (route_kept c _ data Hm (hub s) Hi) as Hk. unfold RouteMessage. destruct (route_envelope _ _ _ _ _) as [t h].
    destruct Hk as [H1 H2]. split; [exact H1|]. split; [by apply (hf_stable _ _ H1)|]. split; [done|]. split; [|done].
    by apply map_Forall_insert_2.
  - destruct (readers s !! c) as [[|k]|] eqn:E; [by apply goes_refl| |by apply goes_refl].
    pose proof (Hrd c _ E (hub s) Hi) as Hk. destruct (k (hub s)) as [t h].
    destruct Hk as [H1 H2]. split; [exact H1|]. split; [by apply (hf_stable _ _ H1)|]. split; [done|]. split; [|done].
    by apply map_Forall_insert_2.
  - destruct (readers s !! c) as [[r|]|] eqn:E; [|by apply goes_refl..]. split; [reflexivity|].
    split; [done|]. split; [done|]. split; [by apply map_Forall_delete|done].
  - destruct (decide _); [by apply write_goes|by apply goes_refl].
  - destruct (conns (hub s) !! c) as [cl|]; [|by apply goes_refl]. destruct (_ || _); by split.
  - destruct (_ && _); [|by apply goes_refl]. pose proof (unregister_kept c Hm (hub s) Hi) as Hk.
    destruct (run_unregister c (hub s)) as [t h]. destruct Hk as [H1 H2].
    split; [exact H1|]. split; [by apply (hf_stable _ _ H1)|done].
  - destruct (to_flush (hub s)) as [|c rest]; [by apply goes_refl|].
    pose proof (hf_to_flush (R:=R) rest (hub s) Hi) as H0.
    pose proof (flush_kept c _ (hf_stable _ _ H0 Hi)) as Hk. destruct (flush_round _ _ _) as [t h]. destruct Hk as [H1 H2].
    assert (R (hub s) h) as H3 by by etrans. split; [exact H3|]. split; [by apply (hf_stable _ _ H3)|].
    split; [done|]. split; [done|]. apply Forall_app. split; [done|by repeat constructor].
  - destruct (flushers s !! n) as [[c [[[]|]|k]]|] eqn:E; try by apply goes_refl.
    + pose proof (flush_kept c (hub s) Hi) as Hk. destruct (flush_round _ _ _) as [t h]. destruct Hk as [H1 H2].
      split; [exact H1|]. split; [by apply (hf_stable _ _ H1)|]. split; [done|]. split; [done|]. by apply Forall_insert.
    + pose proof (Forall_lookup_1 _ _ _ _ Hf E (hub s) Hi) as Hk. cbn [snd] in Hk. destruct (k (hub s)) as [t h].
      destruct Hk as [H1 H2].
      split; [exact H1|]. split; [by apply (hf_stable _ _ H1)|]. split; [done|]. split; [done|]. by apply Forall_insert.
  - pose proof (hf_tick (R:=R) (hub s) Hi) as H0.
    pose proof (hf_sweep (R:=R) (clock (ticks (hub s))) (tick (hub s)) (hf_stable _ _ H0 Hi)) as H1.
    assert (R (hub s) (put_mq (Sweep config (clock (ticks (hub s))) (mq (hub s))).2 (tick (hub s)))) as H3 by by etrans.
    split; [exact H3|]. split; [by apply (hf_stable _ _ H3)|done].
  - pose proof (hf_signal (R:=R) (hub s) Hi) as H1. split; [exact H1|]. split; [by apply (hf_stable _ _ H1)|done].
  - destruct (_ && _); [|by apply goes_refl]. pose proof (hf_stop (R:=R) (hub s) Hm Hi) as H1.
    split; [exact H1|]. split; [by apply (hf_stable _ _ H1)|done].
Qed.

Lemma take_move_goes m s :
  (panicked (hub s) = false → move_ok m s) → server_ok s → goes s (take_move config m s).
Proof using HF.
  intros Hm Hs. unfold take_move. destruct (panicked (hub s)) eqn:E; [by apply goes_refl|]. apply server_move_goes; auto.
Qed.

(** Every move of the run is permitted where it is made. *)
Definition run_ok (ms : list Move) (s : Server) : Prop :=
  ∀ pre m post, ms = pre ++ m :: post → panicked (hub (run_server config pre s)) = false →
    move_ok m (run_server config pre s).

Lemma run_server_goes ms s : run_ok ms s → server_ok s → goes s (run_server config ms s).
Proof using HF.
  revert s. induction ms as [|m ms IH]; intros s Hms Hs; [by apply goes_refl|].
  destruct (take_move_goes m s (Hms [] m ms eq_refl) Hs) as [H1 Hs1].
  destruct (IH (take_move config m s)) as [H2 Hs2]; [|done|].
  - intros pre m' post E Hp. exact (Hms (m :: pre) m' post ltac:(by rewrite E) Hp).
  - split; [by etrans|done].
Qed.

Lemma at_rest_ok s :
  I (hub s) → is_ended (hub_run s) = true → map_Forall (λ _ t, is_ended t = true) (readers s) →
  Forall (λ x, is_ended x.2 = true) (flushers s) → server_ok s.
Proof using Type.
  intros Hi Hr Hrd Hf. assert (∀ A (t : thread Hub A), is_ended t = true → turns_keep I R t) as He by by intros A [|].
  split; [done|]. split; [by apply He|]. split; [eapply map_Forall_impl; [exact Hrd|intros; by apply He]|].
  eapply Forall_impl; [exact Hf|]. intros x. apply He.
Qed.
Lemma started_server_ok blocks queues : I (newHub blocks queues) → server_ok (started_server blocks queues).
Proof using Type. intros Hi. by apply at_rest_ok. Qed.
End frame.

(** ** A relay with three addresses and a format with four messages *)
Module SampleServer.
Definition addr_a : string := "pinch:A@h".
Definition addr_b : string := "pinch:B@h".
Definition addr_c : string := "pinch:C@h".
(** From [a] to [b], from [c] to [b], [b] blocks [a], and [b] unblocks [c]. *)
Definition decode_sample (data : bytes) : res Envelope :=
  match data with
  | Byte.x01 :: _ => Ok (envelope addr_a addr_b MESSAGE no_payload)
  | [Byte.x02] => Ok (envelope addr_c addr_b MESSAGE no_payload)
  | [Byte.x03] => Ok (envelope addr_b "" BLOCK_NOTIFICATION (blockNotification (mkBlock addr_b addr_a)))
  | [Byte.x04] => Ok (envelope addr_b "" UNBLOCK_NOTIFICATION (unblockNotification (mkUnblock addr_b addr_c)))
  | _ => Throw "not a message"
  end.
Definition encode_sample (e : Envelope) : res bytes :=
  match env_type e with
  | AUTH_RESULT => Ok [Byte.x10]
  | QUEUE_STATUS => Ok [Byte.x11]
  | QUEUE_FULL => Ok [Byte.x12]
  | RATE_LIMITED => Ok [Byte.x13]
  | _ => Throw "not written"
  end.
#[export] Instance go_libs : GoLibs := {|
  base58_Encode _ := "";
  base58_Decode _ := Throw "not base58";
  ed25519_Verify _ _ _ := false;
  proto_Marshal := encode_sample;
  proto_Unmarshal := decode_sample
|}.
#[export] Instance no_limit : RateLimit := {| Limiter := unit; NewLimiter := tt; limiter_Allow _ l := (true, l) |}.
#[export] Instance seconds : Clock := {| clock := Z.of_nat |}.

Lemma only_unblocks_c data e un :
  decode_sample data = Ok e → env_type e = UNBLOCK_NOTIFICATION → env_payload e = unblockNotification un →
  ubl_unblockedAddress un = addr_c.
Proof.
  destruct data as [|x data]; [discriminate|]. unfold decode_sample. intros He Ht Hp.
  destruct x; try discriminate He; try (destruct data; [|discriminate He]); injection He as <-; try discriminate Ht.
  cbn in Hp. by injection Hp as <-.
Qed.

Definition sample_config : QueueConfig := mkQueueConfig 1000 10000.
(** A client connects, and the hub and [wsHandler] finish with it. *)
Definition comes (c : nat) (addr : string) : list Move :=
  mv_connect addr :: replicate 6 mv_hub ++ [mv_start c true].
(** A client's envelope is read and routed. *)
Definition says (c : nat) (data : bytes) : list Move := mv_read c data :: replicate 6 (mv_reader c).
(** The queues with [n] messages from [a] for [b]. *)
Definition waiting `{Bolt} (n : nat) : Queues :=
  foldl (λ q k, (Enqueue sample_config (Z.of_nat k) addr_b addr_a [Byte.x01] q).2) ∅ (seq 0 n).
End SampleServer.
