(* ===== verification/RelaySafety.v ===== *)
(** What holds of the relay in every run, by instances of [HubFrame]: clients keep
    their addresses, buffers and queues their bounds, what is delivered was sent
    to that address past its blocks, and nothing panics until a client leaves. *)
From S2P Require Import Prelude Threads JsLib Platform Identity Text Envelope RelayStore RelayAuth RelayHub RelayServer.
From stdpp Require Import functions gmap.
From Stdlib Require Import Ascii.

Section facts.
Context `{RL : RateLimit}.

Lemma on_client_all (P : Client → Prop) c f (h : Hub) :
  (∀ cl, conns h !! c = Some cl → P cl → P (f cl)) → Forall P (conns h) → Forall P (conns (on_client c f h)).
Proof. intros Hf Hc. unfold on_client. cbn. by apply Forall_alter. Qed.

(** A change of a client that leaves its address. *)
Lemma alter_addresses c f (l : list Client) :
  (∀ cl, address (f cl) = address cl) → address <$> alter f c l = address <$> l.
Proof.
  intros Hf. revert c. induction l as [|cl l IH]; intros [|c]; cbn; [done..|by rewrite Hf|]. f_equal. apply IH.
Qed.

(** The clients after a stop: each as it was, or closed. *)
Lemma stop_conns (P : list Client → Prop) (h : Hub) :
  P (conns h) → (∀ c l, P l → P (alter close_and_cancel c l)) → P (conns (run_stop h).2).
Proof.
  intros H0 Ha. unfold run_stop, modify. cbn [snd conns put_clients].
  apply (map_fold_weak_ind (λ h' _, P (conns h'))); [exact H0|]. intros a c m h' _ Hh. cbn. by apply Ha.
Qed.
Lemma stop_rest (h : Hub) :
  mq (run_stop h).2 = mq h ∧ blockStore (run_stop h).2 = blockStore h ∧ panicked (run_stop h).2 = panicked h ∧
  clients (run_stop h).2 = ∅.
Proof.
  unfold run_stop, modify. cbn [snd mq blockStore panicked clients put_clients].
  apply (map_fold_weak_ind (λ h' _, mq h' = mq h ∧ blockStore h' = blockStore h ∧ panicked h' = panicked h ∧ ∅ = ∅));
    [done|]. intros a c m h' _ Hh. exact Hh.
Qed.
End facts.

Section addresses.
Context `{GO : GoLibs, BO : Bolt, RL : RateLimit, CK : Clock} (config : QueueConfig) (Q : string → Prop).

(** ** Addresses stay, and are those of the connections *)
Definition same_or_more (h h' : Hub) : Prop :=
  (address <$> conns h) `prefix_of` (address <$> conns h') ∧
  (Forall Q (address <$> conns h) → Forall Q (address <$> conns h')).
Lemma same_addresses h h' : address <$> conns h' = address <$> conns h → same_or_more h h'.
Proof. intros E. unfold same_or_more. by rewrite E. Qed.

Lemma send_addresses c data h : address <$> conns (Send c data h).2 = address <$> conns h.
Proof.
  unfold Send. destruct (conns h !! c) as [cl|]; [|done]. destruct (closed cl); [done|]. destruct (_ <? _); [|done].
  by apply alter_addresses.
Qed.
Lemma accept_addresses c h : address <$> conns (accept_or_refuse c h).2 = address <$> conns h.
Proof.
  unfold accept_or_refuse. destruct (address <$> conns h !! c) as [addr|]; [|done].
  destruct (clients h !! addr); [case_match|]; by apply alter_addresses.
Qed.

#[export] Instance addresses_frame :
  HubFrame config (λ _, True) same_or_more (λ _ _, True) (λ _ _, True) (λ _ _, False)
    (λ l, ∀ cl, last l = Some cl → Q (address cl)) True.
Proof.
  split; try done; try (intros; by apply same_addresses).
  - split; [by intros h; apply same_addresses|]. intros h1 h2 h3 [P1 F1] [P2 F2]. split; [by etrans|auto].
  - intros c v h _. apply same_addresses. by apply alter_addresses.
  - intros c h _. apply same_addresses, accept_addresses.
  - intros a b h _. apply same_addresses. unfold in_blocks. by destruct (Block a b (blockStore h)).
  - intros c data h _ _. apply same_addresses, send_addresses.
  - intros addr b h client _ Hl. unfold same_or_more. cbn [conns put_conns]. rewrite fmap_app. split; [by apply prefix_app_r|]. cbn. intros Hq.
    apply Forall_app. split; [done|]. apply Forall_singleton, Hl. by rewrite last_snoc.
  - intros c h _. apply same_addresses. by apply alter_addresses.
  - intros c data h _ _. apply same_addresses. by apply alter_addresses.
  - intros c data rest sent h _ _. apply same_addresses. apply alter_addresses. by destruct sent.
  - intros h _. apply same_addresses. cbn. rewrite <- list_fmap_compose. by apply list_fmap_ext.
  - intros c h _ _. apply same_addresses. unfold remove_client. cbn. case_match; [|done]. by apply alter_addresses.
  - intros h _ _. apply same_addresses. apply (stop_conns (λ l, address <$> l = address <$> conns h)); [done|].
    intros c l <-. by apply alter_addresses.
Qed.
End addresses.

(** ** What is in the buffers, the queues and the table *)
Section traffic.
Context `{GO : GoLibs, BL : BoltLaws, RL : RateLimit, CK : Clock} (config : QueueConfig).

(** [adrs] are the addresses of the clients of the whole run; [P to data] is what may
    go to an address besides the relay's own messages; [B] are blocks that stay; with
    [leave] false no client leaves. *)
Context (adrs : list string) (P : string → bytes → Prop) (B : string → string → Prop) (leave : bool).

Definition goes_to (a : string) (data : bytes) : Prop := is_notice data ∨ P a data.
Definition client_ok (cl : Client) : Prop :=
  length (send cl) ≤ sendBufferSize ∧ Forall (goes_to (address cl)) (send cl) ∧
  Forall (goes_to (address cl)) (written cl) ∧ (leave = false → closed cl = false).
Definition queued_ok (q : Queues) : Prop :=
  ∀ to sub k m, q !! to = Some sub → items sub !! k = Some (Some m) → P to (q_Envelope m).

Record traffic (h : Hub) : Prop := {
  tr_adrs : (address <$> conns h) `prefix_of` adrs;
  tr_table a c : clients h !! a = Some c → adrs !! c = Some a;
  tr_conns : Forall client_ok (conns h);
  tr_queued : queued_ok (mq h);
  tr_cap : within_cap config (mq h);
  tr_blocks t f : B t f → is_Some (blockStore h !! block_key t f);
  tr_panic : leave = false → panicked h = false
}.
Definition keeps_traffic (h h' : Hub) : Prop := traffic h → traffic h'.
Definition may_send (c : nat) (data : bytes) : Prop := ∀ a, adrs !! c = Some a → goes_to a data.

Lemma client_address h c cl : traffic h → conns h !! c = Some cl → adrs !! c = Some (address cl).
Proof.
  intros Ht Hc. eapply prefix_lookup_Some; [|apply (tr_adrs h Ht)]. by rewrite list_lookup_fmap, Hc.
Qed.

(** A change of one client. *)
Lemma traffic_on_client c f h :
  (∀ cl, address (f cl) = address cl) → (∀ cl, conns h !! c = Some cl → client_ok cl → client_ok (f cl)) →
  traffic h → traffic (on_client c f h).
Proof.
  intros Ha Hf [? ? ? ? ? ? ?]. split; try done; cbn; [by rewrite alter_addresses|]. by apply Forall_alter.
Qed.

Lemma Forall_queued to sub q (Hs : ∀ k m, items sub !! k = Some (Some m) → P to (q_Envelope m)) :
  queued_ok q → queued_ok (<[to := sub]> q).
Proof.
  intros Hq to' sub' k m. destruct (decide (to = to')) as [<-|Hne].
  - rewrite lookup_insert_eq. intros [= <-]. apply Hs.
  - rewrite lookup_insert_ne by done. apply Hq.
Qed.
Lemma lookup_delete_all (ks : list string) (b : gmap string (option queuedMessage)) k v :
  foldl (λ b k, delete k b) b ks !! k = Some v → b !! k = Some v.
Proof.
  revert b. induction ks as [|k' ks IH]; intros b; [done|]. cbn. intros [_ Hk]%IH%lookup_delete_Some. exact Hk.
Qed.

Lemma enqueued_ok now to from data q :
  P to data → queued_ok q → queued_ok (Enqueue config now to from data q).2.
Proof.
  intros Hp Hq. unfold Enqueue. destruct (key_fits to); [|done]. cbn [negb]. destruct (_ <=? _); [done|].
  destruct (key_fits _); [|done]. cbn [snd]. apply Forall_queued; [|done]. cbn [items]. intros k m.
  destruct (decide (encodeKey now ((sequence (sub_of to q) + 1) mod 2 ^ 64) = k)) as [<-|Hne].
  - rewrite lookup_insert_eq. by intros [= <-].
  - rewrite lookup_insert_ne by done. unfold sub_of. destruct (q !! to) as [sub|] eqn:E; [|done]. by apply Hq.
Qed.
Lemma removed_ok addr k q : queued_ok q → queued_ok (Remove addr k q).
Proof.
  intros Hq. unfold Remove. destruct (q !! addr) as [sub|] eqn:E; [|done]. apply Forall_queued; [|done].
  cbn [items]. intros k' m [_ Hm]%lookup_delete_Some. by eapply Hq.
Qed.
Lemma swept_ok now q : queued_ok q → queued_ok (Sweep config now q).2.
Proof.
  intros Hq to sub' k m. unfold Sweep. cbn [snd]. rewrite lookup_fmap. intros (sub & E & ->)%fmap_Some.
  cbn [sweep_sub items]. intros Hm%lookup_delete_all. by eapply Hq.
Qed.
Lemma flushed_ok now a n q e : queued_ok q → e ∈ FlushBatch config now a n q → P a (e_Envelope e).
Proof.
  intros Hq. unfold FlushBatch. destruct (q !! a) as [sub|] eqn:E; [|by intros ?%not_elem_of_nil].
  assert (∀ l m, (∀ k v, (k, Some v) ∈ l → P a (q_Envelope v)) → e ∈ flush_scan config now m l → P a (e_Envelope e)) as Hscan.
  { induction l as [|[k [v|]] l IH]; intros [|m] Hl; cbn [flush_scan]; try by intros ?%not_elem_of_nil.
    - destruct (is_expired config now v); [apply IH; intros; eapply Hl; by right|].
      intros [->|He]%elem_of_cons; [eapply (Hl k); by left|]. eapply IH; [|exact He]. intros; eapply Hl; by right.
    - apply IH. intros; eapply Hl; by right. }
  apply Hscan. intros k v Hv%elem_of_cursor. by eapply Hq.
Qed.

(** *** Every access keeps it *)
Lemma send_traffic c data h : may_send c data → traffic h → traffic (Send c data h).2.
Proof.
  intros Hd Ht. unfold Send. destruct (conns h !! c) as [cl|] eqn:Ec; [|done].
  pose proof (Forall_lookup_1 _ _ _ _ (tr_conns h Ht) Ec) as (_ & _ & _ & Hopen).
  destruct (closed cl) eqn:Eo.
  - assert (leave = true) as El by (apply not_false_is_true; intros El; by specialize (Hopen El)).
    destruct Ht. by split; try done.
  - destruct (_ <? _) eqn:Es; [|done]. cbn [snd]. apply traffic_on_client; [done| |done].
    intros cl' Ec' (Hl & Hs & Hw & Ho). rewrite Ec in Ec'. injection Ec' as <-. apply Nat.ltb_lt in Es.
    split; [cbn; rewrite length_app; cbn; lia|]. split; [|done]. cbn. apply Forall_app. split; [done|].
    apply Forall_singleton, Hd. by eapply client_address.
Qed.
Lemma accept_traffic c h : traffic h → traffic (accept_or_refuse c h).2.
Proof.
  intros Ht. unfold accept_or_refuse. destruct (conns h !! c) as [cl|] eqn:Ec; [|done]. cbn [fmap option_fmap option_map].
  assert (∀ b h', traffic h' → traffic (on_client c (put_registered b) h')) as Hr
    by (intros b h' Hh; by apply traffic_on_client).
  destruct (clients h !! address cl); [case_match; by apply Hr|]. apply Hr. cbn. destruct Ht as [? Htab ? ? ? ? ?].
  split; try done. intros a c'. cbn [clients put_clients].
  destruct (decide (address cl = a)) as [<-|Hne]; [rewrite lookup_insert_eq|rewrite lookup_insert_ne by done; apply Htab].
  intros [= <-]. eapply client_address; [|exact Ec]. by split.
Qed.
Lemma close_ok cl : leave = true → client_ok cl → client_ok (close_and_cancel cl).
Proof. intros E (? & ? & ? & ?). split_and!; try done. cbn. by rewrite E. Qed.
Lemma remove_traffic c h : leave = true → traffic h → traffic (remove_client c h).2.
Proof.
  intros El Ht. unfold remove_client, modify. cbn [snd]. destruct (bool_decide _); [|done].
  apply traffic_on_client; [done|intros cl _; by apply close_ok|]. destruct Ht as [? Htab ? ? ? ? ?]. split; try done.
  cbn. intros a c' [_ Ha]%lookup_delete_Some. by apply Htab.
Qed.
Lemma stop_traffic h : leave = true → traffic h → traffic (run_stop h).2.
Proof.
  intros El [Hp Htab Hc Hq Hcap Hb Hpan]. destruct (stop_rest h) as (E1 & E2 & E3 & E4).
  split; rewrite ?E1, ?E2, ?E3, ?E4; try done.
  - apply (stop_conns (λ l, (address <$> l) `prefix_of` adrs)); [done|]. intros c l. by rewrite alter_addresses.
  - apply (stop_conns (Forall client_ok)); [done|]. intros c l Hl. apply Forall_alter; [done|].
    intros cl _. by apply close_ok.
Qed.
Lemma new_traffic addr (b : bool) h :
  let client := if b then Close (NewClient addr) else NewClient addr in
  traffic h → (address <$> conns h ++ [client]) `prefix_of` adrs → traffic (put_conns (conns h ++ [client]) h).
Proof.
  intros client [? ? Hc ? ? ? ?] Hp. split; try done. cbn. apply Forall_app. split; [done|]. apply Forall_singleton.
  subst client. destruct b; (split; [cbn; lia|]); by repeat constructor.
Qed.
Lemma pop_traffic c data rest (sent : bool) h :
  traffic h → send <$> conns h !! c = Some (data :: rest) →
  traffic (on_client c (if sent then λ cl, put_written (written cl ++ [data]) (put_send rest cl) else put_send rest) h).
Proof.
  intros Ht Es. apply traffic_on_client; [by destruct sent| |done]. intros cl Ec (Hl & Hs & Hw & Ho).
  rewrite Ec in Es. injection Es as Es. rewrite Es in Hl, Hs. apply Forall_cons in Hs as [Hd Hr].
  destruct sent; (split; [cbn in *; lia|]); [|done]. split; [done|]. split; [|done]. cbn.
  apply Forall_app. split; [done|by apply Forall_singleton].
Qed.
Lemma mq_traffic q h : traffic h → queued_ok q → within_cap config q → traffic (put_mq q h).
Proof. intros [? ? ? ? ? ? ?]. by split. Qed.

#[export] Instance traffic_frame :
  HubFrame config traffic keeps_traffic P may_send B (λ l, (address <$> l) `prefix_of` adrs) (leave = true).
Proof.
  split; unfold keeps_traffic; try done.
  - split; [by intros h|]. intros h1 h2 h3; auto.
  - intros h _ [? ? ? ? ? ? ?]; by split.
  - intros m l h _ [? ? ? ? ? ? ?]; by split.
  - intros l h _ [? ? ? ? ? ? ?]; by split.
  - intros c v h _. by apply traffic_on_client.
  - intros c h _. apply accept_traffic.
  - intros a b h _ [? ? ? ? ? Hb ?]. unfold in_blocks, Block. destruct (key_fits _); [|by split].
    split; try done. cbn. intros t f Ht. destruct (decide (block_key a b = block_key t f)) as [->|Hne];
      [by rewrite lookup_insert_eq|rewrite lookup_insert_ne by done; by apply Hb].
  - intros a b h _ Hne [? ? ? ? ? Hb ?]. split; try done. cbn. intros t f Ht.
    rewrite lookup_delete_ne by by apply Hne. by apply Hb.
  - intros t f h Ht Hb. unfold IsBlocked. apply bool_decide_eq_true_2. by apply (tr_blocks h Ht).
  - intros now to from data h _ Hp Ht. apply mq_traffic; [done|apply enqueued_ok, tr_queued|apply enqueue_cap, tr_cap]; done.
  - intros addr k h _ Ht. apply mq_traffic; [done|apply removed_ok, tr_queued|apply remove_cap, tr_cap]; done.
  - intros now h _ Ht. apply mq_traffic; [done|apply swept_ok, tr_queued|apply sweep_cap, tr_cap]; done.
  - intros c data h _ Hd. by apply send_traffic.
  - intros c data Hn a _. by left.
  - intros to c data h Ht Hto Hp a Ha. right. apply (tr_table h Ht) in Hto. rewrite Hto in Ha. by injection Ha as <-.
  - intros c now e h Ht. unfold client_entries. destruct (conns h !! c) as [cl|] eqn:Ec; [|by intros ?%not_elem_of_nil].
    intros He a Ha. right. rewrite (client_address h c cl Ht Ec) in Ha. injection Ha as <-.
    eapply flushed_ok; [apply (tr_queued h Ht)|exact He].
  - cbv zeta. intros addr b h _ Hp Ht. by apply new_traffic.
  - intros c h _. by apply traffic_on_client.
  - intros c data h _ Hn. apply traffic_on_client; [done|]. intros cl _ (Hl & Hs & Hw & Ho).
    split; [done|]. split; [done|]. split; [|done]. cbn. apply Forall_app. split; [done|]. apply Forall_singleton. by left.
  - intros c data rest sent h _ Es Ht. by apply pop_traffic.
  - intros h _ [? ? Hc ? ? ? ?]. split; try done; cbn.
    + by rewrite <- list_fmap_compose.
    + apply Forall_fmap. eapply Forall_impl; [exact Hc|]. by intros cl.
  - intros c h El _. by apply remove_traffic.
  - intros h El _. by apply stop_traffic.
Qed.
End traffic.

(** ** Runs *)
Section runs.
Context `{GO : GoLibs, BL : BoltLaws, RL : RateLimit, CK : Clock} (config : QueueConfig).
Context (blocks : Blocks).

Abbreviation run ms s := (run_server config ms s).
Abbreviation start := (started_server blocks ∅).
Abbreviation addresses s := (address <$> conns (hub s)).

(** Clients are only added, with the addresses they connect with. *)
Lemma addresses_run (Q : string → Prop) pre ms :
  (∀ a, mv_connect a ∈ pre ++ ms → Q a) →
  addresses (run pre start) `prefix_of` addresses (run ms (run pre start)) ∧
  Forall Q (addresses (run ms (run pre start))).
Proof.
  intros Hq.
  assert (∀ ms s, (∀ a, mv_connect a ∈ ms → Q a) →
    run_ok config (λ _ _, True) (λ _ _, False) (λ l, ∀ cl, last l = Some cl → Q (address cl)) True ms s) as Hok.
  { intros ms' s Hms p m post -> _. destruct m; try done.
    - intros _ cl. rewrite last_snoc. intros [= <-]. destruct (signalled _); cbn; apply Hms; set_solver.
    - intros env _. destruct (env_type env); try (by right); try done. by destruct (env_payload env). }
  destruct (run_server_goes config (λ _, True) (same_or_more Q) (λ _ _, True) (λ _ _, True) (λ _ _, False)
    (λ l, ∀ cl, last l = Some cl → Q (address cl)) True pre start) as [[_ F1] Hs];
    [apply Hok; set_solver|by apply started_server_ok|].
  destruct (run_server_goes config (λ _, True) (same_or_more Q) (λ _ _, True) (λ _ _, True) (λ _ _, False)
    (λ l, ∀ cl, last l = Some cl → Q (address cl)) True ms (run pre start)) as [[P2 F2] _];
    [apply Hok; set_solver|done|]. split; [exact P2|]. apply F2, F1. by constructor.
Qed.
Lemma addresses_prefix pre ms : addresses (run pre start) `prefix_of` addresses (run ms (run pre start)).
Proof. by apply (addresses_run (λ _, True)). Qed.

(** A run whose reads are all in order keeps what the buffers and queues hold. *)
Lemma traffic_run (P : string → bytes → Prop) (B : string → string → Prop) (leave : bool) pre ms :
  let s := run pre start in
  let adrs := addresses (run ms s) in
  server_ok (traffic config adrs P B leave) (keeps_traffic config adrs P B leave) s →
  (∀ p c data post, ms = p ++ mv_read c data :: post → read_ok P B (address_of c (hub (run p s))) data) →
  (leave = true ∨ Forall (λ m, match m with mv_unregister _ | mv_stop => False | _ => True end) ms) →
  traffic config adrs P B leave (hub (run ms s)) ∧
  server_ok (traffic config adrs P B leave) (keeps_traffic config adrs P B leave) (run ms s).
Proof.
  intros s adrs Hs Hread Hleave.
  assert (run_ok config P B (λ l, (address <$> l) `prefix_of` adrs) (leave = true) ms s) as Hok.
  { intros p m post Ems Hp.
    assert (leave = true ∨ match m with mv_unregister _ | mv_stop => False | _ => True end) as Hm.
    { destruct Hleave as [|Hf]; [by left|right]. rewrite Ems in Hf. by apply Forall_app in Hf as [_ [? _]%Forall_cons]. }
    destruct m as [addr| | | | | | | | | | | | |]; try done; try (by destruct Hm).
    - intros Hidle. assert (addresses (run ms s) = addresses (run post (run (pre ++ p ++ [mv_connect addr]) start))) as E.
      { unfold s. rewrite <- !run_server_app. by rewrite Ems, <- !app_assoc. }
      unfold adrs. rewrite E.
      etrans; [|apply addresses_prefix]. rewrite !run_server_app. fold s.
      change (run [mv_connect addr] (run p s)) with (take_move config (mv_connect addr) (run p s)). unfold take_move. rewrite Hp. cbn [server_move]. rewrite Hidle. cbn. by destruct (signalled _).
    - cbn [move_ok]. by eapply Hread. }
  pose proof (run_server_goes config (traffic config adrs P B leave) (keeps_traffic config adrs P B leave) P
    (may_send adrs P) B (λ l, (address <$> l) `prefix_of` adrs) (leave = true) ms s Hok Hs) as [Hr Hs'].
  split; [|exact Hs']. by apply Hr, Hs.
Qed.

Lemma traffic_start (P : string → bytes → Prop) leave adrs :
  server_ok (traffic config adrs P (λ _ _, False) leave) (keeps_traffic config adrs P (λ _ _, False) leave) start.
Proof.
  apply started_server_ok. split; cbn; try done.
  - apply prefix_nil.
  - intros to. unfold Count. rewrite lookup_empty. lia.
Qed.

(** *** What is delivered *)
Definition is_command (e : Envelope) : bool :=
  match env_type e with BLOCK_NOTIFICATION | UNBLOCK_NOTIFICATION => true | _ => false end.

(** In the run of [ms] from [s], [d] is read from a client that has the address [x]. *)
Definition sent_by (s : Server) (ms : list Move) (x : string) (d : bytes) : Prop :=
  ∃ p c post, ms = p ++ mv_read c d :: post ∧ address_of c (hub (run p s)) = x.
(** It is an envelope to [to]. *)
Definition addressed (to : string) (d : bytes) : Prop :=
  ∃ e, proto_Unmarshal d = Ok e ∧ env_toAddress e = to ∧ is_command e = false.
Definition was_sent (ms : list Move) (to : string) (d : bytes) : Prop :=
  addressed to d ∧ ∃ x, sent_by start ms x d.

Lemma read_ok_read (P : string → bytes → Prop) B f d :
  (∀ t f', B t f' → False) →
  (∀ e, proto_Unmarshal d = Ok e → is_command e = false → P (env_toAddress e) d) → read_ok P B f d.
Proof.
  intros HB HP e He. specialize (HP e He). unfold is_command in HP.
  destruct (env_type e); try (right; by apply HP); [done|]. destruct (env_payload e); try done.
  intros t f' Hb. by destruct (HB _ _ Hb).
Qed.

Lemma relay_traffic ms :
  let s := run ms start in
  traffic config (addresses s) (was_sent ms) (λ _ _, False) true (hub s).
Proof.
  apply (traffic_run (was_sent ms) (λ _ _, False) true [] ms); [apply traffic_start| |by left].
  intros p c data post Ems. apply read_ok_read; [done|]. intros e He Hc.
  split; [by exists e|]. eexists _, p, c, post. by split.
Qed.

(** C4. The relay delivers what was sent: in every run of the relay, with connections,
    envelopes, failures and goroutines in any order, whatever it has written to a
    client is a message of its own or the very bytes some client sent, in an envelope
    addressed to exactly this client's address. *)
Theorem relay_delivers_what_was_sent ms c cl d :
  let s := run ms start in
  conns (hub s) !! c = Some cl → d ∈ written cl → is_notice d ∨ was_sent ms (address cl) d.
Proof.
  intros s Hc Hd. destruct (Forall_lookup_1 _ _ _ _ (tr_conns _ _ _ _ _ _ (relay_traffic ms)) Hc) as (_ & _ & Hw & _).
  rewrite Forall_forall in Hw. by apply Hw.
Qed.

(** *** Bounds *)
(** C33. However slow the clients and however many messages come in: no client's buffer
    holds more than 256 messages, and no queue more than its cap. *)
Theorem relay_bounds ms :
  let s := run ms start in
  Forall (λ cl, length (send cl) ≤ sendBufferSize) (conns (hub s)) ∧ ∀ a, Count a (mq (hub s)) ≤ maxPerAgent config.
Proof.
  intros s. pose proof (relay_traffic ms) as Ht. split; [|by apply (tr_cap _ _ _ _ _ _ Ht)].
  eapply Forall_impl; [apply (tr_conns _ _ _ _ _ _ Ht)|]. by intros cl [? _].
Qed.

(** *** Panics *)
Lemma no_panic_before_leaving ms :
  Forall (λ m, match m with mv_unregister _ | mv_stop => False | _ => True end) ms →
  panicked (hub (run ms start)) = false.
Proof.
  intros Hl. destruct (traffic_run (λ _ _, True) (λ _ _, False) false [] ms) as [Ht _];
    [apply traffic_start| |by right|by apply (tr_panic _ _ _ _ _ _ Ht)].
  intros p c data post _. by apply read_ok_read.
Qed.

(** *** Blocks *)
Definition at_rest (s : Server) : Prop :=
  is_ended (hub_run s) = true ∧ map_Forall (λ _ t, is_ended t = true) (readers s) ∧
  Forall (λ x, is_ended x.2 = true) (flushers s).

(** What an address has been given or is queued for it. *)
Definition holds (s : Server) (a : string) (d : bytes) : Prop :=
  (∃ c cl, conns (hub s) !! c = Some cl ∧ address cl = a ∧ (d ∈ send cl ∨ d ∈ written cl)) ∨
  (∃ sub k m, mq (hub s) !! a = Some sub ∧ items sub !! k = Some (Some m) ∧ q_Envelope m = d).

(** An address the relay makes, of a client at [host]. *)
Definition made_at (host a : string) : Prop :=
  ∃ p, str_forall is_base58 p = true ∧ a = "pinch:" +:+ p +:+ "@" +:+ host.
Lemma block_key_inj host a x y z :
  made_at host a → made_at host x ∨ x = "" → block_key x y = block_key a z → x = a ∧ y = z.
Proof.
  intros (p & Hp & ->) [(p' & Hp' & ->)| ->]; [|done]. unfold block_key. rewrite !str_app_assoc.
  intros E%(inj (String.append "pinch:")).
  apply (f_equal (span is_base58)) in E. cbn [String.append] in E.
  change ("@" +:+ host +:+ ":" +:+ ?s) with (String "@"%char (host +:+ ":" +:+ s)) in E.
  rewrite !span_app in E by done. injection E as -> E. split; [done|].
  apply (inj (String.append host)) in E. by apply (inj (String.append ":")) in E.
Qed.

(** C5. A block holds: once it is in the store and nothing is under way, whatever else
    then happens, as long as the blocking agent itself does not ask for the
    unblocking, everything that is written to it, waits in its buffer or is queued
    for it from then on is a message of the relay's, was there before, or was
    sent by another address than the blocked one. *)
Theorem blocked_stays_out host pre ms a b d :
  let s := run pre start in
  let s' := run ms s in
  at_rest s → IsBlocked b a (blockStore (hub s)) = true →
  (∀ x, mv_connect x ∈ pre ++ ms → made_at host x) → made_at host b →
  (∀ data e un, sent_by s ms b data → proto_Unmarshal data = Ok e → env_type e = UNBLOCK_NOTIFICATION →
     env_payload e = unblockNotification un → ubl_unblockedAddress un ≠ a) →
  holds s' b d →
  is_notice d ∨ holds s b d ∨ ∃ x, x ≠ a ∧ sent_by s ms x d.
Proof.
  intros s s' (Hrun & Hrd & Hfl) Hb Hmade Hbmade Hun Hd.
  set (P := λ to d, to = b → holds s b d ∨ ∃ x, x ≠ a ∧ sent_by s ms x d).
  set (B := λ t f, t = b ∧ f = a). set (adrs := addresses s').
  assert (traffic config adrs P B true (hub s)) as Ht.
  { destruct (relay_traffic pre) as [_ Htab Hc Hq Hcap _ _]. fold s in Htab, Hc, Hq, Hcap. split; try done.
    - apply addresses_prefix.
    - intros x c Hx. eapply prefix_lookup_Some; [by apply Htab|apply addresses_prefix].
    - apply Forall_lookup. intros c cl Ec. pose proof (Forall_lookup_1 _ _ _ _ Hc Ec) as (Hl & Hs & Hw & _).
      split; [done|]. split; [|split; [|done]]; apply Forall_forall; intros x Hx; right; intros Ea; left; left;
        exists c, cl; auto.
    - intros to sub k m E1 E2 ->. left. right. by exists sub, k, m.
    - intros t f [-> ->]. by apply bool_decide_eq_true in Hb. }
  assert (∀ p c post data, ms = p ++ mv_read c data :: post → read_ok P B (address_of c (hub (run p s))) data) as Hread.
  { intros p c post data Ems e He. set (x := address_of c (hub (run p s))).
    assert (sent_by s ms x data) as Hx by (by exists p, c, post).
    assert (made_at host x ∨ x = "") as Hxm.
    { destruct (addresses_run (made_at host) pre p) as [_ Hall].
      - intros y Hy. apply Hmade. rewrite Ems. set_solver.
      - fold s in Hall. unfold x, address_of. destruct (conns (hub (run p s)) !! c) as [cl|] eqn:Ec; [left|by right].
        cbn. eapply Forall_lookup_1; [exact Hall|]. by rewrite list_lookup_fmap, Ec. }
    assert (∀ to, B to x ∨ P to data) as Hdef.
    { intros to. destruct (decide (to = b)) as [Eb|Hb']; [|right; intros ?; done].
      destruct (decide (x = a)) as [Ea|Hne]; [by left|]. right. intros _. right. by exists x. }
    destruct (env_type e) eqn:Et; try apply Hdef; [done|]. destruct (env_payload e) as [| | | | | | | | | |un| | | | |] eqn:Ep;
      try done. intros t f [-> ->] E. destruct (block_key_inj host b x _ a Hbmade Hxm E) as [Eb Ea].
    rewrite Eb in Hx. by apply (Hun data e un Hx He Et Ep). }
  destruct (traffic_run P B true pre ms) as [Ht' _]; [by apply at_rest_ok|exact (λ p c data post, Hread p c post data)|by left|].
  fold s s' in Ht'.
  assert (goes_to P b d) as [|Hp]; [|by left|right; by apply Hp].
  destruct Hd as [(c & cl & Ec & Ea & Hd)|(sub & k & m & E1 & E2 & <-)].
  - pose proof (Forall_lookup_1 _ _ _ _ (tr_conns _ _ _ _ _ _ Ht') Ec) as (_ & Hs & Hw & _). rewrite Ea in Hs, Hw.
    rewrite Forall_forall in Hs, Hw. destruct Hd; auto.
  - right. by apply (tr_queued _ _ _ _ _ _ Ht' b sub k m).
Qed.
End runs.

Section witnesses.
Import SampleBolt SampleServer.

Lemma relay_delivers_what_was_sent_witness :
  let ms := comes 0 addr_a ++ comes 1 addr_b ++ says 0 [Byte.x01] ++ replicate 3 (mv_write 1 true) in
  (written <$> conns (hub (run_server sample_config ms (started_server ∅ ∅))) !! 1) = Some [[Byte.x10]; [Byte.x01]] ∧
  (is_notice [Byte.x01] ∨ was_sent sample_config ∅ ms addr_b [Byte.x01]).
Proof.
  intros ms. assert (∃ cl, conns (hub (run_server sample_config ms (started_server ∅ ∅))) !! 1 = Some cl ∧
    address cl = addr_b ∧ written cl = [[Byte.x10]; [Byte.x01]]) as (cl & Hc & Ha & Hw).
  { eexists. split; [vm_compute; reflexivity|]. by split. }
  split; [by rewrite Hc, <- Hw|]. rewrite <- Ha.
  apply (relay_delivers_what_was_sent sample_config ∅ ms 1 cl [Byte.x01] Hc). rewrite Hw. by apply list_elem_of_further, list_elem_of_here.
Defined.

Lemma relay_bounds_witness :
  let s := run_server sample_config (comes 0 addr_a ++ says 0 [Byte.x01] ++ says 0 [Byte.x01; Byte.x02])
    (started_server ∅ ∅) in
  Count addr_b (mq (hub s)) = 2 ∧
  Forall (λ cl, length (send cl) ≤ sendBufferSize) (conns (hub s)) ∧
  ∀ a, Count a (mq (hub s)) ≤ maxPerAgent sample_config.
Proof.
  intros s. split; [vm_compute; reflexivity|].
  exact (relay_bounds sample_config ∅ (comes 0 addr_a ++ says 0 [Byte.x01] ++ says 0 [Byte.x01; Byte.x02])).
Defined.

Lemma blocked_stays_out_witness :
  let pre := comes 0 addr_a ++ comes 1 addr_b ++ comes 2 addr_c ++ says 1 [Byte.x03] in
  let ms := says 0 [Byte.x01] ++ says 1 [Byte.x04] ++ says 2 [Byte.x02] in
  let s := run_server sample_config pre (started_server ∅ ∅) in
  (send <$> conns (hub (run_server sample_config ms s)) !! 1) = Some [[Byte.x02]] ∧
  (is_notice [Byte.x02] ∨ holds s addr_b [Byte.x02] ∨ ∃ x, x ≠ addr_a ∧ sent_by sample_config s ms x [Byte.x02]).
Proof.
  intros pre ms s. assert (∃ cl, conns (hub (run_server sample_config ms s)) !! 1 = Some cl ∧
    address cl = addr_b ∧ send cl = [[Byte.x02]]) as (cl & Hc & Ha & Hw).
  { eexists. split; [vm_compute; reflexivity|]. by split. }
  split; [by rewrite Hc, <- Hw|].
  apply (blocked_stays_out sample_config ∅ "h" pre ms addr_a addr_b).
  - split; [vm_compute; reflexivity|].
    split; eapply bool_decide_eq_true_1; vm_compute; reflexivity.
  - vm_compute. reflexivity.
  - intros x Hx. assert (x = addr_a ∨ x = addr_b ∨ x = addr_c) as [->|[->| ->]];
      [|exists "A"; split; vm_compute; reflexivity|exists "B"; split; vm_compute; reflexivity
       |exists "C"; split; vm_compute; reflexivity].
    apply list_elem_of_In in Hx. cbn in Hx.
    repeat (destruct Hx as [Hx|Hx]; [try discriminate Hx; injection Hx as <-; auto|]). destruct Hx.
  - exists "B". split; vm_compute; reflexivity.
  - intros data e un _ He Ht Hp. rewrite (only_unblocks_c data e un He Ht Hp). discriminate.
  - left. exists 1, cl. split; [exact Hc|]. split; [exact Ha|]. left. rewrite Hw. apply list_elem_of_here.
Defined.
End witnesses.
