(* ===== verification/RelayRaces.v ===== *)
(** What the relay's goroutines can do to each other: a flush loses what does not fit
    the client's buffer, a client that leaves in the middle of its flush ends the
    relay, and a message that comes in at the end of a flush is left behind. *)
From S2P Require Import Prelude Threads JsLib Platform Envelope RelayStore RelayAuth RelayHub RelayServer.
From stdpp Require Import functions gmap.

Section races.
Context `{GO : GoLibs, BO : Bolt, RL : RateLimit, CK : Clock} (config : QueueConfig).

Abbreviation alone_run m := (alone (S := Hub) Datatypes.id m).

Lemma alone_atomic_bind {A B} (m : M Hub A) (f : A → Async Hub B) h :
  alone_run (a ← atomic m; f a) h =
  match m h with (Ok a, h') => alone_run (f a) h' | (Throw e, h') => (Throw e, h') end.
Proof.
  rewrite alone_bind. unfold alone at 1. cbn. unfold sync, Datatypes.id. destruct (m h) as [[a|e] h']; reflexivity.
Qed.
Lemma alone_atomic {A} (m : M Hub A) h : alone_run (atomic m) h = m h.
Proof. unfold alone. cbn. unfold sync, Datatypes.id. by destruct (m h). Qed.

(** ** A flush and a full buffer *)
(** The hub after the entries of a batch were handled: what fits is in the buffer,
    and all of them are out of the queue. *)
Definition flushed (c : nat) (a : string) (es : list QueueEntry) (h : Hub) : Hub :=
  put_mq (foldl (λ q e, Remove a (e_Key e) q) (mq h) es)
    (on_client c (λ cl, put_send (send cl ++ take (sendBufferSize - length (send cl)) (e_Envelope <$> es)) cl) h).

Lemma alter_id_at {A} (f : A → A) i (l : list A) : (∀ x, l !! i = Some x → f x = x) → alter f i l = l.
Proof.
  intros Hf. apply list_eq. intros j. rewrite list_lookup_alter. destruct (decide (i = j)) as [->|]; [|done].
  destruct (l !! j) eqn:E; [|done]. cbn. by rewrite Hf.
Qed.
Lemma alter_same {A} (f g : A → A) i (l : list A) : (∀ x, l !! i = Some x → f x = g x) → alter f i l = alter g i l.
Proof.
  intros Hf. apply list_eq. intros j. rewrite !list_lookup_alter. destruct (decide (i = j)) as [->|]; [|done].
  destruct (l !! j) eqn:E; [|done]. cbn. by rewrite Hf.
Qed.

Lemma flush_entries_alone c cl es h :
  conns h !! c = Some cl → closed cl = false →
  alone_run (flush_entries c es) h = (Ok tt, flushed c (address cl) es h).
Proof.
  revert h cl. induction es as [|e es IH]; intros h cl Hc Ho.
  - cbn. f_equal. unfold flushed. cbn. unfold on_client, put_mq, put_conns. cbn.
    rewrite alter_id_at; [by destruct h|]. intros cl' _. destruct cl'. unfold put_send. cbn -[take]. by rewrite take_nil, app_nil_r.
  - cbn [flush_entries]. rewrite alone_atomic_bind.
    assert (∃ h1 cl1, Send c (e_Envelope e) h = (Ok tt, h1) ∧ conns h1 !! c = Some cl1 ∧ closed cl1 = false ∧
      address cl1 = address cl ∧ mq h1 = mq h ∧
      (∀ q es', put_mq q (on_client c (λ cl, put_send (send cl ++ take (sendBufferSize - length (send cl)) es') cl) h1) =
        put_mq q (on_client c (λ cl, put_send (send cl ++ take (sendBufferSize - length (send cl)) (e_Envelope e :: es')) cl) h)))
      as (h1 & cl1 & -> & Hc1 & Ho1 & Ha1 & Hq1 & Hf1).
    { unfold Send. rewrite Hc, Ho. destruct (_ <? _) eqn:Es.
      - eexists _, _. split; [reflexivity|]. cbn. rewrite list_lookup_alter_eq, Hc. split; [reflexivity|].
        split; [done|]. split; [done|]. split; [done|]. intros q es'. unfold on_client, put_mq, put_conns. cbn. f_equal.
        apply list_eq. intros j. destruct (decide (c = j)) as [<-|]; [|by rewrite !list_lookup_alter_ne].
        rewrite !list_lookup_alter_eq, Hc. cbn -[sendBufferSize]. f_equal. unfold put_send. cbn -[sendBufferSize]. f_equal.
        apply Nat.ltb_lt in Es. rewrite length_app. cbn [length].
        unfold sendBufferSize in *.
        assert (256 - length (send cl) = S (256 - (length (send cl) + 1))) as -> by lia.
        cbn [firstn]. by rewrite <- app_assoc.
      - exists h, cl. split; [done|]. split; [done|]. split; [done|]. split; [done|]. split; [done|]. intros q es'.
        unfold on_client, put_mq, put_conns. cbn. f_equal. apply alter_same. intros x Hx. rewrite Hc in Hx. injection Hx as <-.
        apply Nat.ltb_ge in Es. unfold sendBufferSize in *.
        by assert (256 - length (send cl) = 0) as -> by lia. }
    rewrite alone_atomic_bind. cbn [modify].
    rewrite (IH _ cl1) by done. f_equal. unfold flushed. cbn [mq put_mq foldl fmap list_fmap].
    unfold address_of. rewrite Hc1, Ha1, Hq1. cbn [fmap option_fmap option_map default from_option]. rewrite Ha1.
    etrans; [|apply Hf1]. done.
Qed.

Lemma removed_all a es q sub e :
  foldl (λ q e, Remove a (e_Key e) q) q es !! a = Some sub → e ∈ es → items sub !! e_Key e = None.
Proof.
  intros Hs He. destruct (q !! a) as [s0|] eqn:E.
  - rewrite (drain_items a es q s0 E), lookup_insert_eq in Hs. injection Hs as <-. cbn [items].
    apply (list_elem_of_fmap_2 e_Key) in He. revert He. generalize (items s0) as b. generalize (e_Key <$> es) as ks. clear.
    induction ks as [|k ks IH]; intros b Hk; [by apply not_elem_of_nil in Hk|]. cbn.
    assert (∀ b : gmap string (option queuedMessage), b !! e_Key e = None →
      foldl (λ b k, delete k b) b ks !! e_Key e = None) as Hd.
    { clear. induction ks as [|k ks IH]; intros b Hb; [done|]. cbn. apply IH. rewrite lookup_delete_None. by right. }
    apply elem_of_cons in Hk as [<-|Hk]; [apply Hd, lookup_delete_eq|by apply IH].
  - exfalso. clear He. revert q E Hs. induction es as [|e' es IH]; intros q E; [cbn; congruence|]. cbn.
    assert (Remove a (e_Key e') q = q) as -> by (unfold Remove; by rewrite E). by apply IH.
Qed.

(** C21. A flush loses what does not fit: while the client's writer does not get to run, a
    round of the flush puts into the client's buffer what there is room for, drops the
    rest of the batch, and has taken the whole batch out of the durable queue. *)
Theorem flush_loses_overflow c cl h :
  conns h !! c = Some cl → closed cl = false → cancelled cl = false →
  let es := client_entries config c (clock (ticks h)) h in
  es ≠ [] →
  let '(r, h') := alone Datatypes.id (flush_round config c) h in
  r = Ok true ∧
  conns h' !! c = Some (put_send (send cl ++ take (sendBufferSize - length (send cl)) (e_Envelope <$> es)) cl) ∧
  ∀ sub e, mq h' !! address cl = Some sub → e ∈ es → items sub !! e_Key e = None.
Proof.
  intros Hc Ho Hn es Hes. unfold flush_round. rewrite alone_atomic_bind. unfold gets at 1.
  assert (default true (cancelled <$> conns h !! c) = false) as -> by (rewrite Hc; exact Hn). rewrite alone_atomic_bind.
  unfold mbind at 1, M_bind at 1, read_clock, gets.
  assert (client_entries config c (clock (ticks h)) (tick h) = es) as -> by done.
  destruct es as [|e0 es0] eqn:Ees; [done|]. rewrite alone_bind.
  rewrite (flush_entries_alone c cl _ (tick h)) by done. split; [done|]. split.
  - unfold flushed. cbn [conns put_mq on_client put_conns tick]. by rewrite list_lookup_alter_eq, Hc.
  - intros sub e. unfold flushed. cbn [mq put_mq tick]. apply removed_all.
Qed.

(** ** Moves of one goroutine *)
Definition flusher_turn (c : nat) (x : thread Hub bool * Hub) : thread Hub bool * Hub :=
  match x.1 with
  | suspended k => k x.2
  | ended (Ok true) => flush_round config c x.2
  | t => (t, x.2)
  end.
Definition reader_turn (x : thread Hub unit * Hub) : thread Hub unit * Hub :=
  match x.1 with suspended k => k x.2 | t => (t, x.2) end.

Fixpoint iter {A} (k : nat) (f : A → A) (x : A) : A := match k with O => x | S k => iter k f (f x) end.

Lemma put_flusher_same n c t s : flushers s !! n = Some (c, t) → put_flusher n c (t, hub s) s = s.
Proof. intros Hn. destruct s. unfold put_flusher. cbn in *. by rewrite list_insert_id. Qed.
Lemma put_reader_same c t s : readers s !! c = Some t → put_reader c (t, hub s) s = s.
Proof. intros Hn. destruct s. unfold put_reader. cbn in *. by rewrite insert_id. Qed.

Lemma flusher_moves k n c x s :
  is_Some (flushers s !! n) → (∀ j, j < k → panicked (iter j (flusher_turn c) x).2 = false) →
  run_server config (replicate k (mv_flusher n)) (put_flusher n c x s) = put_flusher n c (iter k (flusher_turn c) x) s.
Proof.
  revert x. induction k as [|k IH]; intros x Hn Hp; [done|]. cbn [replicate run_server foldl].
  assert (take_move config (mv_flusher n) (put_flusher n c x s) = put_flusher n c (flusher_turn c x) s) as ->.
  { unfold take_move. pose proof (Hp 0 ltac:(lia)) as H0. cbn in H0. cbn [hub put_flusher]. rewrite H0.
    cbn [server_move]. unfold put_flusher at 1. cbn [flushers]. rewrite list_lookup_insert_eq by by apply lookup_lt_is_Some.
    unfold flusher_turn. destruct x as [[[[]|]|k'] h]; cbn [fst snd];
      unfold put_flusher; cbn; by rewrite ?list_insert_insert_eq. }
  apply IH; [done|]. intros j Hj. apply (Hp (S j)). lia.
Qed.
Lemma reader_moves k c x s :
  (∀ j, j < k → panicked (iter j reader_turn x).2 = false) →
  run_server config (replicate k (mv_reader c)) (put_reader c x s) = put_reader c (iter k reader_turn x) s.
Proof.
  revert x. induction k as [|k IH]; intros x Hp; [done|]. cbn [replicate run_server foldl].
  assert (take_move config (mv_reader c) (put_reader c x s) = put_reader c (reader_turn x) s) as ->.
  { unfold take_move. pose proof (Hp 0 ltac:(lia)) as H0. cbn in H0. cbn [hub put_reader]. rewrite H0.
    cbn [server_move]. unfold put_reader at 1. cbn [readers]. rewrite lookup_insert_eq.
    unfold reader_turn. destruct x as [[r|k'] h]; cbn [fst snd]; unfold put_reader; cbn; by rewrite ?insert_insert_eq. }
  apply IH. intros j Hj. apply (Hp (S j)). lia.
Qed.

Lemma run_panicked ms s : panicked (hub s) = true → run_server config ms s = s.
Proof.
  intros Hp. induction ms as [|m ms IH]; [done|]. cbn. unfold take_move. by rewrite Hp.
Qed.

(** A round of the flush up to its first send. *)
Lemma round_to_send c cl e es h :
  conns h !! c = Some cl → cancelled cl = false → client_entries config c (clock (ticks h)) h = e :: es →
  ∃ k, flush_round config c h = (suspended k, h) ∧ ∃ k2, k h = (suspended k2, h) ∧
    ∃ k3, k2 h = (suspended k3, tick h) ∧ ∀ h', (k3 h').2 = (Send c (e_Envelope e) h').2.
Proof.
  intros Hc Hn He. assert (default true (cancelled <$> conns h !! c) = false) as Hg by (rewrite Hc; exact Hn).
  unfold flush_round. rewrite atomic_bind_run. eexists. split; [reflexivity|].
  rewrite at_access_run. cbv beta iota delta [gets]. rewrite Hg. rewrite atomic_bind_run. eexists. split; [reflexivity|].
  rewrite at_access_run. unfold mbind at 1, M_bind at 1, read_clock. cbv beta iota.
  change (client_entries config c (clock (ticks h)) (tick h)) with (client_entries config c (clock (ticks h)) h).
  rewrite He. eexists. split; [reflexivity|]. intros h'. unfold sync.
  destruct (Send c (e_Envelope e) h') as [[[]|err] h2]; reflexivity.
Qed.

(** A client whose reader has failed is taken out by the hub. *)
Lemma client_leaves c r s :
  panicked (hub s) = false → hub_idle s = true → readers s !! c = Some (ended r) →
  let s' := run_server config [mv_read_fails c; mv_unregister c; mv_hub] s in
  hub s' = (remove_client c (hub s)).2 ∧ flushers s' = flushers s.
Proof.
  intros Hp Hidle Hr. destruct s as [h run sig stp pend rds wrs lv fls]. cbn [hub readers] in *.
  unfold hub_idle in *. cbn [hub_run stopped] in Hidle. cbv zeta. unfold run_server. cbn [foldl].
  assert (take_move config (mv_read_fails c) (mkServer h run sig stp pend rds wrs lv fls) =
    mkServer h run sig stp pend (delete c rds) wrs ({[c]} ∪ lv) fls) as ->.
  { unfold take_move. cbn [hub]. rewrite Hp. cbn [server_move readers]. by rewrite Hr. }
  assert (take_move config (mv_unregister c) (mkServer h run sig stp pend (delete c rds) wrs ({[c]} ∪ lv) fls) =
    mkServer h (run_unregister c h).1 sig stp pend (delete c rds) wrs (({[c]} ∪ lv) ∖ {[c]}) fls) as ->.
  { unfold take_move. cbn [hub]. rewrite Hp. cbn [server_move]. unfold hub_idle. cbn [hub_run stopped leaving]. rewrite Hidle.
    by rewrite bool_decide_eq_true_2 by (apply elem_of_union_l, elem_of_singleton_2; done). }
  unfold take_move. cbn [hub]. by rewrite Hp.
Qed.

(** C20. One disconnection can end the relay: the flush of a client checks only between
    its rounds whether the client is still there.  If the client leaves while a
    round has messages to send, the hub closes the client's channel, the flush sends
    on it, and the panic ends the process; nothing moves any more for anybody. *)
Theorem disconnect_stops_relay n c cl r s :
  panicked (hub s) = false → hub_idle s = true →
  readers s !! c = Some (ended r) → flushers s !! n = Some (c, ended (Ok true)) →
  conns (hub s) !! c = Some cl → cancelled cl = false → clients (hub s) !! address cl = Some c →
  client_entries config c (clock (ticks (hub s))) (hub s) ≠ [] →
  let s' := run_server config
    (replicate 3 (mv_flusher n) ++ [mv_read_fails c; mv_unregister c; mv_hub; mv_flusher n]) s in
  panicked (hub s') = true ∧ ∀ ms, run_server config ms s' = s'.
Proof.
  intros Hp Hidle Hr Hf Hc Hn Hcl He s'. assert (panicked (hub s') = true) as Hpan; [|split; [done|intros; by apply run_panicked]].
  unfold s'. rewrite run_server_app. destruct (client_entries _ _ _ _) as [|e es] eqn:Ees; [done|]. clear He.
  destruct (round_to_send c cl e es (hub s) Hc Hn Ees) as (k1 & E1 & k2 & E2 & k3 & E3 & Hk3).
  rewrite <- (put_flusher_same n c _ s Hf) at 1.
  rewrite (flusher_moves 3 n c _ s); [|by eexists|].
  2:{ intros [|[|[|j]]] Hj; cbn [iter flusher_turn fst snd]; unfold flusher_turn; cbn [fst snd]; [done|..|lia].
      - by rewrite E1.
      - rewrite E1. cbn [fst snd]. by rewrite E2. }
  cbn [iter]. unfold flusher_turn at 3. cbn [fst snd]. rewrite E1. unfold flusher_turn at 2. cbn [fst snd]. rewrite E2.
  unfold flusher_turn at 1. cbn [fst snd]. rewrite E3.
  destruct (client_leaves c r (put_flusher n c (suspended k3, tick (hub s)) s) Hp Hidle Hr) as (Eh & Ef).
  change [mv_read_fails c; mv_unregister c; mv_hub; mv_flusher n]
    with ([mv_read_fails c; mv_unregister c; mv_hub] ++ [mv_flusher n]). rewrite run_server_app. set (s1 := run_server config [_; _; _] _) in *. clearbody s1.
  assert (conns (hub s1) !! c = Some (close_and_cancel cl) ∧ panicked (hub s1) = false) as [Hc1 Hp1].
  { rewrite Eh. unfold remove_client, modify. cbn [snd hub put_flusher]. unfold address_of. cbn [conns tick clients].
    rewrite Hc. cbn [fmap option_fmap option_map from_option]. unfold Datatypes.id. rewrite bool_decide_eq_true_2 by exact Hcl.
    cbn. rewrite list_lookup_alter_eq, Hc. done. }
  change (run_server config [mv_flusher n] s1) with (take_move config (mv_flusher n) s1). unfold take_move. rewrite Hp1.
  cbn [server_move]. rewrite Ef. cbn [flushers put_flusher fst]. rewrite list_lookup_insert_eq by (apply lookup_lt_is_Some; by eexists).
  cbn [hub put_flusher]. rewrite Hk3. unfold Send. rewrite Hc1. reflexivity.
Qed.
End races.

Section witnesses.
Import SampleBolt SampleServer.

(** 300 messages wait for [b], and its writer does not get to run: five rounds of
    the flush fill the buffer up to 251, the sixth loses 45 of its 50 messages. *)
Definition full_hub : Hub :=
  hub (run_server sample_config
    (comes 0 addr_b ++ mv_flush :: replicate (102 + 4 * 103) (mv_flusher 0)) (started_server ∅ (waiting 300))).

#[local] Abbreviation sixth_batch := (client_entries sample_config 0 (clock (ticks full_hub)) full_hub).

Lemma flush_loses_overflow_witness :
  (length ∘ send <$> conns full_hub !! 0) = Some 251 ∧ length sixth_batch = 50 ∧
  let '(r, h') := alone Datatypes.id (flush_round sample_config 0) full_hub in
  r = Ok true ∧ (length ∘ send <$> conns h' !! 0) = Some 256 ∧
  ∀ sub e, mq h' !! addr_b = Some sub → e ∈ sixth_batch → items sub !! e_Key e = None.
Proof.
  assert (∃ cl, conns full_hub !! 0 = Some cl ∧ address cl = addr_b ∧ closed cl = false ∧ cancelled cl = false ∧
    length (send cl) = 251) as (cl & Hc & Ha & Ho & Hn & Hl).
  { eexists. split; [vm_compute; reflexivity|]. by vm_compute. }
  assert (length sixth_batch = 50) as Hb by (vm_compute; reflexivity).
  split; [rewrite Hc; cbn; by rewrite Hl|]. split; [exact Hb|].
  assert (sixth_batch ≠ []) as Hne by (intros E; apply (f_equal length) in E; rewrite Hb in E; discriminate E).
  pose proof (flush_loses_overflow sample_config 0 cl full_hub Hc Ho Hn) as H. cbv zeta in H. specialize (H Hne).
  destruct (alone _ _ _) as [r h']. destruct H as (-> & Hc' & Hq). split; [reflexivity|]. split.
  - rewrite Hc'. cbn [fmap option_fmap option_map compose send put_send]. f_equal. unfold compose. cbn [send put_send].
    rewrite length_app, length_take, length_fmap, Hb, Hl. reflexivity.
  - by rewrite Ha in Hq.
Defined.

(** 51 messages wait for [b]; the first 50 were handled when its connection breaks. *)
Definition before_break : Server :=
  run_server sample_config (comes 0 addr_b ++ mv_flush :: replicate 102 (mv_flusher 0))
    (started_server ∅ (waiting 51)).

Lemma disconnect_stops_relay_witness :
  panicked (hub before_break) = false ∧
  let s' := run_server sample_config
    (replicate 3 (mv_flusher 0) ++ [mv_read_fails 0; mv_unregister 0; mv_hub; mv_flusher 0]) before_break in
  panicked (hub s') = true ∧ ∀ ms, run_server sample_config ms s' = s'.
Proof.
  assert (∃ cl, conns (hub before_break) !! 0 = Some cl ∧ cancelled cl = false ∧
    clients (hub before_break) !! address cl = Some 0) as (cl & Hc & Hn & Hcl).
  { eexists. split; [vm_compute; reflexivity|]. split; vm_compute; reflexivity. }
  assert (panicked (hub before_break) = false) as Hp by (vm_compute; reflexivity). split; [exact Hp|].
  apply (disconnect_stops_relay sample_config 0 0 cl (Ok tt) before_break Hp); try assumption.
  - vm_compute. reflexivity.
  - vm_compute. reflexivity.
  - vm_compute. reflexivity.
  - intros E. apply (f_equal length) in E. revert E. vm_compute. discriminate.
Defined.
(** A message that comes in between the last reading of the queue and the end of
    the flush is left behind: it stays in the queue of a connected client, with no
    flush to send it, while the messages after it are delivered. *)
Example late_message_stranded :
  let s := run_server sample_config
    (comes 0 addr_b ++ comes 1 addr_a ++ mv_flush :: replicate 7 (mv_flusher 0) ++
     says 1 [Byte.x01; Byte.x02] ++ [mv_flusher 0] ++ says 1 [Byte.x01; Byte.x03])
    (started_server ∅ (waiting 1)) in
  (λ cl, (send cl, flushing cl)) <$> conns (hub s) !! 0 =
    Some ([[Byte.x11]; [Byte.x01]; [Byte.x01; Byte.x03]], false) ∧
  clients (hub s) !! addr_b = Some 0 ∧ to_flush (hub s) = [] ∧
  (is_ended ∘ snd <$> flushers s) = [true] ∧
  (e_Envelope <$> client_entries sample_config 0 (clock (ticks (hub s))) (hub s)) = [[Byte.x01; Byte.x02]].
Proof. vm_compute. done. Qed.

(** What [run_register] reports as pending counts messages that have expired, and
    that the flush will not send. *)
Example status_counts_expired :
  Count addr_b (waiting 3) = 3 ∧ FlushBatch sample_config 20000 addr_b flushBatchSize (waiting 3) = [].
Proof. vm_compute. done. Qed.
End witnesses.
